(* ===== verification/_CoqProject ===== *)
-Q . S2P
Prelude.v
Fuel.v
GoStrings.v
Paths.v
Swagger.v
Tags.v
Serial.v
Values.v
Groups.v
Vars.v
Prog.v
InitLock.v
ControlPlane.v
ControlPlaneSpec.v
ControlPlaneLive.v
Webhook.v
Bootstrap.v
K3sConfig.v
K3sConfigSpec.v
K3sConfigRuns.v
HostSelect.v
Capkk.v
ClusterScope.v
InventoryController.v
InventorySpec.v
InventoryDeletion.v
KKClusterController.v
KKMachineController.v
PlaybookController.v
PlaybookWebhook.v
Tmpl.v
Hostnames.v
Memory.v
YamlNode.v
LiveVars.v
TaskExec.v
BlockExec.v
PlayExec.v
Modules.v
Store.v
Project.v
ProjectSpec.v
LegacyTask.v
LegacyPipeline.v
HostFacts.v
Connector.v
PathExpr.v
Proxy.v
ProxySpec.v
FileStorage.v
Query.v
Net.v
WebManager.v
WebPlaybook.v
WebSchema.v
WebInventory.v
ClusterConfig.v
Managers.v
