(* ===== verification/Prelude.v ===== *)
(** * KubeKey: a verification development

    KubeKey installs and manages Kubernetes clusters.  The repository holds two
    engines and the services around them.  [src/feature] is the current engine:
    Ansible-like playbooks whose plays, roles and blocks run modules on the
    hosts of an inventory, with a store of variables, a local storage of API
    objects and a web API.  [src/cmd/kk] is the earlier installer: pipelines of
    modules of tasks.  Both are written in Go; the web page of the API has one
    script of its own in JavaScript, the rest of the JavaScript is vendored.
    A third part provides clusters to the Cluster API ([src/bootstrap],
    [src/controlplane], [src/controllers]).  This development models the script
    and the core of the Go programs.

    ** How the parts fit together

    A playbook is loaded with everything it refers to ([Project]).  Its executor
    ([PlayExec]) resolves the hosts of each play ([Hostnames],
    [Groups]), cuts them into batches ([Serial]), and runs roles and blocks
    ([BlockExec]); tags decide what runs ([Tags]).  A block with a module
    becomes a task ([TaskExec]): one goroutine per host ([Prog]) evaluates
    conditions ([Tmpl]), connects ([Connector], [HostFacts]), runs the module for every item of the loop and
    registers results in the variable store ([Vars], [LiveVars], [YamlNode]).
    [Proxy] sends a request of the engine's client to the cluster or to a local
    handler by its path ([PathExpr]); [FileStorage] keeps the objects of the
    local ones, [Query]
    answers list requests, [Swagger] is the page of the API, [Net] expands host
    entries.  [LegacyTask] and [LegacyPipeline] are the earlier engine.  The
    machines of a Cluster API cluster get their user data ([Bootstrap]) from the
    bootstrap controller ([K3sConfig]): one of them, which gets hold of
    [InitLock], starts the cluster and the others join it; [ControlPlane] keeps as many control plane machines as are asked for, within
    what [Webhook] accepts.  The current engine also runs as controllers
    ([Capkk], [ClusterScope]): a cluster's hosts become an inventory
    ([KKClusterController]), which is checked and whose hosts are given to
    machines and groups ([InventoryController], [HostSelect]); each machine
    joins and leaves by a playbook ([KKMachineController]), and each playbook
    runs in a pod ([PlaybookController]) as an account that is bound to its role
    ([PlaybookWebhook]); [Managers] chooses the controllers that run.  Or it is
    served to a browser: requests create and delete playbooks that run on
    goroutines of the server ([WebManager], [WebPlaybook]), store its
    configuration ([WebSchema]) and edit and check inventories
    ([WebInventory]).  [ClusterConfig] is what the earlier engine reads: the
    hosts of each role that the tasks of [LegacyPipeline] run on.

    ** Files

    - [Prelude]: errors and results of Go calls, tactics, shared lemmas.
    - [Fuel]: calls that may not return, and that more fuel does not change.
    - [GoStrings]: the functions of [strings] and [strconv] the sources use;
      [int] is 64 bits wide and wraps ([wrap64]).
    - [Paths]: the functions of [path/filepath] the sources use.
    - [Swagger]: [feature/config/swagger-ui/swagger-initializer.js] and the
      routes of [feature/pkg/web/service.go] that serve the page.  The state is
      the page's [window]: its [onload] handler and its [ui].
    - [Tags]: [feature/api/project/v1/taggable.go].
    - [Serial]: [GroupHostBySerial] of [feature/pkg/converter/converter.go].
    - [Values]: Go's [any] as decoded from JSON or YAML.
    - [Groups]: [CombineSlice], [hostsInGroup], [ConvertGroup] of
      [feature/pkg/variable/helper.go].
    - [Vars]: [CombineVariables], [GetAllVariable], [MergeRemoteVariable],
      [MergeResultVariable], [Merge] and [syncSource] of
      [feature/pkg/variable], on values.  The state is [VarValue] (the fields
      of [value]) and what has been written to the source.
    - [Hostnames]: [GetHostnames] of [variable_get.go].
    - [Memory]: a heap of maps and slices; a tree in memory ([repr]).
    - [YamlNode]: [feature/pkg/variable/yaml.go], on the heap.
    - [LiveVars]: the store of [Vars] on the heap, with [DeepCopy],
      [MergeRuntimeVariable] and [MergeHostsRuntimeVariable].  The state is
      [Live]: the references, the heap, the YAML nodes of the playbook, the
      source.
    - [Prog]: programs of atomic steps over one shared store, pools of them
      under a schedule, and what a program may rely on when the others leave the
      part of the store it owns alone ([run_sched_owns]).
    - [InitLock]: [bootstrap/k3s/pkg/locking]; the state is the API server's
      ConfigMaps and Machines.
    - [ControlPlane]: [controlplane/k3s/controllers] and
      [controlplane/k3s/pkg/cluster].  The state is [World]: the machines, their
      infrastructure objects and configurations; [Env] is what the calls of one
      reconciliation answer.  [ControlPlaneSpec] and [ControlPlaneLive]: what it
      guarantees.
    - [Webhook]: [controlplane/k3s/api/v1beta1/k3scontrolplane_webhook.go] and
      [bootstrap/k3s/api/v1beta1/k3sconfig_webhook.go].
    - [Bootstrap]: the user data of a machine ([bootstrap/k3s/pkg/types],
      [pkg/cloudinit]), the names and kinds of the cluster's secrets
      ([src/util/secret]).
    - [K3sConfig]: [k3sconfig_controller.go] of [bootstrap/k3s/controllers] and
      [certificates.go] of [src/util/secret].  The state is [World]: the API
      server's objects; a reconciliation is a [prog] of API calls, and [lift]
      runs the programs of [InitLock] in the part of the world they use.
      [K3sConfigSpec]: what holds under every schedule;
      [K3sConfigRuns]: what one reconciliation does when no call fails.
    - [HostSelect]: [inventory_hostselector.go] of
      [feature/pkg/controllers/infrastructure] and the provider IDs of
      [feature/pkg/const/helper.go].
    - [Capkk], [ClusterScope]: the objects of [feature/api], the client, and
      what the controllers share ([infrastructure/helper.go],
      [controllers/util], [const/env.go]).  The state is [Server], the objects
      and how many calls it has answered, with the object a reconciliation
      changes in memory ([M]); [api] says which calls fail.
    - [InventoryController], [KKClusterController], [KKMachineController],
      [PlaybookController]: the controllers of [infrastructure] and [core], from
      the objects they have read to the object they write back.
      [InventorySpec] and [InventoryDeletion]: what the first of them does to
      machines and groups.
    - [Tmpl]: [IsTmplSyntax], [ParseFunc], [ParseBool], the decoding of [when].
    - [TaskExec]: [feature/pkg/executor/task_executor.go].  The state is
      [World]: variables, counters, the tasks created, and how many client
      calls and goroutine pools there have been.  The class [VarStore] is what
      the executors use of the variable store, [Libraries] and [Engine] what
      they use of the rest of the process.
    - [BlockExec]: [block_executor.go] and [MarshalBlock].
    - [PlayExec]: [role_executor.go], [playbook_executor.go].
    - [Modules]: [feature/pkg/modules], the modules that work on the variables,
      their arguments ([variable/helper.go]) and the registry, against the
      interfaces [VarStore] and [ModuleStore].
    - [Store]: [feature/pkg/variable/source] and [New] of [variable.go]; the
      store of [LiveVars] as an instance of [VarStore] and [ModuleStore], and
      [StoreInvariant] for it: what every merge keeps holds of a whole playbook.
    - [Project]: [feature/pkg/project], the decoding of blocks of
      [feature/api/project/v1/block.go] and [CombineMappingNode]; its result is
      the argument of [Exec_playbook].  [ProjectSpec]: what a loaded project is.
    - [LegacyTask]: [cmd/kk/pkg/core/task], [cmd/kk/pkg/core/ending].
    - [LegacyPipeline]: [cmd/kk/pkg/core/module], [core/pipeline] and the host
      tables of [core/connector/runtime.go], whose slices share their array.
    - [HostFacts]: [helper.go] and [gather_facts.go] of [feature/pkg/connector]: text
      read into maps, and the caches.  The state is [FactState].
    - [Connector]: the constructors of [feature/pkg/connector] and
      [connector.go], the opening of an SSH session and what a host is asked.
    - [PathExpr]: [feature/pkg/proxy/path_expression.go] and the part of [regexp]
      its expressions use.
    - [Proxy]: [router.go], [transport.go], [api_resources.go] and [admit.go] of
      [feature/pkg/proxy] and the storages of [proxy/resources].  The state is
      the list of routers.  [ProxySpec]: the table of the routes.
    - [FileStorage]: [feature/pkg/proxy/internal/file_storage.go], [watcher.go].
    - [Query]: [feature/pkg/web/query].
    - [Net]: [feature/pkg/utils/ip.go] and [cmd/kk/pkg/core/util/ip.go].
    - [PlaybookWebhook]: [core/playbook_webhook.go].  The state is [Rbac]: service
      accounts and bindings; [prog]s of API calls that other admissions
      interleave with.
    - [WebManager]: [feature/pkg/web/handler/executor.go], [web/api] and what of
      [playbook_executor.go] the server sees.  The state is [world]: the objects
      of the API server, playbooks in memory with their addresses, the contexts
      of executions and the map of the manager, files, executions that are to
      start, and whether the process has crashed.  [Env] says which calls fail.
    - [WebPlaybook], [WebSchema], [WebInventory]: [playbook.go], [resources.go]
      and [inventory.go] of [feature/pkg/web/handler], one definition for each
      method.
    - [ClusterConfig]: [cmd/kk/apis/kubekey/v1alpha2], [common/kube_runtime.go]
      and [core/util/ip.go].  The state is the hosts in memory, which groups
      share, and the groups; the result is the [Runtime] of [LegacyPipeline].
    - [Managers]: [feature/pkg/manager/controller_manager.go] and its options.

    ** What the theorems show

    - Execution: a task ends under every schedule, runs at most Retries + 1
      times and is counted once ([Exec_task_spec]); block, rescue and always
      ([Exec_block_sections]); tasks only for hosts the play has, in order, with
      the conditions of every enclosing block ([Exec_blocks_tasks]); the
      recorded status ([Exec_playbook_spec]).
    - Loading: it returns unless files refer to each other in a cycle
      ([MarshalPlaybook_total], [cycles_never_return]); what is loaded
      ([MarshalPlaybook_loaded], [UnmarshalYAML_form]) and from where
      ([search_order], [New_root]).
    - Variables: deep merge and precedence ([CombineVariables_deep],
      [GetAllVariable_precedence]); memory and source agree after every merge
      that works on its copy ([Merge_spec]); the store on the heap refines the
      store of values where nothing nested is updated ([GetAllVariable_refines],
      [Merge_runtime_refines]); and what happens where something is
      ([nested_update_not_written], [add_hostvars_shares],
      [template_evaluated_once]).  A new store ([New_spec]) holds none of what was
      stored before ([stored_variables_lost]); a playbook executed on it runs on
      its hosts only ([playbook_on_store]); what set_fact changes ([set_fact_visible]).
    - Modules: [assert_spec]; what the variables keep, the registered modules
      keep ([registry_keeps]).
    - Connections: what a host says is read back as it was printed
      ([convertBytesToSlice_prints]); facts that are not cached are the host's
      own ([HostInfo_uncached]).
    - Hosts: groups are flattened completely and without duplicates, for every
      order of iteration ([hostsInGroup_correct], [ConvertGroup_total]); names
      ([GetHostnames_spec]); batches ([GroupHostBySerial_partition]); ranges of
      addresses ([ip4_ranges]).
    - Storage and lists: [Create_Get], [Delete_lifecycle], [GetList_all],
      [DefaultList_pages].
    - The proxy: templates match segment by segment
      ([template_matches_segments]), registration keeps what is registered
      ([registerRouter_first_wins]), the most specific route decides
      ([detectDispatcher_most_specific]), every request for a local object
      reaches its handler ([requests_reach_handlers]) and any other one the
      cluster ([other_requests_to_cluster]).
    - The web server: what deleting a playbook stops, under every schedule
      ([stop_reaches_execution]), and what it leaves ([Delete_spec]); schema
      labels ([schema_labels_unique]) and their table ([ListSchema_shows]);
      inventories and the table of their hosts ([completeInventory_spec],
      [hostTable_spec], [patched_hosts_are_pending]); addresses ([ListIP_table]).
    - The installer: the hosts of each role ([runtime_role_hosts]), ranges of
      names end ([getHostsRange_spec]), addresses of services
      ([service_addresses]); one result per live host under every schedule
      ([Execute_results]), retries ([with_retry_spec]), and a pipeline that
      returns nil has failed nowhere ([Start_success]).
    - The init lock: exclusion under every schedule ([Lock_exclusive]) and
      recovery ([abandoned_lock_recovered]).
    - Bootstrap of machines: at most one machine starts a cluster, under every
      schedule and whichever calls fail ([one_machine_initialises]); a machine
      that joins gets the token the first one got ([joiners_share_the_token]).
    - The control plane: one safe change at a time ([reconcile_one_change]),
      convergence ([rollout_converges]), deletion ([reconcileDelete_spec]), and
      which updates are accepted ([ValidateUpdate_spec]).
    - The controllers: groups stay exclusive ([reconcile_groups_exclusive]),
      workers are deleted before the control plane ([reconcileDelete_order]), a
      finalizer goes when the playbooks are gone ([finalizer_released]), a
      playbook gets one pod ([playbook_started]) and stays as it ended
      ([playbook_ended_stays]); which hosts are selected ([RandomSelector_selects]);
      a playbook that is admitted has an account that is bound ([Default_spec]);
      which controllers run ([register_enabled]).
    - The page: [swagger_load_sets_ui].
    - Where the code departs from what it means to do, a theorem states the
      departure: [hostsInGroup_diverges], [GroupHostBySerial_panics],
      [inventory_vars_beat_group_vars], [loop_last_item_decides],
      [ignore_errors_not_inherited], [role_when_not_inherited],
      [panic_recorded_as_success], [sequential_rollback_panics],
      [DeleteHost_duplicates], [continued_list_is_empty],
      [page_overflow_panics], [ip6_roundtrip_iff], [legacy_range_diverges],
      [nil_fields_panic], [variables_given_twice], [Unlock_deletes_new_lock],
      [unready_nodes_unnoticed], [info_not_reported], [other_strategy_panics],
      [empty_object_unnoticed], [result_swallows_template_error],
      [add_hostvars_panics], [debug_text_before_template],
      [setProviderID_one_host], [failure_is_final], [removed_hosts_stay],
      [config_ignored], [failed_delete_blocks], [unknown_paths_answered],
      [facts_of_the_first_host], [private_key_needs_content],
      [last_write_is_body], [deleted_playbook_runs_on],
      [recreated_playbook_runs_on], [missing_inventory_crashes],
      [label_check_races], [Log_streams], [lists_ignore_their_query],
      [PostConfig_forgets], [admissions_lose_subjects], [masters_listed_twice],
      [external_datastore_blocks].

    ** Conventions

    A Go call that returns an error and may panic is a [result]; error texts
    keep the code's wording, without stack traces and quoting.  Iteration over
    a Go map is over a [gmap] where its order cannot be observed and over a list
    in an arbitrary order where it can.  Goroutines that share a store behind a
    lock are programs of atomic steps; theorems hold for every schedule.

    Recursion that does not follow the data takes fuel, and [None] is "still
    running": [hostsInGroup] needs as many nested calls as there are groups;
    the loader one level per nested file ([MarshalPlaybook_total] shows that some
    fuel is enough); [runTaskLoop] two turns more than retries are left; [RunModule] one turn
    for every time [Until] asks for another; the loops of [Net] as many turns as
    the range is long; [combine_any] and [reify] as many levels as the heap has
    cells, and no tree is deeper ([repr_depth]); a range of host names one turn
    more than there are hosts, since it ends at the first name that is none
    ([range_names_spec]).

    Parameters stand for code that is not in the repository or for the outside:
    the template engine, the YAML and JSON libraries, [strconv.ParseFloat], the
    text form of addresses, sorting, label selectors, the encoder of API
    objects, the handlers and stores of the API server library, regular
    expressions other than those of the routes, the libraries of the Cluster API, the answers of the API server, the disk, what a module does on a
    host.

    ** Not modelled

    The modules that work on a host, and how connectors transfer files and run
    commands (input and output); the handlers of
    the API server library behind the proxy and the strategies of its stores;
    the routes of the web API, its static files, the streams of watches, the
    ICMP echo, and the server around the handlers (HTTP); what the
    controllers read before and write after a reconciliation (library calls) and
    what makes them run; the controllers of clusters,
    instances and machines of the Cluster API provider, and the status of its
    control planes; what of the
    secrets' helpers nothing calls; loading the installer's configuration file, its defaults for
    networks, storage, registries and add-ons, and its concrete actions; the
    vendored script bundles.  Of the
    modelled parts: reads from the client's cache that are older than the server,
    cancellation and time limits, progress output and logging,
    errors of the disk other than the named ones, the goroutine modules of the
    installer, which no pipeline uses, and typed maps in the variable store
    other than the one under "groups". *)

From stdpp Require Import gmap strings list relations.

(** ** Errors and results of Go calls

    A Go function that returns [(T, error)] and may also panic is modelled
    with [result T].  [error] keeps the structure the code builds: a message,
    a wrapped error, a join of several errors. *)

Inductive error :=
| Msg (text : string)
| Wrap (text : string) (cause : error)
| Joined (causes : list error).

Inductive result (A : Type) :=
| Ok (a : A)
| Err (e : error)
| Panic (why : string).
Arguments Ok {A} a.
Arguments Err {A} e.
Arguments Panic {A} why.

Definition rbind {A B : Type} (r : result A) (f : A → result B) : result B :=
  match r with
  | Ok a => f a
  | Err e => Err e
  | Panic w => Panic w
  end.

Definition rmap {A B : Type} (f : A → B) (r : result A) : result B :=
  rbind r (λ a, Ok (f a)).

Declare Scope go_scope.
Delimit Scope go_scope with go.

Notation "'let!' x ':=' r 'in' k" := (rbind r (λ x, k))
  (at level 10, x pattern, r at level 100, k at level 200) : go_scope.
Open Scope go_scope.

Definition is_ok {A : Type} (r : result A) : bool :=
  match r with Ok _ => true | _ => false end.

Definition is_panic {A : Type} (r : result A) : bool :=
  match r with Panic _ => true | _ => false end.

(** [errors.Join] drops nil arguments and is nil when all of them are. *)
Definition errors_join (a b : option error) : option error :=
  match a, b with
  | None, None => None
  | Some e, None => Some (Joined [e])
  | None, Some e => Some (Joined [e])
  | Some e1, Some e2 => Some (Joined [e1; e2])
  end.

(** [slices.Contains] on strings. *)
Definition contains (l : list string) (s : string) : bool := bool_decide (s ∈ l).

(** [len(l) > 0] *)
Definition nonempty {A : Type} (l : list A) : bool :=
  match l with [] => false | _ :: _ => true end.

(** ** Automation *)

(** [go_cases] splits on the innermost match of the goal or of a hypothesis
    and cleans up; it is the workhorse of the functional proofs. *)
Ltac go_step :=
  match goal with
  | H : Ok _ = Ok _ |- _ => injection H as H; subst
  | H : Err _ = Err _ |- _ => injection H as H; subst
  | H : Ok _ = Err _ |- _ => discriminate H
  | H : Err _ = Ok _ |- _ => discriminate H
  | H : Panic _ = Ok _ |- _ => discriminate H
  | H : Panic _ = Err _ |- _ => discriminate H
  | H : Some _ = Some _ |- _ => injection H as H; subst
  | H : rbind ?r _ = Ok _ |- _ =>
      let E := fresh "E" in destruct r eqn:E; simpl in H; try discriminate H
  | H : context [match ?x with _ => _ end] |- _ =>
      let E := fresh "E" in destruct x eqn:E; simpl in H; try discriminate H
  | |- context [match ?x with _ => _ end] =>
      let E := fresh "E" in destruct x eqn:E; simpl
  end.
Ltac go_cases := repeat go_step.

(** Boolean hypotheses to propositions. *)
Ltac bools :=
  repeat match goal with
  | H : _ && _ = true |- _ => apply andb_true_iff in H as [? ?]
  | H : _ || _ = false |- _ => apply orb_false_iff in H as [? ?]
  | H : negb _ = true |- _ => apply negb_true_iff in H
  | H : negb _ = false |- _ => apply negb_false_iff in H
  | H : bool_decide _ = true |- _ => apply bool_decide_eq_true in H
  | H : bool_decide _ = false |- _ => apply bool_decide_eq_false in H
  end.

(** A closed decidable proposition, by running its decision procedure. *)
Ltac by_decision := apply (bool_decide_unpack _); vm_compute; exact I.

Create HintDb kk discriminated.

(** ** Results *)

Lemma rbind_ok {A B} (r : result A) (f : A → result B) b :
  rbind r f = Ok b ↔ ∃ a, r = Ok a ∧ f a = Ok b.
Proof. destruct r; simpl; naive_solver. Qed.

Lemma rbind_err {A B} (r : result A) (f : A → result B) e :
  rbind r f = Err e ↔ r = Err e ∨ ∃ a, r = Ok a ∧ f a = Err e.
Proof. destruct r; simpl; naive_solver. Qed.

Lemma errors_join_None a b : errors_join a b = None ↔ a = None ∧ b = None.
Proof. destruct a, b; naive_solver. Qed.

(** ** Strings and membership *)

Lemma contains_true l s : contains l s = true ↔ s ∈ l.
Proof. apply bool_decide_eq_true. Qed.

Lemma contains_false l s : contains l s = false ↔ s ∉ l.
Proof. apply bool_decide_eq_false. Qed.

Lemma contains_spec l s : reflect (s ∈ l) (contains l s).
Proof. apply bool_decide_reflect. Qed.

#[export] Hint Resolve contains_spec : kk.

Inductive NonemptySpec {A} (l : list A) : bool → Prop :=
| Nonempty_true : l ≠ [] → NonemptySpec l true
| Nonempty_false : l = [] → NonemptySpec l false.

Lemma nonempty_spec {A} (l : list A) : NonemptySpec l (nonempty l).
Proof. destruct l; by constructor. Qed.

(** ** Lists *)

(** The lists a fold produces by only ever appending have the start as a
    prefix. *)
Lemma fold_left_prefix {A B} (f : list B → A → list B) (l : list A) acc :
  (∀ acc x, acc `prefix_of` f acc x) → acc `prefix_of` fold_left f l acc.
Proof.
  intros Hf. revert acc. induction l as [|x l IH]; intros acc; simpl; [done|].
  etrans; [apply Hf|apply IH].
Qed.

Lemma fold_left_invariant {A B} (P : B → Prop) (f : B → A → B) (l : list A) b :
  P b → (∀ b x, x ∈ l → P b → P (f b x)) → P (fold_left f l b).
Proof.
  revert b. induction l as [|x l IH]; intros b Hb Hf; simpl; [done|].
  apply IH; [apply Hf; [left|done]|]. intros b' y Hy. apply Hf. by right.
Qed.
