(* ===== verification/Fuel.v ===== *)
(** * Calls that may not return

    The recursion of the loader follows files, not data.  A call is a function
    of the fuel it gets: [None] is a call that has not returned with it.  More
    fuel never changes what a call has returned ([mono]), and a call that
    returns for some fuel is [total]. *)

From stdpp Require Import strings list.
From S2P Require Import Prelude.

Definition load (A : Type) : Type := option (result A).

Definition lret {A} (a : A) : load A := Some (Ok a).
Definition lfail {A} (e : error) : load A := Some (Err e).
Definition lbind {A B} (m : load A) (k : A → load B) : load B :=
  match m with
  | None => None
  | Some (Ok a) => k a
  | Some (Err e) => Some (Err e)
  | Some (Panic w) => Some (Panic w)
  end.
Notation "'let?' x ':=' m 'in' k" := (lbind m (λ x, k))
  (at level 10, x pattern, m at level 100, k at level 200) : go_scope.

Fixpoint lmap {A B} (f : A → load B) (l : list A) : load (list B) :=
  match l with
  | [] => lret []
  | a :: l' => let? b := f a in let? bs := lmap f l' in lret (b :: bs)
  end.

(** A wrapped error. *)
Definition lwrap {A} (what : string) (m : load A) : load A :=
  match m with Some (Err e) => Some (Err (Wrap what e)) | _ => m end.

(** ** Results *)

Lemma lbind_ok {A B} (m : load A) (k : A → load B) b :
  lbind m k = Some (Ok b) ↔ ∃ a, m = Some (Ok a) ∧ k a = Some (Ok b).
Proof. destruct m as [[a|e|w]|]; simpl; naive_solver. Qed.

Lemma lret_ok {A} (a b : A) : lret a = Some (Ok b) ↔ a = b.
Proof. unfold lret. naive_solver. Qed.

Lemma lwrap_ok {A} what (m : load A) a : lwrap what m = Some (Ok a) ↔ m = Some (Ok a).
Proof. destruct m as [[b|e|w]|]; simpl; naive_solver. Qed.

Lemma lwrap_None {A} what (m : load A) : lwrap what m = None ↔ m = None.
Proof. destruct m as [[b|e|w]|]; simpl; naive_solver. Qed.

Lemma lmap_ok {A B} (f : A → load B) l bs :
  lmap f l = Some (Ok bs) ↔ Forall2 (λ a b, f a = Some (Ok b)) l bs.
Proof.
  revert bs. induction l as [|a l IH]; intros bs; simpl.
  - rewrite lret_ok. split; [intros <-; constructor|]. by inversion 1.
  - rewrite lbind_ok. split.
    + intros (b & Hb & H). apply lbind_ok in H as (bs' & H & Hr). apply lret_ok in Hr as <-.
      constructor; [done|]. by apply IH.
    + inversion 1 as [|? b ? bs' Hb Hl]; subst. exists b. split; [done|].
      apply lbind_ok. exists bs'. split; [by apply IH|done].
Qed.

Lemma lmap_None_head {A B} (f : A → load B) a l : f a = None → lmap f (a :: l) = None.
Proof. intros H. simpl. by rewrite H. Qed.

(** A property of every result of a map. *)
Lemma lmap_Forall {A B} (P : A → B → Prop) (f : A → load B) l bs :
  lmap f l = Some (Ok bs) → Forall (λ a, ∀ b, f a = Some (Ok b) → P a b) l → Forall2 P l bs.
Proof.
  rewrite lmap_ok. intros H HP. induction H; constructor; apply Forall_cons in HP as [? ?]; auto.
Qed.

(** ** Fuel *)

Definition lle {A} (a b : load A) : Prop := a = None ∨ a = b.
Definition mono {A} (f : nat → load A) : Prop := ∀ n m, n ≤ m → lle (f n) (f m).
Definition total {A} (f : nat → load A) : Prop := ∃ n, f n ≠ None.

Lemma lle_refl {A} (a : load A) : lle a a.
Proof. by right. Qed.

Lemma lle_bind {A B} (m m' : load A) (k k' : A → load B) :
  lle m m' → (∀ a, lle (k a) (k' a)) → lle (lbind m k) (lbind m' k').
Proof. intros [->| ->] Hk; [by left|]. destruct m' as [[a|e|w]|]; simpl; [apply Hk|by right..]. Qed.

Lemma lle_map {A B} (f f' : A → load B) l : (∀ a, a ∈ l → lle (f a) (f' a)) → lle (lmap f l) (lmap f' l).
Proof.
  induction l as [|a l IH]; intros H; [apply lle_refl|]. simpl. apply lle_bind; [apply H; left|].
  intros b. apply lle_bind; [|intros; apply lle_refl]. apply IH. intros a' Ha. apply H. by right.
Qed.

Lemma lle_wrap {A} what (m m' : load A) : lle m m' → lle (lwrap what m) (lwrap what m').
Proof. intros [->| ->]; [by left|by right]. Qed.

Lemma mono_Some {A} (f : nat → load A) n m r : mono f → n ≤ m → f n = Some r → f m = Some r.
Proof. intros H Hn E. destruct (H n m Hn) as [E'|E']; congruence. Qed.

Lemma mono_agree {A} (f : nat → load A) n m r r' : mono f → f n = Some r → f m = Some r' → r = r'.
Proof.
  intros H Hn Hm. destruct (Nat.le_ge_cases n m) as [Hle|Hle].
  - pose proof (mono_Some f n m r H Hle Hn). congruence.
  - pose proof (mono_Some f m n r' H Hle Hm). congruence.
Qed.

Lemma mono_const {A} (m : load A) : mono (λ _, m).
Proof. intros ???. apply lle_refl. Qed.

Lemma mono_bind {A B} (f : nat → load A) (k : nat → A → load B) :
  mono f → (∀ a, mono (λ n, k n a)) → mono (λ n, lbind (f n) (k n)).
Proof. intros Hf Hk n m Hn. apply lle_bind; [by apply Hf|]. intros a. by apply Hk. Qed.

Lemma mono_map {A B} (f : nat → A → load B) l : (∀ a, a ∈ l → mono (λ n, f n a)) → mono (λ n, lmap (f n) l).
Proof. intros Hf n m Hn. apply lle_map. intros a Ha. by apply Hf. Qed.

Lemma mono_wrap {A} what (f : nat → load A) : mono f → mono (λ n, lwrap what (f n)).
Proof. intros Hf n m Hn. apply lle_wrap. by apply Hf. Qed.

(** One level of fuel. *)
Lemma mono_S {A} (f : nat → load A) : f 0 = None → mono (λ n, f (S n)) → mono f.
Proof. intros H0 HS [|n] [|m] Hn; [by right|by left|lia|]. apply HS. lia. Qed.

Lemma total_S {A} (f : nat → load A) : total (λ n, f (S n)) → total f.
Proof. intros [n Hn]. by exists (S n). Qed.

Lemma total_const {A} (r : result A) : total (λ _, Some r).
Proof. by exists 0. Qed.

Lemma total_bind {A B} (f : nat → load A) (k : nat → A → load B) :
  mono f → (∀ a, mono (λ n, k n a)) → total f → (∀ a n, f n = Some (Ok a) → total (λ n, k n a)) →
  total (λ n, lbind (f n) (k n)).
Proof.
  intros Hf Hk [n Hn] HT. destruct (f n) as [[a|e|w]|] eqn:E; [| | |done].
  - destruct (HT a n E) as [m Hm]. exists (n `max` m).
    rewrite (mono_Some f n _ (Ok a) Hf (Nat.le_max_l _ _) E). simpl.
    destruct (k m a) as [r|] eqn:Em; [|done].
    by rewrite (mono_Some _ m _ r (Hk a) (Nat.le_max_r n m) Em).
  - exists n. by rewrite E.
  - exists n. by rewrite E.
Qed.

Lemma total_map {A B} (f : nat → A → load B) l :
  (∀ a, a ∈ l → mono (λ n, f n a)) → (∀ a, a ∈ l → total (λ n, f n a)) → total (λ n, lmap (f n) l).
Proof.
  induction l as [|a l IH]; intros HM HT; [apply total_const|]. simpl.
  apply (total_bind (λ n, f n a)); [apply HM; left| |apply HT; left|].
  - intros b. apply (mono_bind (λ n, lmap (f n) l)); [|intros; apply mono_const].
    apply mono_map. intros a' Ha. apply HM. by right.
  - intros b _ _. apply (total_bind (λ n, lmap (f n) l)).
    + apply mono_map. intros a' Ha. apply HM. by right.
    + intros. apply mono_const.
    + apply IH; intros a' Ha; [apply HM|apply HT]; by right.
    + intros. apply total_const.
Qed.

Lemma total_wrap {A} what (f : nat → load A) : total f → total (λ n, lwrap what (f n)).
Proof. intros [n Hn]. exists n. by rewrite lwrap_None. Qed.

#[export] Hint Resolve lle_refl mono_const mono_bind mono_map mono_wrap total_const total_wrap : kk.
