(* ===== verification/GoStrings.v ===== *)
(** * Go's [strings] package, the part the sources use

    Go strings are byte strings; they are modelled by [string], whose
    characters are the 256 bytes.  Each function below is the library function
    of the same name restricted to the arguments the sources pass. *)

From S2P Require Import Prelude.
From stdpp Require Import strings list sets.
From Stdlib Require Import Ascii String.

#[local] Arguments String.append !_ _ /.

(** [strings.HasPrefix(s, p)] *)
Fixpoint HasPrefix (s p : string) {struct p} : bool :=
  match p, s with
  | EmptyString, _ => true
  | String a p', String b s' => bool_decide (a = b) && HasPrefix s' p'
  | String _ _, EmptyString => false
  end.

(** [strings.Contains(s, sub)] *)
Fixpoint Contains (s sub : string) : bool :=
  HasPrefix s sub ||
  match s with
  | EmptyString => false
  | String _ s' => Contains s' sub
  end.

Fixpoint str_rev_app (s acc : string) : string :=
  match s with
  | EmptyString => acc
  | String a s' => str_rev_app s' (String a acc)
  end.
Definition str_rev (s : string) : string := str_rev_app s EmptyString.

(** [strings.HasSuffix(s, p)] *)
Definition HasSuffix (s p : string) : bool := HasPrefix (str_rev s) (str_rev p).

(** [strings.TrimPrefix(s, p)] *)
Definition TrimPrefix (s p : string) : string :=
  if HasPrefix s p then substring (String.length p) (String.length s - String.length p) s else s.

(** [strings.TrimLeft(s, cutset)] for a one-byte cutset. *)
Fixpoint TrimLeft (s : string) (c : ascii) : string :=
  match s with
  | String a s' => if bool_decide (a = c) then TrimLeft s' c else s
  | EmptyString => EmptyString
  end.

(** [strings.TrimSuffix(s, suffix)] *)
Definition TrimSuffix (s suffix : string) : string := str_rev (TrimPrefix (str_rev s) (str_rev suffix)).

(** [strings.TrimRight(s, cutset)] for a one-byte cutset. *)
Definition TrimRight (s : string) (c : ascii) : string := str_rev (TrimLeft (str_rev s) c).

(** [strings.Split(s, sep)] for a one-byte separator: always at least one
    piece, and the pieces never contain the separator. *)
Fixpoint Split (s : string) (c : ascii) : list string :=
  match s with
  | EmptyString => [EmptyString]
  | String a s' =>
      if bool_decide (a = c) then EmptyString :: Split s' c
      else match Split s' c with
           | piece :: rest => String a piece :: rest
           | [] => [String a EmptyString]
           end
  end.

(** [strings.Join(l, sep)] *)
Fixpoint StrJoin (l : list string) (sep : string) : string :=
  match l with
  | [] => EmptyString
  | [s] => s
  | s :: l' => s +:+ sep +:+ StrJoin l' sep
  end.

(** [strings.Replace]-free helpers for paths: [filepath.Join] of two cleaned
    path components. *)
Definition path_join (dir name : string) : string := dir +:+ "/" +:+ name.

(** ** Machine integers and [strconv.Atoi]

    Go's [int] is 64 bits wide on the platforms KubeKey is built for. *)

Definition min_int : Z := - 2 ^ 63.
Definition max_int : Z := 2 ^ 63 - 1.

(** Two's-complement wrap-around of an [int] operation. *)
Definition wrap64 (z : Z) : Z := (z + 2 ^ 63) `mod` 2 ^ 64 - 2 ^ 63.

Definition digit (a : ascii) : option Z :=
  let n := Z.of_nat (nat_of_ascii a) in
  if bool_decide (48 ≤ n ≤ 57)%Z then Some (n - 48)%Z else None.

Fixpoint parse_digits (s : string) (acc : Z) : option Z :=
  match s with
  | EmptyString => Some acc
  | String a s' => match digit a with
                   | Some d => parse_digits s' (10 * acc + d)%Z
                   | None => None
                   end
  end.

Definition parse_unsigned (s : string) : option Z :=
  match s with EmptyString => None | _ => parse_digits s 0 end.

Definition Atoi (s : string) : option Z :=
  let parsed :=
    match s with
    | String "-" s' => Z.opp <$> parse_unsigned s'
    | String "+" s' => parse_unsigned s'
    | _ => parse_unsigned s
    end in
  match parsed with
  | Some z => if bool_decide (min_int ≤ z ≤ max_int)%Z then Some z else None
  | None => None
  end.

(** [strconv.ParseUint(s, 10, 64)] with the error ignored: 0 for a syntax
    error, the largest value as soon as the number leaves its range. *)
Fixpoint uint_value (s : string) (acc : Z) : Z :=
  match s with
  | EmptyString => acc
  | String a s' => match digit a with
                   | Some d => if bool_decide (2 ^ 64 ≤ 10 * acc + d)%Z then (2 ^ 64 - 1)%Z
                               else uint_value s' (10 * acc + d)%Z
                   | None => 0%Z
                   end
  end.

(** The first result of [strconv.Atoi(s)], where the source ignores the error. *)
Definition Atoi_value (s : string) : Z :=
  match s with
  | String "-" s' => Z.max (- uint_value s' 0) min_int
  | String "+" s' => Z.min (uint_value s' 0) max_int
  | _ => Z.min (uint_value s 0) max_int
  end.

(** [unicode.IsSpace] of a byte, and [strings.TrimSpace] of ASCII text. *)
Definition is_space (a : ascii) : bool :=
  let n := nat_of_ascii a in (9 <=? n)%nat && (n <=? 13)%nat || (n =? 32)%nat.

Fixpoint trim_space_left (s : string) : string :=
  match s with
  | String a s' => if is_space a then trim_space_left s' else s
  | EmptyString => EmptyString
  end.

Definition TrimSpace (s : string) : string :=
  str_rev (trim_space_left (str_rev (trim_space_left s))).

(** Text without a given byte. *)
Fixpoint lacks (c : ascii) (s : string) : bool :=
  match s with EmptyString => true | String a s' => negb (bool_decide (a = c)) && lacks c s' end.

(** ** Lemmas *)

Lemma wrap64_small z : (min_int ≤ z ≤ max_int)%Z → wrap64 z = z.
Proof.
  unfold wrap64, min_int, max_int. intros H. rewrite Z.mod_small; lia.
Qed.

Lemma wrap64_range z : (min_int ≤ wrap64 z ≤ max_int)%Z.
Proof.
  unfold wrap64, min_int, max_int.
  pose proof (Z.mod_pos_bound (z + 2 ^ 63) (2 ^ 64)). lia.
Qed.

Lemma parse_digits_nonneg s acc z : (0 ≤ acc)%Z → parse_digits s acc = Some z → (0 ≤ z)%Z.
Proof.
  revert acc. induction s as [|a s IH]; simpl; intros acc Ha H; [by simplify_eq|].
  unfold digit in H. case_bool_decide; [|done]. eapply IH, H. lia.
Qed.

Lemma HasPrefix_app p s : HasPrefix (p +:+ s) p = true.
Proof. induction p as [|a p IH]; simpl; [by destruct s|]. rewrite bool_decide_true by done. apply IH. Qed.

Lemma HasPrefix_spec s p : HasPrefix s p = true ↔ ∃ t, s = p +:+ t.
Proof.
  split; [|intros [t ->]; apply HasPrefix_app].
  revert s. induction p as [|a p IH]; intros s H; simpl in *; [by exists s|].
  destruct s as [|b s]; [done|]. bools. subst. destruct (IH s) as [t ->]; [done|].
  by exists t.
Qed.

Lemma TrimPrefix_app p t : TrimPrefix (p +:+ t) p = t.
Proof.
  unfold TrimPrefix. rewrite HasPrefix_app. induction p as [|c p IH]; [|exact IH].
  simpl. rewrite Nat.sub_0_r. induction t as [|c t IH]; [done|]. simpl. by rewrite IH.
Qed.

Lemma Split_nonempty s c : Split s c ≠ [].
Proof. destruct s as [|a s]; simpl; [done|]. case_bool_decide; [done|]. by destruct (Split s c). Qed.

Lemma Split_Join s c : StrJoin (Split s c) (String c EmptyString) = s.
Proof.
  induction s as [|a s IH]; simpl; [done|].
  pose proof (Split_nonempty s c) as Hne.
  case_bool_decide; subst.
  - destruct (Split s c) as [|piece rest] eqn:E; [done|]. simpl in *. by rewrite IH.
  - destruct (Split s c) as [|piece rest] eqn:E; [done|].
    destruct rest; simpl in *; by rewrite <- IH.
Qed.

Lemma str_app_nil_r (s : string) : s +:+ EmptyString = s.
Proof. induction s as [|a s IH]; simpl; [done|]. by rewrite IH. Qed.

Lemma str_app_assoc (a b c : string) : (a +:+ b) +:+ c = a +:+ (b +:+ c).
Proof. induction a as [|x a IH]; simpl; [done|]. by rewrite IH. Qed.

Lemma str_app_inj_l (a b c : string) : a +:+ b = a +:+ c → b = c.
Proof. induction a as [|x a IH]; simpl; [done|]. intros [= H]. auto. Qed.

Lemma str_rev_app_spec s acc : str_rev_app s acc = str_rev s +:+ acc.
Proof.
  unfold str_rev. revert acc. induction s as [|a s IH]; intros acc; simpl; [done|].
  rewrite IH, (IH (String a EmptyString)), str_app_assoc. done.
Qed.

Lemma str_rev_cons a s : str_rev (String a s) = str_rev s +:+ String a EmptyString.
Proof. unfold str_rev at 1. simpl. apply str_rev_app_spec. Qed.

Lemma str_rev_app_distr s t : str_rev (s +:+ t) = str_rev t +:+ str_rev s.
Proof.
  induction s as [|a s IH]; simpl; [by rewrite str_app_nil_r|].
  rewrite !str_rev_cons, IH, str_app_assoc. done.
Qed.

Lemma str_rev_involutive s : str_rev (str_rev s) = s.
Proof.
  induction s as [|a s IH]; [done|]. by rewrite str_rev_cons, str_rev_app_distr, IH.
Qed.

Lemma HasSuffix_spec s p : HasSuffix s p = true ↔ ∃ t, s = t +:+ p.
Proof.
  unfold HasSuffix. rewrite HasPrefix_spec. split.
  - intros [t Ht]. exists (str_rev t).
    rewrite <- (str_rev_involutive s), Ht, str_rev_app_distr, str_rev_involutive. done.
  - intros [t ->]. exists (str_rev t). apply str_rev_app_distr.
Qed.

Lemma HasSuffix_app s p : HasSuffix (s +:+ p) p = true.
Proof. apply HasSuffix_spec. eauto. Qed.

Lemma TrimSuffix_app s suffix : TrimSuffix (s +:+ suffix) suffix = s.
Proof. unfold TrimSuffix. rewrite str_rev_app_distr, TrimPrefix_app. apply str_rev_involutive. Qed.

Lemma lacks_app c s t : lacks c (s +:+ t) = lacks c s && lacks c t.
Proof. induction s as [|a s IH]; [done|]. simpl. by rewrite IH, andb_assoc. Qed.

Lemma Split_terminated_line c l s : lacks c l = true → Split (l +:+ String c s) c = l :: Split s c.
Proof.
  induction l as [|a l IH]; simpl; [by rewrite bool_decide_true|]. intros H. bools.
  rewrite bool_decide_false by done. by rewrite IH.
Qed.

Lemma Split_lacking c s : lacks c s = true → Split s c = [s].
Proof. induction s as [|a s IH]; simpl; [done|]. intros H. bools. rewrite bool_decide_false by done. by rewrite IH. Qed.

Lemma Split_lacks c s : Forall (λ l, lacks c l = true) (Split s c).
Proof.
  induction s as [|a s IH]; simpl; [by repeat constructor|]. case_bool_decide as Ha; [by constructor|].
  destruct (Split s c) as [|l ls]; apply Forall_cons in IH || idtac; [repeat constructor; simpl; by rewrite bool_decide_false|].
  destruct IH as [Hl Hls]. constructor; [|done]. simpl. by rewrite bool_decide_false.
Qed.
