(* ===== verification/Paths.v ===== *)
(** * Go's [path/filepath], the part the sources use, on Unix

    A path is cut at its slashes; [Clean] rewrites the list of its elements.
    A path in normal form is [path_of rooted l] for elements that are neither
    empty nor ["."] nor [".."], and the lemmas compute [Clean], [Dir], [Join]
    and [Rel] on these. *)

From stdpp Require Import strings list.
From S2P Require Import Prelude GoStrings.
From Stdlib Require Import Ascii String.

Definition slash : ascii := "/"%char.

(** One element against those kept so far, the last one first. *)
Definition clean_step (rooted : bool) (acc : list string) (c : string) : list string :=
  if bool_decide (c = "" ∨ c = ".") then acc
  else if bool_decide (c = "..") then
    match acc with
    | [] => if rooted then [] else [".."]
    | top :: acc' => if bool_decide (top = "..") then ".." :: acc else acc'
    end
  else c :: acc.

Definition path_of (rooted : bool) (l : list string) : string :=
  if rooted then "/" +:+ StrJoin l "/"
  else match l with [] => "." | _ => StrJoin l "/" end.

(** [filepath.IsAbs] *)
Definition IsAbs (path : string) : bool := HasPrefix path "/".

(** [filepath.Clean] *)
Definition Clean (path : string) : string :=
  if bool_decide (path = "") then "."
  else path_of (IsAbs path) (rev (fold_left (clean_step (IsAbs path)) (Split path slash) [])).

(** [filepath.Join]: empty elements at the front are dropped. *)
Fixpoint Join (elem : list string) : string :=
  match elem with
  | [] => ""
  | e :: rest => if bool_decide (e = "") then Join rest else Clean (StrJoin elem "/")
  end.

(** [filepath.Dir]: what is left of the last slash, cleaned. *)
Definition Dir (path : string) : string :=
  Clean (match Split path slash with
         | [] | [_] => ""
         | l => StrJoin (removelast l) "/" +:+ "/"
         end).

(** [filepath.Base] *)
Definition Base (path : string) : string :=
  if bool_decide (path = "") then "."
  else let name := List.last (Split (TrimRight path slash) slash) "" in
       if bool_decide (name = "") then "/" else name.

(** The elements of a cleaned path. *)
Definition elements (path : string) : list string :=
  filter (λ c, c ≠ "") (Split path slash).

(** The elements after the common ones. *)
Fixpoint strip_common (base targ : list string) : list string * list string :=
  match base, targ with
  | b :: base', t :: targ' => if bool_decide (b = t) then strip_common base' targ' else (base, targ)
  | _, _ => (base, targ)
  end.

(** [filepath.Rel] *)
Definition Rel (basepath targpath : string) : result string :=
  let base := Clean basepath in
  let targ := Clean targpath in
  if bool_decide (targ = base) then Ok "."
  else
    let base := if bool_decide (base = ".") then "" else base in
    let failed := Err (Msg ("Rel: can't make " +:+ targpath +:+ " relative to " +:+ basepath)) in
    if negb (Bool.eqb (IsAbs base) (IsAbs targ)) then failed
    else
      match strip_common (elements base) (elements targ) with
      | ([], t) => Ok (StrJoin t "/")
      | (b :: base', t) =>
          if bool_decide (b = "..") then failed
          else Ok (StrJoin (map (λ _, "..") (b :: base') ++ t) "/")
      end.

(** ** Normal forms *)

Fixpoint no_slash (s : string) : bool :=
  match s with
  | EmptyString => true
  | String a s' => negb (bool_decide (a = slash)) && no_slash s'
  end.

(** An element that [Clean] keeps. *)
Definition normal (c : string) : Prop := c ≠ "" ∧ c ≠ "." ∧ c ≠ ".." ∧ no_slash c = true.

#[export] Instance normal_dec c : Decision (normal c).
Proof. unfold normal. apply _. Defined.

Lemma normal_no_slash l : Forall normal l → Forall (λ c, no_slash c = true) l.
Proof. intros H. eapply list.Forall_impl; [exact H|]. by intros c (_ & _ & _ & ?). Qed.

Lemma Split_no_slash c : no_slash c = true → Split c slash = [c].
Proof.
  induction c as [|a c IH]; simpl; [done|]. intros H. bools.
  rewrite bool_decide_eq_false_2 by done. by rewrite IH.
Qed.

Lemma Split_slash a s : Split (a +:+ "/" +:+ s) slash = Split a slash ++ Split s slash.
Proof.
  induction a as [|c a IH]; simpl; [done|]. rewrite IH. case_bool_decide; [done|].
  pose proof (Split_nonempty a slash). by destruct (Split a slash).
Qed.

Lemma Split_StrJoin l : Forall (λ c, no_slash c = true) l → l ≠ [] → Split (StrJoin l "/") slash = l.
Proof.
  induction 1 as [|c l Hc Hl IH]; [done|]. intros _. destruct l as [|d l]; [by apply Split_no_slash|].
  change (StrJoin (c :: d :: l) "/") with (c +:+ "/" +:+ StrJoin (d :: l) "/").
  rewrite Split_slash, (Split_no_slash c) by done. simpl. f_equal. by apply IH.
Qed.

Lemma StrJoin_app l1 l2 :
  l1 ≠ [] → l2 ≠ [] → StrJoin (l1 ++ l2) "/" = StrJoin l1 "/" +:+ "/" +:+ StrJoin l2 "/".
Proof.
  induction l1 as [|c l1 IH]; [done|]. intros _ H2. destruct l1 as [|d l1].
  - simpl. by destruct l2.
  - change ((c :: d :: l1) ++ l2) with (c :: d :: (l1 ++ l2)).
    change (StrJoin (c :: d :: (l1 ++ l2)) "/") with (c +:+ "/" +:+ StrJoin ((d :: l1) ++ l2) "/").
    rewrite IH by done. change (StrJoin (c :: d :: l1) "/") with (c +:+ "/" +:+ StrJoin (d :: l1) "/").
    by rewrite !str_app_assoc.
Qed.

Lemma clean_normal rooted l acc : Forall normal l → fold_left (clean_step rooted) l acc = rev l ++ acc.
Proof.
  intros H. revert acc. induction H as [|c l (H1 & H2 & H3 & _) Hl IH]; intros acc; [done|].
  cbn [fold_left rev]. rewrite IH, <- app_assoc. f_equal. unfold clean_step.
  rewrite bool_decide_eq_false_2 by tauto. by rewrite bool_decide_eq_false_2.
Qed.

Lemma IsAbs_StrJoin l : Forall normal l → l ≠ [] → IsAbs (StrJoin l "/") = false.
Proof.
  intros H Hne. destruct H as [|c l (H1 & _ & _ & H4) _]; [done|]. destruct c as [|a c]; [done|].
  simpl in H4. bools. unfold IsAbs. destruct l; simpl; rewrite bool_decide_eq_false_2; done || (intros E; by rewrite E in *).
Qed.

Lemma path_of_nonempty rooted l : Forall normal l → path_of rooted l ≠ "".
Proof.
  intros H. destruct rooted; [done|]. destruct H as [|c l [H1 _] _]; [done|].
  destruct c; [done|]. by destruct l.
Qed.

Lemma IsAbs_path_of rooted l : Forall normal l → IsAbs (path_of rooted l) = rooted.
Proof. intros H. destruct rooted; [done|]. destruct l; [done|]. by apply IsAbs_StrJoin. Qed.

(** What cleaning does after the elements of a normal form. *)
Lemma clean_path_of rooted l acc :
  Forall normal l → fold_left (clean_step rooted) (Split (path_of rooted l) slash) acc = rev l ++ acc.
Proof.
  intros H. destruct rooted.
  - destruct l as [|c l]; [done|]. unfold path_of.
    change (Split ("/" +:+ StrJoin (c :: l) "/") slash) with ("" :: Split (StrJoin (c :: l) "/") slash).
    rewrite Split_StrJoin by (done || by apply normal_no_slash). rewrite <- (clean_normal true) by done. reflexivity.
  - destruct l as [|c l]; [done|]. unfold path_of.
    rewrite Split_StrJoin by (done || by apply normal_no_slash). by apply clean_normal.
Qed.

Lemma Clean_path_of rooted l : Forall normal l → Clean (path_of rooted l) = path_of rooted l.
Proof.
  intros H. unfold Clean. rewrite bool_decide_eq_false_2 by (by apply path_of_nonempty).
  rewrite IsAbs_path_of, clean_path_of by done. by rewrite app_nil_r, rev_involutive.
Qed.

Lemma IsAbs_app a s : a ≠ "" → IsAbs (a +:+ s) = IsAbs a.
Proof. destruct a as [|c a]; [done|]. intros _. unfold IsAbs. simpl. by destruct (bool_decide _), a, s. Qed.

(** Joining to a normal form continues its cleaning. *)
Lemma Clean_under rooted l s :
  Forall normal l →
  Clean (path_of rooted l +:+ "/" +:+ s) =
  path_of rooted (rev (fold_left (clean_step rooted) (Split s slash) (rev l))).
Proof.
  intros H. unfold Clean. pose proof (path_of_nonempty rooted l H) as Hne.
  rewrite bool_decide_eq_false_2.
  { rewrite IsAbs_app, IsAbs_path_of, Split_slash, fold_left_app, clean_path_of by done. by rewrite app_nil_r. }
  by destruct (path_of rooted l).
Qed.

Lemma Join_path_of rooted l s :
  Forall normal l →
  Join [path_of rooted l; s] = path_of rooted (rev (fold_left (clean_step rooted) (Split s slash) (rev l))).
Proof.
  intros H. rewrite <- Clean_under by done. cbn [Join].
  by rewrite bool_decide_eq_false_2 by (by apply path_of_nonempty).
Qed.

(** Below a normal form, a relative normal form is appended. *)
Lemma Join_under rooted l l' :
  Forall normal l → Forall normal l' → Join [path_of rooted l; path_of false l'] = path_of rooted (l ++ l').
Proof.
  intros H H'. rewrite Join_path_of by done. f_equal.
  assert (∀ acc, fold_left (clean_step rooted) (Split (path_of false l') slash) acc = rev l' ++ acc) as ->.
  { intros acc. destruct l' as [|c l']; [done|]. unfold path_of.
    rewrite Split_StrJoin by (done || by apply normal_no_slash). by apply clean_normal. }
  by rewrite rev_app_distr, !rev_involutive.
Qed.

Lemma Dir_slash a f : no_slash f = true → Dir (a +:+ "/" +:+ f) = Clean (a +:+ "/").
Proof.
  intros Hf. unfold Dir. rewrite Split_slash, (Split_no_slash f) by done.
  pose proof (Split_Join a slash) as Ha. pose proof (Split_nonempty a slash) as Hne.
  destruct (Split a slash) as [|x la] eqn:E; [done|].
  change (String slash "") with "/" in Ha. pose proof (removelast_last (x :: la) f) as Hr.
  simpl app in *. destruct (la ++ [f]) eqn:E2; [by destruct la|]. by rewrite Hr, Ha.
Qed.

Lemma Dir_path_of rooted l c :
  Forall normal l → normal c → Dir (path_of rooted (l ++ [c])) = path_of rooted l.
Proof.
  intros H (H1 & _ & _ & H4). destruct l as [|d l].
  - destruct rooted; [|unfold Dir, path_of; simpl; by rewrite Split_no_slash].
    unfold Dir, path_of. simpl. by rewrite Split_no_slash.
  - transitivity (Clean (path_of rooted (d :: l) +:+ "/" +:+ "")); [|rewrite Clean_under by done; f_equal; exact (rev_involutive (d :: l))].
    rewrite <- (Dir_slash _ c H4). f_equal. unfold path_of. destruct rooted; by rewrite StrJoin_app.
Qed.

(** ** The last element, and the way from one path to another *)

Lemma no_slash_app a b : no_slash (a +:+ b) = no_slash a && no_slash b.
Proof. induction a as [|c a IH]; simpl; [done|]. by rewrite IH, andb_assoc. Qed.

Lemma no_slash_rev s : no_slash (str_rev s) = no_slash s.
Proof.
  induction s as [|c s IH]; [done|]. rewrite str_rev_cons, no_slash_app, IH. simpl. by rewrite andb_true_r, andb_comm.
Qed.

Lemma TrimRight_normal a c : normal c → TrimRight (a +:+ c) slash = a +:+ c.
Proof.
  intros (Hne & _ & _ & Hs). unfold TrimRight. rewrite str_rev_app_distr.
  rewrite <- no_slash_rev in Hs. destruct (str_rev c) as [|x r] eqn:E.
  { by rewrite <- (str_rev_involutive c), E in Hne. }
  simpl in Hs. bools. change (String x r +:+ str_rev a) with (String x (r +:+ str_rev a)).
  cbn [TrimLeft]. rewrite bool_decide_eq_false_2 by done.
  change (String x (r +:+ str_rev a)) with (String x r +:+ str_rev a).
  by rewrite <- E, <- str_rev_app_distr, str_rev_involutive.
Qed.

Lemma Base_snoc rooted l c : Forall normal l → normal c → Base (path_of rooted (l ++ [c])) = c.
Proof.
  intros H Hc. assert (Forall normal (l ++ [c])) as HF by (apply Forall_app; split; [done|by constructor]).
  unfold Base. rewrite bool_decide_eq_false_2 by (by apply path_of_nonempty).
  assert (∃ a, path_of rooted (l ++ [c]) = a +:+ c ∧ List.last (Split (a +:+ c) slash) "" = c) as (a & -> & HL).
  { destruct Hc as (_ & _ & _ & Hs). destruct l as [|d l].
    - destruct rooted; [exists "/"|exists ""]; (split; [done|]); simpl; by rewrite Split_no_slash.
    - exists (path_of rooted (d :: l) +:+ "/"). rewrite str_app_assoc.
      split; [unfold path_of; destruct rooted; by rewrite StrJoin_app|].
      rewrite Split_slash, (Split_no_slash c) by done. apply last_last. }
  rewrite TrimRight_normal by done. rewrite HL. rewrite bool_decide_eq_false_2; [done|]. by destruct Hc.
Qed.

Lemma elements_path_of rooted l : Forall normal l → elements (path_of rooted l) = if bool_decide (l = []) then elements (path_of rooted []) else l.
Proof.
  intros H. case_bool_decide as Hl; [by subst|]. unfold elements.
  assert (filter (λ c, c ≠ "") l = l) as HF.
  { clear Hl. induction H as [|c l (Hc & _) Hl IH]; [done|]. rewrite filter_cons_True by done. by f_equal. }
  destruct l as [|c l]; [done|]. destruct rooted; unfold path_of; [|by rewrite Split_StrJoin by (done || by apply normal_no_slash)].
  change (Split ("/" +:+ StrJoin (c :: l) "/") slash) with ("" :: Split (StrJoin (c :: l) "/") slash).
  rewrite Split_StrJoin by (done || by apply normal_no_slash). by rewrite filter_cons_False by auto.
Qed.

Lemma strip_common_app l l' : strip_common l (l ++ l') = ([], l').
Proof. induction l as [|x l IH]; simpl; [by destruct l'|]. by rewrite bool_decide_eq_true_2. Qed.

Lemma path_of_inj_app rooted l l' : Forall normal l → Forall normal l' → l' ≠ [] → path_of rooted (l ++ l') ≠ path_of rooted l.
Proof.
  intros H H' Hne E. apply (f_equal elements) in E. assert (Forall normal (l ++ l')) as HF by by apply Forall_app.
  rewrite (elements_path_of _ (l ++ l')), (elements_path_of _ l) in E by done.
  rewrite bool_decide_eq_false_2 in E by (intros [_ ?]%app_nil; done). case_bool_decide as Hl.
  - subst l. destruct l' as [|x l']; [done|]. apply Forall_cons in H' as [Hx _]. destruct rooted; [done|].
    simpl in E. injection E as -> _. by destruct Hx as (_ & ? & _).
  - apply (f_equal List.length) in E. rewrite List.length_app in E. destruct l'; simpl in *; [done|lia].
Qed.

(** From an absolute directory to something below it. *)
Lemma Rel_under l l' :
  Forall normal l → Forall normal l' → l' ≠ [] → Rel (path_of true l) (path_of true (l ++ l')) = Ok (path_of false l').
Proof.
  intros H H' Hne. assert (Forall normal (l ++ l')) as HF by by apply Forall_app. unfold Rel.
  rewrite !Clean_path_of by done. rewrite bool_decide_eq_false_2 by by apply path_of_inj_app.
  rewrite (bool_decide_eq_false_2 (path_of true l = ".")) by done. rewrite !IsAbs_path_of by done. cbn [Bool.eqb negb].
  rewrite (elements_path_of _ (l ++ l')) by done. rewrite bool_decide_eq_false_2 by (intros [_ ?]%app_nil; done).
  assert (elements (path_of true l) = l) as ->. { rewrite elements_path_of by done. by case_bool_decide; subst. }
  rewrite strip_common_app. by destruct l'.
Qed.
