(* ===== verification/Swagger.v ===== *)
(** * The Swagger UI page

    [src/feature/config/swagger-ui/swagger-initializer.js] is the one
    JavaScript file of the repository that is not a vendored bundle; the page
    [index.html] loads it after the two bundles, and [pkg/web/service.go]
    serves the page and the document it points at.  The bundles are
    third-party code: [SwaggerUIBundle] and [SwaggerUIStandalonePreset] are
    parameters. *)

From S2P Require Import Prelude GoStrings.
From stdpp Require Import strings list sets.

Section Initializer.

(** What the vendored bundles define: the constructor's result, the presets
    and the plugins it is configured with. *)
Context {Ui Preset Plugin : Type}.

(** The argument of [SwaggerUIBundle(...)], field by field. *)
Record Config := {
  url : string;
  dom_id : string;
  deepLinking : bool;
  presets : list Preset;
  plugins : list Plugin;
  layout : string;
}.

(** The global [SwaggerUIBundle]: a function object with properties.  A
    property that is not there is [undefined], which is [None]. *)
Record BundleFn := {
  bundle_call : Config → result Ui;
  bundle_presets : option (option Preset);     (* .presets, then .apis *)
  bundle_plugins : option (option Plugin);     (* .plugins, then .DownloadUrl *)
}.

(** Global scope of the page: a name that no script has defined is [None]. *)
Record Globals := {
  SwaggerUIBundle : option BundleFn;
  SwaggerUIStandalonePreset : option Preset;
}.

(** The two properties of [window] the script touches. *)
Record Window := {
  onload : option (Globals → result Ui);
  ui : option Ui;
}.

Definition ReferenceError {A : Type} (name : string) : result A :=
  Err (Msg ("ReferenceError: " +:+ name +:+ " is not defined")).
Definition TypeError {A : Type} (name : string) : result A :=
  Err (Msg ("TypeError: cannot read properties of undefined (reading '" +:+ name +:+ "')")).

(** [obj.prop1.prop2]: an undefined [obj.prop1] throws; an undefined last
    property is the value [undefined], which the array literal then holds and
    which [undefined] stands for. *)
Definition member2 {A : Type} (o : option (option A)) (prop2 : string) (undefined : A) : result A :=
  match o with
  | None => TypeError prop2
  | Some None => Ok undefined
  | Some (Some a) => Ok a
  end.

Context (undefined_preset : Preset) (undefined_plugin : Plugin).

(** The body of the handler: the callee is looked up first, then the object
    literal is evaluated from top to bottom, then the call is made. *)
Definition onload_handler (g : Globals) : result Ui :=
  match SwaggerUIBundle g with
  | None => ReferenceError "SwaggerUIBundle"
  | Some bundle =>
      let! apis := member2 (bundle_presets bundle) "apis" undefined_preset in
      let! standalone :=
        match SwaggerUIStandalonePreset g with
        | None => ReferenceError "SwaggerUIStandalonePreset"
        | Some p => Ok p
        end in
      let! download := member2 (bundle_plugins bundle) "DownloadUrl" undefined_plugin in
      bundle_call bundle
        {| url := "/apidocs.json";
           dom_id := "#swagger-ui";
           deepLinking := true;
           presets := [apis; standalone];
           plugins := [download];
           layout := "StandaloneLayout" |}
  end.

(** Running the script installs the handler and calls nothing. *)
Definition swagger_initializer (w : Window) : Window :=
  {| onload := Some onload_handler; ui := ui w |}.

(** The load event: the handler runs and its [window.ui = ...] assignment
    happens only when the call returns. *)
Definition fire_load (g : Globals) (w : Window) : Window * option error :=
  match onload w with
  | None => (w, None)
  | Some h =>
      match h g with
      | Ok u => ({| onload := onload w; ui := Some u |}, None)
      | Err e => (w, Some e)
      | Panic why => (w, Some (Msg why))
      end
  end.

End Initializer.

(** ** The server side of the page: [pkg/web/service.go] *)

Definition CoreAPIPath : string := "/kapis/".
Definition SwaggerAPIPath : string := "/swagger-ui/".
Definition ResourcesAPIPath : string := "/resources/".

(** [NewAPIService] publishes the OpenAPI document here. *)
Definition APIPath : string := "/apidocs.json".

(** What the catch-all route of [NewUIService] answers for a sub-path. *)
Inductive UIAnswer := NotFound | StaticFile | IndexHtml.

Definition slash : Ascii.ascii := Ascii.Ascii true true true true false true false false.

Definition serve_ui (requestedPath : string) : UIAnswer :=
  if HasPrefix requestedPath (TrimLeft CoreAPIPath slash) ||
     HasPrefix requestedPath (TrimLeft SwaggerAPIPath slash) ||
     HasPrefix requestedPath (TrimLeft ResourcesAPIPath slash)
  then NotFound
  else if Contains requestedPath "." then StaticFile
  else IndexHtml.

(** ** Theorems *)


(** A missing bundle is a ReferenceError and the UI is not built. *)
Lemma swagger_missing_bundle {Ui Preset Plugin : Type} (up : Preset) (ug : Plugin)
    (w : @Window Ui Preset Plugin) g :
  SwaggerUIBundle g = None →
  fire_load g (swagger_initializer up ug w) =
    (swagger_initializer up ug w, Some (Msg "ReferenceError: SwaggerUIBundle is not defined")).
Proof. intros H. unfold fire_load. simpl. unfold onload_handler. by rewrite H. Qed.

(** The catch-all UI route never answers for an API prefix, and the OpenAPI
    document's name is not one of them. *)
Lemma serve_ui_api_not_found p :
  serve_ui ("kapis/" +:+ p) = NotFound ∧
  serve_ui ("swagger-ui/" +:+ p) = NotFound ∧
  serve_ui ("resources/" +:+ p) = NotFound.
Proof.
  unfold serve_ui. change (TrimLeft CoreAPIPath slash) with "kapis/".
  change (TrimLeft SwaggerAPIPath slash) with "swagger-ui/".
  change (TrimLeft ResourcesAPIPath slash) with "resources/".
  rewrite !HasPrefix_app, !orb_true_r. done.
Qed.

Example serve_ui_apidocs : serve_ui "apidocs.json" = StaticFile.
Proof. vm_compute. reflexivity. Qed.
