(* ===== verification/Tags.v ===== *)
(** * Tags: [src/feature/api/project/v1/taggable.go]

    Plays, roles and blocks carry tags; a run selects by [onlyTags]
    ([--tags]) and [skipTags] ([--skip-tags]).  [IsEnabled] decides whether an
    element runs and [JoinTag] makes children inherit the tags of their
    parent. *)

From S2P Require Import Prelude.
From stdpp Require Import strings list sets.

Definition AlwaysTag : string := "always".
Definition NeverTag : string := "never".
Definition AllTag : string := "all".
Definition TaggedTag : string := "tagged".

Record Taggable := { Tags : list string }.

(** [isdisjoint]: the loop over [a] returns at the first common element. *)
Fixpoint isdisjoint (a b : list string) : bool :=
  match a with
  | [] => true
  | s :: a' => if contains b s then false else isdisjoint a' b
  end.

Definition IsEnabled (t : Taggable) (onlyTags skipTags : list string) : bool :=
  let shouldRun :=
    if nonempty onlyTags then
      if contains (Tags t) AlwaysTag then true
      else if contains onlyTags AllTag && negb (contains (Tags t) NeverTag) then true
      else if contains onlyTags TaggedTag && negb (contains (Tags t) NeverTag) then true
      else if negb (isdisjoint onlyTags (Tags t)) then true
      else false
    else true in
  if shouldRun && nonempty skipTags then
    if contains skipTags AllTag &&
       (negb (contains (Tags t) AlwaysTag) || negb (contains skipTags AlwaysTag)) then false
    else if negb (isdisjoint skipTags (Tags t)) then false
    else if contains skipTags TaggedTag && nonempty skipTags then false
    else shouldRun
  else shouldRun.

Definition join_step (child : list string) (tag : string) : list string :=
  if bool_decide (tag = AlwaysTag) then child
  else if contains child tag then child
  else child ++ [tag].

Definition JoinTag (child parent : Taggable) : Taggable :=
  {| Tags := fold_left join_step (Tags parent) (Tags child) |}.

(** ** The selection rule as a specification *)

(** The element is asked for. *)
Definition selected (tags only : list string) : Prop :=
  only = [] ∨ AlwaysTag ∈ tags
  ∨ ((AllTag ∈ only ∨ TaggedTag ∈ only) ∧ NeverTag ∉ tags)
  ∨ ∃ t, t ∈ only ∧ t ∈ tags.

(** The element is excluded. *)
Definition skipped (tags skip : list string) : Prop :=
  AllTag ∈ skip ∨ TaggedTag ∈ skip ∨ ∃ t, t ∈ skip ∧ t ∈ tags.

(** ** Lemmas *)

Lemma isdisjoint_false a b : isdisjoint a b = false ↔ ∃ s, s ∈ a ∧ s ∈ b.
Proof.
  induction a as [|s a IH]; simpl; [set_solver|].
  destruct (contains_spec b s); [set_solver|]. rewrite IH. set_solver.
Qed.

Lemma isdisjoint_spec a b : reflect (∃ s, s ∈ a ∧ s ∈ b) (negb (isdisjoint a b)).
Proof.
  destruct (isdisjoint a b) eqn:E; constructor.
  - intros H%isdisjoint_false. congruence.
  - by apply isdisjoint_false in E.
Qed.

Lemma join_step_prefix acc x : acc `prefix_of` join_step acc x.
Proof.
  unfold join_step. case_bool_decide; [done|]. destruct (contains acc x); [done|].
  by apply prefix_app_r.
Qed.

Lemma join_step_elem acc x y :
  y ∈ join_step acc x ↔ y ∈ acc ∨ (y = x ∧ x ≠ AlwaysTag).
Proof.
  unfold join_step. case_bool_decide; [naive_solver|].
  destruct (contains_spec acc x); set_solver.
Qed.

Lemma join_step_NoDup acc x : NoDup acc → NoDup (join_step acc x).
Proof.
  intros H. unfold join_step. case_bool_decide; [done|].
  destruct (contains_spec acc x); [done|].
  apply NoDup_app. split; [done|]. split; [set_solver|]. apply NoDup_singleton.
Qed.

Lemma fold_join_elem ps acc y :
  y ∈ fold_left join_step ps acc ↔ y ∈ acc ∨ (y ∈ ps ∧ y ≠ AlwaysTag).
Proof.
  revert acc. induction ps as [|p ps IH]; intros acc; simpl; [set_solver|].
  rewrite IH, join_step_elem. set_solver.
Qed.

Lemma JoinTag_elem child parent y :
  y ∈ Tags (JoinTag child parent) ↔ y ∈ Tags child ∨ (y ∈ Tags parent ∧ y ≠ AlwaysTag).
Proof. apply fold_join_elem. Qed.

Lemma JoinTag_prefix child parent : Tags child `prefix_of` Tags (JoinTag child parent).
Proof. apply fold_left_prefix, join_step_prefix. Qed.

Lemma JoinTag_NoDup child parent : NoDup (Tags child) → NoDup (Tags (JoinTag child parent)).
Proof.
  intros H. apply (fold_left_invariant NoDup); [done|]. intros; by apply join_step_NoDup.
Qed.

(** The first switch computes [selected]. *)
Lemma shouldRun_selected tags only :
  (if nonempty only then
      if contains tags AlwaysTag then true
      else if contains only AllTag && negb (contains tags NeverTag) then true
      else if contains only TaggedTag && negb (contains tags NeverTag) then true
      else if negb (isdisjoint only tags) then true
      else false
    else true) = true ↔ selected tags only.
Proof.
  unfold selected. destruct (nonempty_spec only) as [H|H]; [|naive_solver].
  destruct (contains_spec tags AlwaysTag), (contains_spec tags NeverTag),
    (contains_spec only AllTag), (contains_spec only TaggedTag);
  destruct (isdisjoint_spec only tags); simpl; intuition congruence.
Qed.

(** The second switch computes [skipped] (an empty [skipTags] skips nothing). *)
Lemma skip_switch tags skip :
  (if nonempty skip then
     if contains skip AllTag &&
        (negb (contains tags AlwaysTag) || negb (contains skip AlwaysTag)) then false
     else if negb (isdisjoint skip tags) then false
     else if contains skip TaggedTag && nonempty skip then false
     else true
   else true) = false ↔ skipped tags skip.
Proof.
  unfold skipped. destruct (nonempty_spec skip) as [H|H]; [|set_solver].
  rewrite andb_true_r.
  destruct (contains_spec skip AllTag), (contains_spec tags AlwaysTag),
    (contains_spec skip AlwaysTag), (contains_spec skip TaggedTag);
  destruct (isdisjoint_spec skip tags) as [Hd|Hd]; simpl;
  try (exfalso; by apply Hd; exists AlwaysTag); intuition congruence.
Qed.

(** ** Properties *)

(** [IsEnabled] implements the selection rule: an element runs exactly
    when it is selected by [onlyTags] and not excluded by [skipTags]. *)
Theorem IsEnabled_spec t only skip :
  IsEnabled t only skip = true ↔ selected (Tags t) only ∧ ¬ skipped (Tags t) skip.
Proof.
  rewrite <- shouldRun_selected, <- skip_switch. unfold IsEnabled.
  destruct (if nonempty only then _ else true); simpl; [|naive_solver].
  destruct (nonempty skip); [|naive_solver].
  destruct (contains skip AllTag && _); [naive_solver|].
  destruct (isdisjoint skip (Tags t)); simpl; [|naive_solver].
  destruct (contains skip TaggedTag); simpl; naive_solver.
Qed.

(** Inheritance. A child keeps its own tags in front, receives every
    parent tag but "always", and gets no duplicates from its parent. *)
Theorem JoinTag_inherits child parent :
  Tags child `prefix_of` Tags (JoinTag child parent)
  ∧ (∀ y, y ∈ Tags (JoinTag child parent) ↔
          y ∈ Tags child ∨ (y ∈ Tags parent ∧ y ≠ AlwaysTag))
  ∧ (NoDup (Tags child) → NoDup (Tags (JoinTag child parent))).
Proof.
  split; [apply JoinTag_prefix|]. split; [intros; apply JoinTag_elem|apply JoinTag_NoDup].
Qed.

(** What a run selects or excludes by a parent's own tag it selects or
    excludes for every child that inherits it. *)
Lemma JoinTag_selected child parent only t :
  t ∈ only → t ∈ Tags parent → t ≠ AlwaysTag → selected (Tags (JoinTag child parent)) only.
Proof. intros. right; right; right. exists t. rewrite JoinTag_elem. eauto. Qed.

Lemma JoinTag_skipped child parent skip t :
  t ∈ skip → t ∈ Tags parent → t ≠ AlwaysTag →
  ¬ IsEnabled (JoinTag child parent) [] skip = true.
Proof.
  intros H1 H2 H3 [_ HS]%IsEnabled_spec. apply HS. right; right. exists t.
  rewrite JoinTag_elem. eauto.
Qed.

(** The special tags do not do what their comments say.  Without
    [--tags] an element tagged "never" runs; [--tags tagged] runs an element
    that has no tag at all; [--skip-tags tagged] skips an element that has no
    tag; and [--skip-tags all] also skips an element tagged "always". *)
Theorem special_tags_behaviour :
  IsEnabled {| Tags := [NeverTag] |} [] [] = true
  ∧ IsEnabled {| Tags := [] |} [TaggedTag] [] = true
  ∧ IsEnabled {| Tags := [] |} [] [TaggedTag] = false
  ∧ (∀ t only skip, AllTag ∈ skip → IsEnabled t only skip = false).
Proof.
  split_and!; [done..|]. intros t only skip H. apply not_true_is_false.
  intros [_ HS]%IsEnabled_spec. apply HS. by left.
Qed.
