(* ===== verification/Serial.v ===== *)
(** * Batches of hosts: [GroupHostBySerial] of
      [src/feature/pkg/converter/converter.go]

    A play's [serial] list splits its hosts into batches that run one after
    the other. *)

From S2P Require Import Prelude GoStrings.
From stdpp Require Import strings list sets.
From Stdlib Require Import SpecFloat.

Open Scope Z_scope.

(** The dynamic type of a [serial] element, as the type switch sees it. *)
Inductive SerialItem :=
| SInt (z : Z)
| SString (s : string)
| SOther.

Section Serial.

(** [strconv.ParseFloat(s, 64)]: [None] is its error. *)
Context (ParseFloat : string → option spec_float).

(** [float64(n)] *)
Definition float_of_int (n : Z) : spec_float := binary_normalize 53 1024 n 0 false.

(** [int(math.Ceil(f))]; what amd64 gives for a value that is not an [int] is
    the smallest [int]. *)
Definition ceil_to_int (f : spec_float) : Z :=
  let z := match f with
           | S754_zero _ => 0
           | S754_finite s m e =>
               let v := if s then Zneg m else Zpos m in
               if 0 <=? e then v * 2 ^ e else - ((- v) / 2 ^ (- e))
           | _ => min_int
           end in
  if (min_int <=? z) && (z <=? max_int) then z else min_int.

(** [int(math.Ceil(float64(len(hosts)) * b / 100.0))] *)
Definition percent_of (nhosts : Z) (b : spec_float) : Z :=
  ceil_to_int (SFdiv 53 1024 (SFmul 53 1024 (float_of_int nhosts) b) (float_of_int 100)).

(** One turn of the conversion loop: the number of hosts of one batch. *)
Definition serial_size (nhosts : Z) (a : SerialItem) : result Z :=
  let! si :=
    match a with
    | SInt z => Ok z
    | SString val =>
        if HasSuffix val "%" then
          match ParseFloat (String.substring 0 (String.length val - 1) val) with
          | Some b => Ok (percent_of nhosts b)
          | None => Err (Wrap "convert serial to float" (Msg val))
          end
        else match Atoi val with
             | Some b => Ok b
             | None => Err (Wrap "convert serial to int" (Msg val))
             end
    | SOther => Err (Msg "unknown serial type. only support int or percent")
    end in
  if si =? 0 then Err (Msg "serial should not be zero") else Ok si.

Fixpoint serial_sizes (nhosts : Z) (serial : list SerialItem) : result (list Z) :=
  match serial with
  | [] => Ok []
  | a :: serial' =>
      let! si := serial_size nhosts a in
      let! sis := serial_sizes nhosts serial' in
      Ok (si :: sis)
  end.

(** [count]: the sum, in [int] arithmetic. *)
Definition count_of (sis : list Z) : Z := fold_left (λ c s, wrap64 (c + s)) sis 0.

(** The number of turns of
    [for i := 0.0; i < float64(len(hosts)-count)/float64(last); i++]: the
    quotient of two [int]s below 2^53 compares with an integer [i] as the
    exact quotient does, so it is the rounded-up quotient when [last] is
    positive and none when it is negative ([len(hosts) > count] there). *)
Definition extra_batches (missing lastsize : Z) : nat :=
  if 0 <? lastsize then Z.to_nat ((missing + lastsize - 1) / lastsize) else 0%nat.

Definition extend_sizes (nhosts : Z) (sis : list Z) : list Z :=
  let count := count_of sis in
  let lastsize := default 0 (last sis) in
  if count <? nhosts
  then sis ++ replicate (extra_batches (wrap64 (nhosts - count)) lastsize) lastsize
  else sis.

(** [hosts[begin:end]]: Go panics unless [0 <= begin <= end] (here [end] is
    at most [len(hosts)]). *)
Definition go_slice (hosts : list string) (b e : Z) : result (list string) :=
  if (0 <=? b) && (b <=? e) then Ok (take (Z.to_nat (e - b)) (drop (Z.to_nat b) hosts))
  else Panic "slice bounds out of range".

Fixpoint cut (hosts : list string) (sis : list Z) (b e : Z) : result (list (list string)) :=
  match sis with
  | [] => Ok []
  | si :: sis' =>
      let e1 := wrap64 (e + si) in
      let e2 := if Z.of_nat (length hosts) <? e1 then Z.of_nat (length hosts) else e1 in
      let! batch := go_slice hosts b e2 in
      let! rest := cut hosts sis' (wrap64 (b + si)) e2 in
      Ok (batch :: rest)
  end.

Definition GroupHostBySerial (hosts : list string) (serial : list SerialItem)
    : result (list (list string)) :=
  match serial with
  | [] => Ok [hosts]
  | _ =>
      let! sis := serial_sizes (Z.of_nat (length hosts)) serial in
      cut hosts (extend_sizes (Z.of_nat (length hosts)) sis) 0 0
  end.

End Serial.

(** ** Reference: cutting a list into consecutive pieces *)

Fixpoint zsum (l : list Z) : Z :=
  match l with [] => 0 | x :: l' => x + zsum l' end.

Fixpoint chunks (hosts : list string) (sizes : list Z) : list (list string) :=
  match sizes with
  | [] => []
  | s :: sizes' => take (Z.to_nat s) hosts :: chunks (drop (Z.to_nat s) hosts) sizes'
  end.

(** The sizes of all batches but the last. *)
Definition but_last (l : list Z) : list Z := take (length l - 1) l.

Definition positive_sizes (l : list Z) : Prop := Forall (λ s, 0 < s) l.

(** ** Lemmas *)

Lemma zsum_nonneg l : positive_sizes l → 0 ≤ zsum l.
Proof. induction 1; simpl; lia. Qed.

Lemma but_last_nonneg l : positive_sizes l → 0 ≤ zsum (but_last l).
Proof. intros H. apply zsum_nonneg, Forall_take, H. Qed.

Lemma zsum_app l1 l2 : zsum (l1 ++ l2) = zsum l1 + zsum l2.
Proof. induction l1; simpl; lia. Qed.

Lemma zsum_replicate n x : zsum (replicate n x) = Z.of_nat n * x.
Proof. induction n; simpl; lia. Qed.

Lemma but_last_cons s t sis : but_last (s :: t :: sis) = s :: but_last (t :: sis).
Proof. unfold but_last. simpl. by rewrite Nat.sub_0_r. Qed.

Lemma but_last_snoc sis s : but_last (sis ++ [s]) = sis.
Proof.
  unfold but_last. rewrite length_app. simpl.
  rewrite take_app_length' by lia. done.
Qed.

Lemma count_of_from sis c :
  positive_sizes sis → 0 ≤ c → c + zsum sis ≤ max_int →
  fold_left (λ c s, wrap64 (c + s)) sis c = c + zsum sis.
Proof.
  intros H. revert c. induction H as [|s sis Hs Hsis IH]; intros c Hc Hb; simpl in *; [lia|].
  pose proof (zsum_nonneg sis Hsis).
  rewrite wrap64_small by (unfold min_int; lia). rewrite IH by lia. lia.
Qed.

Lemma chunks_concat sizes hosts :
  positive_sizes sizes → concat (chunks hosts sizes) = take (Z.to_nat (zsum sizes)) hosts.
Proof.
  intros H. revert hosts. induction H as [|s sizes Hs Hsz IH]; intros hosts; simpl; [done|].
  pose proof (zsum_nonneg sizes Hsz).
  rewrite IH, Z2Nat.inj_add by lia. by rewrite take_take_drop.
Qed.

Lemma chunks_nonempty sizes hosts :
  positive_sizes sizes → zsum (but_last sizes) < Z.of_nat (length hosts) →
  Forall (λ b, b ≠ []) (chunks hosts sizes).
Proof.
  intros H. revert hosts. induction H as [|s sizes Hs Hsz IH]; intros hosts Hb; simpl; [constructor|].
  destruct hosts as [|h hosts].
  { simpl length in Hb.
    pose proof (but_last_nonneg (s :: sizes) (Forall_cons_2 _ _ _ Hs Hsz)). lia. }
  constructor.
  - destruct (Z.to_nat s) eqn:E; [lia|done].
  - destruct sizes as [|t sizes]; [constructor|]. apply IH.
    rewrite but_last_cons in Hb. simpl zsum in Hb at 1. rewrite length_drop. lia.
Qed.

Lemma chunks_bounded sizes hosts :
  Forall2 (λ s b, Z.of_nat (length b) ≤ s) sizes (chunks hosts sizes) ∨ ¬ positive_sizes sizes.
Proof.
  destruct (decide (positive_sizes sizes)) as [H|]; [left|by right].
  revert hosts. induction H as [|s sizes Hs Hsz IH]; intros hosts; simpl; constructor; [|done].
  rewrite length_take. lia.
Qed.

(** The cutting loop, from any point where it has consumed [b] hosts. *)
Lemma cut_spec hosts sis b :
  let n := Z.of_nat (length hosts) in
  positive_sizes sis → sis ≠ [] → 0 ≤ b → b + zsum sis + n ≤ max_int →
  cut hosts sis b (Z.min n b) =
    if bool_decide (b + zsum (but_last sis) ≤ n)
    then Ok (chunks (drop (Z.to_nat b) hosts) sis)
    else Panic "slice bounds out of range".
Proof.
  intros n H. subst n. revert b.
  induction H as [|s sis Hs Hsis IH]; intros b Hne Hb Hmax; [done|]. clear Hne.
  simpl zsum in Hmax. pose proof (zsum_nonneg sis Hsis) as Hnn. simpl cut.
  set (n := Z.of_nat (length hosts)) in *.
  rewrite !wrap64_small by (unfold min_int; lia).
  assert ((if n <? Z.min n b + s then n else Z.min n b + s) = Z.min n (b + s)) as ->
    by (destruct (Z.ltb_spec n (Z.min n b + s)); lia).
  unfold go_slice. destruct (Z.leb_spec 0 b); [|lia]. simpl.
  destruct (Z.leb_spec b (Z.min n (b + s))) as [Hle|Hgt]; simpl.
  2:{ rewrite bool_decide_false; [done|]. destruct sis; [unfold but_last; simpl; lia|].
      rewrite but_last_cons. simpl zsum at 1.
      pose proof (but_last_nonneg _ Hsis). lia. }
  assert (take (Z.to_nat (Z.min n (b + s) - b)) (drop (Z.to_nat b) hosts) =
          take (Z.to_nat s) (drop (Z.to_nat b) hosts)) as ->.
  { destruct (Z.le_gt_cases (b + s) n); [by rewrite Z.min_r, Z.add_simpl_l by lia|].
    rewrite !take_ge; [done|rewrite length_drop; lia..]. }
  destruct sis as [|t sis].
  { simpl. unfold but_last. simpl. rewrite bool_decide_true by lia. done. }
  rewrite IH by (done || lia). rewrite but_last_cons.
  replace (b + zsum (s :: but_last (t :: sis))) with (b + s + zsum (but_last (t :: sis)))
    by (simpl; lia).
  case_bool_decide; [|done]. cbn [rbind chunks].
  replace (Z.to_nat (b + s)) with (Z.to_nat b + Z.to_nat s)%nat by lia.
  by rewrite <- drop_drop.
Qed.

(** When the sizes do not cover the hosts, the extension repeats the last
    size until they do, and never once more. *)
Lemma extend_sizes_spec n sis :
  positive_sizes sis → sis ≠ [] → 0 ≤ n ≤ max_int → zsum sis ≤ max_int →
  let ext := extend_sizes n sis in
  positive_sizes ext ∧ ext ≠ []
  ∧ (zsum sis < n → n ≤ zsum ext < n + default 0 (last sis) ∧ zsum (but_last ext) < n)
  ∧ (n ≤ zsum sis → ext = sis).
Proof.
  intros Hp Hne Hn Hs. pose proof (zsum_nonneg sis Hp) as Hnn.
  unfold extend_sizes, count_of. rewrite count_of_from by (done || lia). rewrite Z.add_0_l.
  destruct (exists_last Hne) as [init [l ->]].
  rewrite last_snoc. simpl. assert (0 < l) as Hl
    by (apply Forall_app in Hp as [_ Hp]; by inversion Hp).
  destruct (Z.ltb_spec (zsum (init ++ [l])) n) as [Hlt|Hge].
  2:{ split_and!; [done|by destruct init| lia | done]. }
  rewrite wrap64_small by (unfold min_int; lia).
  unfold extra_batches. destruct (Z.ltb_spec 0 l); [|lia].
  set (miss := n - zsum (init ++ [l])).
  assert (0 < miss) by lia.
  set (q := (miss + l - 1) / l).
  assert (miss ≤ q * l < miss + l) as Hq.
  { unfold q. pose proof (Z.div_mod (miss + l - 1) l). pose proof (Z.mod_pos_bound (miss + l - 1) l). nia. }
  assert (0 < q) by nia.
  split_and!.
  - apply Forall_app; split; [done|]. by apply Forall_replicate.
  - by destruct init.
  - intros _. rewrite zsum_app, zsum_replicate, Z2Nat.id by lia. split; [lia|].
    replace (Z.to_nat q) with (S (Z.to_nat (q - 1))) by lia.
    rewrite replicate_S_end, app_assoc, but_last_snoc, zsum_app, zsum_replicate, Z2Nat.id by lia.
    lia.
  - lia.
Qed.

(** ** Properties *)

(** C27: for positive sizes that leave at least one host for the last batch,
    the batches are the hosts cut in order: nothing is lost, repeated or
    reordered, no batch is empty, and a batch is never larger than the serial
    size (the last one repeated as needed) it was made for. *)
Theorem GroupHostBySerial_partition ParseFloat hosts serial sis :
  serial_sizes ParseFloat (Z.of_nat (length hosts)) serial = Ok sis →
  serial ≠ [] → positive_sizes sis →
  zsum sis + 2 * Z.of_nat (length hosts) ≤ max_int →
  zsum (but_last sis) < Z.of_nat (length hosts) →
  ∃ batches, GroupHostBySerial ParseFloat hosts serial = Ok batches
    ∧ concat batches = hosts
    ∧ Forall (λ b, b ≠ []) batches
    ∧ Forall2 (λ s b, Z.of_nat (length b) ≤ s)
        (extend_sizes (Z.of_nat (length hosts)) sis) batches.
Proof.
  intros Hsz Hne Hp Hmax Hbl. set (n := Z.of_nat (length hosts)) in *.
  pose proof (zsum_nonneg sis Hp).
  assert (sis ≠ []) as Hne'.
  { destruct serial as [|a serial]; [done|]. simpl in Hsz. by go_cases. }
  destruct (extend_sizes_spec n sis) as (Hpe & Hnee & Hlt & Hge); [done|done|lia|lia|].
  assert (default 0 (last sis) ≤ zsum sis) as Hlast.
  { destruct (exists_last Hne') as [init [l ->]]. rewrite last_snoc, zsum_app. simpl.
    apply Forall_app in Hp as [Hp _]. pose proof (zsum_nonneg init Hp). lia. }
  assert (n ≤ zsum (extend_sizes n sis) ∧ zsum (but_last (extend_sizes n sis)) < n
          ∧ zsum (extend_sizes n sis) ≤ zsum sis + n) as (Hcov & Hbl' & Hub).
  { destruct (Z.lt_ge_cases (zsum sis) n) as [Hc|Hc]; [lia|]. rewrite (Hge Hc). lia. }
  exists (chunks hosts (extend_sizes n sis)). split_and!.
  - unfold GroupHostBySerial. destruct serial; [done|]. fold n. rewrite Hsz. simpl.
    pose proof (cut_spec hosts (extend_sizes n sis) 0) as Hcut. cbv zeta in Hcut. fold n in Hcut.
    rewrite Z.min_r in Hcut by lia. rewrite Hcut by (done || lia).
    rewrite bool_decide_true by lia. done.
  - rewrite chunks_concat by done. apply take_ge. lia.
  - by apply chunks_nonempty.
  - by destruct (chunks_bounded (extend_sizes n sis) hosts).
Qed.

Definition no_percent : string → option spec_float := λ _, None.

Lemma GroupHostBySerial_partition_witness :
  ∃ batches, GroupHostBySerial no_percent ["a"; "b"; "c"; "d"] [SInt 1; SInt 2] = Ok batches
    ∧ concat batches = ["a"; "b"; "c"; "d"]
    ∧ Forall (λ b, b ≠ []) batches
    ∧ Forall2 (λ s b, Z.of_nat (length b) ≤ s) (extend_sizes 4 [1; 2]) batches.
Proof.
  apply (GroupHostBySerial_partition no_percent ["a"; "b"; "c"; "d"] [SInt 1; SInt 2] [1; 2]);
    [reflexivity|done|repeat constructor|vm_compute; congruence|vm_compute; reflexivity].
Defined.

(** A [serial] list whose sizes but the last already exceed the number
    of hosts makes the function panic (slice bounds out of range) instead of
    giving batches or an error. *)
Theorem GroupHostBySerial_panics ParseFloat hosts serial sis :
  serial_sizes ParseFloat (Z.of_nat (length hosts)) serial = Ok sis →
  positive_sizes sis →
  zsum sis + Z.of_nat (length hosts) ≤ max_int →
  Z.of_nat (length hosts) < zsum (but_last sis) →
  GroupHostBySerial ParseFloat hosts serial = Panic "slice bounds out of range".
Proof.
  intros Hsz Hp Hmax Hbl. set (n := Z.of_nat (length hosts)) in *.
  assert (sis ≠ []) as Hne by (intros ->; unfold but_last in Hbl; simpl in Hbl; lia).
  assert (zsum (but_last sis) ≤ zsum sis) as Hle.
  { destruct (exists_last Hne) as [init [l ->]]. rewrite but_last_snoc, zsum_app. simpl.
    apply Forall_app in Hp as [_ Hp]. inversion Hp. lia. }
  destruct (extend_sizes_spec n sis) as (_ & _ & _ & Hge); [done|done|lia|lia|].
  destruct serial as [|a serial]; [simpl in Hsz; simplify_eq|].
  unfold GroupHostBySerial. fold n. rewrite Hsz. simpl. rewrite Hge by lia.
  pose proof (cut_spec hosts sis 0) as Hcut. cbv zeta in Hcut. fold n in Hcut.
  rewrite Z.min_r in Hcut by lia. rewrite Hcut by (done || lia).
  rewrite bool_decide_false by lia. done.
Qed.

Lemma GroupHostBySerial_panics_witness :
  GroupHostBySerial no_percent ["a"; "b"; "c"] [SInt 2; SInt 2; SInt 2]
  = Panic "slice bounds out of range".
Proof.
  apply (GroupHostBySerial_panics no_percent ["a"; "b"; "c"] [SInt 2; SInt 2; SInt 2] [2; 2; 2]);
    [reflexivity|repeat constructor|vm_compute; congruence|vm_compute; reflexivity].
Defined.
