(* ===== verification/Values.v ===== *)
(** * Dynamic values

    Go's [any] as JSON and YAML decoding produce it and as the variable store
    holds it: nil, booleans, integers, strings, byte slices, slices and string-keyed maps.
    (Floats occur in the store only as opaque scalars: [VFloat] keeps their
    text.)  Maps are [gmap]s, so the order of Go's map iteration, which the
    language leaves unspecified, cannot be observed. *)

From S2P Require Import Prelude.
From stdpp Require Import gmap strings list sets countable.

Unset Elimination Schemes.
Inductive value :=
| VNil
| VBool (b : bool)
| VInt (z : Z)
| VFloat (text : string)
| VStr (s : string)
| VBytes (s : string)
| VList (l : list value)
| VMap (m : gmap string value).
Set Elimination Schemes.

(** ** Size and induction *)

Fixpoint vsize (v : value) : nat :=
  match v with
  | VList l => S (foldr (λ v n, vsize v + n) 0 l)
  | VMap m => S (map_fold (λ _ v n, vsize v + n) 0 m)
  | _ => 0
  end.

Lemma vsize_list l v : v ∈ l → vsize v < vsize (VList l).
Proof.
  simpl. induction 1 as [v l|v w l Hl IH]; simpl in *; lia.
Qed.

Lemma vsize_fold_insert (m : gmap string value) k v :
  m !! k = None →
  map_fold (λ _ v n, vsize v + n) 0 (<[k:=v]> m) = vsize v + map_fold (λ _ v n, vsize v + n) 0 m.
Proof. intros H. rewrite map_fold_insert_L; [done| |done]. intros; lia. Qed.

Lemma vsize_map m k v : m !! k = Some v → vsize v < vsize (VMap m).
Proof.
  intros H. rewrite <- (insert_delete_id m k v H). simpl.
  rewrite vsize_fold_insert by apply lookup_delete_eq. lia.
Qed.

Lemma value_ind (P : value → Prop) :
  P VNil → (∀ b, P (VBool b)) → (∀ z, P (VInt z)) → (∀ t, P (VFloat t)) → (∀ s, P (VStr s)) → (∀ s, P (VBytes s)) →
  (∀ l, Forall P l → P (VList l)) →
  (∀ m, map_Forall (λ _, P) m → P (VMap m)) →
  ∀ v, P v.
Proof.
  intros Hnil Hbool Hint Hfloat Hstr Hbytes Hlist Hmap v.
  remember (vsize v) as n eqn:Hn. revert v Hn.
  induction (Nat.lt_wf_0 n) as [n _ IH]. intros v ->. destruct v; auto.
  - apply Hlist, list.Forall_forall. intros x Hx. apply (IH (vsize x)); [by apply vsize_list|done].
  - apply Hmap. intros k x Hx. apply (IH (vsize x)); [by eapply vsize_map|done].
Qed.

(** ** Decidable equality, by an injective encoding into trees *)

Notation leaf_type := (bool + Z + string)%type (only parsing).

Fixpoint encode (v : value) : gen_tree leaf_type :=
  match v with
  | VNil => GenNode 0 []
  | VBool b => GenNode 1 [GenLeaf (inl (inl b))]
  | VInt z => GenNode 2 [GenLeaf (inl (inr z))]
  | VFloat t => GenNode 3 [GenLeaf (inr t)]
  | VStr s => GenNode 4 [GenLeaf (inr s)]
  | VBytes s => GenNode 7 [GenLeaf (inr s)]
  | VList l => GenNode 5 (map encode l)
  | VMap m => GenNode 6 (map_fold (λ k v acc, GenLeaf (inr k) :: encode v :: acc) [] m)
  end.

Fixpoint flatten (l : list (string * value)) : list (gen_tree leaf_type) :=
  match l with
  | [] => []
  | (k, v) :: l' => GenLeaf (inr k) :: encode v :: flatten l'
  end.

Lemma encode_map m : encode (VMap m) = GenNode 6 (flatten (map_to_list m)).
Proof.
  simpl. f_equal. rewrite map_fold_foldr. induction (map_to_list m) as [|[k v] l IH]; simpl; [done|].
  by rewrite IH.
Qed.

Lemma flatten_inj l1 l2 :
  Forall (λ kv, ∀ w, encode kv.2 = encode w → kv.2 = w) l1 → flatten l1 = flatten l2 → l1 = l2.
Proof.
  intros H. revert l2. induction H as [|[k v] l1 Hv _ IH]; intros [|[k' v'] l2] E; try done.
  simpl in *. injection E as -> Ev El. by rewrite (Hv _ Ev), (IH _ El).
Qed.

#[export] Instance encode_inj : Inj (=) (=) encode.
Proof.
  intros v. induction v as [ | | | | | |l IH|m IH] using value_ind; intros w E.
  7:{ destruct w as [ | | | | | |l'|m']; try done. f_equal. simpl in E. injection E as E.
      revert l' E. induction IH as [|x l Hx _ IHl]; intros [|y l'] E; try done.
      simpl in E. injection E as Ex El. f_equal; auto. }
  7:{ destruct w as [ | | | | | |l'|m']; try done. rewrite !encode_map in E. injection E as E.
      f_equal. rewrite <- (list_to_map_to_list m), <- (list_to_map_to_list m'). f_equal.
      apply flatten_inj; [|done]. apply list.Forall_forall. intros [k v] Hkv w Hw.
      apply elem_of_map_to_list in Hkv. exact (IH _ _ Hkv _ Hw). }
  all: destruct w; simpl in E; try done; by injection E as ->.
Qed.

#[export] Instance value_eq_dec : EqDecision value := inj_eq_dec encode.
