(* ===== verification/Groups.v ===== *)
(** * Host groups: [CombineSlice], [hostsInGroup] and [ConvertGroup] of
      [src/feature/pkg/variable/helper.go]

    An inventory lists hosts and groups; a group holds hosts and other groups.
    [ConvertGroup] flattens it into the map of host lists the plays use. *)

From S2P Require Import Prelude.
From stdpp Require Import gmap strings list sets relations.

Definition VariableLocalHost : string := "localhost".
Definition VariableGroupsAll : string := "all".
Definition VariableUnGrouped : string := "ungrouped".

(** [kkcorev1.InventoryGroup] and [kkcorev1.InventorySpec]; variables are raw
    JSON.  Go iterates over a map in an unspecified order: the two maps are
    association lists in the order of one iteration, with distinct keys
    ([wf_inventory]), and the theorems hold for every such order. *)
Record InventoryGroup := {
  group_groups : list string;
  group_hosts : list string;
  group_vars : string;
}.

Record Inventory := {
  inv_hosts : list (string * string);
  inv_vars : string;
  inv_groups : list (string * InventoryGroup);
}.

(** What a missing key of the map of groups reads as. *)
Definition zero_group : InventoryGroup := {| group_groups := []; group_hosts := []; group_vars := "" |}.

Fixpoint alookup {A : Type} (k : string) (l : list (string * A)) : option A :=
  match l with
  | [] => None
  | (k', a) :: l' => if bool_decide (k = k') then Some a else alookup k l'
  end.

(** [m[k] = v] on a map in the order of one loop. *)
Fixpoint aset {A : Type} (k : string) (v : A) (l : list (string * A)) : list (string * A) :=
  match l with
  | [] => [(k, v)]
  | (k', a) :: l' => if bool_decide (k = k') then (k, v) :: l' else (k', a) :: aset k v l'
  end.

(** ** [CombineSlice] *)

(** The two loops share [uniqueValues] (the set of values seen) and [mg]. *)
Definition combine_step (st : gset string * list string) (v : string) : gset string * list string :=
  if bool_decide (v ∈ st.1) then st else ({[v]} ∪ st.1, st.2 ++ [v]).

Definition CombineSlice (g1 g2 : list string) : list string :=
  (fold_left combine_step g2 (fold_left combine_step g1 (∅, []))).2.

(** ** [hostsInGroup] and [ConvertGroup]

    The recursion of [hostsInGroup] follows the group references and has no
    guard against cycles.  [None] is a call that has not returned after [fuel]
    nested calls. *)
Fixpoint hostsInGroup (fuel : nat) (inv : Inventory) (groupName : string) : option (list string) :=
  match fuel with
  | O => None
  | S fuel' =>
      match alookup groupName (inv_groups inv) with
      | None => Some []
      | Some v =>
          hosts ← fold_left
            (λ acc cg, hosts ← acc; sub ← hostsInGroup fuel' inv cg; Some (CombineSlice sub hosts))
            (group_groups v) (Some []);
          Some (CombineSlice hosts (group_hosts v))
      end
  end.

(** [slices.Delete(l, i, i+1)] at [i = slices.Index(l, v)]. *)
Fixpoint remove_first (v : string) (l : list string) : list string :=
  match l with
  | [] => []
  | x :: l' => if bool_decide (x = v) then l' else x :: remove_first v l'
  end.

Definition ungroup_step (ungrouped : list string) (v : string) : list string :=
  if contains ungrouped v then remove_first v ungrouped else ungrouped.

Definition group_step (fuel : nat) (inv : Inventory)
    (acc : option (gmap string (list string) * list string)) (gn : string)
    : option (gmap string (list string) * list string) :=
  '(groups, ungrouped) ← acc;
  hosts ← hostsInGroup fuel inv gn;
  Some (<[gn := hosts]> groups, fold_left ungroup_step hosts ungrouped).

Definition all_hosts (inv : Inventory) : list string :=
  let all := map fst (inv_hosts inv) in
  if contains all VariableLocalHost then all else all ++ [VariableLocalHost].

Definition ConvertGroup_fuel (fuel : nat) (inv : Inventory) : option (gmap string (list string)) :=
  '(groups, ungrouped) ←
    fold_left (group_step fuel inv) (map fst (inv_groups inv))
      (Some ({[VariableGroupsAll := all_hosts inv]}, map fst (inv_hosts inv)));
  Some (<[VariableUnGrouped := ungrouped]> groups).

(** A chain of distinct groups is no longer than the number of groups:
    [ConvertGroup_total] shows that this fuel is enough. *)
Definition ConvertGroup (inv : Inventory) : option (gmap string (list string)) :=
  ConvertGroup_fuel (S (length (inv_groups inv))) inv.

(** ** Specification *)

(** Membership of a host in a group, through any nesting. *)
Inductive in_group (inv : Inventory) : string → string → Prop :=
| in_group_here g v h :
    alookup g (inv_groups inv) = Some v → h ∈ group_hosts v → in_group inv g h
| in_group_sub g v cg h :
    alookup g (inv_groups inv) = Some v → cg ∈ group_groups v → in_group inv cg h →
    in_group inv g h.

(** The references between groups; the groups are well founded when no group
    reaches itself. *)
Definition child (inv : Inventory) (g cg : string) : Prop :=
  ∃ v, alookup g (inv_groups inv) = Some v ∧ cg ∈ group_groups v.

Definition acyclic (inv : Inventory) : Prop := ∀ g, ¬ tc (child inv) g g.

(** A walk along the references: the groups it leaves, in order. *)
Inductive walk (inv : Inventory) : string → list string → Prop :=
| walk_nil g : walk inv g []
| walk_cons g cg l : child inv g cg → walk inv cg l → walk inv g (g :: l).

(** ** Lemmas *)

Lemma alookup_In {A} k (l : list (string * A)) : is_Some (alookup k l) ↔ k ∈ map fst l.
Proof.
  induction l as [|[k' a] l IH]; simpl.
  - split; [intros [? ?]; done|set_solver].
  - case_bool_decide; subst; [set_solver|]. rewrite IH. set_solver.
Qed.

(** The state of the [CombineSlice] loops: [seen] is the set of [mg]. *)
Lemma alookup_aset {A} k k' (a : A) l : alookup k' (aset k a l) = if bool_decide (k' = k) then Some a else alookup k' l.
Proof.
  induction l as [|[k0 a0] l IH]; simpl.
  - by case_bool_decide.
  - destruct (decide (k = k0)) as [->|Hne]; [rewrite bool_decide_eq_true_2 by done|rewrite (bool_decide_eq_false_2 (k = k0)) by done]; simpl.
    + by case_bool_decide.
    + rewrite IH. repeat case_bool_decide; congruence.
Qed.

Lemma aset_same {A} k (a : A) l : alookup k l = Some a → aset k a l = l.
Proof. induction l as [|[k0 a0] l IH]; simpl; [done|]. case_bool_decide; [by intros [= ->]; subst|]. intros Hl. by rewrite IH. Qed.

Lemma alookup_map {A B} (f : A → B) k l : alookup k (map (λ ka, (ka.1, f ka.2)) l) = f <$> alookup k l.
Proof. induction l as [|[k0 a0] l IH]; simpl; [done|]. by case_bool_decide. Qed.

Lemma combine_fold_inv l st :
  (∀ x, x ∈ st.1 ↔ x ∈ st.2) → NoDup st.2 →
  let st' := fold_left combine_step l st in
  (∀ x, x ∈ st'.1 ↔ x ∈ st'.2) ∧ NoDup st'.2 ∧ st.2 `prefix_of` st'.2
  ∧ (∀ x, x ∈ st'.2 ↔ x ∈ st.2 ∨ x ∈ l).
Proof.
  revert st. induction l as [|v l IH]; intros st Hst Hnd; simpl.
  { split_and!; [done|done|done|set_solver]. }
  destruct (decide (v ∈ st.1)) as [Hv|Hv].
  - assert (combine_step st v = st) as -> by (unfold combine_step; by rewrite bool_decide_true).
    destruct (IH st Hst Hnd) as (H1 & H2 & H3 & H4). split_and!; [done|done|done|].
    intros x. rewrite H4. set_solver.
  - assert (combine_step st v = ({[v]} ∪ st.1, st.2 ++ [v])) as ->
      by (unfold combine_step; by rewrite bool_decide_false).
    destruct (IH ({[v]} ∪ st.1, st.2 ++ [v])) as (H1 & H2 & H3 & H4); simpl.
    { set_solver. }
    { apply NoDup_app. split_and!; [done|set_solver|apply NoDup_singleton]. }
    split_and!; [done|done| |].
    + etrans; [|exact H3]. by apply prefix_app_r.
    + intros x. rewrite H4. simpl. set_solver.
Qed.

Lemma CombineSlice_spec g1 g2 :
  NoDup (CombineSlice g1 g2) ∧ ∀ x, x ∈ CombineSlice g1 g2 ↔ x ∈ g1 ∨ x ∈ g2.
Proof.
  unfold CombineSlice.
  destruct (combine_fold_inv g1 (∅, [])) as (H1 & H2 & _ & H4); [set_solver|constructor|].
  destruct (combine_fold_inv g2 _ H1 H2) as (_ & H6 & _ & H8).
  split; [done|]. intros x. rewrite H8, H4. set_solver.
Qed.

Lemma CombineSlice_elem g1 g2 x : x ∈ CombineSlice g1 g2 ↔ x ∈ g1 ∨ x ∈ g2.
Proof. apply CombineSlice_spec. Qed.

(** Already distinct values in front stay in front. *)
Lemma combine_fold_NoDup l st :
  (∀ x, x ∈ l → x ∉ st.1) → NoDup l → (fold_left combine_step l st).2 = st.2 ++ l.
Proof.
  revert st. induction l as [|v l IH]; intros st Hst Hnd; simpl; [by rewrite app_nil_r|].
  apply NoDup_cons in Hnd as [Hv Hnd]. unfold combine_step at 2.
  rewrite bool_decide_false by set_solver. rewrite IH; simpl; [by rewrite <- app_assoc| |done].
  intros x Hx. set_solver.
Qed.

Lemma CombineSlice_prefix g1 g2 : NoDup g1 → g1 `prefix_of` CombineSlice g1 g2.
Proof.
  intros Hnd. unfold CombineSlice.
  destruct (combine_fold_inv g1 (∅, [])) as (H1 & H2 & _ & _); [set_solver|constructor|].
  destruct (combine_fold_inv g2 _ H1 H2) as (_ & _ & H7 & _).
  by rewrite combine_fold_NoDup in H7 by (set_solver || done).
Qed.

(** ** Group recursion *)

Notation sub_step fuel inv :=
  (λ acc cg, hosts ← acc; sub ← hostsInGroup fuel inv cg; Some (CombineSlice sub hosts)).

Lemma fold_sub_None fuel inv gs :
  fold_left (sub_step fuel inv) gs None = None.
Proof. induction gs; simpl; auto. Qed.

Lemma fold_sub_Some fuel inv gs acc r :
  fold_left (sub_step fuel inv) gs (Some acc) = Some r →
  (∀ cg, cg ∈ gs → ∃ hs, hostsInGroup fuel inv cg = Some hs)
  ∧ (∀ x, x ∈ r ↔ x ∈ acc ∨ ∃ cg hs, cg ∈ gs ∧ hostsInGroup fuel inv cg = Some hs ∧ x ∈ hs).
Proof.
  revert acc. induction gs as [|g gs IH]; intros acc H; simpl in H.
  { simplify_eq. set_solver. }
  destruct (hostsInGroup fuel inv g) as [sub|] eqn:E; simpl in H.
  2:{ by rewrite fold_sub_None in H. }
  destruct (IH _ H) as [H1 H2]. split; [set_solver|].
  intros x. rewrite H2, CombineSlice_elem. split; [set_solver|].
  intros [Hx|(cg & hs & Hcg & Ehs & Hx)]; [by left; right|].
  apply elem_of_cons in Hcg as [->|Hcg]; [|right; eauto].
  left; left. by simplify_eq.
Qed.

Lemma fold_sub_fails fuel inv gs acc :
  fold_left (sub_step fuel inv) gs (Some acc) = None ↔
  ∃ cg, cg ∈ gs ∧ hostsInGroup fuel inv cg = None.
Proof.
  revert acc. induction gs as [|g gs IH]; intros acc; simpl; [set_solver|].
  destruct (hostsInGroup fuel inv g) as [sub|] eqn:E; simpl.
  - rewrite IH. split; [set_solver|]. intros (cg & [->|Hcg]%elem_of_cons & En); [congruence|eauto].
  - rewrite fold_sub_None. split; [|done]. intros _. exists g. set_solver.
Qed.

Lemma hostsInGroup_sound fuel inv g hs :
  hostsInGroup fuel inv g = Some hs → NoDup hs ∧ ∀ x, x ∈ hs ↔ in_group inv g x.
Proof.
  revert g hs. induction fuel as [|fuel IH]; intros g hs H; simpl in H; [done|].
  destruct (alookup g (inv_groups inv)) as [v|] eqn:Eg.
  2:{ simplify_eq. split; [constructor|]. intros x. split; [set_solver|].
      inversion 1; congruence. }
  destruct (fold_left _ _ _) as [sub|] eqn:Ef; simpl in H; simplify_eq.
  apply fold_sub_Some in Ef as [Hall Hsub].
  destruct (CombineSlice_spec sub (group_hosts v)) as [Hnd Hel]. split; [done|].
  intros x. rewrite Hel, Hsub. split.
  - intros [[Hx|(cg & hs & Hcg & Ehs & Hx)]|Hx]; [set_solver| |by eapply in_group_here].
    eapply in_group_sub; [done..|]. by apply (IH _ _ Ehs).
  - inversion 1 as [? v' ? Ev Hx|? v' cg ? Ev Hcg Hx]; simplify_eq; [by right|].
    left; right. destruct (Hall _ Hcg) as [hs Ehs]. exists cg, hs.
    split_and!; [done..|]. by apply (IH _ _ Ehs).
Qed.

(** A call that does not return within [fuel] calls walks through [fuel]
    defined groups. *)
Lemma hostsInGroup_walk fuel inv g :
  hostsInGroup fuel inv g = None → ∃ l, walk inv g l ∧ length l = fuel.
Proof.
  revert g. induction fuel as [|fuel IH]; intros g H; simpl in H.
  { exists []. split; [constructor|done]. }
  destruct (alookup g (inv_groups inv)) as [v|] eqn:Eg; [|done].
  destruct (fold_left _ _ _) as [sub|] eqn:Ef; simpl in H; [done|].
  apply fold_sub_fails in Ef as (cg & Hcg & En). destruct (IH _ En) as (l & Hw & Hl).
  exists (g :: l). split; [|by simpl; rewrite Hl]. econstructor; [|done]. by exists v.
Qed.

Lemma walk_defined inv g l : walk inv g l → l ⊆ map fst (inv_groups inv).
Proof.
  induction 1 as [|g cg l [v [Ev _]] Hw IH]; [set_solver|].
  intros x [->|Hx]%elem_of_cons; [|by apply IH]. apply alookup_In. eauto.
Qed.

Lemma walk_reaches inv g l x : walk inv g l → x ∈ l → rtc (child inv) g x.
Proof.
  induction 1 as [|g cg l Hc Hw IH]; [set_solver|].
  intros [->|Hx]%elem_of_cons; [done|]. eapply rtc_l; [done|auto].
Qed.

Lemma walk_NoDup inv g l : acyclic inv → walk inv g l → NoDup l.
Proof.
  intros Ha. induction 1 as [|g cg l Hc Hw IH]; constructor; [|done].
  intros Hg. apply (Ha g). eapply tc_rtc_r; [by apply tc_once|]. by eapply walk_reaches.
Qed.

Lemma NoDup_subset_length (l k : list string) : NoDup l → l ⊆ k → length l ≤ length k.
Proof.
  intros Hnd Hsub. apply submseteq_length. by apply NoDup_submseteq.
Qed.

Lemma hostsInGroup_total inv g :
  acyclic inv → ∃ hs, hostsInGroup (S (length (inv_groups inv))) inv g = Some hs.
Proof.
  intros Ha. destruct (hostsInGroup _ _ _) as [hs|] eqn:E; [by exists hs|].
  apply hostsInGroup_walk in E as (l & Hw & Hl).
  pose proof (NoDup_subset_length _ _ (walk_NoDup _ _ _ Ha Hw) (walk_defined _ _ _ Hw)).
  rewrite length_map in H. lia.
Qed.

Lemma hostsInGroup_cyclic fuel inv g : tc (child inv) g g → hostsInGroup fuel inv g = None.
Proof.
  revert g. induction fuel as [|fuel IH]; intros g Hc; [done|]. simpl.
  assert (∃ cg, child inv g cg ∧ tc (child inv) cg cg) as (cg & [v [Ev Hcg]] & Ht).
  { inversion Hc as [? ? H|? cg ? H Ht]; subst; [exists g; split; [done|by apply tc_once]|].
    exists cg. split; [done|]. eapply tc_r; [done|done]. }
  rewrite Ev. assert (fold_left (sub_step fuel inv) (group_groups v) (Some []) = None) as ->; [|done].
  apply fold_sub_fails. eauto.
Qed.

(** ** The flattened map *)

Lemma ungroup_step_spec u v :
  NoDup u → NoDup (ungroup_step u v) ∧ ∀ x, x ∈ ungroup_step u v ↔ x ∈ u ∧ x ≠ v.
Proof.
  intros Hnd. unfold ungroup_step. destruct (contains_spec u v) as [Hv|Hv]; [|set_solver].
  clear Hv. induction Hnd as [|y u Hy Hnd IH]; simpl; [split; [constructor|set_solver]|].
  case_bool_decide as E; [subst; split; [done|set_solver]|].
  destruct IH as [IH1 IH2]. split; [|set_solver].
  constructor; [|done]. rewrite IH2. set_solver.
Qed.

Lemma ungroup_fold_spec hs u :
  NoDup u →
  NoDup (fold_left ungroup_step hs u) ∧
  ∀ x, x ∈ fold_left ungroup_step hs u ↔ x ∈ u ∧ x ∉ hs.
Proof.
  revert u. induction hs as [|h hs IH]; intros u Hnd; simpl; [set_solver|].
  destruct (ungroup_step_spec u h Hnd) as [H1 H2].
  destruct (IH _ H1) as [H3 H4]. split; [done|]. intros x. rewrite H4, H2. set_solver.
Qed.

Lemma group_fold_spec inv gns m u :
  acyclic inv → NoDup u →
  ∃ m' u', fold_left (group_step (S (length (inv_groups inv))) inv) gns (Some (m, u)) = Some (m', u')
  ∧ (∀ g, m' !! g = if bool_decide (g ∈ gns)
                    then hostsInGroup (S (length (inv_groups inv))) inv g else m !! g)
  ∧ NoDup u' ∧ (∀ x, x ∈ u' ↔ x ∈ u ∧ ∀ g, g ∈ gns → ¬ in_group inv g x).
Proof.
  intros Ha. set (fuel := S (length (inv_groups inv))).
  revert m u. induction gns as [|g gns IH]; intros m u Hnd; cbn [fold_left].
  { exists m, u. split_and!; [done|done|done|set_solver]. }
  destruct (hostsInGroup_total inv g Ha) as [hs Ehs]. fold fuel in Ehs.
  assert (group_step fuel inv (Some (m, u)) g
          = Some (<[g := hs]> m, fold_left ungroup_step hs u)) as ->
    by (unfold group_step; cbn [mbind option_bind]; by rewrite Ehs).
  destruct (hostsInGroup_sound _ _ _ _ Ehs) as [_ Hin].
  destruct (ungroup_fold_spec hs u Hnd) as [Hnd' Hel].
  destruct (IH (<[g:=hs]> m) _ Hnd') as (m' & u' & E & Hm & Hu & Hx).
  exists m', u'. split_and!; [done| |done|].
  - intros g'. rewrite Hm. destruct (decide (g' ∈ gns)) as [Hg'|Hg'].
    + rewrite !bool_decide_true by set_solver. done.
    + rewrite (bool_decide_false (g' ∈ gns)) by done.
      destruct (decide (g' = g)) as [->|Hne].
      * rewrite bool_decide_true by set_solver. by rewrite lookup_insert_eq.
      * rewrite bool_decide_false by set_solver. by rewrite lookup_insert_ne.
  - intros x. rewrite Hx, Hel, Hin. split; [|set_solver].
    intros [[H1 H2] H3]. split; [done|]. intros g' [->|Hg']%elem_of_cons; auto.
Qed.

Lemma acyclic_by_rank inv (rank : string → nat) :
  (∀ g cg, child inv g cg → rank cg < rank g) → acyclic inv.
Proof.
  intros Hr g Hg. assert (∀ x y, tc (child inv) x y → rank y < rank x) as H.
  { induction 1 as [x y H|x y z H _ IH]; [by apply Hr|]. specialize (Hr _ _ H). lia. }
  specialize (H _ _ Hg). lia.
Qed.

Lemma ConvertGroup_flattens inv :
  acyclic inv → NoDup (map fst (inv_hosts inv)) →
  ∃ groups, ConvertGroup inv = Some groups
  ∧ (VariableGroupsAll ∉ map fst (inv_groups inv) →
     ∃ all, groups !! VariableGroupsAll = Some all ∧ NoDup all
       ∧ ∀ x, x ∈ all ↔ x ∈ map fst (inv_hosts inv) ∨ x = VariableLocalHost)
  ∧ (∀ g, g ∈ map fst (inv_groups inv) → g ≠ VariableUnGrouped →
     ∃ hs, groups !! g = Some hs ∧ NoDup hs ∧ ∀ x, x ∈ hs ↔ in_group inv g x)
  ∧ (∃ u, groups !! VariableUnGrouped = Some u ∧ NoDup u
       ∧ ∀ x, x ∈ u ↔ x ∈ map fst (inv_hosts inv)
                      ∧ ∀ g, g ∈ map fst (inv_groups inv) → ¬ in_group inv g x).
Proof.
  intros Ha Hnd. unfold ConvertGroup, ConvertGroup_fuel.
  destruct (group_fold_spec inv (map fst (inv_groups inv))
              {[VariableGroupsAll := all_hosts inv]} _ Ha Hnd) as (m & u & E & Hm & Hu & Hx).
  rewrite E. simpl. eexists; split; [done|]. split_and!.
  - intros Hall. exists (all_hosts inv). rewrite lookup_insert_ne by done.
    rewrite Hm, bool_decide_false, lookup_singleton_eq by done. split; [done|].
    unfold all_hosts. destruct (contains_spec (map fst (inv_hosts inv)) VariableLocalHost).
    + split; [done|]. naive_solver.
    + split; [|set_solver]. apply NoDup_app. split_and!; [done|set_solver|apply NoDup_singleton].
  - intros g Hg Hne. rewrite lookup_insert_ne by done. rewrite Hm, bool_decide_true by done.
    destruct (hostsInGroup_total inv g Ha) as [hs Ehs]. exists hs. split; [done|].
    by destruct (hostsInGroup_sound _ _ _ _ Ehs).
  - exists u. by rewrite lookup_insert_eq.
Qed.

(** ** Properties *)

(** For an inventory whose groups are not nested in a cycle,
    [hostsInGroup] returns, without duplicates, exactly the hosts that belong
    to the group directly or through nested groups; a chain of calls is at
    most as long as there are groups. *)
Theorem hostsInGroup_correct inv g :
  acyclic inv →
  ∃ hs, hostsInGroup (S (length (inv_groups inv))) inv g = Some hs
    ∧ NoDup hs ∧ ∀ x, x ∈ hs ↔ in_group inv g x.
Proof.
  intros Ha. destruct (hostsInGroup_total inv g Ha) as [hs E]. exists hs.
  destruct (hostsInGroup_sound _ _ _ _ E). done.
Qed.

(** A group that contains itself, directly or through others, makes the
    recursion run forever: no number of nested calls is enough. *)
Theorem hostsInGroup_diverges inv g :
  tc (child inv) g g → ∀ fuel, hostsInGroup fuel inv g = None.
Proof. intros H fuel. by apply hostsInGroup_cyclic. Qed.

(** C26: [ConvertGroup] on an acyclic inventory with distinct hosts returns;
    "all" holds every host and localhost, every declared group (not named
    "ungrouped") its flattened hosts, and "ungrouped" exactly the inventory
    hosts that are in no group, each once. *)
Theorem ConvertGroup_total inv :
  acyclic inv → NoDup (map fst (inv_hosts inv)) →
  ∃ groups, ConvertGroup inv = Some groups
  ∧ (VariableGroupsAll ∉ map fst (inv_groups inv) →
     ∃ all, groups !! VariableGroupsAll = Some all ∧ NoDup all
       ∧ ∀ x, x ∈ all ↔ x ∈ map fst (inv_hosts inv) ∨ x = VariableLocalHost)
  ∧ (∀ g, g ∈ map fst (inv_groups inv) → g ≠ VariableUnGrouped →
     ∃ hs, groups !! g = Some hs ∧ NoDup hs ∧ ∀ x, x ∈ hs ↔ in_group inv g x)
  ∧ (∃ u, groups !! VariableUnGrouped = Some u ∧ NoDup u
       ∧ ∀ x, x ∈ u ↔ x ∈ map fst (inv_hosts inv)
                      ∧ ∀ g, g ∈ map fst (inv_groups inv) → ¬ in_group inv g x).
Proof. apply ConvertGroup_flattens. Qed.

(** ** A concrete inventory *)

Definition ex_inventory : Inventory :=
  {| inv_hosts := [("node1", ""); ("node2", ""); ("node3", "")];
     inv_vars := "";
     inv_groups := [("k8s_cluster", {| group_groups := ["master"]; group_hosts := []; group_vars := "" |});
                    ("master", {| group_groups := []; group_hosts := ["node1"; "node2"]; group_vars := "" |})] |}.

Definition loop_inventory : Inventory :=
  {| inv_hosts := []; inv_vars := "";
     inv_groups := [("a", {| group_groups := ["b"]; group_hosts := []; group_vars := "" |});
                    ("b", {| group_groups := ["a"]; group_hosts := ["node1"]; group_vars := "" |})] |}.

Lemma ex_inventory_acyclic : acyclic ex_inventory.
Proof.
  apply (acyclic_by_rank _ (λ g, if bool_decide (g = "k8s_cluster") then 1 else 0)).
  intros g cg (v & Ev & Hcg). simpl in Ev. repeat case_bool_decide; simplify_eq; set_solver by lia.
Qed.

Lemma hostsInGroup_correct_witness :
  ∃ hs, hostsInGroup 3 ex_inventory "k8s_cluster" = Some hs
    ∧ NoDup hs ∧ ∀ x, x ∈ hs ↔ in_group ex_inventory "k8s_cluster" x.
Proof. apply (hostsInGroup_correct ex_inventory "k8s_cluster"), ex_inventory_acyclic. Defined.

Lemma hostsInGroup_diverges_witness : hostsInGroup 100 loop_inventory "a" = None.
Proof.
  apply (hostsInGroup_diverges loop_inventory "a").
  eapply tc_l; [|apply tc_once]; (eexists; split; [vm_compute; reflexivity|by left]).
Defined.

Example ConvertGroup_ex :
  (groups ← ConvertGroup ex_inventory; groups !! VariableUnGrouped) = Some ["node3"]
  ∧ (groups ← ConvertGroup ex_inventory; groups !! "k8s_cluster") = Some ["node1"; "node2"]
  ∧ (groups ← ConvertGroup ex_inventory; groups !! VariableGroupsAll)
    = Some ["node1"; "node2"; "node3"; "localhost"].
Proof. split_and!; vm_compute; reflexivity. Qed.

Lemma ConvertGroup_total_witness :
  ∃ groups u, ConvertGroup ex_inventory = Some groups
  ∧ groups !! VariableUnGrouped = Some u ∧ NoDup u.
Proof.
  destruct (ConvertGroup_total ex_inventory) as (groups & E & _ & _ & u & Hu & Hnd & _);
    [apply ex_inventory_acyclic|repeat constructor; set_solver|].
  exists groups, u. done.
Defined.
