(* ===== verification/Vars.v ===== *)
(** * The variable store: [src/feature/pkg/variable]

    [CombineVariables] is the deep merge every layer of variables goes
    through; [GetAllVariable] stacks the layers of one host; [Merge] runs a
    merge function on a copy and writes the hosts that changed back to the
    source.  Here the store is the values it holds, so the copy shares nothing
    with it: that is what the code does for merge functions that replace maps
    (facts, results, new variables).  [LiveVars] models the references. *)

From S2P Require Import Prelude Values Groups.
From stdpp Require Import gmap strings list sets.

Definition VariableIPv4 : string := "internal_ipv4".
Definition VariableIPv6 : string := "internal_ipv6".
Definition VariableGroups : string := "groups".
Definition VariableInventoryName : string := "inventory_hostname".
Definition VariableHostName : string := "hostname".
Definition VariableGlobalHosts : string := "hostvars".
Definition VariableOS : string := "os".
Definition VariableOSHostName : string := "hostname".
Definition resultKey : string := "result".

(** ** [CombineVariables] *)

(** The inner function [f]: two maps are merged key by key, anything else is
    replaced.  A key missing on the left reads as nil. *)
Fixpoint combine_value (val1 val2 : value) {struct val2} : value :=
  match val2 with
  | VMap m2 =>
      match val1 with
      | VMap m1 => VMap (map_imap (λ k v2, Some (combine_value (default VNil (m1 !! k)) v2)) m2 ∪ m1)
      | _ => val2
      end
  | _ => val2
  end.

Definition CombineVariables (m1 m2 : gmap string value) : gmap string value :=
  map_imap (λ k v2, Some (combine_value (default VNil (m1 !! k)) v2)) m2 ∪ m1.

(** ** The store *)

(** [host]: a nil map is [None]; reading it is reading the empty map, but
    [reflect.DeepEqual] tells it from an empty one. *)
Record HostVars := {
  RemoteVars : option (gmap string value);
  RuntimeVars : option (gmap string value);
}.

#[export] Instance HostVars_eq_dec : EqDecision HostVars.
Proof. solve_decision. Defined.

Definition nil_host : HostVars := {| RemoteVars := None; RuntimeVars := None |}.

Record VarValue := {
  v_config : string;
  v_inventory : Inventory;
  v_hosts : gmap string HostVars;
  v_result : option (gmap string value);
}.

Definition set_hosts (v : VarValue) (h : gmap string HostVars) : VarValue :=
  {| v_config := v_config v; v_inventory := v_inventory v; v_hosts := h; v_result := v_result v |}.
Definition set_result (v : VarValue) (r : option (gmap string value)) : VarValue :=
  {| v_config := v_config v; v_inventory := v_inventory v; v_hosts := v_hosts v; v_result := r |}.

Definition mapof (m : option (gmap string value)) : gmap string value := default ∅ m.

Section Store.

(** [json.Unmarshal] of [k8s.io/apimachinery] into a map, and the address a
    local interface has (empty when there is none). *)
Context (json_unmarshal : string → option (gmap string value)).
Context (getLocalIP : string → string).

(** A failed decoding is logged and leaves the map nil. *)
Definition Extension2Variables (raw : string) : gmap string value :=
  if bool_decide (raw = "") then ∅ else default ∅ (json_unmarshal raw).

(** [if _, ok := m[k]; !ok { m[k] = v }] *)
Definition set_default (k : string) (v : value) (m : gmap string value) : gmap string value :=
  match m !! k with Some _ => m | None => <[k := v]> m end.

Definition defaultHostVariable (hostname : string) (hostVars : gmap string value)
    : gmap string value :=
  let m1 :=
    if bool_decide (hostname = VariableLocalHost) then
      set_default VariableIPv6 (VStr (getLocalIP VariableIPv6))
        (set_default VariableIPv4 (VStr (getLocalIP VariableIPv4)) hostVars)
    else hostVars in
  let m2 :=
    match m1 !! VariableOS with
    | Some (VMap osd) => <[VariableHostName := default VNil (osd !! VariableOSHostName)]> m1
    | _ => m1
    end in
  set_default VariableHostName (VStr hostname)
    (set_default VariableInventoryName (VStr hostname) m2).

(** The group layer: every group that lists the host itself, in the order of
    the iteration. *)
Definition group_layer (inv : Inventory) (hostname : string) : gmap string value :=
  fold_left (λ vars '(_, gv),
               if contains (group_hosts gv) hostname
               then CombineVariables vars (Extension2Variables (group_vars gv)) else vars)
    (inv_groups inv) ∅.

(** One turn of [getHostsVariable]. *)
Definition hostVariable (v : VarValue) (hostname : string) (hv : HostVars) : gmap string value :=
  let vars := group_layer (v_inventory v) hostname in
  let vars := CombineVariables vars (mapof (RemoteVars hv)) in
  let vars := CombineVariables vars (mapof (RuntimeVars hv)) in
  let vars := CombineVariables vars (Extension2Variables (inv_vars (v_inventory v))) in
  let vars := CombineVariables vars
    (Extension2Variables (default "" (alookup hostname (inv_hosts (v_inventory v))))) in
  let vars := CombineVariables vars (Extension2Variables (v_config v)) in
  defaultHostVariable hostname vars.

Definition getHostsVariable (v : VarValue) : gmap string value :=
  map_imap (λ hostname hv, Some (VMap (hostVariable v hostname hv))) (v_hosts v).

Definition groups_value (g : gmap string (list string)) : value :=
  VMap ((λ hs, VList (VStr <$> hs)) <$> g).

(** [None]: [ConvertGroup] does not return. *)
Definition GetAllVariable (hostname : string) (v : VarValue) : option (gmap string value) :=
  let hosts := getHostsVariable v in
  match hosts !! hostname with
  | Some (VMap hostVars) =>
      groups ← ConvertGroup (v_inventory v);
      Some (CombineVariables
              (CombineVariables hostVars {[VariableGlobalHosts := VMap hosts]})
              {[VariableGroups := groups_value groups]})
  | _ => Some ∅
  end.

(** [GetHostMaxLength] *)
Definition GetHostMaxLength (v : VarValue) : nat :=
  map_fold (λ k _ n, Nat.max (String.length k) n) 0 (v_hosts v).

(** [GetResultVariable]: a nil map reads as nil. *)
Definition GetResultVariable (v : VarValue) : value :=
  default VNil (mapof (v_result v) !! resultKey).

(** ** Merging *)

(** [MergeRemoteVariable(data, hostnames...)] *)
Fixpoint MergeRemoteVariable (data : gmap string value) (hostnames : list string) (v : VarValue)
    : result VarValue :=
  match hostnames with
  | [] => Ok v
  | hostname :: rest =>
      match v_hosts v !! hostname with
      | None => Err (Msg ("when merge source is remote. HostName " +:+ hostname +:+ " not exist"))
      | Some hv =>
          if bool_decide (size (mapof (RemoteVars hv)) = 0)
          then MergeRemoteVariable data rest
                 (set_hosts v (<[hostname := {| RemoteVars := Some data;
                                                RuntimeVars := RuntimeVars hv |}]> (v_hosts v)))
          else MergeRemoteVariable data rest v
      end
  end.

(** [MergeResultVariable(result)] *)
Definition MergeResultVariable (r : value) (v : VarValue) : result VarValue :=
  Ok (set_result v (Some (CombineVariables (mapof (v_result v)) {[resultKey := r]}))).

(** The source: what has been written, per host, and the write itself, which
    the file system may refuse. *)

Context (source_write : string → HostVars → option error).

(** [syncSource]: the loop over [v.value.Hosts] in the order [order]. *)
Fixpoint sync_hosts (newVal : VarValue) (order : list string) (v : VarValue) (src : gmap string HostVars)
    : VarValue * gmap string HostVars * option error :=
  match order with
  | [] => (v, src, None)
  | hn :: rest =>
      let nh := default nil_host (v_hosts newVal !! hn) in
      if bool_decide (Some nh = v_hosts v !! hn) then sync_hosts newVal rest v src
      else match source_write hn nh with
           | Some e => (v, src, Some (Wrap ("failed to write host " +:+ hn +:+ " variable to source") e))
           | None => sync_hosts newVal rest (set_hosts v (<[hn := nh]> (v_hosts v))) (<[hn := nh]> src)
           end
  end.

Definition syncSource (newVal : VarValue) (order : list string) (v : VarValue) (src : gmap string HostVars) :=
  sync_hosts newVal order (set_result v (v_result newVal)) src.

(** [Merge]: the lock makes it atomic; the merge function works on a copy,
    which it changes by replacing maps. *)
Definition Merge (f : VarValue → result VarValue) (order : list string) (v : VarValue) (src : gmap string HostVars)
    : VarValue * gmap string HostVars * option error :=
  match f v with
  | Ok nv => syncSource nv order v src
  | Err e => (v, src, Some e)
  | Panic w => (v, src, Some (Msg w))
  end.

End Store.

(** ** Paths into nested maps *)

Fixpoint vget (p : list string) (m : gmap string value) : option value :=
  match p with
  | [] => None
  | [k] => m !! k
  | k :: p' => match m !! k with Some (VMap m') => vget p' m' | _ => None end
  end.

(** The walk along [p] stays inside maps until a key is missing: [m] says
    nothing about [p]. *)
Fixpoint silent (p : list string) (m : gmap string value) : Prop :=
  match p with
  | [] => False
  | k :: p' => match m !! k with
               | None => True
               | Some (VMap m') => silent p' m'
               | Some _ => False
               end
  end.

Definition scalar (v : value) : Prop := match v with VMap _ => False | _ => True end.

(** ** Deep merge *)

Lemma CombineVariables_lookup m1 m2 k :
  CombineVariables m1 m2 !! k =
    match m2 !! k with
    | Some v2 => Some (combine_value (default VNil (m1 !! k)) v2)
    | None => m1 !! k
    end.
Proof.
  unfold CombineVariables. rewrite lookup_union, map_lookup_imap.
  destruct (m2 !! k), (m1 !! k); done.
Qed.

Lemma combine_value_maps m1 m2 : combine_value (VMap m1) (VMap m2) = VMap (CombineVariables m1 m2).
Proof. done. Qed.

Lemma combine_value_scalar v1 v2 : scalar v2 → combine_value v1 v2 = v2.
Proof. by destruct v2. Qed.

Lemma combine_value_left v1 v2 : scalar v1 → combine_value v1 v2 = v2.
Proof. by destruct v1, v2. Qed.

Lemma combine_value_idemp v : combine_value v v = v.
Proof.
  induction v as [ | | | | | | |m IH] using value_ind; try done.
  rewrite combine_value_maps. f_equal. apply map_eq. intros k.
  rewrite CombineVariables_lookup. destruct (m !! k) as [v|] eqn:E; [|done].
  simpl. by rewrite (IH _ _ E).
Qed.

Lemma CombineVariables_empty_r m : CombineVariables m ∅ = m.
Proof. apply map_eq. intros k. by rewrite CombineVariables_lookup, lookup_empty. Qed.

Lemma CombineVariables_empty_l m : CombineVariables ∅ m = m.
Proof.
  apply map_eq. intros k. rewrite CombineVariables_lookup, lookup_empty. simpl.
  destruct (m !! k); [|done]. by rewrite combine_value_left.
Qed.

Lemma CombineVariables_dom m1 m2 :
  dom (CombineVariables m1 m2) = dom m1 ∪ dom m2.
Proof.
  apply set_eq. intros k. rewrite elem_of_union, !elem_of_dom, CombineVariables_lookup.
  destruct (m1 !! k), (m2 !! k); naive_solver.
Qed.

Lemma vget_cons k k' p m :
  vget (k :: k' :: p) m = match m !! k with Some (VMap m') => vget (k' :: p) m' | _ => None end.
Proof. done. Qed.

Lemma silent_vget p m : silent p m → vget p m = None.
Proof.
  revert m. induction p as [|k p IH]; intros m H; [done|].
  destruct p as [|k' p].
  - simpl in *. destruct (m !! k) as [[]|]; done.
  - rewrite vget_cons. simpl in H. destruct (m !! k) as [[]|]; try done. by apply IH.
Qed.

Lemma CombineVariables_right m1 m2 p x :
  vget p m2 = Some x → scalar x → vget p (CombineVariables m1 m2) = Some x.
Proof.
  revert m1 m2. induction p as [|k p IH]; intros m1 m2 H Hx; [done|].
  destruct p as [|k' p].
  - simpl in *. by rewrite CombineVariables_lookup, H, combine_value_scalar.
  - rewrite vget_cons in *. rewrite CombineVariables_lookup.
    destruct (m2 !! k) as [[]|]; try done.
    destruct (m1 !! k) as [[]|]; try done. cbn [default from_option id]. rewrite combine_value_maps. by apply IH.
Qed.

Lemma CombineVariables_left m1 m2 p :
  silent p m2 → vget p (CombineVariables m1 m2) = vget p m1.
Proof.
  revert m1 m2. induction p as [|k p IH]; intros m1 m2 H; [done|].
  destruct p as [|k' p].
  - simpl in *. rewrite CombineVariables_lookup. by destruct (m2 !! k) as [[]|].
  - rewrite !vget_cons, CombineVariables_lookup.
    assert (silent (k' :: p) (default ∅ (match m2 !! k with Some (VMap m) => Some m | _ => None end))
            ∨ m2 !! k = None) as Hs.
    { simpl in H. destruct (m2 !! k) as [[]|]; auto; done. }
    destruct (m2 !! k) as [[| | | | | | |m2']|] eqn:E2; try (by simpl in H; rewrite E2 in H); try done.
    simpl in Hs. destruct Hs as [Hs|]; [|done].
    destruct (m1 !! k) as [[| | | | | | |m1']|]; cbn [default from_option id];
      rewrite ?combine_value_left by done; rewrite ?combine_value_maps;
      try (by apply silent_vget); by apply IH.
Qed.

(** ** Layers *)

Section Layers.
Context (json_unmarshal : string → option (gmap string value)) (getLocalIP : string → string).

(** The layers of a host, the weakest first. *)
Definition layers (v : VarValue) (hostname : string) (hv : HostVars) : list (gmap string value) :=
  [ group_layer json_unmarshal (v_inventory v) hostname;
    mapof (RemoteVars hv);
    mapof (RuntimeVars hv);
    Extension2Variables json_unmarshal (inv_vars (v_inventory v));
    Extension2Variables json_unmarshal (default "" (alookup hostname (inv_hosts (v_inventory v))));
    Extension2Variables json_unmarshal (v_config v) ].

Lemma hostVariable_layers v hostname hv :
  hostVariable json_unmarshal getLocalIP v hostname hv =
  defaultHostVariable getLocalIP hostname (fold_left CombineVariables (layers v hostname hv) ∅).
Proof. unfold hostVariable. simpl. by rewrite CombineVariables_empty_l. Qed.

Lemma fold_layers_silent post acc k :
  Forall (λ L : gmap string value, L !! k = None) post →
  fold_left CombineVariables post acc !! k = acc !! k.
Proof.
  intros H. revert acc. induction H as [|L post HL _ IH]; intros acc; simpl; [done|].
  by rewrite IH, CombineVariables_lookup, HL.
Qed.

Lemma fold_layers_decides pre L post acc k x :
  L !! k = Some x → scalar x → Forall (λ L : gmap string value, L !! k = None) post →
  fold_left CombineVariables (pre ++ L :: post) acc !! k = Some x.
Proof.
  intros HL Hx Hpost. rewrite fold_left_app. simpl. rewrite fold_layers_silent by done.
  by rewrite CombineVariables_lookup, HL, combine_value_scalar.
Qed.

Lemma set_default_keeps k v m k' x : m !! k' = Some x → set_default k v m !! k' = Some x.
Proof.
  intros H. unfold set_default. destruct (m !! k) eqn:E; [done|].
  destruct (decide (k = k')) as [->|]; [congruence|]. by rewrite lookup_insert_ne.
Qed.

Lemma defaultHostVariable_keeps hostname m k x :
  k ≠ VariableHostName → m !! k = Some x →
  defaultHostVariable getLocalIP hostname m !! k = Some x.
Proof.
  intros Hk H. unfold defaultHostVariable. do 2 apply set_default_keeps.
  set (m1 := if bool_decide _ then _ else m).
  assert (m1 !! k = Some x) as H1.
  { unfold m1. case_bool_decide; [|done]. by do 2 apply set_default_keeps. }
  destruct (m1 !! VariableOS) as [[]|]; try done. by rewrite lookup_insert_ne.
Qed.

Lemma GetAllVariable_host v hostname hv groups :
  v_hosts v !! hostname = Some hv → ConvertGroup (v_inventory v) = Some groups →
  ∃ all, GetAllVariable json_unmarshal getLocalIP hostname v = Some all
  ∧ ∀ k, k ≠ VariableGlobalHosts → k ≠ VariableGroups →
         all !! k = hostVariable json_unmarshal getLocalIP v hostname hv !! k.
Proof.
  intros Hh Hg. unfold GetAllVariable, getHostsVariable.
  rewrite map_lookup_imap, Hh. simpl. rewrite Hg. simpl. eexists. split; [done|].
  intros k H1 H2. rewrite !CombineVariables_lookup, !lookup_singleton_ne by done. done.
Qed.

End Layers.

(** ** Properties *)

(** [CombineVariables] is a deep, right-biased merge: along any path, a
    scalar of the right map wins, and where the right map says nothing the
    left map's value stays; both halves hold at every depth. *)
Theorem CombineVariables_deep m1 m2 p :
  (∀ x, vget p m2 = Some x → scalar x → vget p (CombineVariables m1 m2) = Some x)
  ∧ (silent p m2 → vget p (CombineVariables m1 m2) = vget p m1)
  ∧ dom (CombineVariables m1 m2) = dom m1 ∪ dom m2
  ∧ CombineVariables m1 m1 = m1.
Proof.
  split_and!.
  - intros; by apply CombineVariables_right.
  - apply CombineVariables_left.
  - apply CombineVariables_dom.
  - pose proof (combine_value_idemp (VMap m1)) as H. rewrite combine_value_maps in H.
    by injection H.
Qed.

Lemma GetAllVariable_decided json_unmarshal getLocalIP v hostname hv groups pre L post k x :
  v_hosts v !! hostname = Some hv → ConvertGroup (v_inventory v) = Some groups →
  layers json_unmarshal v hostname hv = pre ++ L :: post →
  L !! k = Some x → scalar x → Forall (λ L : gmap string value, L !! k = None) post →
  k ≠ VariableHostName → k ≠ VariableGlobalHosts → k ≠ VariableGroups →
  ∃ all, GetAllVariable json_unmarshal getLocalIP hostname v = Some all ∧ all !! k = Some x.
Proof.
  intros Hh Hg Hl HL Hx Hpost H1 H2 H3.
  destruct (GetAllVariable_host json_unmarshal getLocalIP v hostname hv groups) as (all & E & Hall);
    [done..|].
  exists all. split; [done|]. rewrite Hall by done. rewrite hostVariable_layers, Hl.
  apply defaultHostVariable_keeps; [done|]. by apply fold_layers_decides.
Qed.


(** Inventory-wide variables override the variables of a group (and
    gathered facts and runtime variables): the opposite of the order the type's
    comment gives (host vars, then group vars, then inventory vars). *)
Theorem inventory_vars_beat_group_vars json_unmarshal getLocalIP v hostname hv groups k x :
  v_hosts v !! hostname = Some hv → ConvertGroup (v_inventory v) = Some groups →
  Extension2Variables json_unmarshal (inv_vars (v_inventory v)) !! k = Some x → scalar x →
  Extension2Variables json_unmarshal (default "" (alookup hostname (inv_hosts (v_inventory v)))) !! k = None →
  Extension2Variables json_unmarshal (v_config v) !! k = None →
  k ∉ [VariableHostName; VariableGlobalHosts; VariableGroups] →
  ∃ all, GetAllVariable json_unmarshal getLocalIP hostname v = Some all ∧ all !! k = Some x.
Proof.
  intros Hh Hg Hx Hs H1 H2 Hk.
  destruct (GetAllVariable_host json_unmarshal getLocalIP v hostname hv groups) as (all & E & Hall);
    [done..|].
  exists all. split; [done|]. rewrite Hall by set_solver. rewrite hostVariable_layers.
  apply defaultHostVariable_keeps; [set_solver|].
  apply (fold_layers_decides [_; _; _] _ [_; _]); [done|done|]. by repeat constructor.
Qed.

(** ** Writing back *)

Section Merging.
Context (source_write : string → HostVars → option error).

(** What the source holds for a host is what the store holds. *)
Definition source_agrees (v : VarValue) (src : gmap string HostVars) : Prop :=
  ∀ hn hv, src !! hn = Some hv → v_hosts v !! hn = Some hv.

Lemma sync_hosts_spec nv order v src :
  source_agrees v src → (∀ hn, hn ∈ order → hn ∈ dom (v_hosts v)) →
  match sync_hosts source_write nv order v src with
  | (v', src', e) =>
      source_agrees v' src' ∧ dom (v_hosts v') = dom (v_hosts v) ∧ v_result v' = v_result v
      ∧ (∀ hn, hn ∉ order → v_hosts v' !! hn = v_hosts v !! hn)
      ∧ (e = None → ∀ hn, hn ∈ order →
           v_hosts v' !! hn = Some (default nil_host (v_hosts nv !! hn)))
  end.
Proof.
  revert v src. induction order as [|hn order IH]; intros v src Ha Hd; simpl.
  { split_and!; [done..|set_solver]. }
  assert (hn ∈ dom (v_hosts v)) as Hhn by set_solver.
  case_bool_decide as Heq.
  - specialize (IH v src Ha). destruct (sync_hosts _ _ _ _ _) as [[v' src'] e].
    destruct IH as (H1 & H2 & H3 & H4 & H5); [set_solver|].
    split_and!; [done|done|done|set_solver|].
    intros He hn' [->|Hin]%elem_of_cons; [|auto].
    destruct (decide (hn ∈ order)); [auto|]. rewrite H4 by done. by rewrite <- Heq.
  - destruct (source_write hn _) as [err|] eqn:Ew.
    { split_and!; [done..|]. done. }
    set (nh := default nil_host (v_hosts nv !! hn)) in *.
    specialize (IH (set_hosts v (<[hn := nh]> (v_hosts v))) (<[hn := nh]> src)).
    destruct (sync_hosts _ _ _ _ _) as [[v' src'] e].
    destruct IH as (H1 & H2 & H3 & H4 & H5).
    { intros hn' hv. simpl. rewrite !lookup_insert. case_decide; [done|]. apply Ha. }
    { simpl. set_solver. }
    split_and!; [done| |done| |].
    + rewrite H2. simpl. set_solver.
    + intros hn' Hn. rewrite H4 by set_solver. simpl. rewrite lookup_insert_ne by set_solver. done.
    + intros He hn' [->|Hin]%elem_of_cons; [|auto].
      destruct (decide (hn ∈ order)); [auto|]. rewrite H4 by done. simpl. by rewrite lookup_insert_eq.
Qed.

(** Where no write fails, every host ends with what the copy has. *)
Lemma sync_hosts_written nv order v src :
  (∀ hn hv, source_write hn hv = None) →
  ∃ hs src', sync_hosts source_write nv order v src = (set_hosts v hs, src', None) ∧
    ∀ hn, hs !! hn = if decide (hn ∈ order) then Some (default nil_host (v_hosts nv !! hn)) else v_hosts v !! hn.
Proof.
  intros HW. revert v src. induction order as [|h order IH]; intros v src; cbn [sync_hosts].
  { exists (v_hosts v), src. split; [by destruct v|]. intros hn. by rewrite decide_False by apply not_elem_of_nil. }
  case_bool_decide as E; [destruct (IH v src) as (hs & src' & Eq & Hhs)|rewrite HW;
    destruct (IH (set_hosts v (<[h := default nil_host (v_hosts nv !! h)]> (v_hosts v))) (<[h := default nil_host (v_hosts nv !! h)]> src))
      as (hs & src' & Eq & Hhs)].
  - exists hs, src'. split; [exact Eq|]. intros hn. rewrite Hhs. destruct (decide (hn = h)) as [->|Hne].
    + rewrite (decide_True (P := h ∈ h :: order)) by (by left). case_decide; [done|by rewrite <- E].
    + destruct (decide (hn ∈ order)), (decide (hn ∈ h :: order)); set_solver.
  - exists hs, src'. split; [exact Eq|]. intros hn. rewrite Hhs. simpl. destruct (decide (hn = h)) as [->|Hne].
    + rewrite (decide_True (P := h ∈ h :: order)) by (by left). case_decide; [done|by rewrite lookup_insert_eq].
    + rewrite lookup_insert_ne by done. destruct (decide (hn ∈ order)), (decide (hn ∈ h :: order)); set_solver.
Qed.

End Merging.


(** Gathered facts are written once: [MergeRemoteVariable] fails when a
    host does not exist, and otherwise gives the data to exactly the named
    hosts that have no facts yet, leaving every other host and all runtime
    variables alone. *)
Theorem MergeRemoteVariable_spec data hostnames v :
  data ≠ ∅ →
  match MergeRemoteVariable data hostnames v with
  | Ok nv =>
      (∀ hn, hn ∈ hostnames → hn ∈ dom (v_hosts v))
      ∧ (∀ hn hv, v_hosts v !! hn = Some hv →
           v_hosts nv !! hn =
             Some (if bool_decide (hn ∈ hostnames) && bool_decide (mapof (RemoteVars hv) = ∅)
                   then {| RemoteVars := Some data; RuntimeVars := RuntimeVars hv |} else hv))
      ∧ dom (v_hosts nv) = dom (v_hosts v)
  | Err _ => ∃ hn, hn ∈ hostnames ∧ v_hosts v !! hn = None
  | Panic _ => False
  end.
Proof.
  intros Hdata. revert v. induction hostnames as [|h hostnames IH]; intros v; simpl.
  { split_and!; [set_solver| |done]. intros hn hv Hhv. by rewrite Hhv. }
  destruct (v_hosts v !! h) as [hv|] eqn:Eh; [|exists h; set_solver].
  assert (h ∈ dom (v_hosts v)) as Hd by (apply elem_of_dom; eauto).
  case_bool_decide as Hsz; rewrite map_size_empty_iff in Hsz.
  - set (nh := {| RemoteVars := Some data; RuntimeVars := RuntimeVars hv |}).
    specialize (IH (set_hosts v (<[h := nh]> (v_hosts v)))).
    destruct (MergeRemoteVariable _ _ _) as [nv|e|w]; [| |done].
    2:{ destruct IH as (hn & Hn & En). exists hn. simpl in En.
        apply lookup_insert_None in En as [? ?]. set_solver. }
    destruct IH as (H1 & H2 & H3). simpl in *. split_and!; [set_solver| |set_solver].
    intros hn hv' Hhv'. destruct (decide (hn = h)) as [->|Hne].
    + simplify_eq. rewrite (H2 h nh) by apply lookup_insert_eq. simpl.
      rewrite (bool_decide_false (data = ∅)), andb_false_r by done.
      by rewrite !bool_decide_true by set_solver.
    + rewrite (H2 hn hv') by (by rewrite lookup_insert_ne).
      by rewrite (bool_decide_ext (hn ∈ h :: hostnames) (hn ∈ hostnames)) by set_solver.
  - specialize (IH v). destruct (MergeRemoteVariable _ _ _) as [nv|e|w]; [|set_solver|done].
    destruct IH as (H1 & H2 & H3). split_and!; [set_solver| |done].
    intros hn hv' Hhv'. rewrite (H2 hn hv') by done.
    destruct (decide (hn = h)) as [->|Hne].
    + simplify_eq. by rewrite (bool_decide_false (mapof _ = ∅)), !andb_false_r.
    + by rewrite (bool_decide_ext (hn ∈ h :: hostnames) (hn ∈ hostnames)) by set_solver.
Qed.

(** ** Concrete stores *)

(** Two raw documents and what they decode to. *)
Definition ex_json (raw : string) : option (gmap string value) :=
  if bool_decide (raw = "a: 1") then Some {["a" := VInt 1]}
  else if bool_decide (raw = "a: 2") then Some {["a" := VInt 2]}
  else None.

Definition ex_ip (_ : string) : string := "".

Definition ex_grouped : Inventory :=
  {| inv_hosts := [("node1", "")];
     inv_vars := "a: 2";
     inv_groups := [("master", {| group_groups := []; group_hosts := ["node1"]; group_vars := "a: 1" |})] |}.

Definition ex_store : VarValue :=
  {| v_config := ""; v_inventory := ex_grouped;
     v_hosts := {["node1" := nil_host]}; v_result := None |}.

Lemma ex_store_groups : is_Some (ConvertGroup ex_grouped).
Proof. by eexists. Qed.


Lemma inventory_vars_beat_group_vars_witness :
  ∃ all, GetAllVariable ex_json ex_ip "node1" ex_store = Some all ∧ all !! "a" = Some (VInt 2).
Proof.
  destruct ex_store_groups as [groups Hg].
  apply (inventory_vars_beat_group_vars ex_json ex_ip ex_store "node1" nil_host groups);
    [done|done|vm_compute; reflexivity|done|vm_compute; reflexivity|done|set_solver].
Defined.


Lemma MergeRemoteVariable_spec_witness :
  let data := {["os" := VStr "linux"]} in
  match MergeRemoteVariable data ["node1"] ex_store with
  | Ok nv => v_hosts nv !! "node1" = Some {| RemoteVars := Some data; RuntimeVars := None |}
  | _ => False
  end.
Proof.
  intros data. pose proof (MergeRemoteVariable_spec data ["node1"] ex_store) as H.
  destruct (MergeRemoteVariable data ["node1"] ex_store) as [nv|e|w] eqn:E.
  - destruct H as (_ & H & _); [done|]. rewrite (H "node1" nil_host) by done. reflexivity.
  - vm_compute in E. discriminate.
  - vm_compute in E. discriminate.
Defined.
