(* ===== verification/Prog.v ===== *)
(** * Concurrent programs over one shared store

    The goroutines of a task share the variable store behind a lock: each
    [Get], [Merge] or step of a module is atomic, and between two of them any
    other goroutine may run.  A goroutine is a [prog]: the tree of its atomic
    steps.  A pool of them runs under a schedule; the theorems quantify over
    schedules, and [run_pool_complete] shows that schedules reach every
    interleaving of the step relation. *)

From S2P Require Import Prelude.
From stdpp Require Import list relations.

Unset Elimination Schemes.
Inductive prog (V A : Type) :=
| PRet (a : A)
| PStep (f : V → V * prog V A).
Arguments PRet {V A} a.
Arguments PStep {V A} f.
Set Elimination Schemes.

Lemma prog_ind {V A : Type} (P : prog V A → Prop) :
  (∀ a, P (PRet a)) → (∀ f, (∀ v, P (f v).2) → P (PStep f)) → ∀ p, P p.
Proof.
  intros Hret Hstep. fix IH 1. intros [a|f]; [apply Hret|].
  apply Hstep. intros v. destruct (f v) as [v' p']. apply IH.
Qed.

Fixpoint pbind {V A B : Type} (p : prog V A) (k : A → prog V B) : prog V B :=
  match p with
  | PRet a => k a
  | PStep f => PStep (λ v, let '(v', p') := f v in (v', pbind p' k))
  end.

(** An atomic step that returns a value. *)
Definition atomic {V A : Type} (f : V → V * A) : prog V A :=
  PStep (λ v, let '(v', a) := f v in (v', PRet a)).

Notation "'do!' x '<-' p 'in' k" := (pbind p (λ x, k))
  (at level 10, x pattern, p at level 100, k at level 200) : go_scope.

(** Running a goroutine alone. *)
Fixpoint run {V A : Type} (p : prog V A) (v : V) : V * A :=
  match p with
  | PRet a => (v, a)
  | PStep f => let '(v', p') := f v in run p' v'
  end.

Lemma run_pbind {V A B : Type} (p : prog V A) (k : A → prog V B) v :
  run (pbind p k) v = run (k (run p v).2) (run p v).1.
Proof.
  revert v. induction p as [a|f IH] using prog_ind; intros v; simpl; [done|].
  specialize (IH v). destruct (f v) as [v' p']. apply IH.
Qed.

(** One step of a goroutine from a given store. *)
Definition pnext {V A : Type} (p : prog V A) (v v' : V) (p' : prog V A) : Prop :=
  match p with PRet _ => False | PStep f => f v = (v', p') end.

Lemma pnext_bind {V A B : Type} (p : prog V A) (k : A → prog V B) v v' p' :
  pnext p v v' p' → pnext (pbind p k) v v' (pbind p' k).
Proof. destruct p; simpl; [done|]. by intros ->. Qed.

Section Pool.
Context {V A : Type}.
Implicit Types (v : V) (ts : list (prog V A)).

(** One atomic step of goroutine [i]. *)
Inductive pool_step : V * list (prog V A) → V * list (prog V A) → Prop :=
| pool_step_at i f v v' p' ts :
    ts !! i = Some (PStep f) → f v = (v', p') →
    pool_step (v, ts) (v', <[i := p']> ts).

(** The executable step: a choice of a goroutine that is finished, or of no
    goroutine, does nothing. *)
Definition step_at (st : V * list (prog V A)) (i : nat) : V * list (prog V A) :=
  match st.2 !! i with
  | Some (PStep f) => let '(v', p') := f st.1 in (v', <[i := p']> st.2)
  | _ => st
  end.

Definition run_sched (sched : list nat) (st : V * list (prog V A)) : V * list (prog V A) :=
  fold_left step_at sched st.

Lemma run_sched_next i sched v v' p p' ts :
  ts !! i = Some p → pnext p v v' p' → run_sched (i :: sched) (v, ts) = run_sched sched (v', <[i := p']> ts).
Proof.
  intros Hi Hp. unfold run_sched. simpl. f_equal. unfold step_at. simpl. rewrite Hi.
  destruct p; simpl in Hp; [done|]. by rewrite Hp.
Qed.

(** [wg.Wait()]: what the schedule leaves unfinished runs to its end. *)
Fixpoint finish (ts : list (prog V A)) (v : V) : V * list A :=
  match ts with
  | [] => (v, [])
  | p :: ts' =>
      let '(v1, a) := run p v in
      let '(v2, rs) := finish ts' v1 in
      (v2, a :: rs)
  end.

Definition run_pool (sched : list nat) (ts : list (prog V A)) (v : V) : V * list A :=
  let '(v', ts') := run_sched sched (v, ts) in finish ts' v'.

(** A goroutine is safe for an invariant of the store and a condition on its
    result, whatever the others do between its steps. *)
Fixpoint psafe (I : V → Prop) (Q : A → Prop) (p : prog V A) : Prop :=
  match p with
  | PRet a => Q a
  | PStep f => ∀ v, I v → I (f v).1 ∧ psafe I Q (f v).2
  end.

Lemma psafe_run I Q p v : psafe I Q p → I v → I (run p v).1 ∧ Q (run p v).2.
Proof.
  revert v. induction p as [a|f IH] using prog_ind; intros v Hp Hv; simpl in *; [done|].
  destruct (Hp v Hv) as [H1 H2]. specialize (IH v).
  destruct (f v) as [v' p']. simpl in *. by apply IH.
Qed.

Lemma finish_safe I Qs ts v :
  Forall2 (psafe I) Qs ts → I v →
  I (finish ts v).1 ∧ Forall2 (λ (Q : A → Prop) r, Q r) Qs (finish ts v).2.
Proof.
  intros H. revert v. induction H as [|Q p Qs ts Hp _ IH]; intros v Hv; simpl; [by repeat constructor|].
  destruct (psafe_run I Q p v Hp Hv) as [H1 H2]. destruct (run p v) as [v1 a].
  destruct (IH v1 H1) as [H3 H4]. destruct (finish ts v1) as [v2 rs]. simpl in *.
  split; [done|]. by constructor.
Qed.

Lemma step_at_safe I Qs v ts i :
  I v → Forall2 (psafe I) Qs ts →
  I (step_at (v, ts) i).1 ∧ Forall2 (psafe I) Qs (step_at (v, ts) i).2.
Proof.
  intros Hv H. unfold step_at. simpl. destruct (ts !! i) as [[a|f]|] eqn:E; [done| |done].
  destruct (Forall2_lookup_r _ _ _ _ _ H E) as (Q & EQ & HQ).
  simpl in HQ. destruct (HQ v Hv) as [H1 H2]. destruct (f v) as [v' p']. simpl in *.
  split; [done|]. rewrite <- (list_insert_id Qs i Q) by done. by apply Forall2_insert.
Qed.

Lemma run_sched_safe I Qs sched v ts :
  I v → Forall2 (psafe I) Qs ts →
  I (run_sched sched (v, ts)).1 ∧ Forall2 (psafe I) Qs (run_sched sched (v, ts)).2.
Proof.
  unfold run_sched. revert v ts. induction sched as [|i sched IH]; intros v ts Hv H; [done|].
  simpl. destruct (step_at_safe I Qs v ts i Hv H) as [H1 H2].
  destruct (step_at (v, ts) i) as [v' ts']. by apply IH.
Qed.

(** Under every schedule the invariant holds at the end and every goroutine's
    result meets its condition. *)
Lemma run_pool_safe I Qs sched ts v :
  Forall2 (psafe I) Qs ts → I v →
  I (run_pool sched ts v).1 ∧ Forall2 (λ (Q : A → Prop) r, Q r) Qs (run_pool sched ts v).2.
Proof.
  intros H Hv. unfold run_pool. destruct (run_sched_safe I Qs sched v ts Hv H) as [H1 H2].
  destruct (run_sched sched (v, ts)) as [v' ts']. by apply finish_safe.
Qed.

Lemma run_pool_length sched ts v : length (run_pool sched ts v).2 = length ts.
Proof.
  destruct (run_pool_safe (λ _, True) (replicate (length ts) (λ _, True)) sched ts v) as [_ H]; [|done|].
  - apply Forall2_same_length_lookup_2; [by rewrite length_replicate|].
    intros i Q p HQ _. apply lookup_replicate in HQ as [-> _].
    clear. induction p as [a|f IH] using prog_ind; simpl; [done|]. intros v _. by split.
  - apply Forall2_length in H. by rewrite length_replicate in H.
Qed.

Lemma finish_done v rs : finish (PRet <$> rs) v = (v, rs).
Proof.
  induction rs as [|r rs IH]; [done|]. rewrite fmap_cons. cbn [finish run]. by rewrite IH.
Qed.

(** Every terminating interleaving is the run of some schedule. *)
Lemma run_pool_complete v ts v' rs :
  rtc pool_step (v, ts) (v', PRet <$> rs) → ∃ sched, run_pool sched ts v = (v', rs).
Proof.
  intros H. cut (∃ sched, run_sched sched (v, ts) = (v', PRet <$> rs)).
  { intros [sched E]. exists sched. unfold run_pool. rewrite E. apply finish_done. }
  remember (v, ts) as s eqn:Es. remember (v', PRet <$> rs) as s' eqn:Es'. clear Es Es'.
  induction H as [s|s1 s2 s3 Hs _ [sched IH]]; [by exists []|].
  destruct Hs as [i f w w' p' us Hi Hf]. exists (i :: sched).
  unfold run_sched in *. simpl. unfold step_at at 2. simpl. by rewrite Hi, Hf.
Qed.

End Pool.

(** ** Safety of composed programs *)

Lemma psafe_bind {V A B} (I : V → Prop) (Q : A → Prop) (R : B → Prop)
    (p : prog V A) (k : A → prog V B) :
  psafe I Q p → (∀ a, Q a → psafe I R (k a)) → psafe I R (pbind p k).
Proof.
  intros Hp Hk. induction p as [a|f IH] using prog_ind; simpl in *; [by apply Hk|].
  intros v Hv. destruct (Hp v Hv) as [H1 H2]. specialize (IH v).
  destruct (f v) as [v' p']. simpl in *. auto.
Qed.

Lemma psafe_atomic {V A} (I : V → Prop) (Q : A → Prop) (f : V → V * A) :
  (∀ v, I v → I (f v).1 ∧ Q (f v).2) → psafe I Q (atomic f).
Proof. intros H v Hv. destruct (H v Hv) as [H1 H2]. by destruct (f v). Qed.

Lemma psafe_weaken {V A} (I : V → Prop) (Q Q' : A → Prop) (p : prog V A) :
  (∀ a, Q a → Q' a) → psafe I Q p → psafe I Q' p.
Proof.
  intros HQ. induction p as [a|f IH] using prog_ind; simpl; [apply HQ|].
  intros H v Hv. destruct (H v Hv) as [H1 H2]. split; [done|]. by apply IH.
Qed.

Lemma psafe_true {V A} (p : prog V A) : psafe (λ _, True) (λ _, True) p.
Proof. induction p as [a|f IH] using prog_ind; simpl; [done|]. intros v _. by split. Qed.

Lemma psafe_bind_true {V A B} (R : B → Prop) (p : prog V A) (k : A → prog V B) :
  (∀ a, psafe (λ _, True) R (k a)) → psafe (λ _, True) R (pbind p k).
Proof. intros H. eapply psafe_bind; [apply psafe_true|]. auto. Qed.

#[export] Hint Resolve psafe_true psafe_bind_true psafe_atomic : kk.

(** ** Programs that log one entry

    A goroutine appends exactly one entry to a shared log and nothing else
    touches it; whatever the schedule, the log of a pool ends with one entry
    per goroutine, in some order. *)

Section Log.
Context {V A R : Type} (log : V → list R).

(** [emits Q done p]: [p] appends one entry that satisfies [Q], unless it has
    [done] so. *)
Fixpoint emits (Q : R → Prop) (done : bool) (p : prog V A) : Prop :=
  match p with
  | PRet _ => done = true
  | PStep f => ∀ v,
      (log (f v).1 = log v ∧ emits Q done (f v).2) ∨
      (done = false ∧ ∃ r, Q r ∧ log (f v).1 = log v ++ [r] ∧ emits Q true (f v).2)
  end.

Lemma emits_run Q done p v :
  emits Q done p →
  ∃ new, log (run p v).1 = log v ++ new ∧
         (if done then new = [] else ∃ r, new = [r] ∧ Q r).
Proof.
  revert done v. induction p as [a|f IH] using prog_ind; intros done v H; simpl in *.
  - subst done. exists []. by rewrite app_nil_r.
  - specialize (IH v). destruct (H v) as [[H1 H2]|(-> & r & Hr & H1 & H2)];
      destruct (f v) as [v' p']; simpl in *.
    + destruct (IH done v' H2) as (new & E & Hn). exists new. by rewrite E, H1.
    + destruct (IH true v' H2) as (new & E & ->). exists [r].
      rewrite E, H1, app_nil_r. split; [done|]. by exists r.
Qed.

(** What each goroutine has logged so far. *)
Definition logged (Q : R → Prop) (g : option R) (p : prog V A) : Prop :=
  emits Q (bool_decide (is_Some g)) p ∧ (∀ r, g = Some r → Q r).

Lemma omap_insert_new (gs : list (option R)) i r :
  gs !! i = Some None → omap id (<[i := Some r]> gs) ≡ₚ omap id gs ++ [r].
Proof.
  revert i. induction gs as [|g gs IH]; intros [|i]; simpl; try done.
  - intros [= ->]. simpl. by rewrite <- Permutation_cons_append.
  - intros H. destruct g; simpl; by rewrite (IH i H).
Qed.

Inductive Logged (Qs : list (R → Prop)) (l0 : list R) (st : V * list (prog V A)) (gs : list (option R)) : Prop :=
| Logged_intro : length Qs = length gs → length gs = length st.2 →
    (∀ i Q g p, Qs !! i = Some Q → gs !! i = Some g → st.2 !! i = Some p → logged Q g p) →
    (∃ new, log st.1 = l0 ++ new ∧ new ≡ₚ omap id gs) → Logged Qs l0 st gs.

Lemma step_at_logged Qs l0 st gs i :
  Logged Qs l0 st gs → ∃ gs', Logged Qs l0 (step_at st i) gs'.
Proof.
  intros [HL1 HL2 HP (new & HN & HE)]. unfold step_at.
  destruct (st.2 !! i) as [[a|f]|] eqn:E; [by exists gs; constructor; eauto| |by exists gs; constructor; eauto].
  destruct (lookup_lt_is_Some_2 gs i) as [g Hg]; [rewrite HL2; by eapply lookup_lt_Some|].
  destruct (lookup_lt_is_Some_2 Qs i) as [Q HQ]; [rewrite HL1; by eapply lookup_lt_Some|].
  destruct (HP i Q g _ HQ Hg E) as [Hem Hgr]. simpl in Hem.
  destruct (Hem st.1) as [[H1 H2]|(Hd & r & Hr & H1 & H2)]; destruct (f st.1) as [v' p']; simpl in *.
  - exists gs. constructor; simpl; [done|by rewrite length_insert| |exists new; by rewrite H1].
    intros j Q' g' p Hj1 Hj2 Hj3. apply list_lookup_insert_Some in Hj3 as [(-> & -> & _)|[_ Hj3]]; [|by eapply HP].
    simplify_eq. by split.
  - apply bool_decide_eq_false in Hd. destruct g as [r0|]; [destruct Hd; by eexists|].
    exists (<[i := Some r]> gs). constructor; simpl.
    + by rewrite length_insert.
    + by rewrite !length_insert.
    + intros j Q' g' p Hj1 Hj2 Hj3.
      apply list_lookup_insert_Some in Hj3 as [(-> & -> & _)|[Hne Hj3]].
      * rewrite list_lookup_insert_eq in Hj2 by (by eapply lookup_lt_Some). simplify_eq.
        split; [done|]. by intros r' [= ->].
      * rewrite list_lookup_insert_ne in Hj2 by done. by eapply HP.
    + exists (new ++ [r]). rewrite H1, HN, app_assoc. split; [done|]. by rewrite omap_insert_new, HE.
Qed.

Lemma run_sched_logged Qs l0 sched st gs :
  Logged Qs l0 st gs → ∃ gs', Logged Qs l0 (run_sched sched st) gs'.
Proof.
  unfold run_sched. revert st gs. induction sched as [|i sched IH]; intros st gs H; simpl; [by exists gs|].
  destruct (step_at_logged _ _ _ _ i H) as [gs' H']. by eapply IH.
Qed.

Lemma finish_logged Qs gs ts v :
  length Qs = length gs → length gs = length ts →
  (∀ i Q g p, Qs !! i = Some Q → gs !! i = Some g → ts !! i = Some p → logged Q g p) →
  ∃ rs new, log (finish ts v).1 = log v ++ new ∧ Forall2 (λ (Q : R → Prop) r, Q r) Qs rs ∧
            omap id gs ++ new ≡ₚ rs.
Proof.
  revert gs ts v. induction Qs as [|Q Qs IH]; intros [|g gs] [|p ts] v; simpl; try done.
  { intros _ _ _. exists [], []. by rewrite app_nil_r. }
  intros [= H1] [= H2] HP. destruct (HP 0 Q g p eq_refl eq_refl eq_refl) as [Hem Hg].
  destruct (emits_run Q _ p v Hem) as (n1 & E1 & Hn1). destruct (run p v) as [v1 a]. simpl in E1.
  destruct (IH gs ts v1 H1 H2 (λ i, HP (S i))) as (rs & n2 & E2 & HF & HE).
  destruct (finish ts v1) as [v2 as_]. simpl in *.
  destruct g as [r|]; simpl in Hn1.
  - subst n1. exists (r :: rs), n2. rewrite E2, E1, app_nil_r. split; [done|].
    split; [constructor; [by apply Hg|done]|]. simpl. by rewrite HE.
  - destruct Hn1 as (r & -> & Hr). exists (r :: rs), (r :: n2). rewrite E2, E1, <- app_assoc.
    split; [done|]. split; [by constructor|]. simpl. by rewrite <- Permutation_middle, HE.
Qed.

(** One entry per goroutine, whatever the schedule. *)
Lemma run_pool_logged Qs sched ts v :
  Forall2 (λ Q p, emits Q false p) Qs ts →
  ∃ rs new, log (run_pool sched ts v).1 = log v ++ new ∧
            Forall2 (λ (Q : R → Prop) r, Q r) Qs rs ∧ new ≡ₚ rs.
Proof.
  intros H. pose proof (Forall2_length _ _ _ H) as HL.
  destruct (run_sched_logged Qs (log v) sched (v, ts) (replicate (length ts) None)) as [gs HG].
  { constructor; simpl; [by rewrite length_replicate|by rewrite length_replicate| |].
    - intros i Q g p HQ Hg Hp. apply lookup_replicate in Hg as [-> _]. split; [|done].
      exact (Forall2_lookup_lr _ _ _ _ _ _ H HQ Hp).
    - exists []. rewrite app_nil_r. split; [done|]. clear. by induction (length ts) as [|n IH]; [done|exact IH]. }
  unfold run_pool. destruct (run_sched sched (v, ts)) as [v' ts'].
  destruct HG as [H1 H2 HP (new & HN & HE)]. simpl in *.
  destruct (finish_logged Qs gs ts' v' H1 H2 HP) as (rs & n2 & E & HF & HR).
  exists rs, (new ++ n2). rewrite E, HN, app_assoc. split; [done|]. split; [done|]. by rewrite HE.
Qed.

End Log.

(** ** Rely and guarantee

    [psafe] speaks of results alone.  Here the condition on a result also
    speaks of the store it is returned in: every step keeps the invariant and
    changes the store along [G], and a condition that [G] preserves holds of the
    final store, whatever the other goroutines did in between. *)

Section Rely.
Context {V A : Type} (I : V → Prop) (G : V → V → Prop) `{!PreOrder G}.

Fixpoint guarantees (Q : V → A → Prop) (p : prog V A) (v : V) : Prop :=
  match p with
  | PRet a => Q v a
  | PStep f => ∀ v', G v v' → I v' → I (f v').1 ∧ G v' (f v').1 ∧ guarantees Q (f v').2 (f v').1
  end.

Definition stable (Q : V → A → Prop) : Prop := ∀ v v' a, G v v' → Q v a → Q v' a.

Lemma guarantees_mono Q p v v' : stable Q → G v v' → guarantees Q p v → guarantees Q p v'.
Proof.
  intros HQ HG. destruct p as [a|f]; simpl; [by apply HQ|].
  intros H w Hw. apply H. by etransitivity.
Qed.

Lemma guarantees_run Q p v :
  guarantees Q p v → I v → I (run p v).1 ∧ G v (run p v).1 ∧ Q (run p v).1 (run p v).2.
Proof.
  revert v. induction p as [a|f IH] using prog_ind; intros v H Hv; simpl in *; [done|].
  destruct (H v) as (H1 & H2 & H3); [done..|]. specialize (IH v).
  destruct (f v) as [v' p']. simpl in *. destruct (IH v' H3 H1) as (H4 & H5 & H6).
  split_and!; [done|by etransitivity|done].
Qed.

Definition all_guarantee (Qs : list (V → A → Prop)) (ts : list (prog V A)) (v : V) : Prop :=
  Forall stable Qs ∧ Forall2 (λ Q p, guarantees Q p v) Qs ts.

Lemma all_guarantee_mono Qs ts v v' : G v v' → all_guarantee Qs ts v → all_guarantee Qs ts v'.
Proof.
  intros HG [HS H]. split; [done|]. induction H; constructor; apply Forall_cons in HS as [? ?]; eauto using guarantees_mono.
Qed.

Lemma step_at_guarantee Qs v ts i :
  I v → all_guarantee Qs ts v →
  let st := step_at (v, ts) i in I st.1 ∧ G v st.1 ∧ all_guarantee Qs st.2 st.1.
Proof.
  intros Hv H. unfold step_at. simpl. destruct (ts !! i) as [[a|f]|] eqn:E; [done| |done].
  pose proof H as [HS HF]. destruct (Forall2_lookup_r _ _ _ _ _ HF E) as (Q & EQ & HQ). simpl in HQ.
  destruct (HQ v) as (H1 & H2 & H3); [done..|]. destruct (f v) as [v' p']. simpl in *.
  destruct (all_guarantee_mono _ _ _ _ H2 H) as [_ HF']. refine (conj H1 (conj H2 (conj HS _))).
  rewrite <- (list_insert_id Qs i Q) by done. by apply Forall2_insert.
Qed.

Lemma run_sched_guarantee Qs sched v ts :
  I v → all_guarantee Qs ts v →
  let st := run_sched sched (v, ts) in I st.1 ∧ G v st.1 ∧ all_guarantee Qs st.2 st.1.
Proof.
  unfold run_sched. revert v ts. induction sched as [|i sched IH]; intros v ts Hv H; [done|]. simpl.
  destruct (step_at_guarantee Qs v ts i Hv H) as (H1 & H2 & H3).
  destruct (step_at (v, ts) i) as [v' ts']. destruct (IH v' ts' H1 H3) as (H4 & H5 & H6).
  refine (conj H4 (conj _ H6)). by etransitivity.
Qed.

Lemma finish_guarantee Qs ts v :
  I v → all_guarantee Qs ts v →
  I (finish ts v).1 ∧ G v (finish ts v).1 ∧ Forall2 (λ (Q : V → A → Prop) r, Q (finish ts v).1 r) Qs (finish ts v).2.
Proof.
  intros Hv [HS H]. revert ts v Hv H. induction HS as [|Q Qs HQ HS IH]; intros ts v Hv H; inversion H as [|? p ? ts' Hp HT]; subst; simpl; [done|].
  destruct (guarantees_run Q p v Hp Hv) as (H1 & H2 & H3). destruct (run p v) as [v1 a]. simpl in *.
  destruct (all_guarantee_mono Qs ts' v v1 H2 (conj HS HT)) as [_ HT'].
  destruct (IH ts' v1 H1 HT') as (H4 & H5 & H6). destruct (finish ts' v1) as [v2 rs]. simpl in *.
  refine (conj H4 (conj _ _)); [by etransitivity|]. constructor; [by eapply HQ|done].
Qed.

(** Under every schedule every result meets its condition in the final store. *)
Lemma run_pool_guarantee Qs sched ts v :
  I v → all_guarantee Qs ts v →
  I (run_pool sched ts v).1 ∧ G v (run_pool sched ts v).1 ∧
  Forall2 (λ (Q : V → A → Prop) r, Q (run_pool sched ts v).1 r) Qs (run_pool sched ts v).2.
Proof.
  intros Hv H. unfold run_pool. destruct (run_sched_guarantee Qs sched v ts Hv H) as (H1 & H2 & H3).
  destruct (run_sched sched (v, ts)) as [v' ts']. destruct (finish_guarantee Qs ts' v' H1 H3) as (H4 & H5 & H6).
  refine (conj H4 (conj _ H6)). by etransitivity.
Qed.

End Rely.

Lemma guarantees_atomic {V A} (I : V → Prop) (G : V → V → Prop) (Q : V → A → Prop) (f : V → V * A) v :
  (∀ v', G v v' → I v' → I (f v').1 ∧ G v' (f v').1 ∧ Q (f v').1 (f v').2) → guarantees I G Q (atomic f) v.
Proof. intros H v' Hv HI. destruct (H v' Hv HI) as (H1 & H2 & H3). by destruct (f v'). Qed.

Lemma guarantees_bind {V A B} (I : V → Prop) (G : V → V → Prop) (Q : V → A → Prop) (R : V → B → Prop)
    (p : prog V A) (k : A → prog V B) v :
  guarantees I G Q p v → (∀ v' a, Q v' a → guarantees I G R (k a) v') → guarantees I G R (pbind p k) v.
Proof.
  intros Hp Hk. revert v Hp. induction p as [a|f IH] using prog_ind; intros v Hp; simpl in *; [by apply Hk|].
  intros v' Hv HI. destruct (Hp v' Hv HI) as (H1 & H2 & H3). specialize (IH v').
  destruct (f v') as [v1 p']. simpl in *. auto.
Qed.

#[export] Hint Resolve guarantees_atomic : kk.

(** What the others keep too is still there at the end. *)
Lemma guarantees_frame {V A} (I : V → Prop) (G : V → V → Prop) (P : V → Prop) (Q : V → A → Prop) (p : prog V A) v :
  (∀ v v', G v v' → P v → P v') → P v → guarantees I G Q p v → guarantees I G (λ v a, P v ∧ Q v a) p v.
Proof.
  intros HP. revert v. induction p as [a|f IH] using prog_ind; intros v Hv H; simpl in *; [done|].
  intros v' HG HI. destruct (H v' HG HI) as (H1 & H2 & H3). split; [done|]. split; [done|]. apply IH; [|done].
  apply (HP v'); [done|]. by apply (HP v).
Qed.

(** ** Pools that grow

    A step may start goroutines ([go f()]): it leaves them in the store, and
    [started] takes them out.  Nothing runs once the process has died. *)

Section Spawn.
Context {V A : Type} (dead : V → bool) (started : V → list (prog V A) * V).

Definition spawn_step (st : V * list (prog V A)) (i : nat) : V * list (prog V A) :=
  if dead st.1 then st
  else let '(v, ts) := step_at st i in
       let '(new, v') := started v in (v', ts ++ new).

Definition run_spawn (sched : list nat) (st : V * list (prog V A)) : V * list (prog V A) :=
  fold_left spawn_step sched st.

Lemma run_spawn_app s1 s2 st : run_spawn (s1 ++ s2) st = run_spawn s2 (run_spawn s1 st).
Proof. apply fold_left_app. Qed.

Context (I : V → Prop) (G : V → V → Prop) `{!PreOrder G}.

Definition keeps_pool (ts : list (prog V A)) (v : V) : Prop := Forall (λ p, guarantees I G (λ _ _, True) p v) ts.

Lemma keeps_pool_mono ts v v' : G v v' → keeps_pool ts v → keeps_pool ts v'.
Proof. intros HG H. eapply list.Forall_impl; [exact H|]. intros p. by apply guarantees_mono. Qed.

(** What every goroutine keeps, those started on the way too, holds under every
    schedule. *)
Lemma run_spawn_keeps sched v ts :
  (∀ v, I v → I (started v).2 ∧ G v (started v).2 ∧ keeps_pool (started v).1 (started v).2) →
  I v → keeps_pool ts v →
  let st := run_spawn sched (v, ts) in I st.1 ∧ G v st.1 ∧ keeps_pool st.2 st.1.
Proof.
  intros Hnew. unfold run_spawn. revert v ts. induction sched as [|i sched IH]; intros v ts Hv Hts; [done|].
  cbn [fold_left]. cut (I (spawn_step (v, ts) i).1 ∧ G v (spawn_step (v, ts) i).1 ∧ keeps_pool (spawn_step (v, ts) i).2 (spawn_step (v, ts) i).1).
  { destruct (spawn_step (v, ts) i) as [v' ts']. intros (H1 & H2 & H3). destruct (IH v' ts' H1 H3) as (H4 & H5 & H6).
    refine (conj H4 (conj _ H6)). by etransitivity. }
  unfold spawn_step. cbn [fst]. destruct (dead v); [done|].
  assert (I (step_at (v, ts) i).1 ∧ G v (step_at (v, ts) i).1 ∧ keeps_pool (step_at (v, ts) i).2 (step_at (v, ts) i).1) as (H1 & H2 & H3).
  { unfold step_at. simpl. destruct (ts !! i) as [[a|f]|] eqn:E; [done| |done].
    pose proof Hts as Hp. unfold keeps_pool in Hp. rewrite Forall_lookup in Hp. specialize (Hp i _ E). simpl in Hp.
    destruct (Hp v) as (H1 & H2 & H3); [done..|]. destruct (f v) as [v' p']. simpl in *.
    refine (conj H1 (conj H2 _)). apply Forall_insert; [by eapply keeps_pool_mono|done]. }
  destruct (step_at (v, ts) i) as [v1 ts1]. simpl in H1, H2, H3.
  destruct (Hnew v1 H1) as (H4 & H5 & H6). destruct (started v1) as [new v2]. simpl in *.
  refine (conj H4 (conj _ _)); [by etransitivity|]. apply Forall_app. split; [by eapply keeps_pool_mono|done].
Qed.

End Spawn.

(** ** A rely and a guarantee of its own for each program

    Where programs own parts of the store, what one may rely on is not what it
    guarantees: [R] is what the others do to its parts, [G] what it does to
    theirs. *)

Section Own.
Context {V A : Type} (I : V → Prop).

Fixpoint owns {B : Type} (R G : V → V → Prop) (Q : V → B → Prop) (p : prog V B) (v : V) : Prop :=
  match p with
  | PRet b => Q v b
  | PStep f => ∀ v', R v v' → I v' → I (f v').1 ∧ G v' (f v').1 ∧ owns R G Q (f v').2 (f v').1
  end.

Lemma owns_rely {B} (R G : V → V → Prop) (Q : V → B → Prop) p v v' :
  Transitive R → (∀ v v' b, R v v' → Q v b → Q v' b) → R v v' → owns R G Q p v → owns R G Q p v'.
Proof.
  intros HT HQ HR. destruct p as [b|f]; simpl; [by apply HQ|]. intros H w Hw. apply H. by etransitivity.
Qed.

Lemma owns_atomic {B} (R G : V → V → Prop) (Q : V → B → Prop) (f : V → V * B) v :
  (∀ v', R v v' → I v' → I (f v').1 ∧ G v' (f v').1 ∧ Q (f v').1 (f v').2) → owns R G Q (atomic f) v.
Proof. intros H v' Hv HI. destruct (H v' Hv HI) as (H1 & H2 & H3). by destruct (f v'). Qed.

Lemma owns_bind {B C} (R G : V → V → Prop) (Q : V → B → Prop) (S : V → C → Prop) (p : prog V B) (k : B → prog V C) v :
  owns R G Q p v → (∀ v' b, Q v' b → owns R G S (k b) v') → owns R G S (pbind p k) v.
Proof.
  intros Hp Hk. revert v Hp. induction p as [b|f IH] using prog_ind; intros v Hp; simpl in *; [by apply Hk|].
  intros v' Hv HI. destruct (Hp v' Hv HI) as (H1 & H2 & H3). specialize (IH v').
  destruct (f v') as [v1 p']. simpl in *. auto.
Qed.

Lemma owns_weaken {B} (R G : V → V → Prop) (Q Q' : V → B → Prop) p v :
  (∀ v b, Q v b → Q' v b) → owns R G Q p v → owns R G Q' p v.
Proof.
  intros HQ. revert v. induction p as [b|f IH] using prog_ind; intros v; simpl; [apply HQ|].
  intros H v' Hv HI. destruct (H v' Hv HI) as (H1 & H2 & H3). auto.
Qed.

(** A pool: program [i] relies on [R i] and guarantees [G i]. *)
Context (R G : nat → V → V → Prop) (HR : ∀ i, PreOrder (R i)) (HG : ∀ i j v v', i ≠ j → G i v v' → R j v v').

Definition all_own (ts : list (prog V A)) (v : V) : Prop := ∀ i p, ts !! i = Some p → owns (R i) (G i) (λ _ _, True) p v.

Lemma run_sched_owns sched v ts : I v → all_own ts v → let st := run_sched sched (v, ts) in I st.1 ∧ all_own st.2 st.1.
Proof.
  unfold run_sched. revert v ts. induction sched as [|i sched IH]; intros v ts Hv Hts; [done|]. cbn [fold_left].
  cut (I (step_at (v, ts) i).1 ∧ all_own (step_at (v, ts) i).2 (step_at (v, ts) i).1).
  { intros [H1 H2]. destruct (step_at (v, ts) i). by apply IH. }
  unfold step_at. simpl. destruct (ts !! i) as [[a|f]|] eqn:E; [done| |done].
  pose proof (Hts i _ E) as Hp. simpl in Hp. destruct (Hp v) as (H1 & H2 & H3); [by apply HR|done|].
  destruct (f v) as [v' p']. simpl in *. split; [done|]. intros j q Hj.
  apply list_lookup_insert_Some in Hj as [(<- & <- & _)|[Hne Hj]]; [done|].
  apply (owns_rely (R j) (G j) _ q v v'); [apply HR|done|by apply (HG i j)|by apply Hts].
Qed.

End Own.

(** Under a condition [P] that the others and the program itself keep, what a
    program owns in one setting it owns in another. *)
Lemma owns_transfer {V B} (I I' : V → Prop) (R G R' G' : V → V → Prop) (P : V → Prop) (Q : V → B → Prop) p v :
  (∀ v v', P v → R' v v' → I' v' → P v' ∧ I v' ∧ R v v') →
  (∀ v v', P v → I' v → I v' → G v v' → P v' ∧ I' v' ∧ G' v v') →
  P v → owns I R G Q p v → owns I' R' G' (λ v b, P v ∧ Q v b) p v.
Proof.
  intros HR HG. revert v. induction p as [b|f IH] using prog_ind; intros v HP H; simpl in *; [done|].
  intros v' Hv HI'. destruct (HR v v' HP Hv HI') as (HP1 & HI1 & HR1). destruct (H v' HR1 HI1) as (H1 & H2 & H3).
  destruct (HG v' _ HP1 HI' H1 H2) as (HP2 & HI2 & HG2). auto.
Qed.

Lemma owns_frame {V B} (I : V → Prop) (R G : V → V → Prop) (P : V → Prop) (Q : V → B → Prop) p v :
  (∀ v v', P v → R v v' → P v') → (∀ v v', P v → G v v' → P v') →
  P v → owns I R G Q p v → owns I R G (λ v b, P v ∧ Q v b) p v.
Proof. intros HR HG. apply owns_transfer; eauto. Qed.
