(* ===== verification/InitLock.v ===== *)
(** * The init lock of a control plane:
      [src/bootstrap/k3s/pkg/locking/control_plane_init_mutex.go]

    Only one machine may initialise a cluster.  The machines agree on it by
    creating a ConfigMap of one name: whoever creates it holds the lock, and a
    lock whose machine is gone is released by the next one that asks.  Every
    call of the API server is an atomic step, and between two of them the
    controllers of other machines may run, so [Lock] and [Unlock] are programs
    of [Prog]. *)

From S2P Require Import Prelude Prog.
From stdpp Require Import gmap strings list sets relations.

(** ** Objects *)

Record Cluster := { c_namespace : string; c_name : string; c_apiVersion : string; c_kind : string; c_uid : string }.

(** The fields of a ConfigMap the code sets or reads: labels, the owner (kind,
    name, UID) and the data. *)
Record ConfigMap := {
  cm_labels : gmap string string;
  cm_owners : list (string * string * string * string);
  cm_data : gmap string string;
}.

(** The API server: ConfigMaps and Machines by namespace and name, and how many
    calls it has answered. *)
Record Api := {
  a_configMaps : gmap (string * string) ConfigMap;
  a_machines : gset (string * string);
  a_calls : nat;
}.

Definition tick (s : Api) : Api :=
  {| a_configMaps := a_configMaps s; a_machines := a_machines s; a_calls := S (a_calls s) |}.
Definition set_configMaps (m : gmap (string * string) ConfigMap) (s : Api) : Api :=
  {| a_configMaps := m; a_machines := a_machines s; a_calls := a_calls s |}.

(** What a call answers: the classes [apierrors] tells apart. *)
Inductive reply (A : Type) := Done (a : A) | NotFound | AlreadyExists | Failed.
Arguments Done {A} a.
Arguments NotFound {A}.
Arguments AlreadyExists {A}.
Arguments Failed {A}.

Definition semaphoreInformationKey : string := "lock-information".
Definition ClusterLabelName : string := "cluster.x-k8s.io/cluster-name".

Definition configMapName (clusterName : string) : string := clusterName +:+ "-lock".

Section InitLock.

(** [json.Marshal] and [json.Unmarshal] of the one field [machineName], and
    which calls fail for a reason of their own (network, permission). *)
Context (marshal : string → string) (unmarshal : string → option string) (fails : nat → bool).

(** ** Calls of the client *)

Definition call {A : Type} (f : Api → Api * reply A) : prog Api (reply A) :=
  atomic (λ s, if fails (a_calls s) then (tick s, Failed) else f (tick s)).

Definition get_configMap (key : string * string) : prog Api (reply ConfigMap) :=
  call (λ s, (s, match a_configMaps s !! key with Some cm => Done cm | None => NotFound end)).

Definition get_machine (key : string * string) : prog Api (reply unit) :=
  call (λ s, (s, if bool_decide (key ∈ a_machines s) then Done tt else NotFound)).

(** [client.Create]. *)
Definition create_configMap (key : string * string) (cm : ConfigMap) : prog Api (reply unit) :=
  call (λ s, match a_configMaps s !! key with
             | Some _ => (s, AlreadyExists)
             | None => (set_configMaps (<[key := cm]> (a_configMaps s)) s, Done tt)
             end).

(** [client.Delete] without preconditions: by name. *)
Definition delete_configMap (key : string * string) : prog Api (reply unit) :=
  call (λ s, match a_configMaps s !! key with
             | Some _ => (set_configMaps (delete key (a_configMaps s)) s, Done tt)
             | None => (s, NotFound)
             end).

(** ** The semaphore *)

(** [s.information()]: a missing key reads as the empty string. *)
Definition information (cm : ConfigMap) : option string :=
  unmarshal (default "" (cm_data cm !! semaphoreInformationKey)).

(** [newSemaphore], [setMetadata] and [setInformation]. *)
Definition new_semaphore (cluster : Cluster) (machine : string) : ConfigMap :=
  {| cm_labels := {[ClusterLabelName := c_name cluster]};
     cm_owners := [(c_apiVersion cluster, c_kind cluster, c_name cluster, c_uid cluster)];
     cm_data := {[semaphoreInformationKey := marshal machine]} |}.

Definition lock_key (cluster : Cluster) : string * string := (c_namespace cluster, configMapName (c_name cluster)).

Definition Unlock (cluster : Cluster) : prog Api bool :=
  do! r <- get_configMap (lock_key cluster) in
  match r with
  | NotFound => PRet true
  | Done _ =>
      do! d <- delete_configMap (lock_key cluster) in
      match d with
      | Done _ | NotFound => PRet true
      | _ => PRet false
      end
  | _ => PRet false
  end.

Definition Lock (cluster : Cluster) (machine : string) : prog Api bool :=
  do! r <- get_configMap (lock_key cluster) in
  match r with
  | NotFound =>
      do! c <- create_configMap (lock_key cluster) (new_semaphore cluster machine) in
      match c with Done _ => PRet true | _ => PRet false end
  | Done cm =>
      match information cm with
      | None => PRet false
      | Some holder =>
          if bool_decide (holder = machine) then PRet true
          else
            do! g <- get_machine (c_namespace cluster, holder) in
            match g with
            | NotFound => do! _ <- Unlock cluster in PRet false
            | _ => PRet false
            end
      end
  | _ => PRet false
  end.

(** ** Who holds the lock *)

Definition holder (cluster : Cluster) (s : Api) : option string :=
  cm ← a_configMaps s !! lock_key cluster; information cm.

(** The lock is free or held by a machine that exists. *)
Definition sound (cluster : Cluster) (s : Api) : Prop :=
  ∀ cm, a_configMaps s !! lock_key cluster = Some cm →
    ∃ h, information cm = Some h ∧ (c_namespace cluster, h) ∈ a_machines s.

(** While no machine is deleted, nobody takes the lock away. *)
Definition keeps (cluster : Cluster) (s s' : Api) : Prop :=
  (∀ cm, a_configMaps s !! lock_key cluster = Some cm → a_configMaps s' !! lock_key cluster = Some cm) ∧
  a_machines s' = a_machines s.

#[export] Instance keeps_preorder cluster : PreOrder (keeps cluster).
Proof.
  split; [intros s; by split|]. intros s1 s2 s3 [H1 H2] [H3 H4].
  refine (conj _ (eq_trans H4 H2)). auto.
Qed.

Hypothesis unmarshal_marshal : ∀ m, unmarshal (marshal m) = Some m.

Lemma information_new cluster m : information (new_semaphore cluster m) = Some m.
Proof. unfold information, new_semaphore. cbn [cm_data]. rewrite lookup_singleton_eq. apply unmarshal_marshal. Qed.

Lemma keeps_holder cluster s s' h : keeps cluster s s' → holder cluster s = Some h → holder cluster s' = Some h.
Proof. intros [HK _] H. apply bind_Some in H as (cm & Hcm & Hh). unfold holder. by rewrite (HK _ Hcm). Qed.

(** A read changes the count of the calls only. *)
Lemma guarantees_read {A} (I : Api → Prop) (G : Api → Api → Prop) (Q : Api → reply A → Prop) (f : Api → reply A) s :
  (∀ s, I s → I (tick s)) → (∀ s, G s (tick s)) →
  (∀ s', G s s' → I s' → Q (tick s') (if fails (a_calls s') then Failed else f (tick s'))) →
  guarantees I G Q (call (λ s, (s, f s))) s.
Proof.
  intros HI HG HQ. unfold call. apply guarantees_atomic. intros s' Hs HI'.
  specialize (HQ s' Hs HI'). destruct (fails (a_calls s')); simpl; split_and!; auto.
Qed.

(** What a call of [Lock] establishes: true means that the machine holds the
    lock; without failing calls, false means that somebody does. *)
Definition lock_post (cluster : Cluster) (m : string) (s : Api) (r : bool) : Prop :=
  (r = true → holder cluster s = Some m) ∧
  ((∀ n, fails n = false) → is_Some (holder cluster s)).

Lemma lock_post_stable cluster m : stable (keeps cluster) (lock_post cluster m).
Proof.
  intros s s' r HK [H1 H2]. split; [intros Hr; by eapply keeps_holder, H1|].
  intros Hf. destruct (H2 Hf) as [h Hh]. exists h. by eapply keeps_holder.
Qed.

(** The invariant of a pool: the lock is [sound], and held by a machine of [P]. *)
Definition lock_inv (cluster : Cluster) (P : string → Prop) (s : Api) : Prop :=
  sound cluster s ∧ ∀ h, holder cluster s = Some h → P h.

Lemma sound_holder cluster s cm :
  sound cluster s → a_configMaps s !! lock_key cluster = Some cm → ∃ h, holder cluster s = Some h ∧ information cm = Some h.
Proof. intros HS Hcm. destruct (HS _ Hcm) as (h & Hh & _). exists h. unfold holder. by rewrite Hcm. Qed.

Lemma Lock_guarantees cluster (P : string → Prop) m s :
  P m → (c_namespace cluster, m) ∈ a_machines s →
  guarantees (lock_inv cluster P) (keeps cluster) (lock_post cluster m) (Lock cluster m) s.
Proof.
  intros HP Hm. unfold Lock. eapply guarantees_bind.
  { unfold get_configMap. apply (guarantees_read _ _ (λ s' r, keeps cluster s s' ∧ lock_inv cluster P s' ∧
      match r with Done cm => a_configMaps s' !! lock_key cluster = Some cm | _ => True end ∧
      ((∀ n, fails n = false) → r ≠ Failed ∧ r ≠ AlreadyExists))); [done|done|].
    intros s' HK HI. split; [exact HK|]. split; [exact HI|].
    destruct (fails (a_calls s')) eqn:Ef; [split; [done|intros Hf; congruence]|].
    simpl. by destruct (a_configMaps s' !! lock_key cluster). }
  intros s1 r (HK1 & [HS1 HP1] & Hr & Hfr). destruct r as [cm| | |].
  - destruct (sound_holder _ _ _ HS1 Hr) as (h & Hh & Hi). rewrite Hi.
    case_bool_decide as Hhm; [subst h; by split|].
    eapply guarantees_bind.
    { unfold get_machine. apply (guarantees_read _ _ (λ s' g, holder cluster s' = Some h ∧ g ≠ NotFound)); [done|done|].
      intros s2 HK2 _. split; [by eapply (keeps_holder _ s1 s2)|]. destruct (fails (a_calls s2)); [done|].
      destruct (HS1 _ Hr) as (h' & Hh' & Hin). simplify_eq. simpl.
      rewrite bool_decide_eq_true_2; [done|]. destruct HK2 as [_ ->]. done. }
    intros s2 g [Hh2 Hg]. destruct g; [|done|..]; (split; [done|by eexists]).
  - eapply guarantees_bind; [|intros s2 c Hc; exact Hc].
    unfold create_configMap, call. simpl. intros s2 HK2 [HS2 HP2].
    assert ((c_namespace cluster, m) ∈ a_machines s2) as Hm2.
    { destruct HK1 as [_ E1], HK2 as [_ E2]. by rewrite E2, E1. }
    destruct (fails (a_calls s2)) eqn:Ef.
    { simpl. split; [done|]. split; [done|]. split; [done|]. intros Hf. congruence. }
    simpl. destruct (a_configMaps s2 !! lock_key cluster) as [cm|] eqn:Ecm; simpl.
    + split; [done|]. split; [done|]. split; [done|]. intros _.
      destruct (sound_holder _ _ _ HS2 Ecm) as (h & Hh & _). by exists h.
    + assert (holder cluster (set_configMaps (<[lock_key cluster := new_semaphore cluster m]> (a_configMaps s2)) (tick s2)) = Some m) as HN.
      { unfold holder. simpl. rewrite lookup_insert_eq. simpl. apply information_new. }
      split; [|split].
      * split; [|intros h Hh; rewrite HN in Hh; by injection Hh as <-].
        intros cm. simpl. rewrite lookup_insert_eq. intros [= <-]. exists m. split; [apply information_new|done].
      * split; [|done]. intros cm Hcm. congruence.
      * split; [done|by eexists].
  - split; [done|]. intros Hf. by destruct (Hfr Hf).
  - split; [done|]. intros Hf. by destruct (Hfr Hf).
Qed.

(** ** Exclusion *)

Lemma run_call {A} (f : Api → Api * reply A) s :
  (∀ n, fails n = false) → run (call f) s = f (tick s).
Proof. intros Hf. unfold call, atomic. simpl. rewrite Hf. by destruct (f (tick s)). Qed.

Lemma run_get_configMap key s :
  (∀ n, fails n = false) →
  run (get_configMap key) s = (tick s, match a_configMaps s !! key with Some cm => Done cm | None => NotFound end).
Proof. intros Hf. unfold get_configMap. by rewrite run_call. Qed.

Lemma run_Lock_held cluster m s :
  (∀ n, fails n = false) → holder cluster s = Some m → run (Lock cluster m) s = (tick s, true).
Proof.
  intros Hf H. apply bind_Some in H as (cm & Hcm & Hi).
  unfold Lock. rewrite run_pbind, run_get_configMap, Hcm by done. cbn [fst snd]. rewrite Hi. by rewrite bool_decide_eq_true_2.
Qed.


(** ** Locks that are left behind *)

(** Without failing calls a lock whose machine no longer exists is released
    by the next machine that asks, which is refused this time and gets the lock
    when it asks again; a lock whose data cannot be read is never released, and
    refuses every machine. *)
Theorem abandoned_lock_recovered cluster m s cm :
  (∀ n, fails n = false) →
  a_configMaps s !! lock_key cluster = Some cm →
  match information cm with
  | Some h =>
      h ≠ m → (c_namespace cluster, h) ∉ a_machines s →
      ∃ s1 s2, run (Lock cluster m) s = (s1, false) ∧ a_configMaps s1 = delete (lock_key cluster) (a_configMaps s) ∧
               run (Lock cluster m) s1 = (s2, true) ∧ holder cluster s2 = Some m
  | None => run (Lock cluster m) s = (tick s, false)
  end.
Proof.
  intros Hf Hcm. destruct (information cm) as [h|] eqn:Ei.
  - intros Hne Hm. eexists _, _. split; [|split; [|split]].
    + unfold Lock. rewrite run_pbind, run_get_configMap, Hcm by done. cbn [fst snd].
      rewrite Ei, bool_decide_eq_false_2 by done. unfold get_machine. rewrite run_pbind, run_call by done.
      cbn [fst snd a_machines tick]. rewrite bool_decide_eq_false_2 by done.
      unfold Unlock. rewrite !run_pbind, run_get_configMap by done. cbn [fst snd a_configMaps tick]. rewrite Hcm.
      unfold delete_configMap. rewrite run_pbind, run_call by done. cbn [fst snd a_configMaps tick]. by rewrite Hcm.
    + done.
    + unfold Lock. rewrite run_pbind, run_get_configMap by done. cbn [run fst snd a_configMaps tick set_configMaps].
      rewrite lookup_delete_eq. unfold create_configMap. rewrite run_pbind, run_call by done.
      cbn [run fst snd a_configMaps tick set_configMaps]. by rewrite lookup_delete_eq.
    + unfold holder. cbn [run fst snd a_configMaps set_configMaps tick]. rewrite lookup_insert_eq. apply information_new.
  - unfold Lock. rewrite run_pbind, run_get_configMap, Hcm by done. cbn [fst snd]. by rewrite Ei.
Qed.

(** One step of each call that answers. *)
Section Next.
Hypothesis no_failure : ∀ n, fails n = false.

Lemma pnext_get_found key s cm : a_configMaps s !! key = Some cm → pnext (get_configMap key) s (tick s) (PRet (Done cm)).
Proof. intros H. simpl. by rewrite no_failure, H. Qed.

Lemma pnext_get_none key s : a_configMaps s !! key = None → pnext (get_configMap key) s (tick s) (PRet NotFound).
Proof. intros H. simpl. by rewrite no_failure, H. Qed.

Lemma pnext_machine_gone key s : key ∉ a_machines s → pnext (get_machine key) s (tick s) (PRet NotFound).
Proof. intros H. simpl. by rewrite no_failure, bool_decide_eq_false_2. Qed.

Lemma pnext_create key cm s :
  a_configMaps s !! key = None →
  pnext (create_configMap key cm) s (set_configMaps (<[key := cm]> (a_configMaps s)) (tick s)) (PRet (Done tt)).
Proof. intros H. simpl. by rewrite no_failure, H. Qed.

Lemma pnext_delete key cm s :
  a_configMaps s !! key = Some cm →
  pnext (delete_configMap key) s (set_configMaps (delete key (a_configMaps s)) (tick s)) (PRet (Done tt)).
Proof. intros H. simpl. by rewrite no_failure, H. Qed.

End Next.

Ltac lock_next H :=
  erewrite run_sched_next;
    [|reflexivity
     |repeat apply pnext_bind; eapply H; [eassumption|]; cbn [a_configMaps a_machines tick set_configMaps];
      first [eassumption|apply lookup_delete_eq|apply lookup_insert_eq]];
  cbn [pbind list_insert insert].

(** Releasing an abandoned lock is not exclusive: [Unlock] deletes the
    ConfigMap by name, whoever holds it by then.  When two machines [b] and [c] both
    find the lock of the lost machine [a], one of them releases it, [d] takes
    it, the other one deletes the lock of [d], and [e] takes it too: [d] and
    [e] are both told to initialise the cluster. *)
Theorem Unlock_deletes_new_lock cluster a b c d e s :
  (∀ n, fails n = false) →
  holder cluster s = Some a → (c_namespace cluster, a) ∉ a_machines s → a ≠ b → a ≠ c →
  let '(s', rs) := run_pool [0; 0; 0; 1; 1; 1; 0; 2; 2; 1; 3; 3] (map (Lock cluster) [b; c; d; e]) s in
  rs = [false; false; true; true] ∧ holder cluster s' = Some e.
Proof.
  intros Hf H Ha Hb Hc. apply bind_Some in H as (cm & Hcm & Hi). simpl map.
  unfold run_pool, Lock.
  lock_next pnext_get_found. rewrite Hi. rewrite (bool_decide_eq_false_2 (a = b)) by done.
  lock_next pnext_machine_gone. cbn [pbind]. unfold Unlock.
  lock_next pnext_get_found. 
  lock_next pnext_get_found. rewrite Hi. rewrite (bool_decide_eq_false_2 (a = c)) by done.
  lock_next pnext_machine_gone. unfold Unlock.
  lock_next pnext_get_found. 
  lock_next pnext_delete.
  lock_next pnext_get_none.
  lock_next pnext_create.
  lock_next pnext_delete.
  lock_next pnext_get_none.
  lock_next pnext_create.
  cbn. split; [done|]. unfold holder. cbn. rewrite lookup_insert_eq. apply information_new.
Qed.

End InitLock.

(** ** The theorems at concrete clusters *)

Definition demo_marshal (m : string) : string := "m" +:+ m.
Definition demo_unmarshal (s : string) : option string := match s with String _ m => Some m | _ => None end.
Definition demo_cluster : Cluster :=
  {| c_namespace := "ns"; c_name := "c"; c_apiVersion := "v1beta1"; c_kind := "Cluster"; c_uid := "1" |}.

Definition demo_lock (h : string) : ConfigMap := new_semaphore demo_marshal demo_cluster h.

(** Machines [a], [b] and [c] exist; the lock is held by [h]. *)
Definition demo_api (h : string) : Api :=
  {| a_configMaps := {[lock_key demo_cluster := demo_lock h]};
     a_machines := {[("ns", "a"); ("ns", "b"); ("ns", "c")]}; a_calls := 0 |}.


Lemma abandoned_lock_recovered_witness :
  let fails (_ : nat) := false in
  ∃ s1 s2, run (Lock demo_marshal demo_unmarshal fails demo_cluster "b") (demo_api "x") = (s1, false) ∧
           a_configMaps s1 = delete (lock_key demo_cluster) (a_configMaps (demo_api "x")) ∧
           run (Lock demo_marshal demo_unmarshal fails demo_cluster "b") s1 = (s2, true) ∧
           holder demo_unmarshal demo_cluster s2 = Some "b".
Proof.
  intros fails.
  refine (abandoned_lock_recovered demo_marshal demo_unmarshal fails (λ m, eq_refl) demo_cluster "b" (demo_api "x")
    (demo_lock "x") (λ n, eq_refl) eq_refl _ _); [done|].
  cbn. set_solver.
Defined.

Lemma Unlock_deletes_new_lock_witness :
  let fails (_ : nat) := false in
  let '(s', rs) := run_pool [0; 0; 0; 1; 1; 1; 0; 2; 2; 1; 3; 3]
    (map (Lock demo_marshal demo_unmarshal fails demo_cluster) ["a"; "b"; "c"; "d"]) (demo_api "x") in
  rs = [false; false; true; true] ∧ holder demo_unmarshal demo_cluster s' = Some "d".
Proof.
  intros fails.
  apply (Unlock_deletes_new_lock demo_marshal demo_unmarshal fails (λ m, eq_refl) demo_cluster "x" "a" "b" "c" "d");
    [done|reflexivity| |done|done].
  cbn. set_solver.
Defined.
