(* ===== verification/ControlPlane.v ===== *)
(** * The k3s control plane controller:
      [src/controlplane/k3s/controllers] and [src/controlplane/k3s/pkg/cluster]

    A control plane object asks for a number of machines of one version made
    from one template.  Every reconciliation looks at the machines there are and
    makes at most one change: it creates a machine or deletes one.  The machines
    themselves are brought up, taken down and watched by other controllers,
    between two reconciliations.  Most conditions of the control plane object
    itself, events and what the adoption of machines does are not modelled. *)

From stdpp Require Import gmap strings list sets.
From S2P Require Import Prelude GoStrings.

(** ** Objects *)

Inductive ConditionStatus := ConditionTrue | ConditionFalse | ConditionUnknown.

#[export] Instance ConditionStatus_eq_dec : EqDecision ConditionStatus.
Proof. solve_decision. Defined.

(** Annotations and labels of an object. *)
Record Meta := { o_annotations : gmap string string; o_labels : gmap string string }.

(** A Machine; its name is its key.  [m_agent] is the condition AgentHealthy. *)
Record Machine := {
  m_failureDomain : option string;
  m_deleting : bool;
  m_meta : Meta;
  m_version : option string;
  m_created : Z;
  m_infraRef : string;
  m_nodeRef : option string;
  m_agent : option ConditionStatus;
}.

Notation Machines := (gmap string Machine).

(** A control plane node of the workload cluster: whether it has the taint of
    unreachable nodes. *)
Record Node := { n_name : string; n_unreachable : bool }.

Inductive IntOrString := FromInt (z : Z) | FromString (s : string).

#[export] Instance IntOrString_eq_dec : EqDecision IntOrString.
Proof. solve_decision. Defined.

(** [RolloutStrategy]; [RollingUpdate] and its [MaxSurge] are pointers. *)
Record RolloutStrategy := { rs_type : string; rs_rollingUpdate : option (option IntOrString) }.

(** The specification of a control plane and the part of its status that is
    read. *)
Record KCP := {
  k_replicas : option Z;
  k_version : string;
  k_template : Meta;
  k_infraName : string;
  k_infraKind : string;
  k_rolloutAfter : option Z;
  k_strategy : option RolloutStrategy;
  k_serverConfig : string;           (* the server configuration as JSON *)
  k_initialized : bool;
}.

(** The objects the controller owns.  Names are generated; [w_next] counts
    them. *)
Record World := {
  w_machines : Machines;
  w_infra : gmap string Meta;
  w_configs : gset string;
  w_next : nat;
}.

Definition with_machines (ms : Machines) (w : World) : World :=
  {| w_machines := ms; w_infra := w_infra w; w_configs := w_configs w; w_next := w_next w |}.

Definition ClusterLabelName : string := "cluster.x-k8s.io/cluster-name".
Definition MachineControlPlaneLabelName : string := "cluster.x-k8s.io/control-plane".
Definition DeleteMachineAnnotation : string := "cluster.x-k8s.io/delete-machine".
Definition TemplateClonedFromNameAnnotation : string := "cluster.x-k8s.io/cloned-from-name".
Definition TemplateClonedFromGroupKindAnnotation : string := "cluster.x-k8s.io/cloned-from-groupkind".
Definition K3sServerConfigurationAnnotation : string := "controlplane.cluster.x-k8s.io/k3s-server-configuration".
Definition RollingUpdateStrategyType : string := "RollingUpdate".

(** What a reconciliation asks for: [ctrl.Result], in seconds. *)
Record Res := { Requeue : bool; RequeueAfter : Z }.
Definition no_res : Res := {| Requeue := false; RequeueAfter := 0 |}.
Definition requeue : Res := {| Requeue := true; RequeueAfter := 0 |}.
Definition after (s : Z) : Res := {| Requeue := false; RequeueAfter := s |}.
Definition deleteRequeueAfter : Z := 30.
Definition preflightFailedRequeueAfter : Z := 15.

(** [Result.IsZero] *)
Definition is_zero (r : Res) : bool := negb (Requeue r) && bool_decide (RequeueAfter r = 0%Z).

(** ** The Cluster API libraries *)

(** [util/collections], [util/failuredomains], [controllers/external] and
    [intstr] of the libraries, as far as they are used. *)
Class Lib := {
  InFailureDomains : list (option string) → Machine → bool;
  MatchesKubernetesVersion : string → Machine → bool;
  ShouldRolloutAfter : Z → option Z → Machine → bool;
  Oldest : Machines → option (string * Machine);
  PickMost : list string → Machines → Machines → option string;
  PickFewest : list string → Machines → option string;
  CloneTemplate : string → string → string → Meta → Meta;  (* name, kind, cluster, labels and annotations *)
  IntValue : IntOrString → Z;
}.

(** What their documentation says. *)
Class LibSpec `{LI : Lib} := {
  InFailureDomains_spec ds m : InFailureDomains ds m = true ↔ m_failureDomain m ∈ ds;
  MatchesKubernetesVersion_spec v m : MatchesKubernetesVersion v m = true ↔ m_version m = Some v;
  ShouldRolloutAfter_spec now a m : ShouldRolloutAfter now a m = true ↔ ∃ t, a = Some t ∧ (t < now)%Z ∧ (m_created m < t)%Z;
  Oldest_some ms n m : Oldest ms = Some (n, m) → ms !! n = Some m;
  Oldest_none ms : Oldest ms = None ↔ ms = ∅;
  PickMost_spec ds all ms : ms ≠ ∅ → ms ⊆ all → (∀ n m, ms !! n = Some m → ∃ d, d ∈ ds ∧ m_failureDomain m = Some d) →
    ∃ n m, ms !! n = Some m ∧ PickMost ds all ms = m_failureDomain m;
  CloneTemplate_annotations n k c o key v : o_annotations (CloneTemplate n k c o) !! key = Some v ↔
    (if bool_decide (key = TemplateClonedFromNameAnnotation) then v = n
     else if bool_decide (key = TemplateClonedFromGroupKindAnnotation) then v = k
     else o_annotations o !! key = Some v);
  CloneTemplate_labels n k c o key v : o_labels (CloneTemplate n k c o) !! key = Some v ↔
    (if bool_decide (key = ClusterLabelName) then v = c else o_labels o !! key = Some v);
  IntValue_int z : IntValue (FromInt z) = z;
}.

Section ControlPlane.
Context `{LI : Lib}.

(** ** Filters *)

Definition filter_machines (P : Machine → bool) (ms : Machines) : Machines := filter (λ kv, P kv.2 = true) ms.

(** [isSubsetMapOf] *)
Definition isSubsetMapOf (base existing : gmap string string) : bool :=
  forallb (λ '(k, v), bool_decide (existing !! k = Some v)) (map_to_list base).

(** [matchMachineTemplateMetadata] *)
Definition matchMachineTemplateMetadata (kcp : KCP) (o : Meta) : bool :=
  isSubsetMapOf (o_annotations (k_template kcp)) (o_annotations o) &&
  isSubsetMapOf (o_labels (k_template kcp)) (o_labels o).

(** [MatchesTemplateClonedFrom]: an infrastructure object that is missing or not
    annotated matches. *)
Definition MatchesTemplateClonedFrom (infra : gmap string Meta) (kcp : KCP) (m : Machine) : bool :=
  match infra !! m_infraRef m with
  | None => true
  | Some o =>
      match o_annotations o !! TemplateClonedFromNameAnnotation, o_annotations o !! TemplateClonedFromGroupKindAnnotation with
      | Some name, Some kind =>
          if bool_decide (name ≠ k_infraName kcp ∨ kind ≠ k_infraKind kcp) then false
          else matchMachineTemplateMetadata kcp o
      | _, _ => true
      end
  end.

(** [MatchesMachineSpec] *)
Definition MatchesMachineSpec (infra : gmap string Meta) (kcp : KCP) (m : Machine) : bool :=
  matchMachineTemplateMetadata kcp (m_meta m) && MatchesKubernetesVersion (k_version kcp) m &&
  MatchesTemplateClonedFrom infra kcp m.

Definition HasAnnotationKey (key : string) (m : Machine) : bool := bool_decide (is_Some (o_annotations (m_meta m) !! key)).

(** ** The surroundings of one reconciliation *)

(** What the calls answer that this controller only reads, and how its own
    creations and deletions end. *)
Inductive delete_reply := Deleted | DeleteNotFound | DeleteFailed (e : error).

Record Env := {
  e_now : Z;
  e_cluster : string;
  e_failureDomains : list string;             (* those for control planes *)
  e_externalReference : option error;
  e_infrastructureReady : bool;
  e_certificates : option error;
  e_endpointValid : bool;
  e_kubeconfig : error + Res;
  e_list : option error;
  e_uncached : option error;
  e_adopt : option (option error);            (* how the adoption of machines ends, if there are any to adopt *)
  e_mixed : bool;                             (* some control plane machine is not owned *)
  e_newControlPlane : option error;
  e_workloadCluster : option error;
  e_nodes : error + list Node;
  e_getNode : string → option (error + bool);  (* None: not found; whether it is Ready *)
  e_patch : string → option error;
  e_clone : option error;
  e_createConfig : option error;
  e_marshal : option error;
  e_createMachine : option error;
  e_cleanup : string → option error;
  e_delete : string → delete_reply;
  e_allMachines : error + nat;                (* the other machines of the cluster *)
  e_machinePools : option (error + nat);      (* None: the feature is off *)
}.

(** ** Health of the machines: [workload_cluster_conditions.go] *)

Definition with_agent (c : option ConditionStatus) (m : Machine) : Machine :=
  {| m_failureDomain := m_failureDomain m; m_deleting := m_deleting m; m_meta := m_meta m; m_version := m_version m;
     m_created := m_created m; m_infraRef := m_infraRef m; m_nodeRef := m_nodeRef m; m_agent := c |}.

(** The machine of a node: the first in the order of the iteration. *)
Definition machine_of (node : Node) (ms : Machines) : option string :=
  fst <$> head (filter (λ kv, m_nodeRef kv.2 = Some (n_name node)) (map_to_list ms)).

Definition set_agent (name : string) (c : ConditionStatus) (ms : Machines) : Machines :=
  alter (with_agent (Some c)) name ms.

(** The loop over the nodes; an error of the client ends the whole update. *)
Fixpoint update_nodes (env : Env) (nodes : list Node) (ms : Machines) : bool * Machines :=
  match nodes with
  | [] => (true, ms)
  | node :: rest =>
      match machine_of node ms with
      | None => update_nodes env rest ms
      | Some name =>
          if default false (m_deleting <$> ms !! name) then update_nodes env rest (set_agent name ConditionFalse ms)
          else if n_unreachable node then update_nodes env rest (set_agent name ConditionUnknown ms)
          else
            match e_getNode env (n_name node) with
            | None => (false, set_agent name ConditionFalse ms)
            | Some (inl _) => (false, set_agent name ConditionUnknown ms)
            | Some (inr true) => update_nodes env rest (set_agent name ConditionTrue ms)
            | Some (inr false) => update_nodes env rest ms
            end
      end
  end.

(** A machine whose node is gone. *)
Definition missing_node (nodes : list Node) (m : Machine) : bool :=
  match m_nodeRef m with
  | None => false
  | Some n => negb (bool_decide (n ∈ map n_name nodes))
  end.

(** [UpdateAgentConditions] *)
Definition UpdateAgentConditions (env : Env) (ms : Machines) : Machines :=
  match e_nodes env with
  | inl _ => with_agent (Some ConditionUnknown) <$> ms
  | inr nodes =>
      let '(finished, ms') := update_nodes env nodes ms in
      if finished then (λ m, if missing_node nodes m then with_agent (Some ConditionFalse) m else m) <$> ms' else ms'
  end.

(** [PatchMachines]: a machine whose patch fails is stored as it was. *)
Definition PatchMachines (env : Env) (old new : Machines) : option error * Machines :=
  (match omap (e_patch env) (map_to_list new).*1 with
   | [] => None
   | errs => Some (Joined (Wrap "failed to patch machine" <$> errs))
   end,
   map_imap (λ name m, match e_patch env name with Some _ => old !! name | None => Some m end) new).

(** *** The condition of the control plane *)

Inductive Severity := SeverityError | SeverityWarning | SeverityInfo | SeverityNone.

#[global] Instance Severity_eq_dec : EqDecision Severity.
Proof. solve_decision. Defined.

(** A condition of a machine, or of the control plane. *)
Record Condition := { c_status : ConditionStatus; c_severity : Severity }.

#[global] Instance Condition_eq_dec : EqDecision Condition.
Proof. solve_decision. Defined.

Definition MarkTrue : Condition := {| c_status := ConditionTrue; c_severity := SeverityNone |}.
Definition MarkUnknown : Condition := {| c_status := ConditionUnknown; c_severity := SeverityNone |}.
Definition MarkFalse (s : Severity) : Condition := {| c_status := ConditionFalse; c_severity := s |}.

Definition reporting (c : Condition) (machines : list (string * Condition)) : bool :=
  nonempty (filter (λ m, m.2 = c) machines).

(** [aggregateFromMachinesToKCP], without the messages; [machines] are the
    conditions the machines have.  The condition is left as it is when there is
    nothing to report. *)
Definition aggregateFromMachinesToKCP (kcpErrors : list string) (machines : list (string * Condition)) : option Condition :=
  if nonempty kcpErrors || reporting (MarkFalse SeverityError) machines then Some (MarkFalse SeverityError)
  else if reporting (MarkFalse SeverityWarning) machines then Some (MarkFalse SeverityWarning)
  else if reporting (MarkFalse SeverityWarning) machines then Some (MarkFalse SeverityWarning)
  else if nonempty (filter (λ m, c_status m.2 = ConditionTrue) machines) then Some MarkTrue
  else if nonempty (filter (λ m, c_status m.2 = ConditionUnknown) machines) then Some MarkUnknown
  else None.

(** [reconcileControlPlaneConditions] *)
Definition reconcileControlPlaneConditions (env : Env) (kcp : KCP) (w : World) : option error * World :=
  if negb (k_initialized kcp) then (None, w)
  else match e_workloadCluster env with
       | Some e => (Some (Wrap "cannot get remote client to workload cluster" e), w)
       | None =>
           let '(e, ms) := PatchMachines env (w_machines w) (UpdateAgentConditions env (w_machines w)) in
           (e, with_machines ms w)
       end.

(** ** Which machines: [control_plane.go] *)

Definition needs_rollout (env : Env) (kcp : KCP) (infra : gmap string Meta) (m : Machine) : bool :=
  negb (m_deleting m) && (ShouldRolloutAfter (e_now env) (k_rolloutAfter kcp) m || negb (MatchesMachineSpec infra kcp m)).

Definition MachinesNeedingRollout (env : Env) (kcp : KCP) (w : World) : Machines :=
  filter_machines (needs_rollout env kcp (w_infra w)) (w_machines w).

Definition UpToDateMachines (env : Env) (kcp : KCP) (w : World) : Machines :=
  filter_machines (λ m, negb (ShouldRolloutAfter (e_now env) (k_rolloutAfter kcp) m) && MatchesMachineSpec (w_infra w) kcp m)
    (w_machines w).

Definition NextFailureDomainForScaleUp (env : Env) (kcp : KCP) (w : World) : option string :=
  match e_failureDomains env with
  | [] => None
  | ds => PickFewest ds (UpToDateMachines env kcp w)
  end.

Definition MachineWithDeleteAnnotation (ms : Machines) : Machines := filter_machines (HasAnnotationKey DeleteMachineAnnotation) ms.

(** [FailureDomainWithMostMachines] *)
Definition FailureDomainWithMostMachines (env : Env) (all ms : Machines) : option string :=
  let outside := filter_machines (λ m, negb (InFailureDomains (Some <$> e_failureDomains env) m)) ms in
  match Oldest outside with
  | Some (_, m) => m_failureDomain m
  | None => PickMost (e_failureDomains env) all ms
  end.

Definition MachineInFailureDomainWithMostMachines (env : Env) (all ms : Machines) : result (string * Machine) :=
  match Oldest (filter_machines (InFailureDomains [FailureDomainWithMostMachines env all ms]) ms) with
  | Some m => Ok m
  | None => Err (Msg "failed to pick control plane Machine to mark for deletion")
  end.

(** [selectMachineForScaleDown] *)
Definition candidates (all outdated : Machines) : Machines :=
  if bool_decide (MachineWithDeleteAnnotation outdated ≠ ∅) then MachineWithDeleteAnnotation outdated
  else if bool_decide (MachineWithDeleteAnnotation all ≠ ∅) then MachineWithDeleteAnnotation all
  else if bool_decide (outdated ≠ ∅) then outdated
  else all.

Definition selectMachineForScaleDown (env : Env) (all outdated : Machines) : result (string * Machine) :=
  MachineInFailureDomainWithMostMachines env all (candidates all outdated).

(** ** Preflight checks: [scale.go] *)

(** [preflightCheckCondition] returns nil. *)
Definition healthy (m : Machine) : bool := bool_decide (m_agent m = Some ConditionTrue).

(** [preflightChecks]; it never returns an error. *)
Definition preflightChecks (ms : Machines) (exclude : option string) : Res :=
  if bool_decide (ms = ∅) then no_res
  else if bool_decide (filter_machines m_deleting ms ≠ ∅) then after deleteRequeueAfter
  else if bool_decide (map_Forall (λ name m, Some name = exclude ∨ healthy m = true) ms) then no_res
  else after preflightFailedRequeueAfter.

(** ** Creating a machine: [helpers.go], [cluster_labels.go] *)

Definition ControlPlaneMachineLabelsForCluster (kcp : KCP) (clusterName : string) : gmap string string :=
  <[MachineControlPlaneLabelName := ""]> (<[ClusterLabelName := clusterName]> (o_labels (k_template kcp))).

(** [generateMachine]: the machine that is created. *)
Definition new_machine (env : Env) (kcp : KCP) (infraRef : string) (fd : option string) : Machine :=
  {| m_failureDomain := fd; m_deleting := false;
     m_meta := {| o_annotations := <[K3sServerConfigurationAnnotation := k_serverConfig kcp]> (o_annotations (k_template kcp));
                  o_labels := ControlPlaneMachineLabelsForCluster kcp (e_cluster env) |};
     m_version := Some (k_version kcp); m_created := e_now env; m_infraRef := infraRef; m_nodeRef := None; m_agent := None |}.

(** [names.SimpleNameGenerator.GenerateName], for the n-th object. *)
Context (fresh : nat → string).

Definition add_infra (env : Env) (kcp : KCP) (w : World) : string * World :=
  let name := fresh (w_next w) in
  (name, {| w_machines := w_machines w;
            w_infra := <[name := CloneTemplate (k_infraName kcp) (k_infraKind kcp) (e_cluster env)
                           {| o_annotations := o_annotations (k_template kcp);
                              o_labels := ControlPlaneMachineLabelsForCluster kcp (e_cluster env) |}]> (w_infra w);
            w_configs := w_configs w; w_next := S (w_next w) |}).

Definition add_config (w : World) : string * World :=
  let name := fresh (w_next w) in
  (name, {| w_machines := w_machines w; w_infra := w_infra w; w_configs := {[name]} ∪ w_configs w; w_next := S (w_next w) |}).

Definition add_machine (m : Machine) (w : World) : World :=
  {| w_machines := <[fresh (w_next w) := m]> (w_machines w); w_infra := w_infra w; w_configs := w_configs w;
     w_next := S (w_next w) |}.

(** [cleanupFromGeneration]: it goes on after an error. *)
Definition cleanup_config (env : Env) (config : option string) (w : World) : list error * World :=
  match config with
  | None => ([], w)
  | Some c =>
      match e_cleanup env c with
      | Some e => ([Wrap "failed to cleanup generated resources after error" e], w)
      | None => ([], {| w_machines := w_machines w; w_infra := w_infra w; w_configs := w_configs w ∖ {[c]}; w_next := w_next w |})
      end
  end.

Definition cleanup_infra (env : Env) (infraRef : string) (w : World) : list error * World :=
  match e_cleanup env infraRef with
  | Some e => ([Wrap "failed to cleanup generated resources after error" e], w)
  | None => ([], {| w_machines := w_machines w; w_infra := delete infraRef (w_infra w); w_configs := w_configs w; w_next := w_next w |})
  end.

Definition cleanupFromGeneration (env : Env) (infraRef : string) (config : option string) (w : World) : option error * World :=
  let '(errs1, w1) := cleanup_infra env infraRef w in
  let '(errs2, w2) := cleanup_config env config w1 in
  (match errs1 ++ errs2 with [] => None | errs => Some (Joined errs) end, w2).

(** [cloneConfigsAndGenerateMachine] *)
Definition cloneConfigsAndGenerateMachine (env : Env) (kcp : KCP) (fd : option string) (w : World) : option error * World :=
  match e_clone env with
  | Some e => (Some (Wrap "failed to clone infrastructure template" e), w)
  | None =>
      let '(infraRef, w1) := add_infra env kcp w in
      let failed e config w' :=
        let '(e', w'') := cleanupFromGeneration env infraRef config w' in
        (errors_join (Some e) (Wrap "failed to cleanup generated resources" <$> e'), w'') in
      match e_createConfig env with
      | Some e => failed (Wrap "failed to generate bootstrap config" (Wrap "Failed to create bootstrap configuration" e)) None w1
      | None =>
          let '(config, w2) := add_config w1 in
          match e_marshal env with
          | Some e => failed (Wrap "failed to create Machine" (Wrap "failed to marshal cluster configuration" e)) (Some config) w2
          | None =>
              match e_createMachine env with
              | Some e => failed (Wrap "failed to create Machine" (Wrap "failed to create machine" e)) (Some config) w2
              | None => (None, add_machine (new_machine env kcp infraRef fd) w2)
              end
          end
      end
  end.

(** ** Scaling *)

Definition create_machine (env : Env) (kcp : KCP) (w : World) : result Res * World :=
  match cloneConfigsAndGenerateMachine env kcp (NextFailureDomainForScaleUp env kcp w) w with
  | (Some e, w') => (Err e, w')
  | (None, w') => (Ok requeue, w')
  end.

(** [initializeControlPlane]; the uncached read sees the same machines. *)
Definition initializeControlPlane (env : Env) (kcp : KCP) (w : World) : result Res * World :=
  match e_uncached env with
  | Some e => (Err e, w)
  | None =>
      if bool_decide (w_machines w ≠ ∅) then (Err (Msg "control plane has already been initialized"), w)
      else create_machine env kcp w
  end.

Definition scaleUpControlPlane (env : Env) (kcp : KCP) (w : World) : result Res * World :=
  let r := preflightChecks (w_machines w) None in
  if negb (is_zero r) then (Ok r, w) else create_machine env kcp w.

(** [client.Delete] of a machine sets its deletion timestamp: other controllers
    remove it when its infrastructure is gone. *)
Definition mark_deleting (m : Machine) : Machine :=
  {| m_failureDomain := m_failureDomain m; m_deleting := true; m_meta := m_meta m; m_version := m_version m;
     m_created := m_created m; m_infraRef := m_infraRef m; m_nodeRef := m_nodeRef m; m_agent := m_agent m |}.

Definition scaleDownControlPlane (env : Env) (outdated : Machines) (w : World) : result Res * World :=
  match selectMachineForScaleDown env (w_machines w) outdated with
  | Err e => (Err (Wrap "failed to select machine for scale down" e), w)
  | Panic p => (Panic p, w)
  | Ok (name, _) =>
      let r := preflightChecks (w_machines w) (Some name) in
      if negb (is_zero r) then (Ok r, w)
      else
        match e_delete env name with
        | DeleteFailed e => (Err e, w)
        | DeleteNotFound => (Ok requeue, w)
        | Deleted => (Ok requeue, with_machines (alter mark_deleting name (w_machines w)) w)
        end
  end.

(** *** [reconcileDelete] *)

(** The machines that are not being deleted are deleted, whatever fails. *)
Definition delete_all (env : Env) (ms : Machines) : list error * Machines :=
  (omap (λ name, match e_delete env name with DeleteFailed e => Some e | _ => None end)
        (map_to_list (filter_machines (λ m, negb (m_deleting m)) ms)).*1,
   map_imap (λ name m, Some (match e_delete env name with Deleted => mark_deleting m | _ => m end)) ms).

(** The last component says that the finalizer has been removed. *)
Definition reconcileDelete (env : Env) (kcp : KCP) (w : World) : result Res * World * bool :=
  match e_allMachines env with
  | inl e => (Err e, w, false)
  | inr others =>
      if bool_decide (w_machines w = ∅) then (Ok no_res, w, true)
      else
        match e_newControlPlane env with
        | Some e => (Err e, w, false)
        | None =>
            let '(_, w1) := reconcileControlPlaneConditions env kcp w in
            match e_machinePools env with
            | Some (inl e) => (Err e, w1, false)
            | pools =>
                let pools := match pools with Some (inr n) => n | _ => 0 end in
                if bool_decide (others ≠ 0 ∨ pools ≠ 0) then (Ok (after deleteRequeueAfter), w1, false)
                else
                  let '(errs, ms) := delete_all env (w_machines w1) in
                  (match errs with [] => Ok (after deleteRequeueAfter) | _ => Err (Joined errs) end, with_machines ms w1, false)
            end
        end
  end.

(** Two's-complement 32-bit integers. *)
Definition wrap32 (z : Z) : Z := (z + 2 ^ 31) `mod` 2 ^ 32 - 2 ^ 31.

(** [upgradeControlPlane] *)
Definition upgradeControlPlane (env : Env) (kcp : KCP) (outdated : Machines) (w : World) : result Res * World :=
  match k_strategy kcp with
  | None | Some {| rs_rollingUpdate := None |} => (Err (Msg "rolloutStrategy is not set"), w)
  | Some {| rs_type := ty; rs_rollingUpdate := Some surge |} =>
      if bool_decide (ty = RollingUpdateStrategyType) then
        match k_replicas kcp, surge with
        | Some replicas, Some s =>
            let maxNodes := wrap32 (replicas + wrap32 (IntValue s)) in
            if bool_decide (wrap32 (Z.of_nat (size (w_machines w))) < maxNodes)%Z then scaleUpControlPlane env kcp w
            else scaleDownControlPlane env outdated w
        | _, _ => (Panic "invalid memory address or nil pointer dereference", w)
        end
      else (Ok no_res, w)
  end.

(** ** [reconcile] *)

(** From the machines on: what the rollout and the number of machines ask for. *)
Definition reconcile_machines (env : Env) (kcp : KCP) (w : World) : result Res * World :=
  let needRollout := MachinesNeedingRollout env kcp w in
  if bool_decide (needRollout ≠ ∅) then upgradeControlPlane env kcp needRollout w
  else
    match k_replicas kcp with
    | None => (Panic "invalid memory address or nil pointer dereference", w)
    | Some desired =>
        let numMachines := Z.of_nat (size (w_machines w)) in
        if bool_decide (numMachines < desired ∧ numMachines = 0)%Z then initializeControlPlane env kcp w
        else if bool_decide (numMachines < desired ∧ 0 < numMachines)%Z then scaleUpControlPlane env kcp w
        else if bool_decide (desired < numMachines)%Z then scaleDownControlPlane env ∅ w
        else (Ok no_res, w)
    end.

Definition reconcile (env : Env) (kcp : KCP) (w : World) : result Res * World :=
  match e_externalReference env with
  | Some e => (Err e, w)
  | None =>
      if negb (e_infrastructureReady env) then (Ok no_res, w)
      else match e_certificates env with
      | Some e => (Err e, w)
      | None =>
          if negb (e_endpointValid env) then (Ok no_res, w)
          else match e_kubeconfig env with
          | inl e => (Err e, w)
          | inr r =>
              if negb (is_zero r) then (Ok r, w)
              else match e_list env with
              | Some e => (Err e, w)
              | None =>
                  match e_adopt env with
                  | Some (Some e) => (Err e, w)
                  | Some None => (Ok no_res, w)
                  | None =>
                      if e_mixed env then (Ok no_res, w)
                      else match e_newControlPlane env with
                      | Some e => (Err e, w)
                      | None =>
                          match reconcileControlPlaneConditions env kcp w with
                          | (Some e, w') => (Err e, w')
                          | (None, w') => reconcile_machines env kcp w'
                          end
                      end
                  end
              end
          end
      end
  end.

End ControlPlane.

(** ** What the webhook lets through: [k3scontrolplane_webhook.go] *)

Definition defaultRolloutStrategy (s : option RolloutStrategy) : RolloutStrategy :=
  let s := default {| rs_type := ""; rs_rollingUpdate := None |} s in
  let ty := if bool_decide (rs_type s = "") then RollingUpdateStrategyType else rs_type s in
  if bool_decide (ty = RollingUpdateStrategyType) then
    {| rs_type := ty; rs_rollingUpdate := Some (Some (default (FromInt 1) (default None (rs_rollingUpdate s)))) |}
  else {| rs_type := ty; rs_rollingUpdate := rs_rollingUpdate s |}.

(** [validateRolloutStrategy]: the errors; two nil pointers are dereferenced. *)
Definition validateRolloutStrategy (s : option RolloutStrategy) (replicas : option Z) : result (list string) :=
  match s with
  | None => Ok []
  | Some s =>
      match rs_rollingUpdate s with
      | Some (Some surge) => Ok (
          (if bool_decide (rs_type s ≠ RollingUpdateStrategyType) then ["type"] else []) ++
          (if bool_decide (surge = FromInt 0) && match replicas with Some r => bool_decide (r < 3)%Z | None => false end
           then ["rollingUpdate"] else []) ++
          (if bool_decide (surge ≠ FromInt 1 ∧ surge ≠ FromInt 0) then ["maxSurge"] else []))
      | _ => Panic "invalid memory address or nil pointer dereference"
      end
  end.

(** The part of [validateK3sControlPlaneSpec] on the number of replicas. *)
Definition validateReplicas (replicas : option Z) : list string :=
  match replicas with
  | None => ["replicas"]
  | Some r => if bool_decide (r ≤ 0)%Z then ["replicas"] else []
  end.

(** [defaultK3sControlPlaneSpec] on the replicas and the strategy. *)
Definition with_defaults (k : KCP) : KCP :=
  {| k_replicas := Some (default 1%Z (k_replicas k)); k_version := if HasPrefix (k_version k) "v" then k_version k else "v" +:+ k_version k;
     k_template := k_template k; k_infraName := k_infraName k; k_infraKind := k_infraKind k; k_rolloutAfter := k_rolloutAfter k;
     k_strategy := Some (defaultRolloutStrategy (k_strategy k)); k_serverConfig := k_serverConfig k; k_initialized := k_initialized k |}.

(** The specification is accepted. *)
Definition admitted (k : KCP) : Prop :=
  validateReplicas (k_replicas k) = [] ∧ validateRolloutStrategy (k_strategy k) (k_replicas k) = Ok [].
