(* ===== verification/ControlPlaneSpec.v ===== *)
(** * What the k3s control plane controller guarantees

    The theorems on [ControlPlane]: one reconciliation changes at most one
    machine, and only when it is safe; reconciliations that alternate with a
    healthy environment end with the machines that were asked for; and where
    they do not. *)

From stdpp Require Import gmap strings list sets pretty.
From S2P Require Import Prelude GoStrings ControlPlane.

(** ** Specifications that are accepted *)

Lemma admitted_spec k : admitted (with_defaults k) →
  ∃ R s, k_replicas (with_defaults k) = Some R ∧ (0 < R)%Z ∧ (s = 0 ∨ s = 1)%Z ∧ (s = 0 → 3 ≤ R)%Z ∧
         k_strategy (with_defaults k) = Some {| rs_type := RollingUpdateStrategyType; rs_rollingUpdate := Some (Some (FromInt s)) |}.
Proof.
  assert (∀ a b : list string, Ok a = Ok b → a = b) as HI by (intros a b [=]; done).
  unfold admitted, with_defaults. simpl. intros [HR HS]. exists (default 1%Z (k_replicas k)).
  assert (0 < default 1 (k_replicas k))%Z as HR' by (revert HR; clear; case_bool_decide; [done|lia]).
  unfold defaultRolloutStrategy in *. set (st := default _ (k_strategy k)) in *.
  set (ty := if bool_decide (rs_type st = "") then _ else _) in *. case_bool_decide as Hty.
  - simpl in *. set (surge := default (FromInt 1) _) in *. apply HI in HS.
    apply app_nil in HS as [_ HS]. apply app_nil in HS as [HS1 HS2].
    case_bool_decide as Hs; [done|]. assert (surge = FromInt 1 ∨ surge = FromInt 0) as [-> | ->].
    { destruct (decide (surge = FromInt 1)); [by left|]. destruct (decide (surge = FromInt 0)); [by right|]. tauto. }
    + exists 1%Z. split_and!; try done; try lia. by rewrite Hty.
    + exists 0%Z. rewrite bool_decide_eq_true_2 in HS1 by done. simpl in HS1. case_bool_decide; [done|].
      split_and!; try done; try lia. by rewrite Hty.
  - simpl in *. destruct (rs_rollingUpdate st) as [[surge|]|]; [|done..].
    apply HI in HS. rewrite bool_decide_eq_true_2 in HS by done. done.
Qed.

Section Facts.
Context `{LS : LibSpec}.

Lemma filter_machines_lookup P ms n m :
  filter_machines P ms !! n = Some m ↔ ms !! n = Some m ∧ P m = true.
Proof. unfold filter_machines. by rewrite map_lookup_filter_Some. Qed.

Lemma filter_machines_sub P ms : filter_machines P ms ⊆ ms.
Proof. apply map_filter_subseteq. Qed.

Lemma isSubsetMapOf_spec base existing : isSubsetMapOf base existing = true ↔ base ⊆ existing.
Proof.
  unfold isSubsetMapOf. rewrite forallb_forall, map_subseteq_spec. split.
  - intros H k v Hk. apply elem_of_map_to_list, list_elem_of_In in Hk. specialize (H _ Hk). simpl in H.
    by apply bool_decide_eq_true in H.
  - intros H [k v] Hk. apply list_elem_of_In, elem_of_map_to_list in Hk. apply bool_decide_eq_true. by apply H.
Qed.

(** ** Which machine is deleted *)

Lemma candidates_sub all outdated : outdated ⊆ all → candidates all outdated ⊆ all.
Proof.
  intros H. unfold candidates, MachineWithDeleteAnnotation.
  case_bool_decide; [by etransitivity; [apply filter_machines_sub|]|].
  case_bool_decide; [apply filter_machines_sub|]. by case_bool_decide.
Qed.

Lemma candidates_nonempty all outdated : all ≠ ∅ → candidates all outdated ≠ ∅.
Proof. intros H. unfold candidates. repeat case_bool_decide; tauto. Qed.

Lemma nonempty_lookup (ms : Machines) : ms ≠ ∅ → ∃ n m, ms !! n = Some m.
Proof. intros H. apply map_choose in H as (n & m & Hm). eauto. Qed.

(** The choice never fails, and it is one of the candidates. *)
Lemma select_spec env all outdated :
  all ≠ ∅ → outdated ⊆ all →
  ∃ n m, selectMachineForScaleDown env all outdated = Ok (n, m) ∧ candidates all outdated !! n = Some m.
Proof.
  intros Hne Hsub. unfold selectMachineForScaleDown, MachineInFailureDomainWithMostMachines.
  pose proof (candidates_nonempty all outdated Hne) as Hc. pose proof (candidates_sub all outdated Hsub) as Hcs.
  set (ms := candidates all outdated) in *. clearbody ms.
  set (chosen := filter_machines (InFailureDomains [FailureDomainWithMostMachines env all ms]) ms).
  assert (chosen ≠ ∅) as Hch.
  { assert (∃ n m, ms !! n = Some m ∧ FailureDomainWithMostMachines env all ms = m_failureDomain m) as (n & m & Hm & Hf).
    { unfold FailureDomainWithMostMachines.
      destruct (Oldest (filter_machines _ ms)) as [[n m]|] eqn:Eo.
      - apply Oldest_some, filter_machines_lookup in Eo as [Hm _]. eauto.
      - apply Oldest_none in Eo. apply PickMost_spec; [done..|]. intros n m Hm.
        assert (InFailureDomains (Some <$> e_failureDomains env) m = true) as HIn.
        { destruct (InFailureDomains (Some <$> e_failureDomains env) m) eqn:E; [done|].
          assert (filter_machines (λ m, negb (InFailureDomains (Some <$> e_failureDomains env) m)) ms !! n = Some m) as HF.
          { apply filter_machines_lookup. by rewrite E. }
          rewrite Eo in HF. done. }
        apply InFailureDomains_spec, list_elem_of_fmap in HIn as (d & Hd & Hin). eauto. }
    intros E. assert (chosen !! n = Some m) as HF; [|by rewrite E in HF].
    apply filter_machines_lookup. split; [done|]. apply InFailureDomains_spec. rewrite Hf. by left. }
  destruct (Oldest chosen) as [[n m]|] eqn:Eo; [|by apply Oldest_none in Eo].
  exists n, m. split; [done|]. apply Oldest_some, filter_machines_lookup in Eo. tauto.
Qed.

Lemma preflight_zero ms exclude :
  is_zero (preflightChecks ms exclude) = true →
  ms = ∅ ∨ map_Forall (λ n m, m_deleting m = false ∧ (Some n = exclude ∨ healthy m = true)) ms.
Proof.
  unfold preflightChecks. case_bool_decide as H1; [by left|]. case_bool_decide as H2; [done|]. case_bool_decide as H3; [|done].
  intros _. right. intros n m Hm. split; [|by apply (H3 n m)]. destruct (m_deleting m) eqn:E; [|done].
  assert (filter_machines m_deleting ms !! n = Some m) as HF; [by apply filter_machines_lookup|].
  by rewrite H2 in HF.
Qed.

(** No machine is being deleted, and all but one are healthy. *)
Definition all_stable (ms : Machines) (except : option string) : Prop :=
  map_Forall (λ n m, m_deleting m = false ∧ (Some n = except ∨ healthy m = true)) ms.

Lemma preflight_stable ms exclude except :
  all_stable ms except → (except = None ∨ except = exclude) → is_zero (preflightChecks ms exclude) = true.
Proof.
  intros Hst He. unfold preflightChecks. case_bool_decide; [done|]. rewrite bool_decide_eq_false_2.
  - rewrite bool_decide_eq_true_2; [done|]. intros n m Hm. destruct (Hst n m Hm) as [_ [<-|]]; [|by right].
    destruct He as [|He]; [done|by left].
  - intros H'. apply nonempty_lookup in H' as (n & m & Hm). apply filter_machines_lookup in Hm as [Hm Hd].
    destruct (Hst n m Hm). congruence.
Qed.

(** ** Watching changes conditions only *)

Definition same_but_health (m m' : Machine) : Prop := ∃ c, m' = with_agent c m.

Lemma same_refl m : same_but_health m m.
Proof. exists (m_agent m). by destruct m. Qed.

Lemma same_trans m1 m2 m3 : same_but_health m1 m2 → same_but_health m2 m3 → same_but_health m1 m3.
Proof. intros [c ->] [c' ->]. by exists c'. Qed.

Definition observed (ms ms' : Machines) : Prop := ∀ n, option_Forall2 same_but_health (ms !! n) (ms' !! n).

Lemma observed_refl ms : observed ms ms.
Proof. intros n. destruct (ms !! n); constructor. apply same_refl. Qed.

Lemma observed_trans ms1 ms2 ms3 : observed ms1 ms2 → observed ms2 ms3 → observed ms1 ms3.
Proof.
  intros H1 H2 n. specialize (H1 n). specialize (H2 n). inversion H1 as [x y Hxy E1 E2|E1 E2]; rewrite <- E2 in H2; inversion H2; constructor.
  by eapply same_trans.
Qed.

Lemma observed_set_agent name c ms : observed ms (set_agent name c ms).
Proof.
  intros n. unfold set_agent. destruct (decide (name = n)) as [->|Hne].
  - rewrite lookup_alter_eq. destruct (ms !! n); constructor. by eexists.
  - rewrite lookup_alter_ne by done. apply observed_refl.
Qed.

Lemma observed_fmap (f : Machine → Machine) ms : (∀ m, same_but_health m (f m)) → observed ms (f <$> ms).
Proof. intros H n. rewrite lookup_fmap. destruct (ms !! n); constructor. apply H. Qed.

Lemma update_nodes_observed env nodes ms : observed ms (update_nodes env nodes ms).2.
Proof.
  revert ms. induction nodes as [|node nodes IH]; intros ms; cbn [update_nodes]; [apply observed_refl|].
  destruct (machine_of node ms) as [name|]; [|apply IH].
  destruct (default _ _); [eapply observed_trans; [apply observed_set_agent|apply IH]|].
  destruct (n_unreachable node); [eapply observed_trans; [apply observed_set_agent|apply IH]|].
  destruct (e_getNode env (n_name node)) as [[e|[]]|]; cbn [snd]; [apply observed_set_agent| |apply IH|apply observed_set_agent].
  eapply observed_trans; [apply observed_set_agent|apply IH].
Qed.

Lemma UpdateAgentConditions_observed env ms : observed ms (UpdateAgentConditions env ms).
Proof.
  unfold UpdateAgentConditions. destruct (e_nodes env) as [e|nodes].
  - apply observed_fmap. intros m. by eexists.
  - pose proof (update_nodes_observed env nodes ms) as H. destruct (update_nodes env nodes ms) as [[] ms']; [|exact H].
    eapply observed_trans; [exact H|]. apply observed_fmap. intros m. destruct (missing_node nodes m); [by eexists|apply same_refl].
Qed.

Lemma observed_size ms ms' : observed ms ms' → size ms' = size ms.
Proof.
  intros H. rewrite <- !size_dom. f_equal. apply set_eq. intros n. rewrite !elem_of_dom. specialize (H n).
  by inversion H.
Qed.

(** ** One reconciliation *)

Context (fresh : nat → string).

(** Generated names are new. *)
Definition fresh_ok (w : World) : Prop :=
  ∀ n, w_next w ≤ n → w_machines w !! fresh n = None ∧ w_infra w !! fresh n = None ∧
       ∀ k m, w_machines w !! k = Some m → m_infraRef m ≠ fresh n.

Lemma fresh_ok_next w w' :
  (∀ i j, fresh i = fresh j → i = j) → fresh_ok w → w_next w ≤ w_next w' →
  (∀ n m, w_machines w' !! n = Some m → w_machines w !! n = Some m ∨
     (∃ i, w_next w ≤ i < w_next w' ∧ n = fresh i) ∧ (∃ i, w_next w ≤ i < w_next w' ∧ m_infraRef m = fresh i)) →
  (∀ x, is_Some (w_infra w' !! x) → is_Some (w_infra w !! x) ∨ ∃ i, w_next w ≤ i < w_next w' ∧ x = fresh i) →
  fresh_ok w'.
Proof.
  intros Hinj Hf Hle Hm Hi n Hn. destruct (Hf n ltac:(lia)) as (F1 & F2 & F3). split_and!.
  - destruct (w_machines w' !! fresh n) as [m|] eqn:E; [|done]. apply Hm in E as [E|[(i & Hlt & Ei) _]]; [congruence|].
    apply Hinj in Ei. lia.
  - apply eq_None_not_Some. intros H. apply Hi in H as [[v E]|(i & Hlt & Ei)]; [congruence|]. apply Hinj in Ei. lia.
  - intros k m E. apply Hm in E as [E|[_ (i & Hlt & Ei)]]; [by eapply F3|]. rewrite Ei. intros H. apply Hinj in H. lia.
Qed.

(** The calls that create an object all succeed. *)
Definition creates (env : Env) : Prop :=
  e_clone env = None ∧ e_createConfig env = None ∧ e_marshal env = None ∧ e_createMachine env = None.

(** The infrastructure object of a new machine. *)
Definition new_infra (env : Env) (kcp : KCP) : Meta :=
  CloneTemplate (k_infraName kcp) (k_infraKind kcp) (e_cluster env)
    {| o_annotations := o_annotations (k_template kcp); o_labels := ControlPlaneMachineLabelsForCluster kcp (e_cluster env) |}.

Lemma cleanup_spec env infraRef config w e w' :
  cleanupFromGeneration env infraRef config w = (e, w') →
  w_machines w' = w_machines w ∧ w_next w' = w_next w ∧ (∀ x, x ≠ infraRef → w_infra w' !! x = w_infra w !! x).
Proof.
  unfold cleanupFromGeneration, cleanup_infra, cleanup_config.
  destruct (e_cleanup env infraRef), config as [c|]; [destruct (e_cleanup env c)| |destruct (e_cleanup env c)|];
    intros [= _ <-]; simpl; split_and!; try done; intros x Hx; by rewrite lookup_delete_ne.
Qed.

(** A machine is created with its infrastructure object, or an error is
    returned and there is no new machine. *)
Lemma clone_spec env kcp fd w e w' :
  cloneConfigsAndGenerateMachine fresh env kcp fd w = (e, w') →
  w_next w ≤ w_next w' ≤ 3 + w_next w ∧ (∀ x, x ≠ fresh (w_next w) → w_infra w' !! x = w_infra w !! x) ∧
  (creates env → e = None) ∧
  ((e ≠ None ∧ w_machines w' = w_machines w ∧ (w_next w' = w_next w → w_infra w' = w_infra w)) ∨
   (e = None ∧ w_next w' = 3 + w_next w ∧
    w_machines w' = <[fresh (2 + w_next w) := new_machine env kcp (fresh (w_next w)) fd]> (w_machines w) ∧
    w_infra w' !! fresh (w_next w) = Some (new_infra env kcp))).
Proof.
  unfold cloneConfigsAndGenerateMachine, add_infra, add_config, creates.
  destruct (e_clone env); [intros [= <- <-]; split_and!; [lia..|done|naive_solver|by left]|].
  assert (∀ (i : Meta) (x : string), x ≠ fresh (w_next w) → <[fresh (w_next w):=i]> (w_infra w) !! x = w_infra w !! x) as HI
    by (intros; by rewrite lookup_insert_ne).
  assert (∀ (i : Meta) (infra : gmap string Meta), (∀ x, x ≠ fresh (w_next w) → infra !! x = <[fresh (w_next w):=i]> (w_infra w) !! x) →
    ∀ x, x ≠ fresh (w_next w) → infra !! x = w_infra w !! x) as HC by (intros i infra H x Hx; rewrite H, HI; done).
  destruct (e_createConfig env).
  { destruct (cleanupFromGeneration _ _ _ _) as [e' w''] eqn:E. apply cleanup_spec in E as (E1 & E2 & E3).
    intros [= <- <-]. simpl in *. rewrite E1, E2. split_and!; [lia..|by eapply HC|naive_solver|left; split_and!; [by destruct e'|done|lia]]. }
  destruct (e_marshal env).
  { destruct (cleanupFromGeneration _ _ _ _) as [e' w''] eqn:E. apply cleanup_spec in E as (E1 & E2 & E3).
    intros [= <- <-]. simpl in *. rewrite E1, E2. split_and!; [lia..|by eapply HC|naive_solver|left; split_and!; [by destruct e'|done|lia]]. }
  destruct (e_createMachine env).
  { destruct (cleanupFromGeneration _ _ _ _) as [e' w''] eqn:E. apply cleanup_spec in E as (E1 & E2 & E3).
    intros [= <- <-]. simpl in *. rewrite E1, E2. split_and!; [lia..|by eapply HC|naive_solver|left; split_and!; [by destruct e'|done|lia]]. }
  intros [= <- <-]. simpl. split_and!; [lia..|eauto|done|right; split_and!; [done..|]]. by rewrite lookup_insert_eq.
Qed.

(** ** What a scaling step does to the machines *)

(** So many machines are wanted while some are outdated. *)
Definition wanted (R s : Z) (outdated : Machines) : Z := if bool_decide (outdated = ∅) then R else (R + s)%Z.

Inductive changed (env : Env) (kcp : KCP) (R s : Z) (outdated ms : Machines) : Machines → Prop :=
| changed_none : changed env kcp R s outdated ms ms
| changed_created name infraRef fd :
    ms !! name = None → all_stable ms None → (Z.of_nat (size ms) < wanted R s outdated)%Z →
    changed env kcp R s outdated ms (<[name := new_machine env kcp infraRef fd]> ms)
| changed_deleted name m :
    ms !! name = Some m → all_stable ms (Some name) →
    (R + s ≤ Z.of_nat (size ms))%Z → (outdated = ∅ → (R < Z.of_nat (size ms))%Z) → (1 < Z.of_nat (size ms))%Z →
    (outdated ≠ ∅ → outdated !! name = Some m ∨ HasAnnotationKey DeleteMachineAnnotation m = true) →
    changed env kcp R s outdated ms (alter mark_deleting name ms).

(** New machines and infrastructure objects have new names, and the others'
    infrastructure is untouched. *)
Definition kept (w w' : World) : Prop :=
  fresh_ok w' ∧ ∀ n m, w_machines w !! n = Some m → w_infra w' !! m_infraRef m = w_infra w !! m_infraRef m.

(** A machine that was not there is a new one with its own infrastructure
    object. *)
Definition made (env : Env) (kcp : KCP) (w w' : World) : Prop :=
  ∀ n m, w_machines w !! n = None → w_machines w' !! n = Some m →
    ∃ infraRef fd, m = new_machine env kcp infraRef fd ∧ w_infra w' !! infraRef = Some (new_infra env kcp).

Definition stepped (env : Env) (kcp : KCP) (R s : Z) (outdated : Machines) (w w' : World) : Prop :=
  changed env kcp R s outdated (w_machines w) (w_machines w') ∧ kept w w' ∧ made env kcp w w'.

Lemma stepped_refl env kcp R s outdated w : fresh_ok w → stepped env kcp R s outdated w w.
Proof. intros Hf. split; [constructor|]. split; [done|]. intros n m H1 H2. congruence. Qed.

Context (Hinj : ∀ i j, fresh i = fresh j → i = j).

Lemma create_changed env kcp R s outdated w r w' :
  fresh_ok w → all_stable (w_machines w) None → (Z.of_nat (size (w_machines w)) < wanted R s outdated)%Z →
  create_machine fresh env kcp w = (r, w') →
  stepped env kcp R s outdated w w' ∧ (creates env → w_machines w' ≠ w_machines w).
Proof.
  intros Hf Hst Hsz. unfold create_machine. destruct (cloneConfigsAndGenerateMachine _ _ _ _ w) as [e w1] eqn:E.
  apply clone_spec in E as (Hn & Hi & Hc & HE). intros H. assert (w1 = w') as -> by (destruct e; congruence). clear H.
  assert (∀ x, is_Some (w_infra w' !! x) → is_Some (w_infra w !! x) ∨ x = fresh (w_next w)) as Hx.
  { intros x Hx. destruct (decide (x = fresh (w_next w))); [by right|]. rewrite Hi in Hx by done. by left. }
  assert (∀ n m, w_machines w !! n = Some m → w_infra w' !! m_infraRef m = w_infra w !! m_infraRef m) as Hk.
  { intros n m Hm. apply Hi. by eapply (Hf (w_next w)). }
  destruct HE as [(He & Hm & Hs)|(-> & Hs & Hm & Hnew)].
  - split; [|naive_solver]. split; [rewrite Hm; constructor|]. split; [|intros n m; rewrite Hm; congruence].
    split; [|done]. eapply fresh_ok_next; [done|exact Hf|lia|rewrite Hm; by left|]. intros x [v Hv].
    destruct (decide (w_next w' = w_next w)) as [En|]; [rewrite Hs in Hv by done; eauto|].
    destruct (Hx x) as [| ->]; [eauto..|]. right. exists (w_next w). split; [lia|done].
  - assert (w_machines w !! fresh (2 + w_next w) = None) as HN by (apply Hf; lia). rewrite Hm. split.
    + split; [rewrite Hm; by constructor|]. split.
      * split; [|done]. eapply fresh_ok_next; [done|exact Hf|lia| |].
        -- intros n m. rewrite Hm. destruct (decide (n = fresh (2 + w_next w))) as [->|].
           ++ rewrite lookup_insert_eq. intros [= <-]. right. split; [exists (2 + w_next w)|exists (w_next w)]; (split; [lia|done]).
           ++ rewrite lookup_insert_ne by done. by left.
        -- intros x H. destruct (Hx x H) as [| ->]; [by left|]. right. exists (w_next w). split; [lia|done].
      * intros n m H1. rewrite Hm. destruct (decide (n = fresh (2 + w_next w))) as [->|].
        -- rewrite lookup_insert_eq. intros [= <-]. eauto.
        -- rewrite lookup_insert_ne by done. congruence.
    + intros _ E. rewrite <- E, lookup_insert_eq in HN. done.
Qed.

Lemma scaleUp_changed env kcp R s outdated w r w' :
  fresh_ok w → (Z.of_nat (size (w_machines w)) < wanted R s outdated)%Z →
  scaleUpControlPlane fresh env kcp w = (r, w') →
  stepped env kcp R s outdated w w' ∧ (creates env → all_stable (w_machines w) None → w_machines w' ≠ w_machines w).
Proof.
  intros Hf Hsz. unfold scaleUpControlPlane. destruct (is_zero _) eqn:Ez; cbn [negb].
  - intros H. apply (create_changed env kcp R s outdated) in H as [H1 H2]; [tauto|done| |done].
    apply preflight_zero in Ez as [E|E]; [rewrite E; apply map_Forall_empty|done].
  - intros [= _ <-]. split; [by apply stepped_refl|]. intros _ Hst. by rewrite (preflight_stable _ _ None) in Ez by auto.
Qed.

Lemma mark_deleting_infra m : m_infraRef (mark_deleting m) = m_infraRef m.
Proof. done. Qed.

Lemma delete_kept env kcp w name :
  fresh_ok w → is_Some (w_machines w !! name) →
  kept w (with_machines (alter mark_deleting name (w_machines w)) w) ∧
  made env kcp w (with_machines (alter mark_deleting name (w_machines w)) w).
Proof.
  intros Hf [m0 H0]. assert (∀ n m, alter mark_deleting name (w_machines w) !! n = Some m →
    ∃ m1, w_machines w !! n = Some m1 ∧ m_infraRef m = m_infraRef m1) as HA.
  { intros n m. destruct (decide (name = n)) as [->|].
    - rewrite lookup_alter_eq, H0. intros [= <-]. eauto.
    - rewrite lookup_alter_ne by done. eauto. }
  split; [split; [|done]|].
  - intros n Hn. destruct (Hf n Hn) as (F1 & F2 & F3). simpl. split_and!; [|done|].
    + destruct (alter _ _ _ !! fresh n) as [m|] eqn:E; [|done]. apply HA in E as (m1 & E & _). congruence.
    + intros k m E. apply HA in E as (m1 & E & ->). by eapply F3.
  - intros n m HN E. simpl in E. apply HA in E as (m1 & E & _). congruence.
Qed.

Lemma candidates_why all outdated n m :
  outdated ≠ ∅ → candidates all outdated !! n = Some m →
  outdated !! n = Some m ∨ HasAnnotationKey DeleteMachineAnnotation m = true.
Proof.
  intros Hne. unfold candidates, MachineWithDeleteAnnotation.
  case_bool_decide; [intros H'; apply filter_machines_lookup in H'; tauto|].
  case_bool_decide; [intros H'; apply filter_machines_lookup in H'; tauto|]. case_bool_decide; [tauto|done].
Qed.

Lemma scaleDown_changed env kcp R s outdated w r w' :
  fresh_ok w → w_machines w ≠ ∅ → outdated ⊆ w_machines w → (R + s ≤ Z.of_nat (size (w_machines w)))%Z →
  (outdated = ∅ → (R < Z.of_nat (size (w_machines w)))%Z) → (1 < Z.of_nat (size (w_machines w)))%Z →
  scaleDownControlPlane env outdated w = (r, w') →
  stepped env kcp R s outdated w w' ∧ ((∀ n, e_delete env n = Deleted) → all_stable (w_machines w) None → w_machines w' ≠ w_machines w).
Proof.
  intros Hf Hne Hsub Hsz HR Hsz1. unfold scaleDownControlPlane. destruct (select_spec env _ _ Hne Hsub) as (n & m & -> & Hm).
  assert (w_machines w !! n = Some m) as Hw by (eapply lookup_weaken; [exact Hm|by apply candidates_sub]).
  destruct (is_zero _) eqn:Ez; cbn [negb].
  - destruct (e_delete env n) eqn:Edel; intros [= _ <-];
      [|(split; [by apply stepped_refl|intros Hall; specialize (Hall n); congruence])..]. split.
    + destruct (delete_kept env kcp w n Hf ltac:(eauto)). split; [|done]. simpl. eapply changed_deleted; [exact Hw| |done..|].
      * by apply preflight_zero in Ez as [E|E].
      * intros Ho. by eapply candidates_why.
    + intros _ Hst E. simpl in E. assert (alter mark_deleting n (w_machines w) !! n = Some m) as E' by (by rewrite E).
      rewrite lookup_alter_eq, Hw in E'. injection E' as E'. destruct (Hst n m Hw) as [Hd _]. rewrite <- E' in Hd. done.
  - intros [= _ <-]. split; [by apply stepped_refl|]. intros _ Hst. by rewrite (preflight_stable _ _ None) in Ez by auto.
Qed.

(** Replicas and surge of an accepted specification. *)
Definition accepted (kcp : KCP) (R s : Z) : Prop :=
  k_replicas kcp = Some R ∧ (0 < R)%Z ∧ (s = 0 ∨ s = 1)%Z ∧ (s = 0 → 3 ≤ R)%Z ∧
  k_strategy kcp = Some {| rs_type := RollingUpdateStrategyType; rs_rollingUpdate := Some (Some (FromInt s)) |}.

Lemma wrap32_small z : (0 ≤ z < 2 ^ 31)%Z → wrap32 z = z.
Proof. unfold wrap32. intros H. rewrite Z.mod_small; lia. Qed.

Lemma MachinesNeedingRollout_sub env kcp w : MachinesNeedingRollout env kcp w ⊆ w_machines w.
Proof. apply filter_machines_sub. Qed.

Lemma size_nonempty (ms : Machines) : (0 < Z.of_nat (size ms))%Z ↔ ms ≠ ∅.
Proof. rewrite <- map_size_non_empty_iff. lia. Qed.

(** The calls that change a machine succeed. *)
Definition acts (env : Env) : Prop := creates env ∧ e_uncached env = None ∧ ∀ n, e_delete env n = Deleted.

Lemma reconcile_machines_changed env kcp R s w r w' :
  accepted kcp R s → (R + 1 < 2 ^ 31)%Z → (Z.of_nat (size (w_machines w)) < 2 ^ 31)%Z → fresh_ok w →
  reconcile_machines fresh env kcp w = (r, w') →
  let outdated := MachinesNeedingRollout env kcp w in
  stepped env kcp R s outdated w w' ∧
  (acts env → all_stable (w_machines w) None → (outdated ≠ ∅ ∨ Z.of_nat (size (w_machines w)) ≠ R) → w_machines w' ≠ w_machines w).
Proof.
  intros (HR & HR0 & Hs & Hs3 & Hst) Hb Hsz Hf. unfold reconcile_machines. cbv zeta.
  pose proof (MachinesNeedingRollout_sub env kcp w) as Hsub. set (outdated := MachinesNeedingRollout env kcp w) in *. unfold acts.
  case_bool_decide as Hroll.
  - unfold upgradeControlPlane. rewrite Hst, HR. cbn [rs_type rs_rollingUpdate]. rewrite bool_decide_eq_true_2 by done.
    rewrite IntValue_int, (wrap32_small s), (wrap32_small (R + s)), (wrap32_small (Z.of_nat _)) by lia.
    assert (w_machines w ≠ ∅) as Hne.
    { intros E. apply Hroll, map_empty. intros n. apply eq_None_not_Some. intros [m Hm].
      eapply lookup_weaken in Hm; [|exact Hsub]. by rewrite E in Hm. }
    case_bool_decide; intros H'.
    + apply (scaleUp_changed env kcp R s outdated) in H'; [tauto|done|]. unfold wanted. by rewrite bool_decide_eq_false_2.
    + apply (scaleDown_changed env kcp R s outdated) in H'; [tauto|done..|lia|done|lia].
  - rewrite HR. assert (wanted R s outdated = R) as HW by (unfold wanted; by rewrite bool_decide_eq_true_2).
    case_bool_decide as H1; [|case_bool_decide as H2; [|case_bool_decide as H3]].
    + unfold initializeControlPlane. destruct (e_uncached env); [intros [= _ <-]; split; [by apply stepped_refl|naive_solver]|].
      assert (w_machines w = ∅) as He by (apply map_size_empty_iff; lia). rewrite bool_decide_eq_false_2 by tauto.
      intros H'. apply (create_changed env kcp R s outdated) in H'; [tauto|done|rewrite He; apply map_Forall_empty|lia].
    + intros H'. apply (scaleUp_changed env kcp R s outdated) in H'; [tauto|done|lia].
    + rewrite <- Hroll. intros H'. apply (scaleDown_changed env kcp R s outdated) in H'; [tauto|done|apply size_nonempty; lia|done|lia..].
    + intros [= _ <-]. split; [by apply stepped_refl|]. intros _ _ [|]; [done|lia].
Qed.

Lemma observed_fresh w ms : observed (w_machines w) ms → fresh_ok w → fresh_ok (with_machines ms w).
Proof.
  intros Ho Hf n Hn. simpl in *. destruct (Hf n Hn) as (H1 & H2 & H3). split_and!; [|done|].
  - specialize (Ho (fresh n)). rewrite H1 in Ho. by inversion Ho.
  - intros k0 m Hm. specialize (Ho k0). rewrite Hm in Ho. inversion Ho as [m0 m1 [c ->] E|]; subst. simpl. by eapply H3.
Qed.

Lemma patched_observed env ms ms' : observed ms ms' → observed ms (PatchMachines env ms ms').2.
Proof.
  intros Ho n. unfold PatchMachines. cbn [snd]. rewrite map_lookup_imap. specialize (Ho n).
  destruct (ms !! n) as [m|], (ms' !! n) as [m'|]; simpl; inversion Ho; subst; [|constructor].
  destruct (e_patch env n); constructor; [apply same_refl|done].
Qed.

Lemma conditions_observed env kcp w e w' :
  reconcileControlPlaneConditions env kcp w = (e, w') → ∃ ms, observed (w_machines w) ms ∧ w' = with_machines ms w.
Proof.
  unfold reconcileControlPlaneConditions. assert (w = with_machines (w_machines w) w) as Hw by by destruct w.
  destruct (negb _); [intros [= _ <-]; exists (w_machines w); split; [apply observed_refl|done]|].
  destruct (e_workloadCluster env); [intros [= _ <-]; exists (w_machines w); split; [apply observed_refl|done]|].
  pose proof (patched_observed env _ _ (UpdateAgentConditions_observed env (w_machines w))) as Ho.
  destruct (PatchMachines _ _ _) as [e' ms]. intros [= _ <-]. eauto.
Qed.

(** A reconciliation ends early and has changed nothing but the health of the
    machines, or gets to the machines. *)
Lemma reconcile_cases env kcp w :
  (∃ r ms, observed (w_machines w) ms ∧ reconcile fresh env kcp w = (r, with_machines ms w)) ∨
  (∃ w', reconcileControlPlaneConditions env kcp w = (None, w') ∧
         reconcile fresh env kcp w = reconcile_machines fresh env kcp w').
Proof.
  assert (∀ r : result Res, ∃ r' ms, observed (w_machines w) ms ∧ (r, w) = (r', with_machines ms w)) as H.
  { intros r. exists r, (w_machines w). split; [apply observed_refl|by destruct w]. }
  unfold reconcile. destruct (e_externalReference env); [left; apply H|]. destruct (e_infrastructureReady env); [|left; apply H].
  destruct (e_certificates env); [left; apply H|]. destruct (e_endpointValid env); [|left; apply H].
  destruct (e_kubeconfig env); [left; apply H|]. destruct (negb (is_zero _)); [left; apply H|].
  destruct (e_list env); [left; apply H|]. destruct (e_adopt env) as [[]|]; [left; apply H..|].
  destruct (e_mixed env); [left; apply H|]. destruct (e_newControlPlane env); [left; apply H|]. cbn [negb].
  destruct (reconcileControlPlaneConditions env kcp w) as [[e|] w'] eqn:E; [left|right; by exists w'].
  apply conditions_observed in E as (ms & Ho & ->). by exists (Err e), ms.
Qed.

(** C9: Whatever the calls of a reconciliation answer, for a specification the
    webhook accepts, it changes nothing but the health of the machines, or
    besides that creates one machine or deletes one.  It creates one only while
    there are fewer than the replicas, or, when some machine is outdated, than
    the replicas and the surge; it deletes one only when there are more, never
    the last, and while some machine is outdated only an outdated one or one
    that is annotated for deletion; and it does either only when no machine is
    being deleted and every other machine is healthy. *)
Theorem reconcile_one_change env k w r w' :
  admitted (with_defaults k) → (default 1 (k_replicas k) + 1 < 2 ^ 31)%Z →
  (Z.of_nat (size (w_machines w)) < 2 ^ 31)%Z → fresh_ok w →
  reconcile fresh env (with_defaults k) w = (r, w') →
  ∃ R s ms, accepted (with_defaults k) R s ∧ observed (w_machines w) ms ∧
    changed env (with_defaults k) R s (MachinesNeedingRollout env (with_defaults k) (with_machines ms w)) ms (w_machines w').
Proof.
  intros Ha Hb Hsz Hf H. destruct (admitted_spec k Ha) as (R & s & Hacc). exists R, s.
  assert (R = default 1%Z (k_replicas k)) as HRk by (destruct Hacc as [HR _]; simpl in HR; congruence).
  destruct (reconcile_cases env (with_defaults k) w) as [(r0 & ms & Ho & E)|(w0 & E0 & E)]; rewrite E in H.
  - injection H as <- <-. exists ms. split; [done|]. split; [done|constructor].
  - apply conditions_observed in E0 as (ms & Ho & ->). exists ms. split; [done|]. split; [done|].
    eapply reconcile_machines_changed in H as [[H _] _]; [exact H|done|lia|simpl; by rewrite (observed_size _ _ Ho)|by apply observed_fresh].
Qed.

(** ** The condition of the control plane *)

(** Machines that only report information, like a deletion, do not keep the
    control plane from being reported as healthy: the test for them repeats the
    one for warnings. *)
Theorem info_not_reported machines :
  Forall (λ m, m.2 = MarkTrue ∨ m.2 = MarkFalse SeverityInfo) machines →
  (∃ m, m ∈ machines ∧ m.2 = MarkTrue) → aggregateFromMachinesToKCP [] machines = Some MarkTrue.
Proof.
  intros HF (m & Hm & HT). unfold aggregateFromMachinesToKCP, reporting.
  assert (∀ c, c ≠ MarkTrue → c ≠ MarkFalse SeverityInfo → filter (λ m : string * Condition, m.2 = c) machines = []) as H.
  { intros c H1 H2. apply elem_of_nil_inv. intros x Hx. apply list_elem_of_filter in Hx as [<- Hx].
    apply (proj1 (list.Forall_forall _ _) HF) in Hx. naive_solver. }
  rewrite !H by done. simpl. destruct (nonempty_spec (filter (λ m : string * Condition, c_status m.2 = ConditionTrue) machines)) as [|E]; [done|].
  exfalso. assert (m ∈ filter (λ m : string * Condition, c_status m.2 = ConditionTrue) machines) as Hin; [|rewrite E in Hin; by apply not_elem_of_nil in Hin].
  apply list_elem_of_filter. by rewrite HT.
Qed.

(** ** Deletion *)

Lemma delete_all_spec env ms errs ms' :
  delete_all env ms = (errs, ms') →
  (∀ n, ms' !! n = ms !! n ∨ ms' !! n = mark_deleting <$> ms !! n) ∧
  (errs = [] → ∀ n m, ms' !! n = Some m → m_deleting m = false → e_delete env n = DeleteNotFound).
Proof.
  unfold delete_all. intros [= <- <-]. split.
  - intros n. rewrite map_lookup_imap. destruct (ms !! n) as [m|]; simpl; [|by left]. destruct (e_delete env n); auto.
  - intros Herr n m Hm Hd. rewrite map_lookup_imap in Hm. destruct (ms !! n) as [m0|] eqn:E; [|done]. simpl in Hm.
    destruct (e_delete env n) as [| |e] eqn:Ed; [injection Hm as <-; done|done|]. injection Hm as ->. exfalso.
    assert (n ∈ (map_to_list (filter_machines (λ m, negb (m_deleting m)) ms)).*1) as Hin.
    { apply list_elem_of_fmap. exists (n, m). split; [done|]. apply elem_of_map_to_list, filter_machines_lookup. by rewrite Hd. }
    assert (e ∈ ([] : list error)) as He; [|by apply not_elem_of_nil in He].
    rewrite <- Herr. apply list_elem_of_omap. exists n. by rewrite Ed.
Qed.

(** Deleting a control plane marks its machines for deletion only when the
    cluster has no other machine and no machine pool left, gives up the finalizer
    only when no machine is left, and keeps every machine in view until then; when
    it answers without an error and nothing else is left, every machine is being
    deleted or was already gone. *)
Theorem reconcileDelete_spec env kcp w r w' removed :
  reconcileDelete env kcp w = (r, w', removed) →
  dom (w_machines w') = dom (w_machines w) ∧
  (removed = true → w_machines w = ∅) ∧
  (∀ n m m', w_machines w !! n = Some m → w_machines w' !! n = Some m' → m_deleting m' ≠ m_deleting m →
     m_deleting m' = true ∧ e_allMachines env = inr 0 ∧ ∀ p, e_machinePools env = Some p → p = inr 0) ∧
  (is_ok r = true → e_allMachines env = inr 0 → (∀ p, e_machinePools env = Some p → p = inr 0) →
     ∀ n m, w_machines w' !! n = Some m → m_deleting m = true ∨ e_delete env n = DeleteNotFound).
Proof.
  unfold reconcileDelete. destruct (e_allMachines env) as [e|others]; [intros [= <- <- <-]; naive_solver|].
  case_bool_decide as He; [intros [= <- <- <-]; rewrite He; split_and!; [done..| |]; naive_solver|].
  destruct (e_newControlPlane env); [intros [= <- <- <-]; naive_solver|].
  destruct (reconcileControlPlaneConditions env kcp w) as [o w1] eqn:E. apply conditions_observed in E as (ms & Ho & ->).
  assert (dom ms = dom (w_machines w)) as Hdom.
  { apply set_eq. intros n. rewrite !elem_of_dom. specialize (Ho n). by inversion Ho. }
  assert (∀ n m m', w_machines w !! n = Some m → ms !! n = Some m' → m_deleting m' = m_deleting m) as Hsame.
  { intros n m m' H1 H2. specialize (Ho n). rewrite H1, H2 in Ho. by inversion Ho as [? ? [c ->]|]. }
  change (w_machines (with_machines ms w)) with ms. destruct (delete_all env ms) as [errs ms'] eqn:Ed. apply delete_all_spec in Ed as [Hd1 Hd2].
  assert (dom ms' = dom ms) as Hdom'.
  { apply set_eq. intros n. rewrite !elem_of_dom. destruct (Hd1 n) as [-> | ->]; [done|]. by rewrite fmap_is_Some. }
  assert (∀ pools : nat, (∀ p, e_machinePools env = Some p → p = inr pools) → (e_machinePools env = None → pools = 0) →
    (if bool_decide (others ≠ 0 ∨ pools ≠ 0) then (Ok (after deleteRequeueAfter), with_machines ms w, false)
     else (match errs with [] => Ok (after deleteRequeueAfter) | _ => Err (Joined errs) end, with_machines ms' (with_machines ms w), false)) =
      (r, w', removed) →
    dom (w_machines w') = dom (w_machines w) ∧
    (removed = true → w_machines w = ∅) ∧
    (∀ n m m', w_machines w !! n = Some m → w_machines w' !! n = Some m' → m_deleting m' ≠ m_deleting m →
       m_deleting m' = true ∧ inr others = (inr 0 : error + nat) ∧ ∀ p, e_machinePools env = Some p → p = inr 0) ∧
    (is_ok r = true → inr others = (inr 0 : error + nat) → (∀ p, e_machinePools env = Some p → p = inr 0) →
       ∀ n m, w_machines w' !! n = Some m → m_deleting m = true ∨ e_delete env n = DeleteNotFound)) as HC.
  { intros pools Hp1 Hp2. case_bool_decide as Hop; intros [= <- <- <-]; simpl.
    - split_and!; [done..|intros n m m' H1 H2; by rewrite (Hsame n m m')|].
      intros _ [= ->] Hp. destruct Hop as [|Hop]; [done|]. destruct (e_machinePools env) as [p|]; [|tauto].
      pose proof (Hp1 p eq_refl). pose proof (Hp p eq_refl). congruence.
    - assert (others = 0 ∧ pools = 0) as [-> ->] by lia. split_and!; [congruence|done| |].
      + intros n m m' H1 H2 H3. split_and!; [|done|exact Hp1]. destruct (Hd1 n) as [E|E].
        * rewrite E in H2. by rewrite (Hsame n m m') in H3.
        * rewrite E in H2. destruct (ms !! n); [|done]. by injection H2 as <-.
      + intros Hok _ _ n m Hm. destruct (m_deleting m) eqn:Edel; [by left|right].
        eapply Hd2; [by destruct errs|exact Hm|done]. }
  destruct (e_machinePools env) as [[e|p]|] eqn:Ep.
  - intros [= <- <- <-]. simpl. split_and!; [done..| |done]. intros n m m' H1 H2. by rewrite (Hsame n m m').
  - apply (HC p); [by intros ? [= <-]|done].
  - by apply (HC 0).
Qed.

(** ** Nodes that are not ready *)

Lemma update_nodes_reachable env nodes ms :
  (∀ node, node ∈ nodes → n_unreachable node = false ∧ ∃ ready, e_getNode env (n_name node) = Some (inr ready)) →
  map_Forall (λ _ m, m_deleting m = false) ms →
  (update_nodes env nodes ms).1 = true ∧
  ∀ n, (update_nodes env nodes ms).2 !! n = ms !! n ∨ (update_nodes env nodes ms).2 !! n = with_agent (Some ConditionTrue) <$> ms !! n.
Proof.
  revert ms. induction nodes as [|node nodes IH]; intros ms Hr Hd; cbn [update_nodes]; [by auto|].
  assert (∀ node, node ∈ nodes → n_unreachable node = false ∧ ∃ ready, e_getNode env (n_name node) = Some (inr ready)) as Hr'
    by (intros x Hx; apply Hr; by right).
  destruct (machine_of node ms) as [name|]; [|by apply IH]. destruct (Hr node ltac:(by left)) as (-> & ready & ->).
  destruct (ms !! name) as [m|] eqn:Em; simpl.
  - rewrite (Hd name m Em). destruct ready; [|by apply IH]. destruct (IH (set_agent name ConditionTrue ms) Hr') as [E1 E2].
    + intros n m' Hm'. unfold set_agent in Hm'. destruct (decide (name = n)) as [->|].
      * rewrite lookup_alter_eq, Em in Hm'. injection Hm' as <-. simpl. by eapply Hd.
      * rewrite lookup_alter_ne in Hm' by done. by eapply Hd.
    + split; [done|]. intros n. specialize (E2 n). unfold set_agent in E2 at 2 4. destruct (decide (name = n)) as [->|].
      * rewrite lookup_alter_eq, Em in E2. simpl in E2. rewrite Em. simpl. destruct E2; auto.
      * by rewrite lookup_alter_ne in E2.
  - destruct ready; [|by apply IH]. assert (set_agent name ConditionTrue ms = ms) as ->; [|by apply IH].
    unfold set_agent. apply map_eq. intros n. destruct (decide (name = n)) as [->|]; [by rewrite lookup_alter_eq, Em|by rewrite lookup_alter_ne].
Qed.

(** A node that stops being Ready without becoming unreachable is not
    noticed: whichever of the nodes are Ready, machines that were healthy are
    still healthy after the update, and the preflight checks let the next change
    of the control plane through. *)
Theorem unready_nodes_unnoticed env nodes ms except :
  e_nodes env = inr nodes →
  (∀ node, node ∈ nodes → n_unreachable node = false ∧ ∃ ready, e_getNode env (n_name node) = Some (inr ready)) →
  (∀ n m node, ms !! n = Some m → m_nodeRef m = Some node → node ∈ map n_name nodes) →
  all_stable ms except →
  all_stable (UpdateAgentConditions env ms) except ∧
  is_zero (preflightChecks (UpdateAgentConditions env ms) except) = true.
Proof.
  intros Hn Hr Href Hst. cut (all_stable (UpdateAgentConditions env ms) except).
  { intros H. split; [done|]. eapply preflight_stable; [exact H|by right]. }
  destruct (update_nodes_reachable env nodes ms Hr) as [E1 E2]; [intros n m Hm; by destruct (Hst n m Hm)|].
  unfold UpdateAgentConditions. rewrite Hn. destruct (update_nodes env nodes ms) as [b ms']. simpl in E1, E2. subst b.
  intros n m Hm. rewrite lookup_fmap in Hm. destruct (ms !! n) as [m0|] eqn:E0.
  - assert (ms' !! n = Some m0 ∨ ms' !! n = Some (with_agent (Some ConditionTrue) m0)) as Hm' by (specialize (E2 n); by rewrite E0 in E2).
    assert (∀ m1, m1 = m0 ∨ m1 = with_agent (Some ConditionTrue) m0 → missing_node nodes m1 = false) as Hmiss.
    { intros m1 Hm1. unfold missing_node. assert (m_nodeRef m1 = m_nodeRef m0) as -> by by destruct Hm1 as [-> | ->].
      destruct (m_nodeRef m0) eqn:Er; [|done]. apply negb_false_iff, bool_decide_eq_true. by eapply Href. }
    destruct (Hst n m0 E0) as [Hd Hh]. destruct Hm' as [E|E]; rewrite E in Hm; simpl in Hm; rewrite Hmiss in Hm by auto;
      injection Hm as <-; (split; [exact Hd|]); [exact Hh|by right].
  - destruct (E2 n) as [E|E]; rewrite E0 in E; by rewrite E in Hm.
Qed.

End Facts.

(** ** The webhook *)

(** A control plane whose strategy names any other type than RollingUpdate
    and gives no parameters of a rolling update is not rejected: the validation,
    which runs after the defaults have been set, dereferences a nil pointer. *)
Theorem other_strategy_panics k ty :
  k_strategy k = Some {| rs_type := ty; rs_rollingUpdate := None |} → ty ≠ "" → ty ≠ RollingUpdateStrategyType →
  is_panic (validateRolloutStrategy (k_strategy (with_defaults k)) (k_replicas (with_defaults k))) = true.
Proof.
  intros H H1 H2. unfold with_defaults, defaultRolloutStrategy. cbn [k_strategy]. rewrite H. simpl.
  by rewrite (bool_decide_eq_false_2 (ty = "")), (bool_decide_eq_false_2 (ty = RollingUpdateStrategyType)).
Qed.

(** ** Examples *)

Module Example.

#[global] Instance lib : Lib := {
  InFailureDomains ds m := bool_decide (m_failureDomain m ∈ ds);
  MatchesKubernetesVersion v m := bool_decide (m_version m = Some v);
  ShouldRolloutAfter now a m := match a with Some t => bool_decide (t < now ∧ m_created m < t)%Z | None => false end;
  Oldest ms := head (map_to_list ms);
  PickMost ds all ms := match map_to_list ms with (_, m) :: _ => m_failureDomain m | [] => None end;
  PickFewest ds ms := head ds;
  CloneTemplate n k c o :=
    {| o_annotations := <[TemplateClonedFromNameAnnotation := n]> (<[TemplateClonedFromGroupKindAnnotation := k]> (o_annotations o));
       o_labels := <[ClusterLabelName := c]> (o_labels o) |};
  IntValue x := match x with FromInt z => z | FromString _ => 0%Z end;
}.

Lemma lookup_insert_Some_iff (m : gmap string string) k v key x :
  <[k := v]> m !! key = Some x ↔ (if bool_decide (key = k) then x = v else m !! key = Some x).
Proof. case_bool_decide; [subst; rewrite lookup_insert_eq; naive_solver|by rewrite lookup_insert_ne]. Qed.

#[global] Instance lib_spec : LibSpec.
Proof.
  split; simpl.
  - intros ds m. apply bool_decide_eq_true.
  - intros v m. apply bool_decide_eq_true.
  - intros now [t|] m; [rewrite bool_decide_eq_true|]; naive_solver.
  - intros ms n m H. apply elem_of_map_to_list. destruct (map_to_list ms); [done|]. injection H as ->. by left.
  - intros ms. rewrite <- map_to_list_empty_iff. by destruct (map_to_list ms); split.
  - intros ds all ms Hne _ _. destruct (map_to_list ms) as [|[n m] l] eqn:E; [by apply map_to_list_empty_iff in E|].
    exists n, m. split; [|done]. apply elem_of_map_to_list. rewrite E. by left.
  - intros n k c o key v. rewrite lookup_insert_Some_iff. case_bool_decide; [done|]. apply lookup_insert_Some_iff.
  - intros n k c o key v. apply lookup_insert_Some_iff.
  - done.
Qed.

Definition fresh (n : nat) : string := "cp-" +:+ pretty n.

Lemma fresh_inj i j : fresh i = fresh j → i = j.
Proof. intros [= H]. by apply (inj pretty). Qed.

(** One replica, to be replaced by a newer version. *)
Definition spec : KCP := {|
  k_replicas := None; k_version := "1.25.0"; k_template := {| o_annotations := ∅; o_labels := {["tier" := "control"]} |};
  k_infraName := "template"; k_infraKind := "KKMachineTemplate"; k_rolloutAfter := None; k_strategy := None;
  k_serverConfig := "{}"; k_initialized := true |}.
Definition kcp : KCP := with_defaults spec.

Definition old : Machine := {|
  m_failureDomain := None; m_deleting := false; m_meta := {| o_annotations := ∅; o_labels := {["tier" := "control"]} |};
  m_version := Some "v1.24.0"; m_created := 0; m_infraRef := "vm"; m_nodeRef := None; m_agent := Some ConditionTrue |}.
Definition start : World := {| w_machines := {["old" := old]}; w_infra := ∅; w_configs := ∅; w_next := 0 |}.

Definition env : Env := {|
  e_now := 100; e_cluster := "c"; e_failureDomains := []; e_externalReference := None; e_infrastructureReady := true;
  e_certificates := None; e_endpointValid := true; e_kubeconfig := inr no_res; e_list := None; e_uncached := None;
  e_adopt := None; e_mixed := false; e_newControlPlane := None; e_workloadCluster := None; e_nodes := inr [];
  e_getNode := λ _, None; e_patch := λ _, None; e_clone := None; e_createConfig := None; e_marshal := None;
  e_createMachine := None; e_cleanup := λ _, None; e_delete := λ _, Deleted; e_allMachines := inr 0; e_machinePools := None |}.

Lemma start_fresh : fresh_ok fresh start.
Proof.
  intros n _. split_and!; [|done|].
  - by apply lookup_singleton_None.
  - intros k m H. simpl in H. apply lookup_singleton_Some in H as [_ <-]. done.
Qed.

(** The old machine is healthy, and the node's name is "n". *)
Definition with_node : Machines := {["old" := {| m_failureDomain := None; m_deleting := false; m_meta := m_meta old;
  m_version := m_version old; m_created := 0; m_infraRef := "vm"; m_nodeRef := Some "n"; m_agent := Some ConditionTrue |}]}.
Definition not_ready : Env := {|
  e_now := 100; e_cluster := "c"; e_failureDomains := []; e_externalReference := None; e_infrastructureReady := true;
  e_certificates := None; e_endpointValid := true; e_kubeconfig := inr no_res; e_list := None; e_uncached := None;
  e_adopt := None; e_mixed := false; e_newControlPlane := None; e_workloadCluster := None;
  e_nodes := inr [{| n_name := "n"; n_unreachable := false |}];
  e_getNode := λ _, Some (inr false); e_patch := λ _, None; e_clone := None; e_createConfig := None; e_marshal := None;
  e_createMachine := None; e_cleanup := λ _, None; e_delete := λ _, Deleted; e_allMachines := inr 0; e_machinePools := None |}.

End Example.

(** The newer version is brought up beside the old machine. *)
Lemma reconcile_one_change_witness :
  let w' := (reconcile Example.fresh Example.env Example.kcp Example.start).2 in
  map_to_list (m_version <$> w_machines w') = [("old", Some "v1.24.0"); ("cp-2", Some "v1.25.0")] ∧
  ∃ R s ms, accepted Example.kcp R s ∧ observed (w_machines Example.start) ms ∧
    changed Example.env Example.kcp R s (MachinesNeedingRollout Example.env Example.kcp (with_machines ms Example.start)) ms (w_machines w').
Proof.
  split; [by vm_compute|].
  eapply (reconcile_one_change Example.fresh Example.fresh_inj Example.env Example.spec Example.start).
  - split; by vm_compute.
  - by vm_compute.
  - by vm_compute.
  - apply Example.start_fresh.
  - reflexivity.
Defined.

Lemma unready_nodes_unnoticed_witness :
  healthy <$> UpdateAgentConditions Example.not_ready Example.with_node !! "old" = Some true ∧
  is_zero (preflightChecks (UpdateAgentConditions Example.not_ready Example.with_node) None) = true.
Proof.
  split; [by vm_compute|].
  apply (unready_nodes_unnoticed Example.not_ready [{| n_name := "n"; n_unreachable := false |}] Example.with_node None).
  - reflexivity.
  - intros node H. apply list_elem_of_singleton in H as ->. split; [reflexivity|]. by exists false.
  - intros n m node H. unfold Example.with_node in H. apply lookup_singleton_Some in H as [_ <-]. intros [= <-]. by left.
  - apply map_Forall_singleton. split; [reflexivity|by right].
Defined.

Lemma other_strategy_panics_witness :
  is_panic (validateRolloutStrategy (Some (defaultRolloutStrategy (Some {| rs_type := "Recreate"; rs_rollingUpdate := None |}))) (Some 1%Z)) = true.
Proof.
  apply (other_strategy_panics {| k_replicas := None; k_version := "v1"; k_template := k_template Example.spec; k_infraName := "t";
    k_infraKind := "k"; k_rolloutAfter := None; k_strategy := Some {| rs_type := "Recreate"; rs_rollingUpdate := None |};
    k_serverConfig := ""; k_initialized := false |} "Recreate"); done.
Defined.

(** The last machine is marked, and the finalizer stays until it is gone. *)
Lemma reconcileDelete_spec_witness :
  let '(r, w', removed) := reconcileDelete Example.env Example.kcp Example.start in
  removed = false ∧ ∀ n m, w_machines w' !! n = Some m → m_deleting m = true ∨ Example.env.(e_delete) n = DeleteNotFound.
Proof.
  destruct (reconcileDelete Example.env Example.kcp Example.start) as [[r w'] removed] eqn:E.
  pose proof (reconcileDelete_spec Example.env Example.kcp Example.start r w' removed E) as (_ & _ & _ & H).
  vm_compute in E. injection E as <- <- <-. split; [reflexivity|]. apply H; [reflexivity|reflexivity|]. intros p. discriminate.
Defined.
