(* ===== verification/ControlPlaneLive.v ===== *)
(** * Convergence of the k3s control plane controller

    Between two reconciliations machines come up, are taken down and are
    watched.  Whatever happens in between and whatever the calls answer, if again
    and again a reconciliation finds every machine healthy and its calls
    succeed, then the control plane ends with the number of machines that was
    asked for, none of them outdated, and stays so. *)

From stdpp Require Import gmap strings list sets.
From S2P Require Import Prelude GoStrings ControlPlane ControlPlaneSpec.

(** ** Counting machines *)

Definition count (P : Machine → bool) (ms : Machines) : nat := size (filter_machines P ms).

Section Counting.
Context `{LS : LibSpec}.
Implicit Types (P Q : Machine → bool) (ms : Machines).

Lemma count_rel P Q ms ms' :
  (∀ n m, ms !! n = Some m → P m = true → ∃ m', ms' !! n = Some m' ∧ Q m' = true) →
  (∀ n m', ms' !! n = Some m' → Q m' = true → ∃ m, ms !! n = Some m ∧ P m = true) →
  count P ms = count Q ms'.
Proof.
  intros H1 H2. unfold count. rewrite <- !size_dom. f_equal. apply set_eq. intros n. rewrite !elem_of_dom.
  split; intros [m Hm]; apply filter_machines_lookup in Hm as [Hm HP].
  - destruct (H1 n m Hm HP) as (m' & ? & ?). exists m'. by apply filter_machines_lookup.
  - destruct (H2 n m Hm HP) as (m' & ? & ?). exists m'. by apply filter_machines_lookup.
Qed.

Lemma count_ext P Q ms : (∀ n m, ms !! n = Some m → P m = Q m) → count P ms = count Q ms.
Proof. intros H. apply count_rel; intros n m Hm HP; exists m; (split; [done|]); specialize (H n m Hm); congruence. Qed.

Lemma count_insert P ms n m : ms !! n = None → count P (<[n:=m]> ms) = count P ms + (if P m then 1 else 0).
Proof.
  intros Hn. unfold count, filter_machines. destruct (P m) eqn:E.
  - rewrite map_filter_insert_True by done. rewrite map_size_insert_None; [lia|]. apply map_lookup_filter_None. by left.
  - rewrite map_filter_insert_not' by (simpl; congruence). lia.
Qed.

Lemma count_alter P f ms n m :
  ms !! n = Some m → count P (alter f n ms) + (if P m then 1 else 0) = count P ms + (if P (f m) then 1 else 0).
Proof.
  intros Hm. assert (alter f n ms = <[n:=f m]> (delete n ms)) as ->.
  { apply map_eq. intros k. destruct (decide (n = k)) as [->|].
    - by rewrite lookup_alter_eq, Hm, lookup_insert_eq.
    - by rewrite lookup_alter_ne, lookup_insert_ne, lookup_delete_ne. }
  rewrite count_insert by apply lookup_delete_eq.
  assert (count P ms = count P (delete n ms) + (if P m then 1 else 0)) as ->; [|lia].
  rewrite <- (count_insert P (delete n ms) n m) by apply lookup_delete_eq. by rewrite insert_delete_id.
Qed.

Lemma count_all P ms : map_Forall (λ _ m, P m = true) ms → count P ms = size ms.
Proof.
  intros H. unfold count. rewrite <- !size_dom. f_equal. apply set_eq. intros n. rewrite !elem_of_dom. split; intros [m Hm].
  - apply filter_machines_lookup in Hm as [Hm _]. eauto.
  - exists m. apply filter_machines_lookup. split; [done|]. by eapply H.
Qed.

Lemma count_zero P ms : count P ms = 0 ↔ filter_machines P ms = ∅.
Proof. apply map_size_empty_iff. Qed.

Lemma count_none P ms n m : count P ms = 0 → ms !! n = Some m → P m = false.
Proof.
  intros H%count_zero Hm. destruct (P m) eqn:E; [|done].
  assert (filter_machines P ms !! n = Some m) as HF by by apply filter_machines_lookup. by rewrite H in HF.
Qed.

End Counting.

Section Convergence.
Context `{LS : LibSpec}.
Context (fresh : nat → string) (Hinj : ∀ i j, fresh i = fresh j → i = j).
Context (kcp : KCP) (R s : Z) (Hacc : accepted kcp R s) (Hb : (R + 1 < 2 ^ 31)%Z).
Context (cluster : string).

(** ** Outdated machines *)

(** The time after which machines are replaced, if one is given, has passed. *)
Definition due (env : Env) : Prop :=
  e_cluster env = cluster ∧ ∀ t, k_rolloutAfter kcp = Some t → (t < e_now env)%Z.

(** What the template says of the keys that every machine and infrastructure
    object gets agrees with what they get, and it does not ask for deletion. *)
Definition agrees (m : gmap string string) (k v : string) : Prop := m !! k = None ∨ m !! k = Some v.

Record consistent : Prop := {
  con_config : agrees (o_annotations (k_template kcp)) K3sServerConfigurationAnnotation (k_serverConfig kcp);
  con_name : agrees (o_annotations (k_template kcp)) TemplateClonedFromNameAnnotation (k_infraName kcp);
  con_kind : agrees (o_annotations (k_template kcp)) TemplateClonedFromGroupKindAnnotation (k_infraKind kcp);
  con_delete : o_annotations (k_template kcp) !! DeleteMachineAnnotation = None;
  con_cluster : agrees (o_labels (k_template kcp)) ClusterLabelName cluster;
  con_control_plane : agrees (o_labels (k_template kcp)) MachineControlPlaneLabelName "";
}.
Context (Hcon : consistent).

Definition outdated (infra : gmap string Meta) (m : Machine) : bool :=
  negb (m_deleting m) &&
  (match k_rolloutAfter kcp with Some t => bool_decide (m_created m < t)%Z | None => false end ||
   negb (MatchesMachineSpec infra kcp m)).

Definition doomed (infra : gmap string Meta) (m : Machine) : bool :=
  outdated infra m || (negb (m_deleting m) && HasAnnotationKey DeleteMachineAnnotation m).

Definition live (m : Machine) : bool := negb (m_deleting m).

Lemma needs_rollout_outdated env infra m : due env → needs_rollout env kcp infra m = outdated infra m.
Proof.
  intros [_ Hd]. unfold needs_rollout, outdated. f_equal. f_equal. apply Bool.eq_true_iff_eq. rewrite ShouldRolloutAfter_spec.
  destruct (k_rolloutAfter kcp) as [t|]; [|naive_solver]. rewrite bool_decide_eq_true. specialize (Hd t eq_refl). naive_solver lia.
Qed.

Lemma agrees_insert base k v : agrees base k v → base ⊆ <[k:=v]> base.
Proof.
  intros H. apply map_subseteq_spec. intros i x Hx. destruct (decide (k = i)) as [->|].
  - rewrite lookup_insert_eq. destruct H; congruence.
  - by rewrite lookup_insert_ne.
Qed.

Lemma agrees_insert_ne base k k' v v' : k ≠ k' → agrees base k v → agrees (<[k':=v']> base) k v.
Proof. intros Hne H. unfold agrees. by rewrite lookup_insert_ne. Qed.

Lemma matches_template o :
  matchMachineTemplateMetadata kcp o = true ↔ o_annotations (k_template kcp) ⊆ o_annotations o ∧ o_labels (k_template kcp) ⊆ o_labels o.
Proof. unfold matchMachineTemplateMetadata. by rewrite andb_true_iff, !isSubsetMapOf_spec. Qed.

Lemma labels_sub : o_labels (k_template kcp) ⊆ ControlPlaneMachineLabelsForCluster kcp cluster.
Proof.
  destruct Hcon. unfold ControlPlaneMachineLabelsForCluster. etransitivity; [by apply (agrees_insert _ ClusterLabelName cluster)|].
  apply agrees_insert, agrees_insert_ne; done.
Qed.

(** A new machine is neither outdated nor annotated for deletion. *)
Lemma new_machine_fine env infra infraRef fd :
  due env → infra !! infraRef = Some (new_infra env kcp) → doomed infra (new_machine env kcp infraRef fd) = false.
Proof.
  intros [Hcl Hd] Hi. assert (labels : o_labels (k_template kcp) ⊆ ControlPlaneMachineLabelsForCluster kcp cluster) by apply labels_sub.
  destruct Hcon. unfold doomed. apply orb_false_iff. split; [|apply andb_false_iff; right].
  - unfold outdated. simpl. apply orb_false_iff. split.
    + destruct (k_rolloutAfter kcp) as [t|]; [|done]. apply bool_decide_eq_false. specialize (Hd t eq_refl). lia.
    + apply negb_false_iff. unfold MatchesMachineSpec. rewrite !andb_true_iff. split_and!.
      * apply matches_template. cbn [m_meta new_machine o_annotations o_labels]. rewrite Hcl.
        split; [by apply agrees_insert|done].
      * by apply MatchesKubernetesVersion_spec.
      * unfold MatchesTemplateClonedFrom. cbn [m_infraRef new_machine]. rewrite Hi. unfold new_infra.
        set (o := {| o_annotations := _; o_labels := _ |}).
        assert (o_annotations (CloneTemplate (k_infraName kcp) (k_infraKind kcp) (e_cluster env) o) !! TemplateClonedFromNameAnnotation = Some (k_infraName kcp)) as ->
          by (apply CloneTemplate_annotations; by rewrite bool_decide_eq_true_2).
        assert (o_annotations (CloneTemplate (k_infraName kcp) (k_infraKind kcp) (e_cluster env) o) !! TemplateClonedFromGroupKindAnnotation = Some (k_infraKind kcp)) as ->
          by (apply CloneTemplate_annotations; rewrite bool_decide_eq_false_2, bool_decide_eq_true_2; done).
        rewrite bool_decide_eq_false_2 by tauto. apply matches_template. split; apply map_subseteq_spec; intros k v Hk.
        -- apply CloneTemplate_annotations. case_bool_decide as Hn; [subst k; destruct con_name0; congruence|].
           case_bool_decide as Hk'; [subst k; destruct con_kind0; congruence|done].
        -- apply CloneTemplate_labels. case_bool_decide as Hn; [subst k; destruct con_cluster0; congruence|]. simpl.
           eapply lookup_weaken; [exact Hk|]. by rewrite Hcl.
  - unfold HasAnnotationKey. apply bool_decide_eq_false. cbn [m_meta new_machine o_annotations].
    rewrite lookup_insert_ne by done. rewrite con_delete0. by intros [? ?].
Qed.

(** ** What happens between two reconciliations *)

(** The same machine, whose node and health may have changed. *)
Definition same_object (m m' : Machine) : Prop :=
  m' = {| m_failureDomain := m_failureDomain m; m_deleting := m_deleting m; m_meta := m_meta m; m_version := m_version m;
          m_created := m_created m; m_infraRef := m_infraRef m; m_nodeRef := m_nodeRef m'; m_agent := m_agent m' |}.

(** Machines that are being deleted may disappear, the others stay with their
    infrastructure; nobody else makes control plane machines. *)
Record evolves (w w' : World) : Prop := {
  ev_next : w_next w ≤ w_next w';
  ev_old n m' : w_machines w' !! n = Some m' → ∃ m, w_machines w !! n = Some m ∧ same_object m m';
  ev_live n m : w_machines w !! n = Some m → m_deleting m = false → is_Some (w_machines w' !! n);
  ev_infra x : is_Some (w_infra w' !! x) → is_Some (w_infra w !! x);
  ev_kept n m' : w_machines w' !! n = Some m' → w_infra w' !! m_infraRef m' = w_infra w !! m_infraRef m';
}.

Lemma observed_evolves w ms : observed (w_machines w) ms → evolves w (with_machines ms w).
Proof.
  intros Ho. split; simpl; [done| |  |done|done].
  - intros n m' Hm. specialize (Ho n). rewrite Hm in Ho. inversion Ho as [m0 m1 [c ->] E|]; subst. exists m0. by destruct m0.
  - intros n m Hm _. specialize (Ho n). rewrite Hm in Ho. inversion Ho; subst. eauto.
Qed.

Lemma evolves_fresh w w' : evolves w w' → fresh_ok fresh w → fresh_ok fresh w'.
Proof.
  intros [Hn Ho _ Hi _] Hf n Hle. destruct (Hf n ltac:(lia)) as (F1 & F2 & F3). split_and!.
  - destruct (w_machines w' !! fresh n) eqn:E; [|done]. apply Ho in E as (m0 & E & _). congruence.
  - apply eq_None_not_Some. intros H%Hi. destruct H. congruence.
  - intros k m E. apply Ho in E as (m0 & E & Hs). rewrite Hs. simpl. by eapply F3.
Qed.

Lemma evolves_size w w' : evolves w w' → size (w_machines w') ≤ size (w_machines w).
Proof.
  intros [_ Ho _ _ _]. rewrite <- !size_dom. apply subseteq_size. intros n. rewrite !elem_of_dom.
  intros [m' E]. apply Ho in E as (m & E & _). eauto.
Qed.

Lemma outdated_same infra infra' m m' :
  same_object m m' → infra' !! m_infraRef m = infra !! m_infraRef m → outdated infra' m' = outdated infra m.
Proof.
  intros Hs Hi. unfold outdated, MatchesMachineSpec, MatchesTemplateClonedFrom.
  assert (MatchesKubernetesVersion (k_version kcp) m' = MatchesKubernetesVersion (k_version kcp) m) as ->
    by (apply Bool.eq_true_iff_eq; rewrite !MatchesKubernetesVersion_spec; by rewrite Hs).
  rewrite Hs. cbn [m_deleting m_created m_meta m_infraRef]. by rewrite Hi.
Qed.

Lemma doomed_same infra infra' m m' :
  same_object m m' → infra' !! m_infraRef m = infra !! m_infraRef m → doomed infra' m' = doomed infra m.
Proof. intros Hs Hi. unfold doomed. rewrite (outdated_same infra infra' m m') by done. by rewrite Hs. Qed.

(** ** The measure *)

Definition lives (w : World) : nat := count live (w_machines w).
Definition outdateds (w : World) : nat := count (outdated (w_infra w)) (w_machines w).
Definition doomeds (w : World) : nat := count (doomed (w_infra w)) (w_machines w).

Definition distance (w : World) : nat :=
  if bool_decide (outdateds w = 0) then Z.to_nat (Z.abs (Z.of_nat (lives w) - R)) else Z.to_nat (R + s - Z.of_nat (lives w)).

Definition closer (w' w : World) : Prop := doomeds w' < doomeds w ∨ (doomeds w' = doomeds w ∧ distance w' < distance w).
Definition level (w' w : World) : Prop := lives w' = lives w ∧ outdateds w' = outdateds w ∧ doomeds w' = doomeds w.

(** As many machines as were asked for, and none is outdated. *)
Definition converged (w : World) : Prop := outdateds w = 0 ∧ Z.of_nat (lives w) = R.

Lemma level_distance w' w : level w' w → distance w' = distance w.
Proof. intros (E1 & E2 & _). unfold distance. by rewrite E1, E2. Qed.

Lemma level_trans w1 w2 w3 : level w1 w2 → level w2 w3 → level w1 w3.
Proof. intros (? & ? & ?) (? & ? & ?). unfold level. split_and!; congruence. Qed.

Lemma closer_level_l w1 w2 w3 : closer w1 w2 → level w2 w3 → closer w1 w3.
Proof. intros H L. pose proof (level_distance _ _ L). destruct L as (_ & _ & E). unfold closer in *. lia. Qed.

Lemma closer_level_r w1 w2 w3 : level w1 w2 → closer w2 w3 → closer w1 w3.
Proof. intros L H. pose proof (level_distance _ _ L). destruct L as (_ & _ & E). unfold closer in *. lia. Qed.

Lemma level_converged w' w : level w' w → converged w' ↔ converged w.
Proof. intros (E1 & E2 & _). unfold converged. by rewrite E1, E2. Qed.

(** A predicate that only holds of machines that are not being deleted, and
    does not depend on their health, holds of as many afterwards. *)
Lemma evolves_count (P : gmap string Meta → Machine → bool) w w' :
  (∀ infra m, P infra m = true → m_deleting m = false) →
  (∀ infra infra' m m', same_object m m' → infra' !! m_infraRef m = infra !! m_infraRef m → P infra' m' = P infra m) →
  evolves w w' → count (P (w_infra w')) (w_machines w') = count (P (w_infra w)) (w_machines w).
Proof.
  intros HP HS [_ Ho Hl _ Hk]. symmetry. apply count_rel.
  - intros n m Hm HPm. destruct (Hl n m Hm (HP _ _ HPm)) as [m' Hm']. exists m'. split; [done|].
    destruct (Ho n m' Hm') as (m0 & H0 & Hs). assert (m0 = m) as -> by congruence. pose proof (Hk n m' Hm') as E.
    rewrite <- HPm. apply HS; [done|]. rewrite Hs in E. exact E.
  - intros n m' Hm' HPm. destruct (Ho n m' Hm') as (m & Hm & Hs). exists m. split; [done|]. pose proof (Hk n m' Hm') as E.
    rewrite <- HPm. symmetry. apply HS; [done|]. rewrite Hs in E. exact E.
Qed.

Lemma outdated_live infra m : outdated infra m = true → m_deleting m = false.
Proof. unfold outdated. destruct (m_deleting m); done. Qed.

Lemma doomed_live infra m : doomed infra m = true → m_deleting m = false.
Proof. unfold doomed, outdated. destruct (m_deleting m); done. Qed.

Lemma evolves_level w w' : evolves w w' → level w' w.
Proof.
  intros He. split_and!.
  - apply (evolves_count (λ _, live)); [|intros infra infra' m0 m1 Hs _; by rewrite Hs|done]. intros _ m0. apply negb_true_iff.
  - apply (evolves_count outdated); [apply outdated_live|apply outdated_same|done].
  - apply (evolves_count doomed); [apply doomed_live|apply doomed_same|done].
Qed.

(** ** One reconciliation gets closer *)

Lemma outdateds_rollout env w :
  due env → outdateds w = size (MachinesNeedingRollout env kcp w).
Proof. intros Hd. unfold outdateds. apply count_ext. intros n m _. symmetry. by apply needs_rollout_outdated. Qed.

Lemma stable_lives ms except : all_stable ms except → count live ms = size ms.
Proof. intros H. apply count_all. intros n m Hm. destruct (H n m Hm) as [E _]. unfold live. by rewrite E. Qed.

Lemma created_closer env w w' name infraRef fd :
  due env → kept fresh w w' → made env kcp w w' → w_machines w !! name = None → all_stable (w_machines w) None →
  (Z.of_nat (size (w_machines w)) < wanted R s (MachinesNeedingRollout env kcp w))%Z →
  w_machines w' = <[name := new_machine env kcp infraRef fd]> (w_machines w) → closer w' w ∧ ¬ converged w.
Proof.
  intros Hd [_ Hk] Hm Hn Hst Hsz E. pose proof (stable_lives _ _ Hst) as HL. pose proof (outdateds_rollout env w Hd) as HO.
  destruct (Hm name (new_machine env kcp infraRef fd) Hn) as (i & f & Ei & Hi); [by rewrite E, lookup_insert_eq|].
  assert (i = infraRef) as -> by (by injection Ei). clear Ei f.
  pose proof (new_machine_fine env _ infraRef fd Hd Hi) as HF. pose proof HF as HF'. unfold doomed in HF'. apply orb_false_iff in HF' as [HF' _].
  assert (lives w' = lives w + 1) as E1 by (unfold lives; by rewrite E, count_insert).
  assert (outdateds w' = outdateds w) as E2.
  { unfold outdateds. rewrite E, count_insert, HF' by done. rewrite Nat.add_0_r. apply count_ext.
    intros n m Hnm. apply outdated_same; [by destruct m|by eapply Hk]. }
  assert (doomeds w' = doomeds w) as E3.
  { unfold doomeds. rewrite E, count_insert, HF by done. rewrite Nat.add_0_r. apply count_ext.
    intros n m Hnm. apply doomed_same; [by destruct m|by eapply Hk]. }
  fold (lives w) in HL. unfold wanted in Hsz. unfold closer, converged, distance. rewrite E1, E2, E3.
  case_bool_decide as HE; case_bool_decide as HO'.
  - rewrite HE in HO. lia.
  - rewrite HO, HE in HO'. by rewrite map_size_empty in HO'.
  - exfalso. apply HE, map_size_empty_iff. congruence.
  - lia.
Qed.

Lemma deleted_closer env w w' name m :
  due env → kept fresh w w' → w_machines w !! name = Some m → all_stable (w_machines w) (Some name) →
  let O := MachinesNeedingRollout env kcp w in
  (O = ∅ → (R < Z.of_nat (size (w_machines w)))%Z) →
  (O ≠ ∅ → O !! name = Some m ∨ HasAnnotationKey DeleteMachineAnnotation m = true) →
  w_machines w' = alter mark_deleting name (w_machines w) → closer w' w ∧ ¬ converged w.
Proof.
  intros Hd [_ Hk] Hm Hst O HR Hwhy E. pose proof (stable_lives _ _ Hst) as HL. pose proof (outdateds_rollout env w Hd) as HO.
  fold (lives w) in HL. fold O in HO. destruct (Hst name m Hm) as [Hdel _].
  assert (lives w' + 1 = lives w) as E1.
  { unfold lives. rewrite E. pose proof (count_alter live mark_deleting _ _ _ Hm) as HC. unfold live in HC at 2. rewrite Hdel in HC.
    simpl in HC. unfold live in *. lia. }
  assert (outdateds w' + (if outdated (w_infra w) m then 1 else 0) = outdateds w) as E2.
  { unfold outdateds. rewrite E. pose proof (count_alter (outdated (w_infra w)) mark_deleting _ _ _ Hm) as HC. simpl in HC.
    rewrite Nat.add_0_r in HC. rewrite <- HC. f_equal. apply count_ext. intros n m' Hn. apply outdated_same; [by destruct m'|].
    destruct (decide (name = n)) as [->|]; [rewrite lookup_alter_eq, Hm in Hn; injection Hn as <-; by eapply (Hk n m)|].
    rewrite lookup_alter_ne in Hn by done. by eapply Hk. }
  assert (doomeds w' + (if doomed (w_infra w) m then 1 else 0) = doomeds w) as E3.
  { unfold doomeds. rewrite E. pose proof (count_alter (doomed (w_infra w)) mark_deleting _ _ _ Hm) as HC. simpl in HC.
    rewrite Nat.add_0_r in HC. rewrite <- HC. f_equal. apply count_ext. intros n m' Hn. apply doomed_same; [by destruct m'|].
    destruct (decide (name = n)) as [->|]; [rewrite lookup_alter_eq, Hm in Hn; injection Hn as <-; by eapply (Hk n m)|].
    rewrite lookup_alter_ne in Hn by done. by eapply Hk. }
  destruct (decide (O = ∅)) as [HE|HE].
  - rewrite HE, map_size_empty in HO. specialize (HR HE). unfold closer, converged, distance.
    rewrite !bool_decide_eq_true_2 by lia. destruct (doomed (w_infra w) m); lia.
  - assert (doomed (w_infra w) m = true) as HD.
    { unfold doomed. destruct (Hwhy HE) as [Ho|Ha]; [|rewrite Hdel, Ha; by rewrite orb_true_r].
      apply filter_machines_lookup in Ho as [_ Ho]. rewrite needs_rollout_outdated in Ho by done. by rewrite Ho. }
    rewrite HD in E3. split; [left; lia|]. intros [HC _]. apply HE, map_size_empty_iff. congruence.
Qed.

Lemma stepped_closer env w w' :
  due env → stepped fresh env kcp R s (MachinesNeedingRollout env kcp w) w w' →
  (w_machines w' = w_machines w ∧ level w' w) ∨ (closer w' w ∧ ¬ converged w).
Proof.
  intros Hd (Hc & Hk & Hm). inversion Hc as [E|name i fd Hn Hst Hsz E|name m Hn Hst _ HR _ Hwhy E].
  - left. split; [done|]. destruct Hk as [_ Hk]. unfold level, lives, outdateds, doomeds. rewrite <- E. split_and!; [done|..].
    + apply count_ext. intros n m Hnm. apply outdated_same; [by destruct m|by eapply Hk].
    + apply count_ext. intros n m Hnm. apply doomed_same; [by destruct m|by eapply Hk].
  - right. by eapply (created_closer env).
  - right. by eapply (deleted_closer env).
Qed.

(** ** Rounds *)

(** A reconciliation, and what happens until the next one. *)
Definition round (env : Env) (w w' : World) : Prop :=
  ∃ r w1, reconcile fresh env kcp w = (r, w1) ∧ evolves w1 w'.

(** The reconciliation gets to the machines, finds them healthy, and the calls
    that change one succeed. *)
Record calm (env : Env) (w : World) : Prop := {
  calm_reference : e_externalReference env = None;
  calm_infrastructure : e_infrastructureReady env = true;
  calm_certificates : e_certificates env = None;
  calm_endpoint : e_endpointValid env = true;
  calm_kubeconfig : ∃ r, e_kubeconfig env = inr r ∧ is_zero r = true;
  calm_list : e_list env = None;
  calm_adopt : e_adopt env = None;
  calm_mixed : e_mixed env = false;
  calm_new : e_newControlPlane env = None;
  calm_healthy : ∃ w0, reconcileControlPlaneConditions env kcp w = (None, w0) ∧ all_stable (w_machines w0) None;
  calm_acts : acts env;
}.

Definition sound (w : World) : Prop := fresh_ok fresh w ∧ (Z.of_nat (size (w_machines w)) < 2 ^ 31)%Z.

Lemma evolves_sound w w' : evolves w w' → sound w → sound w'.
Proof. intros He [Hf Hs]. split; [by eapply evolves_fresh|]. pose proof (evolves_size _ _ He). lia. Qed.

Lemma stepped_sound env outdated w w' : stepped fresh env kcp R s outdated w w' → sound w → sound w'.
Proof.
  intros (Hc & [Hf _] & _) [_ Hs]. split; [done|]. destruct Hacc as (_ & HR & Hs01 & _).
  inversion Hc as [E|name i fd Hn Hst Hsz E|name m Hn Hst _ HR' _ Hwhy E]; [done| |].
  - rewrite map_size_insert_None by done. unfold wanted in Hsz. case_bool_decide; lia.
  - by rewrite <- size_dom, dom_alter_L, size_dom.
Qed.

Lemma machines_reconciled env w r w' :
  due env → sound w → reconcile_machines fresh env kcp w = (r, w') →
  sound w' ∧ (level w' w ∨ (closer w' w ∧ ¬ converged w)) ∧
  (acts env → all_stable (w_machines w) None → ¬ converged w → closer w' w).
Proof.
  intros Hd [Hf Hs] H. apply (reconcile_machines_changed fresh Hinj env kcp R s) in H as [H Hact]; [|done..].
  split; [by eapply stepped_sound|]. pose proof (stepped_closer env w w' Hd H) as [[E L]|[C N]]; [|by split; [right|]].
  split; [by left|]. intros Ha Hst Hn. exfalso. apply Hact; [done..| |done].
  pose proof (outdateds_rollout env w Hd) as HO. pose proof (stable_lives _ _ Hst) as HL. unfold converged, lives in Hn.
  destruct (decide (MachinesNeedingRollout env kcp w = ∅)) as [HE|]; [right|by left].
  rewrite HE, map_size_empty in HO. rewrite HL in Hn. tauto.
Qed.

Lemma calm_reconcile env w : calm env w → ∃ w0,
  reconcileControlPlaneConditions env kcp w = (None, w0) ∧ all_stable (w_machines w0) None ∧
  reconcile fresh env kcp w = reconcile_machines fresh env kcp w0.
Proof.
  intros []. destruct calm_kubeconfig0 as (kr & Hk & Hz). destruct calm_healthy0 as (w0 & H0 & Hst). exists w0.
  split; [done|]. split; [done|]. unfold reconcile.
  rewrite calm_reference0, calm_infrastructure0, calm_certificates0, calm_endpoint0, Hk, Hz, calm_list0, calm_adopt0, calm_mixed0, calm_new0, H0.
  done.
Qed.

Lemma observed_sound w ms : observed (w_machines w) ms → sound w → sound (with_machines ms w) ∧ level (with_machines ms w) w.
Proof.
  intros He%observed_evolves Hs. split; [by eapply evolves_sound|by apply evolves_level].
Qed.

Lemma round_spec env w w' :
  due env → sound w → round env w w' →
  sound w' ∧ (level w' w ∨ (closer w' w ∧ ¬ converged w)) ∧ (calm env w → ¬ converged w → closer w' w).
Proof.
  intros Hd Hs (r & w1 & H & He). pose proof (evolves_level _ _ He) as L. split_and!.
  - eapply evolves_sound; [done|]. destruct (reconcile_cases fresh env kcp w) as [(r0 & ms & Ho & E)|(w0 & E0 & E)]; rewrite E in H.
    + injection H as <- <-. by apply observed_sound.
    + apply conditions_observed in E0 as (ms & Ho & ->). by eapply machines_reconciled; [..|exact H]; [|apply observed_sound].
  - destruct (reconcile_cases fresh env kcp w) as [(r0 & ms & Ho & E)|(w0 & E0 & E)]; rewrite E in H.
    { injection H as <- <-. left. eapply level_trans; [exact L|]. by apply observed_sound. }
    apply conditions_observed in E0 as (ms & Ho & ->). destruct (observed_sound _ _ Ho Hs) as [Hs0 L0].
    apply machines_reconciled in H as (_ & [L1|[C N]] & _); [left|right|done..].
    + by eapply level_trans, level_trans.
    + split; [by eapply closer_level_r, closer_level_l|]. by rewrite <- (level_converged _ _ L0).
  - intros Hc N. apply calm_reconcile in Hc as Hc'. destruct Hc' as (w0 & E0 & Hst & E). rewrite E in H.
    apply conditions_observed in E0 as (ms & Ho & ->). destruct (observed_sound _ _ Ho Hs) as [Hs0 L0].
    apply machines_reconciled in H as (_ & _ & H); [|done..].
    eapply closer_level_r, closer_level_l; [exact L|apply H; [apply Hc|done|by rewrite (level_converged _ _ L0)]|exact L0].
Qed.

(** ** A run *)

Context (envs : nat → Env) (run : nat → World).
Context (Hdue : ∀ i, due (envs i)) (Hrun : ∀ i, round (envs i) (run i) (run (S i))) (Hstart : sound (run 0)).

Lemma run_sound i : sound (run i).
Proof. induction i as [|i IH]; [done|]. by eapply round_spec. Qed.

Lemma run_converged_stays i j : i ≤ j → converged (run i) → converged (run j).
Proof.
  intros Hle Hc. induction Hle as [|j Hle IH]; [done|]. destruct (round_spec _ _ _ (Hdue j) (run_sound j) (Hrun j)) as (_ & [L|[_ N]] & _).
  - by apply (level_converged _ _ L).
  - done.
Qed.

Lemma run_progress i j : i ≤ j → level (run j) (run i) ∨ ∃ k, closer (run k) (run i).
Proof.
  intros Hle. induction Hle as [|j Hle [L|?]]; [by left|  |by right].
  destruct (round_spec _ _ _ (Hdue j) (run_sound j) (Hrun j)) as (_ & [L'|[C _]] & _).
  - left. by eapply level_trans.
  - right. exists (S j). by eapply closer_level_l.
Qed.

Lemma converged_dec w : converged w ∨ ¬ converged w.
Proof. unfold converged. destruct (decide (outdateds w = 0 ∧ Z.of_nat (lives w) = R)); tauto. Qed.

Lemma run_converges (Hfair : ∀ i, ∃ j, i ≤ j ∧ calm (envs j) (run j)) b d i :
  doomeds (run i) = b → distance (run i) = d → ∃ k, converged (run k).
Proof.
  revert d i. induction b as [b IHb] using lt_wf_ind. intros d. induction d as [d IHd] using lt_wf_ind. intros i Eb Ed.
  assert (∀ k, closer (run k) (run i) → ∃ k, converged (run k)) as Hcl.
  { intros k [C|[C1 C2]]; [by eapply (IHb (doomeds (run k)) ltac:(lia))|]. eapply (IHd (distance (run k)) ltac:(lia) k); [lia|done]. }
  destruct (Hfair i) as (j & Hle & Hcalm). destruct (converged_dec (run j)) as [|N]; [by exists j|].
  destruct (run_progress i j Hle) as [L|[k C]]; [|by eapply Hcl].
  apply (Hcl (S j)). eapply closer_level_l; [|exact L].
  destruct (round_spec _ _ _ (Hdue j) (run_sound j) (Hrun j)) as (_ & _ & H). by apply H.
Qed.

End Convergence.

(** C10: Let a control plane have replicas and a strategy that the webhook
    accepts and a template that does not contradict the keys every machine gets.
    Whatever the calls of its reconciliations answer and whatever happens to
    health and nodes in between, if again and again a reconciliation finds every
    machine healthy and its calls succeed, then from some reconciliation on
    there are as many machines as were asked for, besides those being deleted,
    and none of them is outdated. *)
Theorem rollout_converges `{LS : LibSpec} fresh kcp R s cluster (envs : nat → Env) (run : nat → World) :
  (∀ i j, fresh i = fresh j → i = j) → accepted kcp R s → (R + 1 < 2 ^ 31)%Z → consistent kcp cluster →
  sound fresh (run 0) → (∀ i, due kcp cluster (envs i)) → (∀ i, round fresh kcp (envs i) (run i) (run (S i))) →
  (∀ i, ∃ j, i ≤ j ∧ calm kcp (envs j) (run j)) →
  ∃ k, ∀ j, k ≤ j → outdateds kcp (run j) = 0 ∧ Z.of_nat (lives (run j)) = R.
Proof.
  intros Hinj Hacc Hb Hcon Hs Hd Hr Hf.
  destruct (run_converges fresh Hinj kcp R s Hacc Hb cluster Hcon envs run Hd Hr Hs Hf _ _ 0 eq_refl eq_refl) as [k Hk].
  exists k. intros j Hj. by apply (run_converged_stays fresh Hinj kcp R s Hacc Hb cluster Hcon envs run Hd Hr Hs k j Hj).
Qed.

(** ** Example *)

Module Example.
Import ControlPlaneSpec.Example.

(** Between two reconciliations machines that are being deleted go, and the
    others become healthy. *)
Definition come_up (m : Machine) : Machine :=
  {| m_failureDomain := m_failureDomain m; m_deleting := m_deleting m; m_meta := m_meta m; m_version := m_version m;
     m_created := m_created m; m_infraRef := m_infraRef m; m_nodeRef := None; m_agent := Some ConditionTrue |}.
Definition settle (w : World) : World := with_machines (come_up <$> filter_machines live (w_machines w)) w.

Fixpoint run (n : nat) : World :=
  match n with
  | 0 => start
  | S n => settle (reconcile fresh env kcp (run n)).2
  end.

Lemma settle_evolves w : evolves w (settle w).
Proof.
  split; simpl; [done| | |done|done].
  - intros n m' H. rewrite lookup_fmap in H. destruct (filter_machines live (w_machines w) !! n) as [m|] eqn:E; [|done].
    injection H as <-. apply filter_machines_lookup in E as [E _]. by exists m.
  - intros n m H Hd. rewrite lookup_fmap. assert (filter_machines live (w_machines w) !! n = Some m) as ->; [|by eexists].
    apply filter_machines_lookup. unfold live. by rewrite H, Hd.
Qed.

Definition up (m : Machine) : Prop := m_deleting m = false ∧ m_nodeRef m = None ∧ m_agent m = Some ConditionTrue.

Lemma settle_up w : map_Forall (λ _, up) (w_machines (settle w)).
Proof.
  intros n m H. simpl in H. rewrite lookup_fmap in H. destruct (filter_machines live (w_machines w) !! n) as [m0|] eqn:E; [|done].
  injection H as <-. apply filter_machines_lookup in E as [_ E]. split_and!; [|done..]. by apply negb_true_iff in E.
Qed.

Lemma run_up n : map_Forall (λ _, up) (w_machines (run n)).
Proof. destruct n as [|n]; [by apply map_Forall_singleton|apply settle_up]. Qed.

Lemma patched_all ms : (PatchMachines env ms ms) = (None, ms).
Proof.
  unfold PatchMachines. f_equal.
  - by induction (map_to_list ms).*1.
  - apply map_eq. intros n. rewrite map_lookup_imap. by destruct (ms !! n).
Qed.

Lemma up_observed ms : map_Forall (λ _, up) ms → UpdateAgentConditions env ms = ms.
Proof.
  intros H. unfold UpdateAgentConditions. simpl. apply map_eq. intros n. rewrite lookup_fmap. destruct (ms !! n) as [m|] eqn:Em; [|done].
  simpl. destruct (H n m Em) as (_ & Hn & _). unfold missing_node. by rewrite Hn.
Qed.

Lemma up_calm w : map_Forall (λ _, up) (w_machines w) → calm kcp env w.
Proof.
  intros H. split; try done; [by eexists|]. exists (with_machines (w_machines w) w). split.
  - unfold reconcileControlPlaneConditions. cbn [k_initialized kcp with_defaults spec negb e_workloadCluster env].
    by rewrite up_observed, patched_all.
  - intros n m Hm. destruct (H n m Hm) as (Hd & _ & Ha). split; [done|right]. by apply bool_decide_eq_true.
Qed.

Lemma env_due : due kcp "c" env.
Proof. split; done. Qed.

Lemma kcp_consistent : consistent kcp "c".
Proof. split; first [by left | done]. Qed.

End Example.

(** After three reconciliations only the new version is left. *)
Lemma rollout_converges_witness :
  map_to_list (m_version <$> w_machines (Example.run 2)) = [("cp-2", Some "v1.25.0")] ∧
  ∃ k, ∀ j, k ≤ j → outdateds ControlPlaneSpec.Example.kcp (Example.run j) = 0 ∧ Z.of_nat (lives (Example.run j)) = 1%Z.
Proof.
  split; [by vm_compute|].
  apply (rollout_converges ControlPlaneSpec.Example.fresh ControlPlaneSpec.Example.kcp 1 1 "c" (λ _, ControlPlaneSpec.Example.env)).
  - apply ControlPlaneSpec.Example.fresh_inj.
  - split_and!; try done; by right.
  - done.
  - apply Example.kcp_consistent.
  - split; [apply ControlPlaneSpec.Example.start_fresh|done].
  - intros _. apply Example.env_due.
  - intros i. eexists _, _. split; [apply surjective_pairing|apply Example.settle_evolves].
  - intros i. exists i. split; [done|]. apply Example.up_calm, Example.run_up.
Defined.
