(* ===== verification/Webhook.v ===== *)
(** * The admission webhook of the k3s control plane:
      [src/controlplane/k3s/api/v1beta1/k3scontrolplane_webhook.go] and
      [src/bootstrap/k3s/api/v1beta1/k3sconfig_webhook.go]

    An update of a control plane is compared with the stored object: the merge
    patch between the two says which fields change, and every one of them has to
    be on a list.  Errors are listed by the path of their field. *)

From stdpp Require Import gmap strings list sets pretty.
From S2P Require Import Prelude GoStrings Values ControlPlane.

(** ** The fields an update changes *)

(** [paths]: a field whose new value is not an object ends a path. *)
Fixpoint paths (path : list string) (diff : value) : list (list string) :=
  match diff with
  | VMap m =>
      map_fold (λ key v allPaths,
                  match v with
                  | VMap _ => paths (path ++ [key]) v
                  | _ => [path ++ [key]]
                  end ++ allPaths) [] m
  | _ => []
  end.

(** The loop of [pathsMatch] from index [i] on; [last] is the index of the turn
    before. *)
Fixpoint match_from (allowed rest : list string) (i last : nat) : bool :=
  match rest with
  | [] => bool_decide (length allowed - 1 ≤ last)
  | x :: rest' =>
      match allowed !! i with
      | None => false
      | Some a =>
          if bool_decide (a = "*") then true
          else if bool_decide (x ≠ a) then false
          else match_from allowed rest' (S i) i
      end
  end.

Definition pathsMatch (allowed path : list string) : bool :=
  match allowed, path with
  | [], _ | _, [] => false
  | _, _ => match_from allowed path 0 0
  end.

Definition allowed (allowList : list (list string)) (path : list string) : bool :=
  existsb (λ a, pathsMatch a path) allowList.

Definition allowedPaths : list (list string) := [
  ["metadata"; "*"];
  ["spec"; "k3sConfigSpec"; "preK3sCommands"];
  ["spec"; "k3sConfigSpec"; "postK3sCommands"];
  ["spec"; "k3sConfigSpec"; "files"];
  ["spec"; "machineTemplate"; "metadata"; "*"];
  ["spec"; "machineTemplate"; "infrastructureRef"; "apiVersion"];
  ["spec"; "machineTemplate"; "infrastructureRef"; "name"];
  ["spec"; "machineTemplate"; "infrastructureRef"; "kind"];
  ["spec"; "machineTemplate"; "nodeDrainTimeout"];
  ["spec"; "machineTemplate"; "nodeDeletionTimeout"];
  ["spec"; "replicas"];
  ["spec"; "version"];
  ["spec"; "rolloutAfter"];
  ["spec"; "rolloutStrategy"; "*"]
].

(** The loop over the paths of the patch. *)
Definition forbidden (diff : value) : list string :=
  (λ p, StrJoin p ".") <$> filter (λ p, p ≠ [] ∧ allowed allowedPaths p = false) (paths [] diff).

(** ** Versions *)

Record Version := { Major : Z; Minor : Z; Patch : Z }.

#[export] Instance Version_eq_dec : EqDecision Version.
Proof. solve_decision. Defined.

(** [semver.Version.Compare] on versions without a suffix. *)
Definition GTE (a b : Version) : bool :=
  bool_decide (Major b < Major a ∨ (Major a = Major b ∧
    (Minor b < Minor a ∨ (Minor a = Minor b ∧ Patch b ≤ Patch a))))%Z.

(** [uint64] *)
Definition uint64 (z : Z) : Z := z `mod` 2 ^ 64.

Section Webhook.

(** [version.ParseMajorMinorPatch] and [version.KubeSemver.MatchString] of the
    Cluster API library. *)
Context (ParseMajorMinorPatch : string → option Version).
Context (KubeSemver : string → bool).

Definition validateVersion (previous next : string) : list string :=
  match ParseMajorMinorPatch previous with
  | None => ["spec.version"]
  | Some from =>
      match ParseMajorMinorPatch next with
      | None => ["spec.version"]
      | Some to =>
          if bool_decide (from ≠ to ∧ to = {| Major := 1; Minor := 19; Patch := 0 |}) then ["spec.version"]
          else if GTE to {| Major := Major from; Minor := uint64 (Minor from + 2); Patch := 0 |} then ["spec.version"]
          else []
      end
  end.

(** ** The database of the servers *)

(** [ServerConfiguration.Database]; [ClusterInit] is a pointer. *)
Record Database := { DataStoreEndPoint : string; ClusterInit : option bool }.

Definition inits (d : Database) : bool := default false (ClusterInit d).

(** [validateServerConfiguration] *)
Definition validateServerConfiguration (new old : option Database) : list string :=
  match new with
  | None => []
  | Some new =>
      (if inits new && bool_decide (DataStoreEndPoint new ≠ "") then ["database.clusterInit"] else []) ++
      match old with
      | None => []
      | Some old =>
          (if inits new && bool_decide (DataStoreEndPoint old ≠ "") then ["database.clusterInit"] else []) ++
          (if bool_decide (DataStoreEndPoint new ≠ "") && inits old then ["database.dataStoreEndPoint"] else [])
      end
  end.

(** ** Files: [k3sconfig_webhook.go] *)

(** A file; the secret its content comes from is a name and a key. *)
Record File := { f_path : string; f_content : string; f_contentFrom : option (string * string) }.

(** One turn of [validateFiles]. *)
Definition validateFile (i : nat) (file : File) (knownPaths : gset string) : list string :=
  let at_ field := "files[" +:+ pretty i +:+ "]" +:+ field in
  (if bool_decide (f_content file ≠ "" ∧ f_contentFrom file ≠ None) then [at_ ""] else []) ++
  match f_contentFrom file with
  | None => []
  | Some (name, key) =>
      (if bool_decide (name = "") then [at_ ".contentFrom.secret.name"] else []) ++
      (if bool_decide (key = "") then [at_ ".contentFrom.secret.key"] else [])
  end ++
  (if bool_decide (f_path file ∈ knownPaths) then [at_ ".path"] else []).

Fixpoint validate_files (i : nat) (files : list File) (knownPaths : gset string) : list string :=
  match files with
  | [] => []
  | file :: rest => validateFile i file knownPaths ++ validate_files (S i) rest ({[f_path file]} ∪ knownPaths)
  end.

(** [validateFiles] *)
Definition validateFiles (files : list File) : list string := validate_files 0 files ∅.

(** ** The whole specification *)

Record InfraRef := { ref_apiVersion : string; ref_kind : string; ref_name : string; ref_namespace : string }.

(** A control plane as the webhook reads it. *)
Record Object := {
  ob_namespace : string;
  ob_kcp : KCP;
  ob_infra : InfraRef;
  ob_server : option Database;
  ob_files : list File;
}.

(** [defaultK3sControlPlaneSpec]: the database of a server that names no other
    data store initialises a cluster, unless it says otherwise. *)
Definition default_database (server : option Database) : Database :=
  let d := default {| DataStoreEndPoint := ""; ClusterInit := None |} server in
  if bool_decide (DataStoreEndPoint d = "" ∧ ClusterInit d = None)
  then {| DataStoreEndPoint := DataStoreEndPoint d; ClusterInit := Some true |} else d.

Definition defaultK3sControlPlaneSpec (o : Object) : Object :=
  let infra := ob_infra o in {|
  ob_namespace := ob_namespace o;
  ob_kcp := with_defaults (ob_kcp o);
  ob_infra := {| ref_apiVersion := ref_apiVersion infra; ref_kind := ref_kind infra; ref_name := ref_name infra;
                 ref_namespace := if bool_decide (ref_namespace infra = "") then ob_namespace o else ref_namespace infra |};
  ob_server := Some (default_database (ob_server o));
  ob_files := ob_files o |}.

Definition required (s field : string) : list string := if bool_decide (s = "") then [field] else [].

(** [validateK3sControlPlaneSpec] *)
Definition validateK3sControlPlaneSpec (o : Object) : result (list string) :=
  let! strategy := validateRolloutStrategy (k_strategy (ob_kcp o)) (k_replicas (ob_kcp o)) in
  Ok (validateReplicas (k_replicas (ob_kcp o)) ++
      required (ref_apiVersion (ob_infra o)) "infrastructure.apiVersion" ++
      required (ref_kind (ob_infra o)) "infrastructure.kind" ++
      required (ref_name (ob_infra o)) "infrastructure.name" ++
      (if bool_decide (ref_namespace (ob_infra o) ≠ ob_namespace o) then ["infrastructure.namespace"] else []) ++
      (if KubeSemver (k_version (ob_kcp o)) then [] else ["version"]) ++
      strategy).

(** [ValidateCreate] *)
Definition ValidateCreate (o : Object) : result (list string) :=
  let! spec := validateK3sControlPlaneSpec o in
  Ok (spec ++ validateServerConfiguration (ob_server o) None ++ validateFiles (ob_files o)).

(** [ValidateUpdate]: [diff] is the merge patch from the old object to the new
    one. *)
Definition ValidateUpdate (prev o : Object) (diff : value) : result (list string) :=
  let! spec := validateK3sControlPlaneSpec o in
  Ok (spec ++ forbidden diff ++
      validateVersion (k_version (ob_kcp prev)) (k_version (ob_kcp o)) ++
      validateServerConfiguration (ob_server o) (ob_server prev) ++
      validateFiles (ob_files o)).

End Webhook.

(** ** What is accepted *)

(** The fields a merge patch gives a new value that is not an object. *)
Fixpoint changes (diff : value) (p : list string) : Prop :=
  match p, diff with
  | [], VMap _ => False
  | [], _ => True
  | k :: p', VMap m => ∃ v, m !! k = Some v ∧ changes v p'
  | _, _ => False
  end.

Lemma paths_spec diff path q : q ∈ paths path diff ↔ ∃ p, q = path ++ p ∧ p ≠ [] ∧ changes diff p.
Proof.
  revert path q. induction diff as [| | | | | | |m IH] using value_ind; intros path q.
  1-7: (split; [intros Hq; by apply not_elem_of_nil in Hq|intros ([|k p] & _ & Hne & Hc); [by destruct Hne|by destruct Hc]]).
  cbn [paths]. revert IH.
  apply (map_fold_weak_ind (λ r m, map_Forall (λ _ v, ∀ path q, q ∈ paths path v ↔ ∃ p, q = path ++ p ∧ p ≠ [] ∧ changes v p) m →
    q ∈ r ↔ ∃ p, q = path ++ p ∧ p ≠ [] ∧ changes (VMap m) p)).
  - intros _. split; [intros H; by apply not_elem_of_nil in H|]. intros ([|k p] & _ & Hne & Hc); [done|].
    simpl in Hc. destruct Hc as (v & Hv & _). by rewrite lookup_empty in Hv.
  - intros k v m' r Hk IH HF. apply map_Forall_insert in HF as [Hv HF]; [|done]. specialize (IH HF).
    rewrite elem_of_app, IH. clear IH HF.
    assert (q ∈ match v with VMap _ => paths (path ++ [k]) v | _ => [path ++ [k]] end ↔ ∃ p, q = path ++ k :: p ∧ changes v p) as ->.
    { destruct v; try (rewrite list_elem_of_singleton; split; [intros ->; by exists []|intros ([|k' p] & -> & Hc); done]).
      rewrite Hv. split.
      - intros (p & -> & Hne & Hc). exists p. by rewrite <- app_assoc.
      - intros (p & -> & Hc). exists p. rewrite <- app_assoc. split; [done|]. split; [|done]. by intros ->. }
    split.
    + intros [(p & -> & Hc)|([|k' p] & -> & Hne & Hc)]; [|done|].
      * exists (k :: p). split; [done|]. split; [done|]. exists v. by rewrite lookup_insert_eq.
      * exists (k' :: p). split; [done|]. split; [done|]. destruct Hc as (v' & Hv' & Hc). exists v'. split; [|done].
        rewrite lookup_insert_ne; [done|]. congruence.
    + intros ([|k' p] & -> & Hne & Hc); [done|]. destruct Hc as (v' & Hv' & Hc). destruct (decide (k = k')) as [->|Hkk].
      * rewrite lookup_insert_eq in Hv'. injection Hv' as ->. left. by exists p.
      * rewrite lookup_insert_ne in Hv' by done. right. exists (k' :: p). split; [done|]. split; [done|]. by exists v'.
Qed.

(** A path is on the list itself, or below an entry that ends in a star. *)
Definition covered (a p : list string) : Prop :=
  p = a ∨ ∃ q s k rest, a = q ++ "*" :: s ∧ p = q ++ k :: rest.

Lemma match_from_spec pre a rest :
  pre ≠ [] ∨ rest ≠ [] →
  match_from (pre ++ a) rest (length pre) (length pre - 1) = true ↔ covered a rest.
Proof.
  revert pre a. induction rest as [|x rest IH]; intros pre a Hne; cbn [match_from].
  - destruct Hne as [Hne|]; [|done]. rewrite bool_decide_eq_true, length_app. split.
    + intros H. assert (a = []) as -> by (destruct a, pre; simpl in *; [done|done|done|lia]). by left.
    + intros [<-|(q & s & k & r & _ & E)]; [simpl; lia|by destruct q].
  - rewrite lookup_app_r, Nat.sub_diag by done. destruct a as [|b a]; simpl.
    { split; [done|]. intros [|(q & s & k & r & E & _)]; [done|by destruct q]. }
    case_bool_decide as Hstar; [subst b; split; [intros _; right; by exists [], a, x, rest|done]|].
    case_bool_decide as Hx.
    { split; [done|]. intros [[=]|([|y q] & s & k & r & E1 & E2)]; [done|..]; simpl in *; congruence. }
    subst x. specialize (IH (pre ++ [b]) a ltac:(left; by destruct pre)).
    rewrite <- app_assoc, length_app in IH. simpl in IH. replace (length pre + 1 - 1) with (length pre) in IH by lia.
    rewrite Nat.add_1_r in IH. rewrite IH. unfold covered. split.
    + intros [->|(q & s & k & r & E1 & E2)]; [by left|right; subst]. by exists (b :: q), s, k, r.
    + intros [[= ->]|([|y q] & s & k & r & E1 & E2)]; [by left|simpl in *; congruence|].
      simpl in *. injection E1 as <- ->. injection E2 as ->. right. by exists q, s, k, r.
Qed.

Lemma pathsMatch_spec a p : pathsMatch a p = true ↔ a ≠ [] ∧ p ≠ [] ∧ covered a p.
Proof.
  unfold pathsMatch. destruct a as [|b a]; [naive_solver|]. destruct p as [|x p]; [naive_solver|].
  rewrite (match_from_spec [] (b :: a) (x :: p)) by (right; done). naive_solver.
Qed.

Lemma forbidden_spec diff :
  forbidden diff = [] ↔ ∀ p, p ≠ [] → changes diff p → ∃ a, a ∈ allowedPaths ∧ covered a p.
Proof.
  assert (Forall (λ a, a ≠ []) allowedPaths) as Hne by (repeat constructor; done).
  assert (∀ p, p ≠ [] → allowed allowedPaths p = true ↔ ∃ a, a ∈ allowedPaths ∧ covered a p) as HA.
  { intros p Hp. unfold allowed. rewrite existsb_exists. split.
    - intros (a & Ha & H). apply list_elem_of_In in Ha. apply pathsMatch_spec in H as (_ & _ & H). eauto.
    - intros (a & Ha & H). exists a. split; [by apply list_elem_of_In|]. apply pathsMatch_spec. split; [|done].
      by apply (list.Forall_forall _ _) with (x := a) in Hne. }
  unfold forbidden. split.
  - intros H p Hp Hc. apply HA; [done|]. destruct (allowed allowedPaths p) eqn:E; [done|].
    assert (StrJoin p "." ∈ (λ p, StrJoin p ".") <$> filter (λ p, p ≠ [] ∧ allowed allowedPaths p = false) (paths [] diff)) as Hin.
    { apply list_elem_of_fmap. exists p. split; [done|]. apply list_elem_of_filter. split; [done|]. apply paths_spec. by exists p. }
    rewrite H in Hin. by apply not_elem_of_nil in Hin.
  - intros H. replace (filter (λ p, p ≠ [] ∧ allowed allowedPaths p = false) (paths [] diff)) with ([] : list (list string)); [done|].
    symmetry. apply elem_of_nil_inv. intros p Hp. apply list_elem_of_filter in Hp as [[Hne' Hp] Hin].
    apply paths_spec in Hin as (p' & -> & _ & Hc). simpl in *. apply H, HA in Hc; [congruence|done..].
Qed.

(** A field that becomes an empty object changes no path. *)
Lemma empty_object_unnoticed :
  forbidden (VMap {["spec" := VMap {["k3sConfigSpec" := VMap {["agentConfiguration" := VMap ∅]}]}]}) = [] ∧
  forbidden (VMap {["spec" := VMap {["k3sConfigSpec" := VMap {["agentConfiguration" := VBool true]}]}]}) =
    ["spec.k3sConfigSpec.agentConfiguration"].
Proof. split; by vm_compute. Qed.

Definition file_ok (f : File) : Prop :=
  (f_content f = "" ∨ f_contentFrom f = None) ∧ ∀ name key, f_contentFrom f = Some (name, key) → name ≠ "" ∧ key ≠ "".

Lemma if_nil (P : Prop) {_ : Decision P} (x : string) : (if bool_decide P then [x] else []) = [] ↔ ¬ P.
Proof. case_bool_decide; naive_solver. Qed.

Lemma validate_files_spec i files known :
  validate_files i files known = [] ↔
  Forall file_ok files ∧ NoDup (f_path <$> files) ∧ ∀ f, f ∈ files → f_path f ∉ known.
Proof.
  revert i known. induction files as [|f files IH]; intros i known; cbn [validate_files].
  - split; [intros _|done]. split; [constructor|]. split; [constructor|]. intros f H. by apply not_elem_of_nil in H.
  - rewrite app_nil, IH. unfold validateFile. rewrite !app_nil, !if_nil.
    assert (match f_contentFrom f with
            | Some (name, key) => (if bool_decide (name = "") then ["files[" +:+ pretty i +:+ "]" +:+ ".contentFrom.secret.name"] else []) ++
                (if bool_decide (key = "") then ["files[" +:+ pretty i +:+ "]" +:+ ".contentFrom.secret.key"] else [])
            | None => [] end = [] ↔ ∀ name key, f_contentFrom f = Some (name, key) → name ≠ "" ∧ key ≠ "") as ->.
    { destruct (f_contentFrom f) as [[name key]|]; [rewrite app_nil, !if_nil|by split].
      split; [intros H n k [= <- <-]; exact H|intros H; by apply H]. }
    rewrite fmap_cons, NoDup_cons, Forall_cons. unfold file_ok at 2. split.
    + intros ((H1 & H2 & H3) & H4 & H5 & H6). split_and!; [|done|done|..].
      * destruct (decide (f_content f = "")) as [|Hc]; [by left|right]. destruct (f_contentFrom f); [|done]. exfalso. by apply H1.
      * intros Hin. apply list_elem_of_fmap in Hin as (g & Hg & Hin). apply H6 in Hin. set_solver.
      * done.
      * intros g [->|Hg]%elem_of_cons; [done|]. apply H6 in Hg. set_solver.
    + intros ([[H1 H2] H3] & [H4 H5] & H6). split_and!; [naive_solver|done|apply H6; by left|done|done|].
      intros g Hg. assert (f_path g ≠ f_path f) as Hne.
      { intros E. apply H4. rewrite <- E. by apply list_elem_of_fmap_2. }
      assert (f_path g ∉ known) by (apply H6; by right). set_solver.
Qed.

Lemma validateFiles_spec files : validateFiles files = [] ↔ Forall file_ok files ∧ NoDup (f_path <$> files).
Proof. unfold validateFiles. rewrite validate_files_spec. set_solver. Qed.

(** The database stays embedded or external, and is not both. *)
Definition database_ok (new old : option Database) : Prop :=
  ∀ n, new = Some n →
    (inits n = true → DataStoreEndPoint n = "") ∧
    ∀ o, old = Some o → (inits n = true → DataStoreEndPoint o = "") ∧ (inits o = true → DataStoreEndPoint n = "").

Lemma if_nil_b (b : bool) (x : string) : (if b then [x] else []) = [] ↔ b = false.
Proof. destruct b; naive_solver. Qed.

Lemma validateServerConfiguration_spec new old :
  validateServerConfiguration new old = [] ↔ database_ok new old.
Proof.
  assert (∀ b s, (b && bool_decide (s ≠ "")) = false ↔ (b = true → s = "")) as H.
  { intros b s. rewrite andb_false_iff, bool_decide_eq_false. destruct b; [|naive_solver]. split; [|naive_solver].
    intros [|H]; [done|]. intros _. by apply dec_stable. }
  unfold validateServerConfiguration, database_ok. destruct new as [n|]; [|by split].
  rewrite app_nil, if_nil_b, H. destruct old as [o|].
  - rewrite app_nil, !if_nil_b, (andb_comm (bool_decide _)), !H. split.
    + intros [H1 H2] n0 [= <-]. split; [exact H1|]. intros o0 [= <-]. exact H2.
    + intros Hn. destruct (Hn n eq_refl) as [H1 H2]. split; [exact H1|exact (H2 _ eq_refl)].
  - split; [intros [H1 _] n' [= <-]; by split|]. intros Hn. split; [exact (proj1 (Hn n eq_refl))|done].
Qed.

(** No upgrade skips a minor version, and 1.19.0 is not upgraded to. *)
Definition upgrade_ok (from to : Version) : Prop :=
  (from ≠ to → to ≠ {| Major := 1; Minor := 19; Patch := 0 |}) ∧
  (Major to < Major from ∨ (Major to = Major from ∧ Minor to ≤ Minor from + 1))%Z.

Section WebhookSpec.
Context (ParseMajorMinorPatch : string → option Version).

(** A parsed version is made of unsigned numbers; the largest minor versions,
    whose successors wrap around, are left out. *)
Context (parsed : ∀ s v, ParseMajorMinorPatch s = Some v → (0 ≤ Minor v < 2 ^ 64 - 2 ∧ 0 ≤ Patch v)%Z).

Lemma validateVersion_spec previous next :
  validateVersion ParseMajorMinorPatch previous next = [] ↔
  ∃ from to, ParseMajorMinorPatch previous = Some from ∧ ParseMajorMinorPatch next = Some to ∧ upgrade_ok from to.
Proof.
  unfold validateVersion. destruct (ParseMajorMinorPatch previous) as [from|] eqn:E1; [|naive_solver].
  destruct (ParseMajorMinorPatch next) as [to|] eqn:E2; [|naive_solver].
  apply parsed in E1 as [B1 _]. apply parsed in E2 as [_ B2]. unfold GTE, uint64, upgrade_ok. simpl.
  rewrite Z.mod_small by lia. case_bool_decide as H1; [|rewrite if_nil]; split.
  - done.
  - intros (f & t & [= <-] & [= <-] & H & _). naive_solver.
  - intros H. exists from, to. split; [done|]. split; [done|]. split; [naive_solver|lia].
  - intros (f & t & [= <-] & [= <-] & _ & H). lia.
Qed.

End WebhookSpec.

(** The object itself is in order. *)
Definition object_ok (KubeSemver : string → bool) (o : Object) : Prop :=
  admitted (ob_kcp o) ∧ ref_apiVersion (ob_infra o) ≠ "" ∧ ref_kind (ob_infra o) ≠ "" ∧ ref_name (ob_infra o) ≠ "" ∧
  ref_namespace (ob_infra o) = ob_namespace o ∧ KubeSemver (k_version (ob_kcp o)) = true.

Lemma validateK3sControlPlaneSpec_spec KubeSemver o :
  validateK3sControlPlaneSpec KubeSemver o = Ok [] ↔ object_ok KubeSemver o.
Proof.
  assert (∀ a b : list string, Ok a = Ok b ↔ a = b) as HI by (intros a b; split; [intros [=]|intros ->]; done).
  unfold validateK3sControlPlaneSpec, object_ok, admitted, required.
  destruct (validateRolloutStrategy _ _) as [l|e|w]; simpl; [|naive_solver..].
  rewrite !HI, !app_nil, !if_nil.
  assert ((if KubeSemver (k_version (ob_kcp o)) then [] else ["version"]) = [] ↔ KubeSemver (k_version (ob_kcp o)) = true) as ->
    by (destruct (KubeSemver _); naive_solver).
  assert (¬ ref_namespace (ob_infra o) ≠ ob_namespace o ↔ ref_namespace (ob_infra o) = ob_namespace o) as ->
    by (split; [apply dec_stable|tauto]).
  tauto.
Qed.


(** ** Example *)

Definition parse_minor (s : string) : option Version :=
  if bool_decide (s = "v1.24.0") then Some {| Major := 1; Minor := 24; Patch := 0 |}
  else if bool_decide (s = "v1.25.0") then Some {| Major := 1; Minor := 25; Patch := 0 |}
  else None.

Definition example_object (version : string) : Object := {|
  ob_namespace := "ns";
  ob_kcp := {| k_replicas := Some 3%Z; k_version := version; k_template := {| o_annotations := ∅; o_labels := ∅ |};
    k_infraName := "t"; k_infraKind := "KKMachineTemplate"; k_rolloutAfter := None;
    k_strategy := Some {| rs_type := RollingUpdateStrategyType; rs_rollingUpdate := Some (Some (FromInt 1)) |};
    k_serverConfig := "{}"; k_initialized := true |};
  ob_infra := {| ref_apiVersion := "v1"; ref_kind := "KKMachineTemplate"; ref_name := "t"; ref_namespace := "ns" |};
  ob_server := Some {| DataStoreEndPoint := ""; ClusterInit := Some true |};
  ob_files := [{| f_path := "/a"; f_content := "x"; f_contentFrom := None |}] |}.

