(* ===== verification/Bootstrap.v ===== *)
(** * What a k3s machine boots with:
      [src/bootstrap/k3s/pkg/types], [src/bootstrap/k3s/pkg/cloudinit] and
      [src/util/secret]

    The configuration of the server or of the agent, the certificates of the
    cluster and the files and commands of the user become the user data of a
    machine.  The templates are constants of the code; what executing them
    writes is written out here. *)

From Stdlib Require Import Ascii String ZArith.
From S2P Require Import Prelude GoStrings.
From stdpp Require Import gmap strings list sets.

(** ** The specification of a machine: [api/v1beta1/k3sconfig.go] *)

Record File := {
  f_path : string; f_owner : string; f_permissions : string; f_encoding : string; f_append : bool; f_content : string;
  f_contentFrom : option (string * string);
}.

Record Database := {
  DataStoreEndPoint : string; DataStoreCAFile : string; DataStoreCertFile : string; DataStoreKeyFile : string; ClusterInit : option bool;
}.

Record Listener := {
  BindAddress : string; HTTPSListenPort : Z; AdvertiseAddress : string; AdvertisePort : Z; TLSSan : string;
}.

Record Networking := {
  ClusterCIDR : string; ServiceCIDR : string; ServiceNodePortRange : string; ClusterDNS : string; ClusterDomain : string;
  FlannelBackend : string;
}.

Record KubernetesComponents := {
  Disable : string; DisableKubeProxy : bool; DisableNetworkPolicy : bool; DisableHelmController : bool;
}.

Record KubernetesProcesses := {
  KubeAPIServerArgs : list string; KubeControllerManagerArgs : list string; KubeSchedulerArgs : list string;
}.

Record AgentNode := {
  NodeName : string; NodeLabels : list string; NodeTaints : list string; SeLinux : bool; LBServerPort : Z; DataDir : string;
}.
Record AgentRuntime := { ContainerRuntimeEndpoint : string; PauseImage : string; PrivateRegistry : string }.
Record AgentNetworking := { NodeIP : string; NodeExternalIP : string; ResolvConf : string }.
Record KubernetesAgentProcesses := { KubeletArgs : list string; KubeProxyArgs : list string }.

Record AgentConfiguration := {
  ag_node : AgentNode; ag_runtime : AgentRuntime; ag_networking : AgentNetworking; ag_processes : KubernetesAgentProcesses;
}.

Record ServerConfiguration := {
  sv_database : Database; sv_listener : Listener; sv_networking : Networking; sv_components : KubernetesComponents;
  sv_processes : KubernetesProcesses; sv_agent : AgentConfiguration;
}.

Record ClusterOptions := { Token : string; TokenFile : string; Server : string }.

Record K3sConfigSpec := {
  ks_files : list File; ks_cluster : option ClusterOptions; ks_server : option ServerConfiguration;
  ks_agent : option AgentConfiguration; ks_pre : list string; ks_post : list string; ks_version : string;
}.

#[export] Instance File_eq_dec : EqDecision File.
Proof. solve_decision. Defined.
#[export] Instance Database_eq_dec : EqDecision Database.
Proof. solve_decision. Defined.
#[export] Instance Listener_eq_dec : EqDecision Listener.
Proof. solve_decision. Defined.
#[export] Instance Networking_eq_dec : EqDecision Networking.
Proof. solve_decision. Defined.
#[export] Instance KubernetesComponents_eq_dec : EqDecision KubernetesComponents.
Proof. solve_decision. Defined.
#[export] Instance KubernetesProcesses_eq_dec : EqDecision KubernetesProcesses.
Proof. solve_decision. Defined.
#[export] Instance AgentNode_eq_dec : EqDecision AgentNode.
Proof. solve_decision. Defined.
#[export] Instance AgentRuntime_eq_dec : EqDecision AgentRuntime.
Proof. solve_decision. Defined.
#[export] Instance AgentNetworking_eq_dec : EqDecision AgentNetworking.
Proof. solve_decision. Defined.
#[export] Instance KubernetesAgentProcesses_eq_dec : EqDecision KubernetesAgentProcesses.
Proof. solve_decision. Defined.
#[export] Instance AgentConfiguration_eq_dec : EqDecision AgentConfiguration.
Proof. solve_decision. Defined.
#[export] Instance ServerConfiguration_eq_dec : EqDecision ServerConfiguration.
Proof. solve_decision. Defined.
#[export] Instance ClusterOptions_eq_dec : EqDecision ClusterOptions.
Proof. solve_decision. Defined.
#[export] Instance K3sConfigSpec_eq_dec : EqDecision K3sConfigSpec.
Proof. solve_decision. Defined.

(** The zero values. *)
Definition zero_agent : AgentConfiguration := {|
  ag_node := {| NodeName := ""; NodeLabels := []; NodeTaints := []; SeLinux := false; LBServerPort := 0; DataDir := "" |};
  ag_runtime := {| ContainerRuntimeEndpoint := ""; PauseImage := ""; PrivateRegistry := "" |};
  ag_networking := {| NodeIP := ""; NodeExternalIP := ""; ResolvConf := "" |};
  ag_processes := {| KubeletArgs := []; KubeProxyArgs := [] |};
|}.

Definition zero_server : ServerConfiguration := {|
  sv_database := {| DataStoreEndPoint := ""; DataStoreCAFile := ""; DataStoreCertFile := ""; DataStoreKeyFile := ""; ClusterInit := None |};
  sv_listener := {| BindAddress := ""; HTTPSListenPort := 0; AdvertiseAddress := ""; AdvertisePort := 0; TLSSan := "" |};
  sv_networking := {| ClusterCIDR := ""; ServiceCIDR := ""; ServiceNodePortRange := ""; ClusterDNS := ""; ClusterDomain := ""; FlannelBackend := "" |};
  sv_components := {| Disable := ""; DisableKubeProxy := false; DisableNetworkPolicy := false; DisableHelmController := false |};
  sv_processes := {| KubeAPIServerArgs := []; KubeControllerManagerArgs := []; KubeSchedulerArgs := [] |};
  sv_agent := zero_agent;
|}.

(** ** The configuration of k3s: [pkg/types] *)

(** The fields of a section keep their names when [copier.Copy] copies them, so
    the sections stay together here. *)
Record K3sAgentConfiguration := {
  ka_token : string; ka_tokenFile : string; ka_server : string;
  ka_node : AgentNode; ka_runtime : AgentRuntime; ka_networking : AgentNetworking; ka_processes : KubernetesAgentProcesses;
}.

Record K3sServerConfiguration := {
  ks_database : Database; ks_token : string; ks_tokenFile : string; ks_serverURL : string; ks_clusterInit : bool;
  ks_listener : Listener; ks_networking : Networking; ks_components : KubernetesComponents;
  ks_disableCloudController : bool; ks_apiServerArgs : list string; ks_controllerManagerArgs : list string;
  ks_schedulerArgs : list string; ks_agentConfiguration : K3sAgentConfiguration;
}.

Definition ciphers : list string :=
  ["TLS_ECDHE_ECDSA_WITH_AES_256_GCM_SHA384"; "TLS_ECDHE_RSA_WITH_AES_256_GCM_SHA384";
   "TLS_ECDHE_ECDSA_WITH_AES_128_GCM_SHA256"; "TLS_ECDHE_RSA_WITH_AES_128_GCM_SHA256";
   "TLS_ECDHE_ECDSA_WITH_CHACHA20_POLY1305"; "TLS_ECDHE_RSA_WITH_CHACHA20_POLY1305";
   "TLS_RSA_WITH_AES_128_GCM_SHA256"; "TLS_RSA_WITH_AES_256_GCM_SHA384"].

Definition comma : ascii := ","%char.

Definition getTLSCipherSuiteArg : string :=
  "tls-cipher-suites=" +:+ TrimRight (fold_left (λ ciphersList cc, ciphersList +:+ cc +:+ ",") ciphers "") comma.

(** The agent of a server, field by field. *)
Definition agent_of (a : AgentConfiguration) : K3sAgentConfiguration :=
  {| ka_token := ""; ka_tokenFile := ""; ka_server := "";
     ka_node := ag_node a; ka_runtime := ag_runtime a; ka_networking := ag_networking a; ka_processes := ag_processes a |}.

Definition server_config (obj : ServerConfiguration) (token tokenFile server : string) (clusterInit : bool) : K3sServerConfiguration :=
  {| ks_database := sv_database obj; ks_token := token; ks_tokenFile := tokenFile; ks_serverURL := server; ks_clusterInit := clusterInit;
     ks_listener := sv_listener obj; ks_networking := sv_networking obj; ks_components := sv_components obj;
     ks_disableCloudController := true;
     ks_apiServerArgs := KubeAPIServerArgs (sv_processes obj) ++ ["anonymous-auth=true"; getTLSCipherSuiteArg];
     ks_controllerManagerArgs := KubeControllerManagerArgs (sv_processes obj) ++ ["cloud-provider=external"];
     ks_schedulerArgs := KubeSchedulerArgs (sv_processes obj);
     ks_agentConfiguration := agent_of (sv_agent obj) |}.

Section Marshal.
Context (yaml_server : K3sServerConfiguration → result string) (yaml_agent : K3sAgentConfiguration → result string).

(** The callers have set what is read through a pointer, but [ClusterInit]. *)
Definition MarshalInitServerConfiguration (obj : ServerConfiguration) (token : string) : result string :=
  match ClusterInit (sv_database obj) with
  | None => Panic "nil pointer dereference"
  | Some clusterInit => yaml_server (server_config obj token "" "" clusterInit)
  end.

Definition MarshalJoinServerConfiguration (obj : ServerConfiguration) (c : ClusterOptions) : result string :=
  yaml_server (server_config obj (Token c) (TokenFile c) (Server c) (default false (ClusterInit (sv_database obj)))).

Definition MarshalJoinAgentConfiguration (obj : AgentConfiguration) (c : ClusterOptions) : result string :=
  yaml_agent {| ka_token := Token c; ka_tokenFile := TokenFile c; ka_server := Server c;
                ka_node := ag_node obj; ka_runtime := ag_runtime obj; ka_networking := ag_networking obj; ka_processes := ag_processes obj |}.

End Marshal.

(** ** Secrets of a cluster: [util/secret] *)

Definition Kubeconfig : string := "kubeconfig".
Definition ClusterCA : string := "ca".
Definition ClientClusterCA : string := "cca".
Definition EtcdCA : string := "etcd".
Definition ServiceAccount : string := "sa".
Definition FrontProxyCA : string := "proxy".
Definition APIServerEtcdClient : string := "apiserver-etcd-client".
Definition allSecretPurposes : list string := [Kubeconfig; ClusterCA; EtcdCA; ServiceAccount; FrontProxyCA; APIServerEtcdClient].

Definition Name (cluster suffix : string) : string := cluster +:+ "-" +:+ suffix.

(** The text before and after the last dash. *)
Definition dash : ascii := "-"%char.
Fixpoint at_last_dash (s : string) : option (string * string) :=
  match s with
  | EmptyString => None
  | String a s' =>
      match at_last_dash s' with
      | Some (p, q) => Some (String a p, q)
      | None => if bool_decide (a = dash) then Some (EmptyString, s') else None
      end
  end.

Definition ParseSecretName (name : string) : result (string * string) :=
  match at_last_dash name with
  | None => Err (Msg (name +:+ " is not a valid cluster secret name. The purpose suffix is missing"))
  | Some (clusterName, purposeSuffix) =>
      if contains allSecretPurposes purposeSuffix then Ok (clusterName, purposeSuffix)
      else Err (Msg (name +:+ " is not a valid cluster secret name. Invalid purpose suffix"))
  end.

Record KeyPair := { kp_cert : string; kp_key : string }.

Record Certificate := {
  ct_purpose : string; ct_generated : bool; ct_external : bool; ct_keyPair : option KeyPair; ct_certFile : string; ct_keyFile : string;
}.

Definition DefaultCertificatesDir : string := "/var/lib/rancher/k3s/server/tls".

Definition NewCertificatesForInitialControlPlane : list Certificate :=
  [{| ct_purpose := ClusterCA; ct_generated := false; ct_external := false; ct_keyPair := None;
      ct_certFile := DefaultCertificatesDir +:+ "/server-ca.crt"; ct_keyFile := DefaultCertificatesDir +:+ "/server-ca.key" |};
   {| ct_purpose := ClientClusterCA; ct_generated := false; ct_external := false; ct_keyPair := None;
      ct_certFile := DefaultCertificatesDir +:+ "/client-ca.crt"; ct_keyFile := DefaultCertificatesDir +:+ "/client-ca.key" |}].

Definition with_keyPair (kp : KeyPair) (generated : bool) (c : Certificate) : Certificate :=
  {| ct_purpose := ct_purpose c; ct_generated := generated; ct_external := ct_external c; ct_keyPair := Some kp;
     ct_certFile := ct_certFile c; ct_keyFile := ct_keyFile c |}.

Definition root_file (path permissions content : string) : File :=
  {| f_path := path; f_owner := "root:root"; f_permissions := permissions; f_encoding := ""; f_append := false; f_content := content;
     f_contentFrom := None |}.

Definition certificate_files (c : Certificate) : result (list File) :=
  match ct_keyPair c with
  | None => Panic "nil pointer dereference"
  | Some kp =>
      Ok ((if bool_decide (kp_cert kp = "") then [] else [root_file (ct_certFile c) "0640" (kp_cert kp)])
          ++ (if bool_decide (kp_key kp = "") then [] else [root_file (ct_keyFile c) "0600" (kp_key kp)]))
  end.

Definition GetByPurpose (purpose : string) (c : list Certificate) : option Certificate := List.find (λ ct, bool_decide (ct_purpose ct = purpose)) c.

(** [AsFiles], by purpose. *)
Fixpoint files_of (purposes : list string) (c : list Certificate) : result (list File) :=
  match purposes with
  | [] => Ok []
  | p :: rest =>
      let! fs := match GetByPurpose p c with None => Ok [] | Some ct => certificate_files ct end in
      rmap (app fs) (files_of rest c)
  end.

Definition AsFiles (c : list Certificate) : result (list File) := files_of [ClusterCA; ClientClusterCA; EtcdCA; APIServerEtcdClient] c.

(** ** User data: [pkg/cloudinit] *)

Definition lf : ascii := ascii_of_nat 10.
Definition nl : string := String lf EmptyString.

Definition dquote : string := String (ascii_of_nat 34) EmptyString.

Definition cloudConfigHeader : string := "## template: jinja" +:+ nl +:+ "#cloud-config" +:+ nl.

Fixpoint spaces (i : nat) : string := match i with O => EmptyString | S n => String " "%char (spaces n) end.

(** [templateYAMLIndent] *)
Definition Indent (i : nat) (input : string) : string := spaces i +:+ StrJoin (Split input lf) (nl +:+ spaces i).

(** The template "files" for one file: the optional lines end in the indentation of the next. *)
Definition optional (present : bool) (text : string) : string := if present then text +:+ nl +:+ spaces 4 else "".

Definition file_text (f : File) : string :=
  nl +:+ "-   path: " +:+ f_path f +:+ nl +:+ spaces 4
  +:+ optional (negb (bool_decide (f_encoding f = ""))) ("encoding: " +:+ dquote +:+ f_encoding f +:+ dquote)
  +:+ optional (negb (bool_decide (f_owner f = ""))) ("owner: " +:+ f_owner f)
  +:+ optional (negb (bool_decide (f_permissions f = ""))) ("permissions: '" +:+ f_permissions f +:+ "'")
  +:+ optional (f_append f) "append: true"
  +:+ "content: |" +:+ nl +:+ Indent 6 (f_content f).

(** The template "commands"; [%q] is a parameter. *)
Section UserData.
Context (quote : string → string).

Definition commands_text (commands : list string) : string := fold_right (λ c rest, nl +:+ "  - " +:+ quote c +:+ rest) "" commands.

Definition placeholder : string :=
  "-   path: /run/cluster-api/placeholder" +:+ nl +:+ "    owner: root:root" +:+ nl +:+ "    permissions: '0640'" +:+ nl
  +:+ "    content: " +:+ dquote
  +:+ "This placeholder file is used to create the /run/cluster-api sub directory in a way that is compatible with both Linux and Windows (mkdir -p /run/cluster-api does not work with Windows)"
  +:+ dquote.

Definition install (exec : string) : string :=
  dquote +:+ "INSTALL_K3S_SKIP_DOWNLOAD=true INSTALL_K3S_EXEC='" +:+ exec +:+ "' /usr/local/bin/k3s-install.sh" +:+ dquote.

(** [generate] for the three templates, which differ in what is installed. *)
Definition generate (exec : string) (writeFiles : list File) (pre post : list string) : string :=
  cloudConfigHeader +:+ nl +:+ "write_files:" +:+ StrJoin (map file_text writeFiles) "" +:+ nl +:+ placeholder +:+ nl
  +:+ "runcmd:" +:+ commands_text pre +:+ nl +:+ "  - " +:+ install exec +:+ commands_text post +:+ nl.

Record BaseUserData := { bu_pre : list string; bu_post : list string; bu_additional : list File; bu_config : File }.

Definition NewInitControlPlane (input : BaseUserData) (certificates : list Certificate) : result string :=
  let! fs := AsFiles certificates in
  Ok (generate "server" (fs ++ bu_additional input ++ [bu_config input]) (bu_pre input) (bu_post input)).

Definition NewJoinControlPlane (input : BaseUserData) : string :=
  generate "server" (bu_additional input ++ [bu_config input]) (bu_pre input) (bu_post input).

Definition NewNode (input : BaseUserData) : string :=
  generate "agent" (bu_additional input ++ [bu_config input]) (bu_pre input) (bu_post input).

Definition DefaultK3sConfigLocation : string := "/etc/rancher/k3s/config.yaml".

Definition config_file (content : string) : File := root_file DefaultK3sConfigLocation "0640" content.

End UserData.

(** ** Names of secrets *)

Lemma at_last_dash_Some s p q : at_last_dash s = Some (p, q) → s = p +:+ "-" +:+ q ∧ at_last_dash q = None.
Proof.
  revert p. induction s as [|a s IH]; intros p; simpl; [done|]. destruct (at_last_dash s) as [[p' q']|] eqn:E.
  - intros [= <- ->]. destruct (IH p' eq_refl) as [-> H]. done.
  - case_bool_decide; [|done]. intros [= <- <-]. subst a. done.
Qed.

Lemma at_last_dash_app p t x q : at_last_dash t = Some (x, q) → at_last_dash (p +:+ t) = Some (p +:+ x, q).
Proof. intros Ht. induction p as [|a p IH]; [done|]. simpl. by rewrite IH. Qed.

Lemma at_last_dash_dash s :
  at_last_dash ("-" +:+ s) = match at_last_dash s with Some (p, q) => Some ("-" +:+ p, q) | None => Some (EmptyString, s) end.
Proof. done. Qed.

Lemma at_last_dash_Name cluster suffix :
  at_last_dash (Name cluster suffix)
    = match at_last_dash suffix with Some (p, q) => Some (cluster +:+ "-" +:+ p, q) | None => Some (cluster, suffix) end.
Proof.
  unfold Name. destruct (at_last_dash suffix) as [[p q]|] eqn:E.
  - apply at_last_dash_app. by rewrite at_last_dash_dash, E.
  - rewrite (at_last_dash_app cluster _ EmptyString suffix); [by rewrite str_app_nil_r|]. by rewrite at_last_dash_dash, E.
Qed.

(** What is parsed is the name of a secret, and the names of five of the
    purposes are parsed; those of the certificate authority of clients, which is
    missing in the list, and of the client of etcd, which has dashes, are
    refused. *)
Theorem ParseSecretName_names :
  (∀ name cluster purpose, ParseSecretName name = Ok (cluster, purpose) → name = Name cluster purpose) ∧
  (∀ cluster purpose, ParseSecretName (Name cluster purpose) = Ok (cluster, purpose) ↔
     purpose ∈ [Kubeconfig; ClusterCA; EtcdCA; ServiceAccount; FrontProxyCA]) ∧
  (∀ cluster, ∃ e1 e2, ParseSecretName (Name cluster ClientClusterCA) = Err e1 ∧ ParseSecretName (Name cluster APIServerEtcdClient) = Err e2).
Proof.
  unfold ParseSecretName. split_and!.
  - intros name cluster purpose. destruct (at_last_dash name) as [[p q]|] eqn:E; [|done]. destruct (contains _ _); [|done].
    intros [= -> ->]. by apply at_last_dash_Some in E as [-> _].
  - intros cluster purpose. rewrite at_last_dash_Name. split.
    + destruct (at_last_dash purpose) as [[p q]|] eqn:E.
      * destruct (contains _ q); [|done]. intros [= Hc <-]. rewrite <- (str_app_nil_r cluster) in Hc at 2. by apply str_app_inj_l in Hc.
      * destruct (contains allSecretPurposes purpose) eqn:C; [|done]. intros _. apply contains_true in C.
        unfold allSecretPurposes in C. set_unfold in C.
        destruct C as [?|[?|[?|[?|[?|[->|C]]]]]]; [set_solver..|vm_compute in E; discriminate E|done].
    + intros H. set_unfold in H. destruct H as [->|[->|[->|[->|[->|H]]]]]; done.
  - intros cluster. eexists _, _. rewrite !at_last_dash_Name. split; reflexivity.
Qed.

(** ** The text of a file *)

Lemma lacks_spaces c i : c ≠ " "%char → lacks c (spaces i) = true.
Proof. intros Hc. induction i as [|i IH]; [done|]. simpl. by rewrite bool_decide_false. Qed.

Lemma Split_indented c i ls :
  c ≠ " "%char → ls ≠ [] → Forall (λ l, lacks c l = true) ls →
  Split (spaces i +:+ StrJoin ls (String c EmptyString +:+ spaces i)) c = map (λ l, spaces i +:+ l) ls.
Proof.
  intros Hc Hne H. induction H as [|l ls Hl Hls IH]; [done|]. destruct ls as [|l' ls].
  - apply (Split_lacking c (spaces i +:+ l)). by rewrite lacks_app, lacks_spaces, Hl.
  - change (StrJoin (l :: l' :: ls) (String c EmptyString +:+ spaces i))
      with (l +:+ (String c (spaces i +:+ StrJoin (l' :: ls) (String c EmptyString +:+ spaces i)))).
    rewrite <- str_app_assoc, Split_terminated_line by (by rewrite lacks_app, lacks_spaces, Hl). by rewrite IH.
Qed.

(** Every line of a file is a line of the user data, behind the indentation of
    the block: no content leaves its block. *)
Theorem Indent_lines i s : Split (Indent i s) lf = map (λ l, spaces i +:+ l) (Split s lf).
Proof. apply Split_indented; [done|apply Split_nonempty|apply Split_lacks]. Qed.
