(* ===== verification/K3sConfig.v ===== *)
(** * The controller of the bootstrap configurations:
      [src/bootstrap/k3s/controllers/k3sconfig_controller.go] and
      [src/util/secret/certificates.go]

    Every machine has a K3sConfig; reconciling it makes the user data the
    machine boots with.  The first control plane initialises the cluster, under
    the lock of [InitLock]; the others wait and join it with the token it has
    stored.  A reconciliation is a program over the API server: other machines
    are reconciled between any two of its calls. *)

From Stdlib Require Import Ascii String ZArith.
From S2P Require Import Prelude GoStrings Prog InitLock Bootstrap.
From stdpp Require Import gmap strings list sets.

(** ** Objects *)

Record Secret := {
  s_labels : gmap string string;
  s_owners : list (string * string * string * string);
  s_data : gmap string string;
  s_type : string;
}.

Record Condition := { cd_true : bool; cd_severity : string; cd_reason : string; cd_message : string }.
#[export] Instance Condition_eq_dec : EqDecision Condition.
Proof. solve_decision. Defined.

(** A K3sConfig; an owner is a kind and a name. *)
Record Config := {
  k_namespace : string; k_name : string; k_uid : string; k_owners : list (string * string); k_paused : bool; k_generation : Z;
  k_spec : K3sConfigSpec;
  k_ready : bool; k_dataSecretName : option string; k_observedGeneration : Z; k_conditions : gmap string Condition;
}.

(** The owner of a K3sConfig: a Machine or a MachinePool. *)
Record ConfigOwner := {
  co_kind : string; co_namespace : string; co_name : string; co_clusterName : string; co_controlPlane : bool;
  co_dataSecretName : option string;
}.

(** [ClusterNetwork]: the domain of the services and the ranges of services and pods. *)
Record ClusterNetwork := { cn_serviceDomain : string; cn_services : option (list string); cn_pods : option (list string) }.

(** A Cluster; the endpoint is the text of a valid one. *)
Record ClusterObject := {
  cl_meta : Cluster; cl_paused : bool; cl_infrastructureReady : bool; cl_initialized : bool;
  cl_endpoint : option string; cl_network : option ClusterNetwork;
}.

Notation key := (string * string)%type (only parsing).

Record World := {
  w_configMaps : gmap key ConfigMap;
  w_machines : gmap key ConfigOwner;
  w_pools : gmap key ConfigOwner;
  w_clusters : gmap key ClusterObject;
  w_secrets : gmap key Secret;
  w_configs : gmap key Config;
  w_calls : nat;
}.

Definition with_secrets (m : gmap key Secret) (w : World) : World :=
  {| w_configMaps := w_configMaps w; w_machines := w_machines w; w_pools := w_pools w; w_clusters := w_clusters w;
     w_secrets := m; w_configs := w_configs w; w_calls := w_calls w |}.
Definition with_configs (m : gmap key Config) (w : World) : World :=
  {| w_configMaps := w_configMaps w; w_machines := w_machines w; w_pools := w_pools w; w_clusters := w_clusters w;
     w_secrets := w_secrets w; w_configs := m; w_calls := w_calls w |}.
Definition w_tick (w : World) : World :=
  {| w_configMaps := w_configMaps w; w_machines := w_machines w; w_pools := w_pools w; w_clusters := w_clusters w;
     w_secrets := w_secrets w; w_configs := w_configs w; w_calls := S (w_calls w) |}.

(** What the lock sees of the API server, and what it changes. *)
Definition api_of (w : World) : Api :=
  {| a_configMaps := w_configMaps w; a_machines := dom (w_machines w); a_calls := w_calls w |}.
Definition put_api (s : Api) (w : World) : World :=
  {| w_configMaps := a_configMaps s; w_machines := w_machines w; w_pools := w_pools w; w_clusters := w_clusters w;
     w_secrets := w_secrets w; w_configs := w_configs w; w_calls := a_calls s |}.

Fixpoint lift {A : Type} (p : prog Api A) : prog World A :=
  match p with
  | PRet a => PRet a
  | PStep f => PStep (λ w, let '(s', p') := f (api_of w) in (put_api s' w, lift p'))
  end.

(** ** Changes of a K3sConfig in memory *)

Definition set_spec (s : K3sConfigSpec) (k : Config) : Config :=
  {| k_namespace := k_namespace k; k_name := k_name k; k_uid := k_uid k; k_owners := k_owners k; k_paused := k_paused k;
     k_generation := k_generation k; k_spec := s; k_ready := k_ready k; k_dataSecretName := k_dataSecretName k;
     k_observedGeneration := k_observedGeneration k; k_conditions := k_conditions k |}.
Definition set_status (ready : bool) (dataSecretName : option string) (k : Config) : Config :=
  {| k_namespace := k_namespace k; k_name := k_name k; k_uid := k_uid k; k_owners := k_owners k; k_paused := k_paused k;
     k_generation := k_generation k; k_spec := k_spec k; k_ready := ready; k_dataSecretName := dataSecretName;
     k_observedGeneration := k_observedGeneration k; k_conditions := k_conditions k |}.
Definition set_observed (g : Z) (k : Config) : Config :=
  {| k_namespace := k_namespace k; k_name := k_name k; k_uid := k_uid k; k_owners := k_owners k; k_paused := k_paused k;
     k_generation := k_generation k; k_spec := k_spec k; k_ready := k_ready k; k_dataSecretName := k_dataSecretName k;
     k_observedGeneration := g; k_conditions := k_conditions k |}.
Definition set_conditions (c : gmap string Condition) (k : Config) : Config :=
  {| k_namespace := k_namespace k; k_name := k_name k; k_uid := k_uid k; k_owners := k_owners k; k_paused := k_paused k;
     k_generation := k_generation k; k_spec := k_spec k; k_ready := k_ready k; k_dataSecretName := k_dataSecretName k;
     k_observedGeneration := k_observedGeneration k; k_conditions := c |}.

Definition DataSecretAvailableCondition : string := "DataSecretAvailable".
Definition CertificatesAvailableCondition : string := "CertificatesAvailable".
Definition DataSecretGenerationFailedReason : string := "DataSecretGenerationFailed".

(** [conditions.MarkTrue] and [conditions.MarkFalse] *)
Definition MarkTrue (type : string) (k : Config) : Config :=
  set_conditions (<[type := {| cd_true := true; cd_severity := ""; cd_reason := ""; cd_message := "" |}]> (k_conditions k)) k.
Definition MarkFalse (type reason severity message : string) (k : Config) : Config :=
  set_conditions (<[type := {| cd_true := false; cd_severity := severity; cd_reason := reason; cd_message := message |}]> (k_conditions k)) k.

Definition with_cluster (c : ClusterOptions) (s : K3sConfigSpec) : K3sConfigSpec :=
  {| ks_files := ks_files s; ks_cluster := Some c; ks_server := ks_server s; ks_agent := ks_agent s; ks_pre := ks_pre s;
     ks_post := ks_post s; ks_version := ks_version s |}.
Definition with_server (c : ServerConfiguration) (s : K3sConfigSpec) : K3sConfigSpec :=
  {| ks_files := ks_files s; ks_cluster := ks_cluster s; ks_server := Some c; ks_agent := ks_agent s; ks_pre := ks_pre s;
     ks_post := ks_post s; ks_version := ks_version s |}.
Definition with_agent (c : AgentConfiguration) (s : K3sConfigSpec) : K3sConfigSpec :=
  {| ks_files := ks_files s; ks_cluster := ks_cluster s; ks_server := ks_server s; ks_agent := Some c; ks_pre := ks_pre s;
     ks_post := ks_post s; ks_version := ks_version s |}.
Definition with_version (v : string) (s : K3sConfigSpec) : K3sConfigSpec :=
  {| ks_files := ks_files s; ks_cluster := ks_cluster s; ks_server := ks_server s; ks_agent := ks_agent s; ks_pre := ks_pre s;
     ks_post := ks_post s; ks_version := v |}.

(** ** Errors of a step end the function *)

Definition tbind {V A B : Type} (p : prog V (result A)) (k : A → prog V (result B)) : prog V (result B) :=
  do! r <- p in match r with Ok a => k a | Err e => PRet (Err e) | Panic why => PRet (Panic why) end.

Notation "'try!' x '<-' p 'in' k" := (tbind p (λ x, k))
  (at level 10, x pattern, p at level 100, k at level 200) : go_scope.

Section K3sConfig.

(** The data of the lock and which calls fail, as in [InitLock]; what the other
    packages do: YAML, quoting, random tokens and keys (by the number of calls
    before), the summary of conditions, the owner a K3sConfig has among its
    references (a pool or a machine, and its name), the version of a machine,
    the text of ranges and of errors, and the merge patch of a specification:
    what it was, what it is and what is stored. *)
Context (marshal : string → string) (unmarshal : string → option string) (fails : nat → bool).
Context (yaml_server : K3sServerConfiguration → result string) (yaml_agent : K3sAgentConfiguration → result string).
Context (quote : string → string).
Context (new_token : nat → result string) (new_ca new_keys : nat → result KeyPair).
Context (summary : gmap string Condition → Condition).
Context (config_owner : list (string * string) → option (bool * string)).
Context (to_machine : ConfigOwner → result (option string)).
Context (ranges_text : list string → string) (error_text : error → string).
Context (new_helper : Config → option error) (merge_spec : K3sConfigSpec → K3sConfigSpec → K3sConfigSpec → K3sConfigSpec).

(** ** Calls of the client *)

Definition wcall {A : Type} (f : World → World * reply A) : prog World (reply A) :=
  atomic (λ w, if fails (w_calls w) then (w_tick w, Failed) else f (w_tick w)).

Definition found {A : Type} (o : option A) : reply A := match o with Some a => Done a | None => NotFound end.

Definition get_config (kk : key) : prog World (reply Config) := wcall (λ w, (w, found (w_configs w !! kk))).
Definition get_owner (pool : bool) (ok : key) : prog World (reply ConfigOwner) :=
  wcall (λ w, (w, found (if pool then w_pools w !! ok else w_machines w !! ok))).
Definition get_cluster (ck : key) : prog World (reply ClusterObject) := wcall (λ w, (w, found (w_clusters w !! ck))).
Definition get_secret (sk : key) : prog World (reply Secret) := wcall (λ w, (w, found (w_secrets w !! sk))).

Definition create_secret (sk : key) (s : Secret) : prog World (reply unit) :=
  wcall (λ w, match w_secrets w !! sk with
              | Some _ => (w, AlreadyExists)
              | None => (with_secrets (<[sk := s]> (w_secrets w)) w, Done tt)
              end).
Definition update_secret (sk : key) (s : Secret) : prog World (reply unit) :=
  wcall (λ w, match w_secrets w !! sk with
              | Some _ => (with_secrets (<[sk := s]> (w_secrets w)) w, Done tt)
              | None => (w, NotFound)
              end).

(** ** Certificates: [util/secret/certificates.go] *)

Definition TLSKeyDataName : string := "tls.key".
Definition TLSCrtDataName : string := "tls.crt".
Definition ClusterSecretType : string := "cluster.x-k8s.io/secret".

Definition secretToKeyPair (s : Secret) : result KeyPair :=
  match s_data s !! TLSCrtDataName with
  | None => Err (Msg "missing data for key tls.crt")
  | Some c => Ok {| kp_cert := c; kp_key := default "" (s_data s !! TLSKeyDataName) |}
  end.

Definition secret_key (ck : key) (c : Certificate) : key := (ck.1, Name ck.2 (ct_purpose c)).

Fixpoint Lookup (ck : key) (cs : list Certificate) : prog World (result (list Certificate)) :=
  match cs with
  | [] => PRet (Ok [])
  | c :: rest =>
      do! r <- get_secret (secret_key ck c) in
      match r with
      | Done s =>
          match secretToKeyPair s with
          | Ok kp => try! rest' <- Lookup ck rest in PRet (Ok (with_keyPair kp (ct_generated c) c :: rest'))
          | Err e => PRet (Err e)
          | Panic why => PRet (Panic why)
          end
      | NotFound =>
          if ct_external c then PRet (Err (Msg "external certificate not found"))
          else try! rest' <- Lookup ck rest in PRet (Ok (c :: rest'))
      | _ => PRet (Err (Msg "get"))
      end
  end.

(** [Certificate.Generate] *)
Definition generate_certificate (c : Certificate) : prog World (result Certificate) :=
  if bool_decide (ct_purpose c = APIServerEtcdClient) then PRet (Ok c)
  else
    try! kp <- atomic (λ w, (w_tick w, (if bool_decide (ct_purpose c = ServiceAccount) then new_keys else new_ca) (w_calls w))) in
    PRet (Ok (with_keyPair kp true c)).

(** [Certificates.Generate] *)
Fixpoint Generate (cs : list Certificate) : prog World (result (list Certificate)) :=
  match cs with
  | [] => PRet (Ok [])
  | c :: rest =>
      try! c' <- match ct_keyPair c with None => generate_certificate c | Some _ => PRet (Ok c) end in
      try! rest' <- Generate rest in
      PRet (Ok (c' :: rest'))
  end.

Definition owner_ref : Type := string * string * string * string.

Definition AsSecret (ck : key) (owner : owner_ref) (c : Certificate) : result Secret :=
  match ct_keyPair c with
  | None => Panic "nil pointer dereference"
  | Some kp => Ok {|
      s_labels := {[ClusterLabelName := ck.2]};
      s_owners := if ct_generated c then [owner] else [];
      s_data := {[TLSKeyDataName := kp_key kp; TLSCrtDataName := kp_cert kp]};
      s_type := ClusterSecretType |}
  end.

Fixpoint SaveGenerated (ck : key) (owner : owner_ref) (cs : list Certificate) : prog World (result unit) :=
  match cs with
  | [] => PRet (Ok tt)
  | c :: rest =>
      if ct_generated c then
        match AsSecret ck owner c with
        | Ok s =>
            do! r <- create_secret (secret_key ck c) s in
            match r with
            | Done _ => SaveGenerated ck owner rest
            | _ => PRet (Err (Msg "create"))
            end
        | Err e => PRet (Err e)
        | Panic why => PRet (Panic why)
        end
      else SaveGenerated ck owner rest
  end.

Definition LookupOrGenerate (ck : key) (owner : owner_ref) (cs : list Certificate) : prog World (result (list Certificate)) :=
  try! cs <- Lookup ck cs in
  try! cs <- Generate cs in
  try! _ <- SaveGenerated ck owner cs in
  PRet (Ok cs).

(** ** Secrets of the controller *)

Definition cluster_key (cl : ClusterObject) : key := (c_namespace (cl_meta cl), c_name (cl_meta cl)).
Definition config_key (k : Config) : key := (k_namespace k, k_name k).
Definition controller_ref (k : Config) : owner_ref := ("bootstrap.cluster.x-k8s.io/v1beta1", "K3sConfig", k_name k, k_uid k).
Definition token_key (namespace cluster : string) : key := (namespace, cluster +:+ "-token").

Definition value_secret (cl : ClusterObject) (k : Config) (v : string) : Secret := {|
  s_labels := {[ClusterLabelName := c_name (cl_meta cl)]};
  s_owners := [controller_ref k];
  s_data := {["value" := v]};
  s_type := ClusterSecretType |}.

(** Create, or update what is there: the same lines in [generateAndStoreToken]
    and in [storeBootstrapData]. *)
Definition store_secret (sk : key) (s : Secret) (what : string) : prog World (result unit) :=
  do! r <- create_secret sk s in
  match r with
  | Done _ => PRet (Ok tt)
  | AlreadyExists =>
      do! u <- update_secret sk s in
      match u with
      | Done _ => PRet (Ok tt)
      | _ => PRet (Err (Msg ("failed to update " +:+ what)))
      end
  | _ => PRet (Err (Msg ("failed to create " +:+ what)))
  end.

Definition generateAndStoreToken (cl : ClusterObject) (k : Config) : prog World (result string) :=
  try! t <- atomic (λ w, (w_tick w, new_token (w_calls w))) in
  try! _ <- store_secret (token_key (k_namespace k) (c_name (cl_meta cl))) (value_secret cl k t) "token" in
  PRet (Ok t).

Definition resolveSecretFileContent (ns : string) (source : string * string) : prog World (result string) :=
  do! r <- get_secret (ns, source.1) in
  match r with
  | Done s =>
      match s_data s !! source.2 with
      | Some data => PRet (Ok data)
      | None => PRet (Err (Msg ("secret references non-existent secret key: " +:+ source.2)))
      end
  | NotFound => PRet (Err (Msg ("secret not found: " +:+ source.1)))
  | _ => PRet (Err (Msg ("failed to retrieve Secret " +:+ source.1)))
  end.

Definition resolved (f : File) (content : string) : File :=
  {| f_path := f_path f; f_owner := f_owner f; f_permissions := f_permissions f; f_encoding := f_encoding f; f_append := f_append f;
     f_content := content; f_contentFrom := None |}.

Fixpoint resolveFiles (ns : string) (files : list File) : prog World (result (list File)) :=
  match files with
  | [] => PRet (Ok [])
  | f :: rest =>
      try! f' <- match f_contentFrom f with
                 | None => PRet (Ok f)
                 | Some source => try! data <- resolveSecretFileContent ns source in PRet (Ok (resolved f data))
                 end in
      try! rest' <- resolveFiles ns rest in
      PRet (Ok (f' :: rest'))
  end.

Definition storeBootstrapData (cl : ClusterObject) (k : Config) (data : string) : prog World (Config * result Z) :=
  do! r <- store_secret (config_key k) (value_secret cl k data) "bootstrap data secret" in
  match r with
  | Ok _ => PRet (MarkTrue DataSecretAvailableCondition (set_status true (Some (k_name k)) k), Ok 0%Z)
  | Err e => PRet (k, Err e)
  | Panic why => PRet (k, Panic why)
  end.

(** ** What the specification takes from the cluster and the machine *)

Definition version_settings (version : option string) (s : K3sConfigSpec) : K3sConfigSpec :=
  match version with
  | Some v => if bool_decide (ks_version s = "") then with_version v s else s
  | None => s
  end.

(** [current] unless it is empty and the cluster has a value. *)
Definition or_else (current : string) (value : option string) : string :=
  if bool_decide (current = "") then default current value else current.

Definition ranges (r : option (list string)) : option string :=
  match r with Some (x :: l) => Some (ranges_text (x :: l)) | _ => None end.

Definition network_settings (n : ClusterNetwork) (g : Networking) : Networking :=
  {| ClusterCIDR := or_else (ClusterCIDR g) (ranges (cn_pods n));
     ServiceCIDR := or_else (ServiceCIDR g) (ranges (cn_services n));
     ServiceNodePortRange := ServiceNodePortRange g; ClusterDNS := ClusterDNS g;
     ClusterDomain := or_else (ClusterDomain g) (Some (cn_serviceDomain n));
     FlannelBackend := FlannelBackend g |}.

(** [reconcileTopLevelObjectSettings]; its callers have set the server. *)
Definition network_server (cl : ClusterObject) (sv : ServerConfiguration) : ServerConfiguration :=
  match cl_network cl with
  | None => sv
  | Some n => {| sv_database := sv_database sv; sv_listener := sv_listener sv; sv_networking := network_settings n (sv_networking sv);
                 sv_components := sv_components sv; sv_processes := sv_processes sv; sv_agent := sv_agent sv |}
  end.

Definition top_level_settings (cl : ClusterObject) (version : option string) (sv : ServerConfiguration) (s : K3sConfigSpec) : K3sConfigSpec :=
  version_settings version (with_server (network_server cl sv) s).

Definition zero_cluster : ClusterOptions := {| Token := ""; TokenFile := ""; Server := "" |}.

(** [reconcileDiscovery]; a result other than 0 asks to come again. *)
Definition reconcileDiscovery (cl : ClusterObject) (k : Config) : prog World (Config * result Z) :=
  match ks_cluster (k_spec k) with
  | None => PRet (k, Panic "nil pointer dereference")
  | Some c =>
      if bool_decide (TokenFile c ≠ "") then PRet (k, Ok 0%Z)
      else
        match (if bool_decide (Server c = "") then (λ ep, "https://" +:+ ep) <$> cl_endpoint cl else Some (Server c)) with
        | None => PRet (k, Ok 10%Z)
        | Some server =>
            let c := {| Token := Token c; TokenFile := TokenFile c; Server := server |} in
            let k := set_spec (with_cluster c (k_spec k)) k in
            if bool_decide (Token c = "") then
              do! r <- get_secret (token_key (k_namespace k) (c_name (cl_meta cl))) in
              match r with
              | Done s =>
                  let c := {| Token := default "" (s_data s !! "value"); TokenFile := TokenFile c; Server := server |} in
                  PRet (set_spec (with_cluster c (k_spec k)) k, Ok 0%Z)
              | _ => PRet (k, Err (Msg "failed to get token"))
              end
            else PRet (k, Ok 0%Z)
        end
  end.

(** ** User data *)

(** The end of the three functions below: the configuration of k3s, the files,
    the user data and its secret. *)
Definition boot_with (cl : ClusterObject) (k : Config) (data : result string) (user_data : BaseUserData → result string)
  : prog World (Config * result Z) :=
  match data with
  | Err e => PRet (k, Err e)
  | Panic why => PRet (k, Panic why)
  | Ok data =>
      do! files <- resolveFiles (k_namespace k) (ks_files (k_spec k)) in
      match files with
      | Err e =>
          PRet (MarkFalse DataSecretAvailableCondition DataSecretGenerationFailedReason "Warning" (error_text e) k, Err e)
      | Panic why => PRet (k, Panic why)
      | Ok files =>
          match user_data {| bu_pre := ks_pre (k_spec k); bu_post := ks_post (k_spec k); bu_additional := files;
                             bu_config := config_file data |} with
          | Ok text => storeBootstrapData cl k text
          | Err e => PRet (k, Err e)
          | Panic why => PRet (k, Panic why)
          end
      end
  end.

Definition joinWorker (cl : ClusterObject) (co : ConfigOwner) (k : Config) : prog World (Config * result Z) :=
  match to_machine co with
  | Err e => PRet (k, Err e)
  | Panic why => PRet (k, Panic why)
  | Ok version =>
      let k := set_spec (version_settings version (k_spec k)) k in
      do! (k, r) <- reconcileDiscovery cl k in
      match r with
      | Ok 0%Z =>
          let agent := default zero_agent (ks_agent (k_spec k)) in
          let k := set_spec (with_agent agent (k_spec k)) k in
          boot_with cl k (MarshalJoinAgentConfiguration yaml_agent agent (default zero_cluster (ks_cluster (k_spec k))))
            (λ input, Ok (NewNode quote input))
      | r => PRet (k, r)
      end
  end.

Definition joinControlplane (cl : ClusterObject) (co : ConfigOwner) (k : Config) : prog World (Config * result Z) :=
  if negb (co_controlPlane co) then PRet (k, Err (Msg (co_kind co +:+ " is not a valid control plane kind, only Machine is supported")))
  else
    let sv := default zero_server (ks_server (k_spec k)) in
    let k := set_spec (with_server sv (k_spec k)) k in
    match to_machine co with
    | Err e => PRet (k, Err e)
    | Panic why => PRet (k, Panic why)
    | Ok version =>
        let k := set_spec (top_level_settings cl version sv (k_spec k)) k in
        do! (k, r) <- reconcileDiscovery cl k in
        match r with
        | Ok 0%Z =>
            boot_with cl k
              (MarshalJoinServerConfiguration yaml_server (default zero_server (ks_server (k_spec k)))
                 (default zero_cluster (ks_cluster (k_spec k))))
              (λ input, Ok (NewJoinControlPlane quote input))
        | r => PRet (k, r)
        end
    end.

(** [handleClusterNotInitialized], with the lock held. *)
Definition initialise (cl : ClusterObject) (version : option string) (k : Config) : prog World (Config * result Z) :=
  let sv := default zero_server (ks_server (k_spec k)) in
  let k := set_spec (top_level_settings cl version sv (k_spec k)) k in
  do! certificates <- LookupOrGenerate (cluster_key cl) (controller_ref k) NewCertificatesForInitialControlPlane in
  match certificates with
  | Err e => PRet (MarkFalse CertificatesAvailableCondition "CertificatesGenerationFailed" "Warning" (error_text e) k, Err e)
  | Panic why => PRet (k, Panic why)
  | Ok certificates =>
      let k := MarkTrue CertificatesAvailableCondition k in
      do! token <- generateAndStoreToken cl k in
      match token with
      | Err e => PRet (k, Err e)
      | Panic why => PRet (k, Panic why)
      | Ok t =>
          boot_with cl k (MarshalInitServerConfiguration yaml_server (default zero_server (ks_server (k_spec k))) t)
            (λ input, NewInitControlPlane quote input certificates)
      end
  end.

Definition reason_of (type : string) (k : Config) : string := default "" (cd_reason <$> k_conditions k !! type).

(** The deferred [Unlock] runs when an error is returned, not when the function
    panics. *)
Definition handleClusterNotInitialized (cl : ClusterObject) (co : ConfigOwner) (k : Config) : prog World (Config * result Z) :=
  let k := if bool_decide (reason_of DataSecretAvailableCondition k = DataSecretGenerationFailedReason) then k
           else MarkFalse DataSecretAvailableCondition "WaitingForControlPlaneAvailable" "Info" "" k in
  if negb (co_controlPlane co) then PRet (k, Ok 30%Z)
  else if bool_decide (ks_server (k_spec k) = None ∧ ks_cluster (k_spec k) = None) then PRet (k, Ok 30%Z)
  else
    match to_machine co with
    | Err e => PRet (k, Err e)
    | Panic why => PRet (k, Panic why)
    | Ok version =>
        do! locked <- lift (Lock marshal unmarshal fails (cl_meta cl) (co_name co)) in
        if locked : bool then
          do! (k, r) <- initialise cl version k in
          match r with
          | Err e =>
              do! unlocked <- lift (Unlock fails (cl_meta cl)) in
              PRet (k, Err (if unlocked : bool then e else Joined [e; Msg "failed to unlock the kubeadm init lock"]))
          | r => PRet (k, r)
          end
        else PRet (k, Ok 30%Z)
    end.

(** ** Writing the K3sConfig back *)

Definition patch_config (kk : key) (f : Config → Config) : prog World (reply unit) :=
  wcall (λ w, match w_configs w !! kk with
              | Some k => (with_configs (<[kk := f k]> (w_configs w)) w, Done tt)
              | None => (w, NotFound)
              end).

Definition patch_if (changed : bool) (kk : key) (f : Config → Config) : prog World (list error) :=
  if changed then
    do! r <- patch_config kk f in PRet (match r with Done _ => [] | _ => [Msg "patch"] end)
  else PRet [].

(** A field of a merge patch: only what has changed is written. *)
Definition merged {A : Type} `{EqDecision A} (before after stored : A) : A := if decide (before = after) then stored else after.

Definition merge_conditions (before after stored : gmap string Condition) : gmap string Condition :=
  filter (λ c, before !! c.1 ≠ Some c.2) after ∪ stored.

(** [patchHelper.Patch]: the conditions, the specification and the rest of the
    status, each with a call of its own when it has changed. *)
Definition Patch (before after : Config) : prog World (option error) :=
  let kk := config_key before in
  do! e1 <- patch_if (bool_decide (k_conditions before ≠ k_conditions after)) kk
              (λ k, set_conditions (merge_conditions (k_conditions before) (k_conditions after) (k_conditions k)) k) in
  do! e2 <- patch_if (bool_decide (k_spec before ≠ k_spec after)) kk
              (λ k, set_spec (merge_spec (k_spec before) (k_spec after) (k_spec k)) k) in
  do! e3 <- patch_if (bool_decide ((k_ready before, k_dataSecretName before, k_observedGeneration before)
                                   ≠ (k_ready after, k_dataSecretName after, k_observedGeneration after))) kk
              (λ k, set_observed (merged (k_observedGeneration before) (k_observedGeneration after) (k_observedGeneration k))
                      (set_status (merged (k_ready before) (k_ready after) (k_ready k))
                         (merged (k_dataSecretName before) (k_dataSecretName after) (k_dataSecretName k)) k)) in
  PRet (match e1 ++ e2 ++ e3 with [] => None | es => Some (Joined es) end).

(** ** [Reconcile] *)

(** [kklog.AddOwners]: the owners of the machine sets are only logged. *)
Fixpoint AddOwners (owners : list (string * string)) : prog World (result unit) :=
  match owners with
  | [] => PRet (Ok tt)
  | o :: rest =>
      if bool_decide (o.1 = "MachineSet") then
        do! r <- wcall (λ w, (w, Done tt)) in
        match r with
        | Done _ | NotFound => AddOwners rest
        | _ => PRet (Err (Msg "failed to add object hierarchy to logger"))
        end
      else AddOwners rest
  end.

(** The switch of [Reconcile] and what follows it. *)
Definition reconcile_config (cl : ClusterObject) (co : ConfigOwner) (k : Config) : prog World (Config * result Z) :=
  if negb (cl_infrastructureReady cl) then
    PRet (MarkFalse DataSecretAvailableCondition "WaitingForClusterInfrastructure" "Info" "" k, Ok 0%Z)
  else if bool_decide (co_dataSecretName co ≠ None ∧ (k_ready k = false ∨ k_dataSecretName k = None)) then
    PRet (MarkTrue DataSecretAvailableCondition (set_status true (co_dataSecretName co) k), Ok 0%Z)
  else if k_ready k then PRet (k, Ok 0%Z)
  else if negb (cl_initialized cl) then handleClusterNotInitialized cl co k
  else
    do! _ <- lift (Unlock fails (cl_meta cl)) in
    let k := set_spec (with_cluster (default zero_cluster (ks_cluster (k_spec k))) (k_spec k)) k in
    if co_controlPlane co then joinControlplane cl co k else joinWorker cl co k.

(** The deferred patch runs after a panic too, which goes on. *)
Definition patched (before : Config) (out : Config * result Z) : prog World (result Z) :=
  let '(k, r) := out in
  let k := set_conditions (<["Ready" := summary (k_conditions k)]> (k_conditions k)) k in
  let k := match r with Err _ => k | _ => set_observed (k_generation k) k end in
  do! e <- Patch before k in
  PRet (match r, e with Ok _, Some e => Err e | r, _ => r end).

Definition Reconcile (kk : key) : prog World (result Z) :=
  do! rk <- get_config kk in
  match rk with
  | NotFound => PRet (Ok 0%Z)
  | Done k =>
      try! _ <- AddOwners (k_owners k) in
      match config_owner (k_owners k) with
      | None => PRet (Ok 0%Z)
      | Some (pool, name) =>
          do! ro <- get_owner pool (k_namespace k, name) in
          match ro with
          | NotFound => PRet (Ok 0%Z)
          | Done co =>
              do! rc <- get_cluster (co_namespace co, co_clusterName co) in
              match rc with
              | NotFound => PRet (Ok 0%Z)
              | Done cl =>
                  if cl_paused cl || k_paused k then PRet (Ok 0%Z)
                  else
                    match new_helper k with
                    | Some e => PRet (Err e)
                    | None => do! out <- reconcile_config cl co k in patched k out
                    end
              | _ => PRet (Err (Msg "Could not get cluster with metadata"))
              end
          | _ => PRet (Err (Msg "Failed to get owner"))
          end
      end
  | _ => PRet (Err (Msg "Failed to get config"))
  end.

(** A machine is reconciled again and again. *)
Fixpoint reconciles (n : nat) (kk : key) : prog World unit :=
  match n with O => PRet tt | S n => do! _ <- Reconcile kk in reconciles n kk end.

End K3sConfig.
