(* ===== verification/K3sConfigSpec.v ===== *)
(** * One machine initialises a cluster: [K3sConfig]

    While a cluster is not initialised and none of its machines is deleted, the
    configurations of its machines are reconciled in any interleaving and any
    call may fail.  A program owns the secrets of the cluster while its machine
    holds the lock, and its own configuration and bootstrap secret always: what
    it relies on and what it guarantees are the two sides of that. *)

From Stdlib Require Import Ascii String ZArith.
From stdpp Require Import gmap strings list sets.
From S2P Require Import Prelude GoStrings Prog InitLock Bootstrap K3sConfig.

Lemma NoDup_fmap_eq {A B} (f : A → B) (l : list A) x y : NoDup (f <$> l) → x ∈ l → y ∈ l → f x = f y → x = y.
Proof.
  intros HN [i Hx]%list_elem_of_lookup [j Hy]%list_elem_of_lookup E. rewrite NoDup_alt in HN.
  assert (i = j) as -> by (apply (HN i j (f x)); rewrite list_lookup_fmap, ?Hx, ?Hy; simpl; congruence). congruence.
Qed.

(** ** Programs that write some secrets

    [Ks] are the secrets nobody else writes, [Kw] the ones the program does. *)

Section Secrets.
Context (fails : nat → bool) (new_token : nat → result string) (new_ca new_keys : nat → result KeyPair).
Context (Ks : list key).

Definition same_secrets (w w' : World) : Prop := ∀ sk, sk ∈ Ks → w_secrets w' !! sk = w_secrets w !! sk.

Definition writes (Kw : list key) (w w' : World) : Prop :=
  w_configMaps w' = w_configMaps w ∧ w_machines w' = w_machines w ∧ w_pools w' = w_pools w ∧ w_clusters w' = w_clusters w ∧
  w_configs w' = w_configs w ∧ ∀ sk, sk ∉ Kw → w_secrets w' !! sk = w_secrets w !! sk.

Definition secure {A : Type} (Kw : list key) (Q : World → A → Prop) : prog World A → World → Prop :=
  owns (λ _, True) same_secrets (writes Kw) Q.

#[export] Instance same_secrets_preorder : PreOrder same_secrets.
Proof. split; [by intros w sk|]. intros w1 w2 w3 H1 H2 sk Hsk. by rewrite H2, H1. Qed.

Lemma writes_tick Kw w : writes Kw w (w_tick w).
Proof. done. Qed.

Lemma writes_weaken Kw Kw' w w' : Kw ⊆ Kw' → writes Kw w w' → writes Kw' w w'.
Proof. intros HK (H1 & H2 & H3 & H4 & H5 & H6). split_and!; [done..|]. intros sk Hsk. apply H6. set_solver. Qed.

Lemma secure_writes {A} Kw Kw' (Q : World → A → Prop) p w : Kw ⊆ Kw' → secure Kw Q p w → secure Kw' Q p w.
Proof.
  intros HK H. eapply owns_weaken; [|eapply (owns_transfer _ _ _ _ _ _ (λ _, True)); [..|exact H]]; [by intros v b [_ HQ]|done| |done].
  intros v v' _ _ _ Hw. split_and!; [done..|]. by eapply writes_weaken.
Qed.

Lemma secure_bind {A B} Kw (Q : World → A → Prop) (R : World → B → Prop) p k w :
  secure Kw Q p w → (∀ w' a, Q w' a → secure Kw R (k a) w') → secure Kw R (pbind p k) w.
Proof. apply owns_bind. Qed.

Lemma secure_weaken {A} Kw (Q Q' : World → A → Prop) p w : (∀ w a, Q w a → Q' w a) → secure Kw Q p w → secure Kw Q' p w.
Proof. apply owns_weaken. Qed.

(** What speaks of the secrets of the program that it does not write stays. *)
Lemma secure_frame {A} Kw (P : World → Prop) (Q : World → A → Prop) p w :
  (∀ w w', (∀ sk, sk ∈ Ks → sk ∉ Kw → w_secrets w' !! sk = w_secrets w !! sk) → P w → P w') →
  P w → secure Kw Q p w → secure Kw (λ w a, P w ∧ Q w a) p w.
Proof.
  intros HP. apply owns_frame.
  - intros v v' Hv HS. eapply HP; [|exact Hv]. intros sk Hsk _. by apply HS.
  - intros v v' Hv (_ & _ & _ & _ & _ & HS). eapply HP; [|exact Hv]. intros sk _ Hsk. by apply HS.
Qed.

Lemma secure_ret {A} Kw (Q : World → A → Prop) a w : Q w a → secure Kw Q (PRet a) w.
Proof. done. Qed.

(** Errors and panics end a function. *)
Lemma secure_tbind {A B} Kw (Q : World → A → Prop) (R : World → result B → Prop) p (k : A → prog World (result B)) w :
  secure Kw (λ w r, match r with Ok a => Q w a | Err e => R w (Err e) | Panic why => R w (Panic why) end) p w →
  (∀ w' a, Q w' a → secure Kw R (k a) w') → secure Kw R (tbind p k) w.
Proof. intros Hp Hk. eapply secure_bind; [exact Hp|]. intros w' [a|e|why] H; [by apply Hk|done..]. Qed.

Lemma secure_atomic {A} Kw (Q : World → A → Prop) (f : World → World * A) w :
  (∀ w', same_secrets w w' → writes Kw w' (f w').1 ∧ Q (f w').1 (f w').2) → secure Kw Q (atomic f) w.
Proof. intros H. apply owns_atomic. intros w' Hw _. by destruct (H w' Hw). Qed.

Lemma secure_wcall {A} Kw (Q : World → reply A → Prop) (f : World → World * reply A) w :
  (∀ w', same_secrets w w' → Q (w_tick w') Failed ∧ writes Kw w' (f (w_tick w')).1 ∧ Q (f (w_tick w')).1 (f (w_tick w')).2) →
  secure Kw Q (wcall fails f) w.
Proof. intros H. apply secure_atomic. intros w' Hw. destruct (H w' Hw) as (H1 & H2 & H3). by destruct (fails (w_calls w')). Qed.

Lemma secure_get Kw (Q : World → reply Secret → Prop) sk w :
  (∀ w' r, same_secrets w w' → match r with Done s => w_secrets w' !! sk = Some s | AlreadyExists => False | _ => True end → Q w' r) →
  secure Kw Q (get_secret fails sk) w.
Proof.
  intros H. apply secure_wcall. intros w' Hw. split_and!; [by apply H|done|]. simpl. apply H; [done|].
  destruct (w_secrets w' !! sk) as [s|] eqn:E; done.
Qed.

Lemma secure_store (Q : World → result unit → Prop) sk s what w :
  sk ∈ Ks → (∀ w' e, Q w' (Err e)) → (∀ w', w_secrets w' !! sk = Some s → Q w' (Ok tt)) →
  secure [sk] Q (store_secret fails sk s what) w.
Proof.
  intros Hsk HE HO.
  assert (∀ w, writes [sk] w (with_secrets (<[sk := s]> (w_secrets w)) w)) as Hw.
  { intros w'. split_and!; [done..|]. intros sk' Hne. simpl. apply lookup_insert_ne. set_solver. }
  unfold store_secret. eapply secure_bind.
  - apply (secure_wcall _ (λ w r, r = Done tt → w_secrets w !! sk = Some s)). intros w1 _. split; [done|]. simpl.
    destruct (w_secrets w1 !! sk); simpl; [split; [apply writes_tick|done]|]. split; [apply (Hw (w_tick w1))|].
    intros _. apply lookup_insert_eq.
  - intros w1 [[]| | |] H1; [by apply HO, H1|by apply HE| |by apply HE]. eapply secure_bind.
    + apply (secure_wcall _ (λ w r, r = Done tt → w_secrets w !! sk = Some s)). intros w2 _. split; [done|]. simpl.
      destruct (w_secrets w2 !! sk); simpl; [|split; [apply writes_tick|done]]. split; [apply (Hw (w_tick w2))|].
      intros _. apply lookup_insert_eq.
    + intros w2 [[]| | |] H2; [by apply HO, H2|by apply HE..].
Qed.

(** ** Certificates *)

(** The secret of a certificate holds its key pair. *)
Definition cert_at (ck : key) (w : World) (c : Certificate) : Prop :=
  ∃ s kp, w_secrets w !! secret_key ck c = Some s ∧ secretToKeyPair s = Ok kp ∧ ct_keyPair c = Some kp.

Definition owned (ck : key) (cs : list Certificate) : Prop := Forall (λ c, secret_key ck c ∈ Ks) cs.

Lemma cert_at_same ck w w' c :
  (secret_key ck c ∈ Ks → w_secrets w' !! secret_key ck c = w_secrets w !! secret_key ck c) →
  secret_key ck c ∈ Ks → cert_at ck w c → cert_at ck w' c.
Proof. intros H HK (s & kp & H1 & H2 & H3). exists s, kp. by rewrite H. Qed.

(** Where a certificate is on its way: not found, found, or generated. *)
Definition looked_up (ck : key) (w : World) (c : Certificate) : Prop :=
  ct_generated c = false ∧ (ct_keyPair c = None ∨ cert_at ck w c).
Definition ready_to_save (ck : key) (w : World) (c : Certificate) : Prop :=
  if ct_generated c then is_Some (ct_keyPair c) else cert_at ck w c.

Definition each (P : World → Certificate → Prop) (ck : key) (cs : list Certificate) (w : World) (r : result (list Certificate)) : Prop :=
  ∀ cs', r = Ok cs' → map ct_purpose cs' = map ct_purpose cs ∧ Forall (P w) cs'.

Lemma owned_purposes ck cs cs' : map ct_purpose cs' = map ct_purpose cs → owned ck cs → owned ck cs'.
Proof.
  unfold owned. revert cs'. induction cs as [|c cs IH]; intros [|c' cs']; try done. intros [= E1 E2] [H1 H2]%Forall_cons.
  constructor; [|by apply IH]. unfold secret_key in *. by rewrite E1.
Qed.

(** A secret that has been read stays while the program only reads. *)
Lemma secure_after {A} (Q : World → A → Prop) sk o p w :
  sk ∈ Ks → w_secrets w !! sk = o → secure [] Q p w → secure [] (λ w a, w_secrets w !! sk = o ∧ Q w a) p w.
Proof. intros Hsk Ho. apply secure_frame; [|done]. intros w1 w2 H HP. rewrite H; [done..|]. set_solver. Qed.

Lemma secure_Lookup ck cs w :
  owned ck cs → Forall (λ c, ct_generated c = false ∧ ct_keyPair c = None) cs →
  secure [] (each (looked_up ck) ck cs) (Lookup fails ck cs) w.
Proof.
  intros HO HF. revert w HO. induction HF as [|c cs [Hg Hk] HF IH]; intros w HO; [by intros cs' [= <-]|].
  apply Forall_cons in HO as [Hc HO]. cbn [Lookup]. eapply secure_bind.
  { apply (secure_get _ (λ w r, match r with Done s => w_secrets w !! secret_key ck c = Some s | _ => True end)).
    intros w' [s| | |] _ H; done. }
  intros w1 [s| | |] H1; [|destruct (ct_external c); [done|]|done..].
  - destruct (secretToKeyPair s) as [kp|e|why] eqn:E; [|done..].
    eapply (secure_tbind _ (λ w rest, w_secrets w !! secret_key ck c = Some s ∧ each (looked_up ck) ck cs w (Ok rest))).
    + eapply secure_weaken; [|apply secure_after; [exact Hc|exact H1|by apply IH]]. intros w2 [rest|e|why] [H2 H3]; [by split|done..].
    + intros w2 rest [H2 H3]. destruct (H3 rest eq_refl) as [H4 H5]. intros cs' [= <-]. split; [simpl; by f_equal|].
      constructor; [|done]. split; [done|]. right. by exists s, kp.
  - eapply (secure_tbind _ (λ w rest, each (looked_up ck) ck cs w (Ok rest))).
    + eapply secure_weaken; [|by apply IH]. intros w2 [rest|e|why] H; done.
    + intros w2 rest H. destruct (H rest eq_refl) as [H4 H5]. intros cs' [= <-]. split; [simpl; by f_equal|].
      constructor; [|done]. split; [done|]. by left.
Qed.

Lemma secure_generate_certificate ck c w :
  ct_keyPair c = None → ct_purpose c ≠ APIServerEtcdClient →
  secure [] (λ w r, match r with Ok c' => ct_purpose c' = ct_purpose c ∧ ready_to_save ck w c' | _ => True end)
    (generate_certificate new_ca new_keys c) w.
Proof.
  intros Hk Hp. unfold generate_certificate. rewrite bool_decide_eq_false_2 by done.
  eapply (secure_tbind _ (λ _ _, True)).
  - apply secure_atomic. intros w' _. split; [done|]. simpl. by destruct (_ (w_calls w')).
  - intros w1 kp _. split; [done|]. unfold ready_to_save. simpl. by eexists.
Qed.

Lemma ready_same ck c w w' :
  secret_key ck c ∈ Ks → (secret_key ck c ∈ Ks → w_secrets w' !! secret_key ck c = w_secrets w !! secret_key ck c) →
  ready_to_save ck w c → ready_to_save ck w' c.
Proof. intros HK H. unfold ready_to_save. destruct (ct_generated c); [done|]. by apply cert_at_same. Qed.

Lemma secure_Generate ck cs w :
  owned ck cs → APIServerEtcdClient ∉ map ct_purpose cs → Forall (looked_up ck w) cs →
  secure [] (each (ready_to_save ck) ck cs) (Generate new_ca new_keys cs) w.
Proof.
  revert w. induction cs as [|c cs IH]; intros w HO HP HF; [by intros cs' [= <-]|].
  apply Forall_cons in HO as [Hc HO]. apply not_elem_of_cons in HP as [Hp HP]. apply Forall_cons in HF as [Hl HF].
  cbn [Generate].
  eapply (secure_tbind _ (λ w c', Forall (looked_up ck w) cs ∧ ct_purpose c' = ct_purpose c ∧ ready_to_save ck w c')).
  - eapply secure_weaken; [|apply (secure_frame _ (λ w, Forall (looked_up ck w) cs)
        (λ w r, match r with Ok c' => ct_purpose c' = ct_purpose c ∧ ready_to_save ck w c' | _ => True end)); [|exact HF|]].
    + intros w1 [c'|e|why]; [exact id|intros _; by intros cs'..].
    + intros w1 w2 HS HL. unfold owned in HO. rewrite !list.Forall_forall in *. intros x Hx. destruct (HL x Hx) as [H1 H2].
      split; [done|]. destruct H2 as [H2|H2]; [by left|right]. apply (cert_at_same ck w1); [|by apply HO|done].
      intros Hk. apply HS; [done|]. set_solver.
    + destruct Hl as [Hg [Hk|Hat]]; [rewrite Hk; apply secure_generate_certificate; [done|by apply not_eq_sym]|].
      destruct (Hat) as (s & kp & _ & _ & Hk). rewrite Hk. apply secure_ret. split; [done|]. unfold ready_to_save. by rewrite Hg.
  - intros w1 c' (HF1 & Hp1 & Hr1). eapply (secure_tbind _ (λ w rest, ready_to_save ck w c' ∧ each (ready_to_save ck) ck cs w (Ok rest))).
    + eapply secure_weaken; [|apply (secure_frame _ (λ w, ready_to_save ck w c')); [|exact Hr1|by apply IH]].
      * intros w2 [rest|e|why]; [exact id|intros _; by intros cs'..].
      * intros w2 w3 HS. assert (secret_key ck c' ∈ Ks) as Hk by (unfold secret_key in *; by rewrite Hp1).
        apply ready_same; [done|]. intros _. apply HS; [done|]. set_solver.
    + intros w2 rest [H1 H2]. destruct (H2 rest eq_refl) as [H3 H4]. intros cs' [= <-]. split; [simpl; by f_equal|]. by constructor.
Qed.

Lemma AsSecret_spec ck owner c kp :
  ct_keyPair c = Some kp → ∃ s, AsSecret ck owner c = Ok s ∧ secretToKeyPair s = Ok kp.
Proof. intros Hk. unfold AsSecret. rewrite Hk. eexists. split; [done|]. by destruct kp. Qed.

(** Each secret is created once, next to the others. *)
Lemma secure_SaveGenerated ck owner cs w :
  owned ck cs → NoDup (secret_key ck <$> cs) → Forall (ready_to_save ck w) cs →
  secure (secret_key ck <$> cs) (λ w r, ∀ u, r = Ok u → Forall (cert_at ck w) cs) (SaveGenerated fails ck owner cs) w.
Proof.
  revert w. induction cs as [|c cs IH]; intros w HO HN HR; [by constructor|].
  apply Forall_cons in HO as [Hc HO]. rewrite fmap_cons in HN |- *. apply NoDup_cons in HN as [Hn HN].
  apply Forall_cons in HR as [Hr HR].
  assert (∀ w1, cert_at ck w1 c → Forall (ready_to_save ck w1) cs →
            secure (secret_key ck c :: (secret_key ck <$> cs)) (λ w r, ∀ u, r = Ok u → Forall (cert_at ck w) (c :: cs)) (SaveGenerated fails ck owner cs) w1) as Hrest.
  { intros w1 Hat HR1. eapply (secure_writes (secret_key ck <$> cs)); [set_solver|].
    eapply secure_weaken; [|apply (secure_frame _ (λ w, cert_at ck w c)); [|exact Hat|by apply IH]].
    - intros w2 r [H1 H2] u Hu. constructor; [done|]. by eapply H2.
    - intros w2 w3 HS. apply cert_at_same; [|done]. intros _. by apply HS. }
  cbn [SaveGenerated]. unfold ready_to_save in Hr. destruct (ct_generated c); [|by apply Hrest].
  destruct Hr as [kp Hk]. destruct (AsSecret_spec ck owner c kp Hk) as (s & -> & Hs).
  eapply secure_bind.
  - eapply (secure_writes [secret_key ck c]); [set_solver|].
    eapply secure_weaken; [|apply (secure_frame _ (λ w, Forall (ready_to_save ck w) cs) (λ w r, r = Done tt → cert_at ck w c)); [|exact HR|]].
    + intros w1 r. exact id.
    + intros w1 w2 HS HF. unfold owned in HO. rewrite !list.Forall_forall in *. intros x Hx.
      apply (ready_same ck x w1); [by apply HO| |by apply HF]. intros _. apply HS; [by apply HO|].
      intros He%list_elem_of_singleton. apply Hn. rewrite <- He. by apply list_elem_of_fmap_2.
    + apply secure_wcall. intros w1 _. split; [done|]. simpl. destruct (w_secrets w1 !! secret_key ck c) eqn:E; simpl; [split; [apply writes_tick|done]|].
      split; [split_and!; [done..|]; intros sk Hne; simpl; apply lookup_insert_ne; set_solver|].
      intros _. exists s, kp. split; [apply lookup_insert_eq|done].
  - intros w1 [[]| | |] [H1 H2]; [|done..]. apply Hrest; auto.
Qed.

Lemma secure_LookupOrGenerate ck owner cs w :
  owned ck cs → NoDup (secret_key ck <$> cs) → APIServerEtcdClient ∉ map ct_purpose cs →
  Forall (λ c, ct_generated c = false ∧ ct_keyPair c = None) cs →
  secure (secret_key ck <$> cs) (each (cert_at ck) ck cs) (LookupOrGenerate fails new_ca new_keys ck owner cs) w.
Proof.
  intros HO HN HP HF. unfold LookupOrGenerate.
  assert (∀ cs', map ct_purpose cs' = map ct_purpose cs → secret_key ck <$> cs' = secret_key ck <$> cs) as Hkeys.
  { intros cs' E. pose proof (f_equal (map (λ p, (ck.1, Name ck.2 p))) E) as H. rewrite !map_map in H. exact H. }
  eapply (secure_tbind _ (λ w cs1, each (looked_up ck) ck cs w (Ok cs1))).
  { eapply (secure_writes []); [set_solver|]. eapply secure_weaken; [|by apply secure_Lookup]. intros w1 [cs1|e|why] H; done. }
  intros w1 cs1 H1. destruct (H1 cs1 eq_refl) as [E1 F1].
  eapply (secure_tbind _ (λ w cs2, each (ready_to_save ck) ck cs1 w (Ok cs2))).
  { eapply (secure_writes []); [set_solver|].
    eapply secure_weaken; [|apply secure_Generate; [by apply (owned_purposes ck cs)| |done]]; [intros w2 [cs2|e|why] H; done|].
    by rewrite E1. }
  intros w2 cs2 H2. destruct (H2 cs2 eq_refl) as [E2 F2].
  assert (map ct_purpose cs2 = map ct_purpose cs) as E3 by congruence.
  eapply (secure_tbind _ (λ w _, Forall (cert_at ck w) cs2)).
  - rewrite <- (Hkeys cs2 E3). eapply secure_weaken; [|apply secure_SaveGenerated; [by apply (owned_purposes ck cs)| |done]].
    + intros w3 [u|e|why] H; [by apply (H u)|done..].
    + by rewrite (Hkeys cs2 E3).
  - intros w3 _ H3 cs' [= <-]. by split.
Qed.

(** ** The token, the files and the user data *)

Definition value_at (sk : key) (v : string) (w : World) : Prop := ∃ s, w_secrets w !! sk = Some s ∧ s_data s !! "value" = Some v.

Lemma value_secret_value cl k v : s_data (value_secret cl k v) !! "value" = Some v.
Proof. apply lookup_singleton_eq. Qed.

Lemma secure_generateAndStoreToken cl k w :
  token_key (k_namespace k) (c_name (cl_meta cl)) ∈ Ks →
  secure [token_key (k_namespace k) (c_name (cl_meta cl))]
    (λ w r, ∀ t, r = Ok t → value_at (token_key (k_namespace k) (c_name (cl_meta cl))) t w) (generateAndStoreToken fails new_token cl k) w.
Proof.
  intros HK. unfold generateAndStoreToken. eapply (secure_tbind _ (λ _ _, True)).
  { apply secure_atomic. intros w1 _. split; [done|]. simpl. by destruct (new_token _). }
  intros w1 t _. eapply (secure_tbind _ (λ w _, value_at (token_key (k_namespace k) (c_name (cl_meta cl))) t w)).
  - apply secure_store; [done|done|]. intros w2 H. eexists. split; [exact H|]. apply value_secret_value.
  - intros w2 _ H t' [= <-]. done.
Qed.

Lemma secure_resolveFiles ns files w : secure [] (λ _ _, True) (resolveFiles fails ns files) w.
Proof.
  revert w. induction files as [|f files IH]; intros w; [done|]. cbn [resolveFiles].
  eapply (secure_tbind _ (λ _ _, True)).
  - destruct (f_contentFrom f) as [src|]; [|done]. eapply (secure_tbind _ (λ _ _, True)); [|done].
    unfold resolveSecretFileContent. eapply (secure_bind _ (λ _ _, True)); [by apply secure_get|].
    intros w1 [s| | |] _; [|done..]. by destruct (s_data s !! src.2).
  - intros w1 f' _. eapply (secure_tbind _ (λ _ _, True)); [|done]. eapply secure_weaken; [|apply IH]. by intros w2 [? | |].
Qed.

(** How a bootstrap secret comes about. *)
Definition booted (sk : key) (data : string) (user_data : BaseUserData → result string) (w : World) : Prop :=
  ∃ input text, user_data input = Ok text ∧ bu_config input = config_file data ∧ value_at sk text w.

Lemma secure_boot_with error_text cl k data user_data w :
  config_key k ∈ Ks →
  secure [config_key k] (λ w out,
    (∃ z, out.2 = Ok z ∧ k_dataSecretName out.1 ≠ None ∧ ∃ d, data = Ok d ∧ booted (config_key k) d user_data w)
    ∨ is_ok out.2 = false ∧ k_ready out.1 = k_ready k)
    (boot_with fails error_text cl k data user_data) w.
Proof.
  intros HK. unfold boot_with. destruct data as [data|e|why]; [|apply secure_ret; by right..].
  eapply (secure_bind _ (λ _ _, True)); [eapply (secure_writes []); [set_solver|apply secure_resolveFiles]|].
  intros w1 [files|e|why] _; [|apply secure_ret; by right..].
  set (input := Build_BaseUserData _ _ _ _). destruct (user_data input) as [text|e|why] eqn:E; [|apply secure_ret; by right..].
  unfold storeBootstrapData.
  eapply (secure_bind _ (λ w r, r = Ok tt → w_secrets w !! config_key k = Some (value_secret cl k text))); [by apply secure_store|].
  intros w2 [[]|e|why] H; apply secure_ret; [left|by right..].
  exists 0%Z. split; [done|]. split; [done|]. exists data. split; [done|]. exists input, text. split; [done|]. split; [done|].
  eexists. split; [by apply H|]. apply value_secret_value.
Qed.

End Secrets.

(** ** The cluster and its machines *)

Section Exclusive.
Context (marshal : string → string) (unmarshal : string → option string) (fails : nat → bool).
Context (yaml_server : K3sServerConfiguration → result string) (yaml_agent : K3sAgentConfiguration → result string).
Context (quote : string → string).
Context (new_token : nat → result string) (new_ca new_keys : nat → result KeyPair).
Context (summary : gmap string Condition → Condition).
Context (config_owner : list (string * string) → option (bool * string)).
Context (to_machine : ConfigOwner → result (option string)).
Context (ranges_text : list string → string) (error_text : error → string).
Context (new_helper : Config → option error) (merge_spec : K3sConfigSpec → K3sConfigSpec → K3sConfigSpec → K3sConfigSpec).
Hypothesis unmarshal_marshal : ∀ m, unmarshal (marshal m) = Some m.

(** A cluster that is not initialised, and the names of the configurations of
    its machines with the machine of each. *)
Context (cl : ClusterObject) (members : list (string * string)).

Definition cluster_token : key := token_key (c_namespace (cl_meta cl)) (c_name (cl_meta cl)).
Definition certificate_secrets : list key := secret_key (cluster_key cl) <$> NewCertificatesForInitialControlPlane.
Definition cluster_secrets : list key := cluster_token :: certificate_secrets.

Definition own (name : string) : key := (c_namespace (cl_meta cl), name).

Definition held_by (w : World) : option string := holder unmarshal (cl_meta cl) (api_of w).

(** The bootstrap secret of a machine initialises the cluster with the token
    and the certificates that are stored. *)
Definition boots (name : string) (w : World) : Prop :=
  ∃ sv t d certificates,
    value_at cluster_token t w ∧
    MarshalInitServerConfiguration yaml_server sv t = Ok d ∧
    map ct_purpose certificates = [ClusterCA; ClientClusterCA] ∧ Forall (cert_at (cluster_key cl) w) certificates ∧
    booted (own name) d (λ input, NewInitControlPlane quote input certificates) w.

Lemma cluster_secrets_distinct : NoDup cluster_secrets.
Proof.
  change (NoDup ((λ s, (c_namespace (cl_meta cl), c_name (cl_meta cl) +:+ s)) <$> ["-token"; "-ca"; "-cca"])).
  apply NoDup_fmap_2; [|by_decision]. intros s s' [= E]. by apply str_app_inj_l in E.
Qed.

Lemma certificates_owned Ks cs :
  certificate_secrets ⊆ Ks → map ct_purpose cs = [ClusterCA; ClientClusterCA] → owned Ks (cluster_key cl) cs.
Proof.
  intros HK HE. apply (owned_purposes _ _ NewCertificatesForInitialControlPlane); [done|].
  repeat constructor; apply HK; [by left|by right; left].
Qed.

Lemma certificates_same cs w w' :
  (∀ sk, sk ∈ certificate_secrets → w_secrets w' !! sk = w_secrets w !! sk) → map ct_purpose cs = [ClusterCA; ClientClusterCA] →
  Forall (cert_at (cluster_key cl) w) cs → Forall (cert_at (cluster_key cl) w') cs.
Proof.
  intros HS Hp. pose proof (certificates_owned certificate_secrets cs ltac:(done) Hp) as HO. unfold owned in HO.
  rewrite !list.Forall_forall in *. intros Hc c Hin.
  eapply (cert_at_same certificate_secrets); [intros H; by apply HS|by apply HO|by apply Hc].
Qed.

Lemma value_at_same sk v w w' : w_secrets w' !! sk = w_secrets w !! sk → value_at sk v w → value_at sk v w'.
Proof. intros HS (s & Hs & Hv). exists s. by rewrite HS. Qed.

Lemma boots_same name w w' :
  (∀ sk, sk ∈ own name :: cluster_secrets → w_secrets w' !! sk = w_secrets w !! sk) → boots name w → boots name w'.
Proof.
  intros HS (sv & t & d & cs & Ht & Hd & Hp & Hc & (input & text & Hu & Hf & Hv)).
  exists sv, t, d, cs. split_and!; [|done|done| |].
  - eapply value_at_same, Ht. apply HS. right. by left.
  - eapply certificates_same, Hc; [|done]. intros sk Hsk. apply HS. by do 2 right.
  - exists input, text. split; [done|]. split; [done|]. eapply value_at_same, Hv. apply HS. by left.
Qed.

Hypothesis member_names : NoDup members.*1.
Hypothesis member_machines : NoDup members.*2.
Hypothesis own_secrets : ∀ p, p ∈ members → own p.1 ∉ cluster_secrets.

Lemma secrets_distinct name : own name ∉ cluster_secrets → NoDup (own name :: cluster_secrets).
Proof. intros H. constructor; [done|apply cluster_secrets_distinct]. Qed.

Lemma new_certificates_secure Ks k w :
  certificate_secrets ⊆ Ks → NoDup certificate_secrets →
  secure Ks certificate_secrets
    (λ w r, ∀ cs, r = Ok cs → map ct_purpose cs = [ClusterCA; ClientClusterCA] ∧ Forall (cert_at (cluster_key cl) w) cs)
    (LookupOrGenerate fails new_ca new_keys (cluster_key cl) (controller_ref k) NewCertificatesForInitialControlPlane) w.
Proof.
  intros HK HN. eapply secure_weaken.
  - intros w1 r H cs Hcs. exact (H cs Hcs).
  - apply secure_LookupOrGenerate; [|done| |repeat constructor].
    + by apply certificates_owned.
    + by_decision.
Qed.

Lemma secure_initialise name k w version :
  config_key k = own name → own name ∉ cluster_secrets → k_ready k = false →
  secure (own name :: cluster_secrets) (own name :: cluster_secrets) (λ w out,
    is_ok out.2 = true ∧ k_dataSecretName out.1 ≠ None ∧ boots name w ∨ is_ok out.2 = false ∧ k_ready out.1 = false)
    (initialise fails yaml_server quote new_token new_ca new_keys ranges_text error_text cl version k) w.
Proof.
  intros Hk HD Hr. pose proof (secrets_distinct name HD) as HN. unfold initialise.
  apply NoDup_cons in HN as [Hn1 HN]. pose proof HN as [Hn2 HN2]%NoDup_cons. apply not_elem_of_cons in Hn1 as [Hn1 Hn3].
  set (Ks := own name :: cluster_secrets).
  assert (own name ∈ Ks) as Hown by by left. assert (cluster_token ∈ Ks) as Htok by (right; by left).
  assert (certificate_secrets ⊆ Ks) as Hcert by (intros sk Hsk; by do 2 right).
  set (k1 := set_spec _ k). assert (config_key k1 = own name ∧ k_ready k1 = false) as [Hk1 Hr1] by done. clearbody k1.
  eapply secure_bind; [by eapply secure_writes; [exact Hcert|apply new_certificates_secure]|].
  intros w1 [cs|e|why] H1; [|apply secure_ret; by right..]. destruct (H1 cs eq_refl) as [Hp Hc]. cbn beta iota zeta.
  set (k2 := MarkTrue CertificatesAvailableCondition k1). assert (config_key k2 = own name ∧ k_ready k2 = false) as [Hk2 Hr2] by done. clearbody k2.
  assert (token_key (k_namespace k2) (c_name (cl_meta cl)) = cluster_token) as Htk by (unfold cluster_token; injection Hk2; congruence).
  eapply (secure_bind _ _ (λ w r, Forall (cert_at (cluster_key cl) w) cs ∧ ∀ t, r = Ok t → value_at cluster_token t w)).
  { rewrite <- Htk in Htok |- *. eapply secure_writes; [|apply (secure_frame _ _ (λ w, Forall (cert_at (cluster_key cl) w) cs)); [|exact Hc|by apply secure_generateAndStoreToken]].
    - intros sk ->%list_elem_of_singleton. exact Htok.
    - intros w2 w3 HS. apply certificates_same; [|done]. intros sk Hsk. apply HS; [by apply Hcert|].
      intros ->%list_elem_of_singleton. by rewrite Htk in Hsk. }
  intros w2 [t|e|why] [Hc2 H2]; [|apply secure_ret; by right..]. cbn beta iota zeta.
  epose proof (secure_boot_with fails Ks error_text cl k2 _ _ w2 ltac:(rewrite Hk2; exact Hown)) as HB. rewrite Hk2 in HB.
  eapply (secure_frame _ _ (λ w, Forall (cert_at (cluster_key cl) w) cs ∧ value_at cluster_token t w)) in HB; [| |by split; [|apply H2]].
  - eapply secure_weaken; [|eapply (secure_writes _ [own name]); [|exact HB]].
    + intros w3 out [[Hc3 Ht3] [(z & Hz & Hd & d & HM & HB3)|[H3 H4]]]; [left|right; by rewrite H4].
      split; [by rewrite Hz|]. split; [done|]. by exists (default zero_server (ks_server (k_spec k2))), t, d, cs.
    + intros sk ->%list_elem_of_singleton. exact Hown.
  - intros w3 w4 HS [Hc3 Ht3]. split.
    + eapply certificates_same, Hc3; [|done]. intros sk Hsk. apply HS; [by apply Hcert|]. by intros ->%list_elem_of_singleton.
    + eapply value_at_same, Ht3. apply HS; [done|]. intros H%list_elem_of_singleton. by rewrite H in Hn1.
Qed.

(** ** Relies and guarantees *)

Definition fixed (w w' : World) : Prop :=
  w_machines w' = w_machines w ∧ w_pools w' = w_pools w ∧ w_clusters w' = w_clusters w.

(** What the others leave to the member: its configuration and its bootstrap
    secret, and, while it holds the lock, the lock and the secrets of the
    cluster. *)
Definition rely (p : string * string) (w w' : World) : Prop :=
  fixed w w' ∧ w_configs w' !! own p.1 = w_configs w !! own p.1 ∧ w_secrets w' !! own p.1 = w_secrets w !! own p.1 ∧
  (held_by w = Some p.2 → held_by w' = Some p.2 ∧ ∀ sk, sk ∈ cluster_secrets → w_secrets w' !! sk = w_secrets w !! sk).

(** What it leaves to them. *)
Definition guarantee (p : string * string) (w w' : World) : Prop :=
  fixed w w' ∧
  (∀ q, q ∈ members → q.1 ≠ p.1 →
     w_configs w' !! own q.1 = w_configs w !! own q.1 ∧ w_secrets w' !! own q.1 = w_secrets w !! own q.1) ∧
  (∀ h, h ≠ p.2 → held_by w = Some h →
     held_by w' = Some h ∧ ∀ sk, sk ∈ cluster_secrets → w_secrets w' !! sk = w_secrets w !! sk).

#[export] Instance rely_preorder p : PreOrder (rely p).
Proof.
  split; [by intros w; repeat split|]. intros w1 w2 w3 ((M1 & P1 & C1) & K1 & S1 & H1) ((M2 & P2 & C2) & K2 & S2 & H2).
  split; [by repeat split; etransitivity|]. split; [by etransitivity|]. split; [by etransitivity|]. intros Hheld.
  destruct (H1 Hheld) as [H3 H4]. destruct (H2 H3) as [H5 H6]. split; [done|]. intros sk Hsk. by rewrite H6, H4.
Qed.

Lemma guarantee_rely p q w w' : q ∈ members → q.1 ≠ p.1 → q.2 ≠ p.2 → guarantee p w w' → rely q w w'.
Proof. intros Hq H1 H2 (HF & HC & HH). destruct (HC q Hq H1) as [H3 H4]. split_and!; [done..|]. intros Hheld. by apply HH. Qed.

(** A member: its machine exists and its configuration is ready only if the
    machine holds the lock and boots as it should. *)
Record member_ok (w : World) (p : string * string) (co : ConfigOwner) : Prop := {
  mo_machine : w_machines w !! (c_namespace (cl_meta cl), p.2) = Some co;
  mo_owner : co_namespace co = c_namespace (cl_meta cl) ∧ co_name co = p.2 ∧ co_clusterName co = c_name (cl_meta cl);
  mo_config : ∀ k, w_configs w !! own p.1 = Some k →
    config_key k = own p.1 ∧ config_owner (k_owners k) = Some (false, p.2) ∧
    (co_dataSecretName co ≠ None → k_ready k = true) ∧
    (k_ready k = true → k_dataSecretName k ≠ None ∧ held_by w = Some p.2 ∧ boots p.1 w);
}.

Record safe (w : World) : Prop := {
  sf_cluster : w_clusters w !! cluster_key cl = Some cl;
  sf_lock : sound unmarshal (cl_meta cl) (api_of w);
  sf_members : ∀ p, p ∈ members → ∃ co, member_ok w p co;
}.

Notation does p Q := (owns safe (rely p) (guarantee p) Q).

Lemma safe_tick w : safe w → safe (w_tick w).
Proof. intros [H1 H2 H3]. split; [done|done|]. intros p Hp. destruct (H3 p Hp) as [co [M1 M2 M3]]. by exists co. Qed.

Lemma fixed_refl w : fixed w w.
Proof. done. Qed.

Lemma guarantee_tick p w : guarantee p w (w_tick w).
Proof. by repeat split. Qed.

(** A step of a member that writes its secrets and those of the cluster. *)
Lemma member_writes p w w' k :
  p ∈ members → held_by w = Some p.2 → w_configs w !! own p.1 = Some k → k_ready k = false →
  safe w → writes (own p.1 :: cluster_secrets) w w' →
  held_by w' = Some p.2 ∧ w_configs w' !! own p.1 = Some k ∧ safe w' ∧ guarantee p w w'.
Proof.
  intros Hp Hh Hk Hr [S1 S2 S3] (W1 & W2 & W3 & W4 & W5 & W6).
  assert (api_of w' = {| a_configMaps := w_configMaps w; a_machines := dom (w_machines w); a_calls := w_calls w' |}) as Ha.
  { unfold api_of. by rewrite W1, W2. }
  assert (held_by w' = held_by w) as Hh' by (unfold held_by; by rewrite Ha).
  split; [by rewrite Hh'|]. split; [by rewrite W5|]. split.
  - split; [by rewrite W4|by rewrite Ha|]. intros q Hq. destruct (S3 q Hq) as [co [M1 M2 M3]]. exists co.
    split; [by rewrite W2|done|]. rewrite W5, Hh'. intros k' Hk'. destruct (M3 k' Hk') as (C1 & C2 & C3 & C4).
    split_and!; [done..|]. intros Hr'. destruct (C4 Hr') as (D1 & D2 & D3). rewrite Hh in D2. injection D2 as D2.
    assert (q = p) as -> by (by apply (NoDup_fmap_eq snd members)). congruence.
  - split; [by unfold fixed; rewrite W2, W3, W4|]. split.
    + intros q Hq Hne. rewrite W5. split; [done|]. apply W6. apply not_elem_of_cons. split; [by intros [= ?]|by apply own_secrets].
    + intros h Hne Hh2. congruence.
Qed.

(** While the member holds the lock, what it does with secrets is its own. *)
Lemma member_secure {A} p k (Q : World → A → Prop) prog w :
  p ∈ members → held_by w = Some p.2 → w_configs w !! own p.1 = Some k → k_ready k = false →
  secure (own p.1 :: cluster_secrets) (own p.1 :: cluster_secrets) Q prog w →
  does p (λ w a, (held_by w = Some p.2 ∧ w_configs w !! own p.1 = Some k) ∧ Q w a) prog w.
Proof.
  intros Hp Hh Hk Hr H. eapply owns_transfer; [| |by split|exact H].
  - intros w1 w2 [H1 H2] (_ & HC & HS & HH) _. destruct (HH H1) as [H3 H4]. rewrite HC. split_and!; [done..|].
    intros sk [->|Hsk]%elem_of_cons; [done|by apply H4].
  - intros w1 w2 [H1 H2] HS _ HW. destruct (member_writes p w1 w2 k Hp H1 H2 Hr HS HW) as (H3 & H4 & H5 & H6). done.
Qed.

(** Reads. *)
Lemma member_read {A} p (f : World → reply A) (Q : World → reply A → Prop) w :
  (∀ w', rely p w w' → safe w' → Q (w_tick w') Failed ∧ Q (w_tick w') (f (w_tick w'))) →
  does p Q (wcall fails (λ w, (w, f w))) w.
Proof.
  intros H. apply owns_atomic. intros w' HR HS. destruct (H w' HR HS) as [H1 H2].
  destruct (fails (w_calls w')); (split; [by apply safe_tick|split; [apply guarantee_tick|done]]).
Qed.

(** ** The lock *)

Lemma owns_lift_bind {A B} (I : World → Prop) (R G : World → World → Prop) (Q : World → A → Prop) (S : World → B → Prop)
    (q : prog Api A) (k : A → prog Api B) w :
  owns I R G Q (lift q) w → (∀ w' a, Q w' a → owns I R G S (lift (k a)) w') → owns I R G S (lift (pbind q k)) w.
Proof.
  intros Hq Hk. revert w Hq. induction q as [a|f IH] using prog_ind; intros w Hq; simpl in *; [by apply Hk|].
  intros w' Hw HI. destruct (Hq w' Hw HI) as (H1 & H2 & H3). specialize (IH (api_of w')).
  destruct (f (api_of w')) as [s' q']. simpl in *. auto.
Qed.

Lemma owns_lift_call {A} (I : World → Prop) (R G : World → World → Prop) (Q : World → reply A → Prop) (f : Api → Api * reply A) w :
  (∀ w', R w w' → I w' → let o := if fails (w_calls w') then (tick (api_of w'), Failed) else f (tick (api_of w')) in
     I (put_api o.1 w') ∧ G w' (put_api o.1 w') ∧ Q (put_api o.1 w') o.2) →
  owns I R G Q (lift (call fails f)) w.
Proof.
  intros H w' Hw HI. specialize (H w' Hw HI). cbn zeta in H. simpl. change (a_calls (api_of w')) with (w_calls w').
  destruct (if fails (w_calls w') then _ else _). done.
Qed.

Definition stored (p : string * string) (k : Config) (w : World) : Prop := w_configs w !! own p.1 = Some k.

Lemma rely_stored p k w w' : rely p w w' → stored p k w → stored p k w'.
Proof. intros (_ & H & _) Hk. unfold stored. by rewrite H. Qed.

Lemma member_lock_read {A} p k (P : World → Prop) (Q : World → reply A → Prop) (f : Api → reply A) w :
  (∀ w w', rely p w w' → P w → P w') → (∀ w, P w → P (w_tick w)) → stored p k w → P w →
  (∀ w', safe w' → stored p k w' → P w' → Q (w_tick w') (f (tick (api_of w')))) →
  (∀ w', Q w' Failed) →
  does p (λ w r, (stored p k w ∧ P w) ∧ Q w r) (lift (call fails (λ s, (s, f s)))) w.
Proof.
  intros HP HT Hk Hw HQ HF. apply owns_lift_call. intros w' HR HS o.
  assert (stored p k w') as Hk' by (by eapply rely_stored). assert (P w') as Hw' by (by eapply HP).
  assert (put_api o.1 w' = w_tick w') as -> by (unfold o; by destruct (fails _)).
  split; [by apply safe_tick|]. split; [apply guarantee_tick|]. split; [split; [done|by apply HT]|].
  unfold o. destruct (fails _); [apply HF|by apply HQ].
Qed.

(** Whoever takes a free lock, or releases its own, keeps the cluster safe. *)
Lemma member_lock_step p k w cms :
  p ∈ members → stored p k w → k_ready k = false → safe w → (held_by w = None ∨ held_by w = Some p.2) →
  let w' := put_api {| a_configMaps := cms; a_machines := dom (w_machines w); a_calls := S (w_calls w) |} w in
  sound unmarshal (cl_meta cl) (api_of w') → safe w' ∧ guarantee p w w' ∧ stored p k w'.
Proof.
  intros Hp Hk Hr [S1 S2 S3] Hh w' HS. split; [|split; [|done]].
  - split; [done|done|]. intros q Hq. destruct (S3 q Hq) as [co [M1 M2 M3]]. exists co. split; [done|done|].
    intros k' Hk'. destruct (M3 k' Hk') as (C1 & C2 & C3 & C4). split_and!; [done..|]. intros Hr'. exfalso.
    destruct (C4 Hr') as (_ & D & _). destruct Hh as [Hh|Hh]; rewrite Hh in D; [done|]. injection D as D.
    assert (q = p) as -> by (by apply (NoDup_fmap_eq snd members)). assert (Some k = Some k') as [= <-] by (by rewrite <- Hk). congruence.
  - split; [done|]. split; [done|]. intros h Hne Hh2. destruct Hh; congruence.
Qed.

Lemma member_machine p w co : member_ok w p co → (c_namespace (cl_meta cl), p.2) ∈ dom (w_machines w).
Proof. intros [H _ _]. apply elem_of_dom. by eexists. Qed.

Lemma member_Lock p k w :
  p ∈ members → stored p k w → k_ready k = false →
  does p (λ w r, stored p k w ∧ (r = true → held_by w = Some p.2)) (lift (Lock marshal unmarshal fails (cl_meta cl) p.2)) w.
Proof.
  intros Hp Hk Hr. unfold Lock. eapply owns_lift_bind.
  { apply (member_lock_read p k (λ _, True) (λ w r, match r with
      | Done cm => ∃ h, information unmarshal cm = Some h ∧ (c_namespace (cl_meta cl), h) ∈ dom (w_machines w) ∧
                        (h = p.2 → held_by w = Some p.2)
      | _ => True end)); [done|done|done|done| |done].
    intros w' HS Hk' _. simpl. destruct (w_configMaps w' !! lock_key (cl_meta cl)) as [cm|] eqn:E; [|done].
    destruct (sf_lock w' HS cm E) as (h & Hi & Hd). exists h. split; [done|]. split; [done|]. intros ->.
    unfold held_by, holder. simpl. by rewrite E. }
  intros w1 [cm| | |] [[Hk1 _] H1]; [| |by split..].
  - destruct H1 as (h & -> & Hd & Hh). case_bool_decide as E; [by split; [|intros _; apply Hh]|].
    eapply owns_lift_bind.
    { apply (member_lock_read p k (λ w, (c_namespace (cl_meta cl), h) ∈ dom (w_machines w)) (λ w r, r ≠ NotFound)); [|done|done|done| |done].
      - intros w2 w3 [[-> _] _]. exact id.
      - intros w2 _ _ Hd2. cbn. by rewrite bool_decide_eq_true_2. }
    intros w2 [u| | |] [[Hk2 _] H2]; [by split|done|by split..].
  - eapply owns_lift_bind.
    { apply (owns_lift_call _ _ _ (λ w r, stored p k w ∧ (r = Done tt → held_by w = Some p.2))). intros w2 HR HS o.
      assert (stored p k w2) as Hk2 by (by eapply rely_stored).
      assert (safe (w_tick w2) ∧ guarantee p w2 (w_tick w2)) as [HT HG] by (split; [by apply safe_tick|apply guarantee_tick]).
      unfold o. destruct (fails _); [by split_and!|]. cbn [tick a_configMaps api_of].
      destruct (w_configMaps w2 !! lock_key (cl_meta cl)) as [cm|] eqn:E; [by split_and!|].
      destruct (sf_members w2 HS p Hp) as [co Hco].
      destruct (member_lock_step p k w2 (<[lock_key (cl_meta cl) := new_semaphore marshal (cl_meta cl) p.2]> (w_configMaps w2)))
        as (H2 & H3 & H4); [done..|left; unfold held_by, holder; simpl; by rewrite E| |].
      - intros cm. simpl. rewrite lookup_insert_eq. intros [= <-]. exists p.2. split; [by apply information_new|by eapply member_machine].
      - split; [exact H2|]. split; [exact H3|]. split; [exact H4|]. intros _. unfold held_by, holder. simpl. rewrite lookup_insert_eq.
        by apply information_new. }
    intros w2 [[]| | |] [Hk2 H2]; (split; [done|]); [intros _; by apply H2|done..].
Qed.

(** Releasing the lock, by the member that holds it. *)
Lemma member_Unlock p k w :
  p ∈ members → stored p k w → k_ready k = false → held_by w = Some p.2 →
  does p (λ w _, stored p k w) (lift (Unlock fails (cl_meta cl))) w.
Proof.
  intros Hp Hk Hr Hh. unfold Unlock.
  assert (∀ w w', rely p w w' → held_by w = Some p.2 → held_by w' = Some p.2) as HRh.
  { intros w1 w2 (_ & _ & _ & H) H1. by apply H. }
  eapply owns_lift_bind.
  { apply (member_lock_read p k (λ w, held_by w = Some p.2) (λ _ _, True)); done. }
  intros w1 [cm| | |] [[Hk1 Hh1] _]; [|done..]. eapply owns_lift_bind.
  - apply (owns_lift_call _ _ _ (λ w _, stored p k w)). intros w2 HR HS o.
    assert (stored p k w2) as Hk2 by (by eapply rely_stored). assert (held_by w2 = Some p.2) as Hh2 by (by eapply HRh).
    assert (safe (w_tick w2) ∧ guarantee p w2 (w_tick w2)) as [HT HG] by (split; [by apply safe_tick|apply guarantee_tick]).
    unfold o. destruct (fails _); [by split_and!|]. cbn [tick a_configMaps api_of].
    destruct (w_configMaps w2 !! lock_key (cl_meta cl)) as [cm'|]; [|by split_and!].
    apply (member_lock_step p k w2 (delete (lock_key (cl_meta cl)) (w_configMaps w2))); [done..|by right|].
    intros cm''. simpl. by rewrite lookup_delete_eq.
  - intros w2 [u| | |] Hk2; exact Hk2.
Qed.

(** ** A reconciliation *)

(** A configuration in memory is ready only if the machine may boot with it. *)
Definition settled (p : string * string) (k : Config) (w : World) : Prop :=
  k_ready k = true → k_dataSecretName k ≠ None ∧ held_by w = Some p.2 ∧ boots p.1 w.

Lemma rely_settled p k w w' : rely p w w' → settled p k w → settled p k w'.
Proof.
  intros (_ & _ & HS & HH) Hset Hr. destruct (Hset Hr) as (H1 & H2 & H3). destruct (HH H2) as [H4 H5]. split_and!; [done..|].
  eapply boots_same, H3. intros sk [->|Hsk]%elem_of_cons; [done|by apply H5].
Qed.

Lemma owns_keep {A} p (P : World → Prop) (prog : prog World A) (Q : World → A → Prop) w :
  does p Q prog w → (∀ w a, Q w a → P w) → does p (λ w a, P w ∧ Q w a) prog w.
Proof. intros Hd HP. eapply owns_weaken; [|exact Hd]. intros w' a HQ. split; [by eapply HP|done]. Qed.

Notation handle := (handleClusterNotInitialized marshal unmarshal fails yaml_server quote new_token new_ca new_keys to_machine ranges_text error_text).

Lemma member_handle p k k' co w :
  p ∈ members → co_name co = p.2 → stored p k w → k_ready k = false → config_key k' = own p.1 → k_ready k' = false →
  does p (λ w out, stored p k w ∧ settled p out.1 w) (handle cl co k') w.
Proof.
  intros Hp Hco Hk Hr Hkey Hr'. unfold handleClusterNotInitialized.
  set (k1 := if bool_decide _ then k' else _).
  assert (config_key k1 = own p.1 ∧ k_ready k1 = false) as [Hkey1 Hr1] by (unfold k1; by case_bool_decide).
  clearbody k1. clear k' Hkey Hr'. assert (∀ w, settled p k1 w) as Hset by (intros w1; unfold settled; congruence).
  destruct (negb (co_controlPlane co)); [by split|]. case_bool_decide; [by split|].
  destruct (to_machine co) as [version|e|why]; [|by split..]. rewrite Hco.
  eapply owns_bind; [by apply member_Lock|]. intros w1 [|] [Hk1 Hh]; [|by split]. specialize (Hh eq_refl).
  eapply owns_bind.
  { apply (member_secure p k); [done..|]. by apply secure_initialise; [|apply own_secrets|]. }
  intros w2 [k2 r] [[Hh2 Hk2] Hout]. cbn [fst snd] in Hout. destruct r as [z|e|why].
  - split; [done|]. destruct Hout as [(_ & H1 & H2)|[H1 _]]; [by intros _|done].
  - destruct Hout as [[H1 _]|[_ H1]]; [done|]. eapply owns_bind; [by apply (member_Unlock p k)|].
    intros w3 u Hk3. split; [done|]. cbn. unfold settled. congruence.
  - destruct Hout as [[H1 _]|[_ H1]]; [done|]. split; [done|]. unfold settled. cbn. congruence.
Qed.

Hypothesis uninitialised : cl_initialized cl = false.

(** What a reconciliation has read, as long as it runs. *)
Record watched (p : string * string) (k : Config) (co : ConfigOwner) (w : World) : Prop := {
  wa_stored : stored p k w;
  wa_settled : settled p k w;
  wa_machine : w_machines w !! (c_namespace (cl_meta cl), p.2) = Some co;
}.

(** What does not change about it. *)
Record read_as (p : string * string) (k : Config) (co : ConfigOwner) : Prop := {
  ra_key : config_key k = own p.1;
  ra_owner : config_owner (k_owners k) = Some (false, p.2);
  ra_machine : co_namespace co = c_namespace (cl_meta cl) ∧ co_name co = p.2 ∧ co_clusterName co = c_name (cl_meta cl);
  ra_secret : co_dataSecretName co ≠ None → k_ready k = true;
}.

Lemma rely_watched p k co w w' : rely p w w' → watched p k co w → watched p k co w'.
Proof.
  intros HR [H1 H2 H3]. split; [by eapply rely_stored|by eapply rely_settled|]. destruct HR as [[-> _] _]. exact H3.
Qed.

Lemma tick_watched p k co w : watched p k co w → watched p k co (w_tick w).
Proof. intros [H1 H2 H3]. by split. Qed.

Notation reconcile_one := (reconcile_config marshal unmarshal fails yaml_server yaml_agent quote new_token new_ca new_keys to_machine ranges_text error_text).

Lemma member_reconcile_config p k co w :
  p ∈ members → read_as p k co → watched p k co w →
  does p (λ w out, watched p k co w ∧ (k_ready k = true → k_ready out.1 = true) ∧ settled p out.1 w) (reconcile_one cl co k) w.
Proof.
  intros Hp [R1 R2 (R3 & R4 & R5) R6] HW. pose proof HW as [W1 W2 W3]. unfold reconcile_config.
  destruct (negb (cl_infrastructureReady cl)); [done|].
  case_bool_decide as Hd.
  { exfalso. destruct Hd as [Hd1 [Hd2|Hd2]]; [rewrite R6 in Hd2; done|]. by destruct (W2 (R6 Hd1)). }
  destruct (k_ready k) eqn:Hr; [done|]. rewrite uninitialised. cbn [negb].
  eapply owns_weaken; [|apply (owns_frame _ _ _ (λ w, w_machines w !! (c_namespace (cl_meta cl), p.2) = Some co)); [..|by apply (member_handle p k)]].
  - intros w1 out (H1 & H2 & H3). split; [|by split]. split; [done| |done]. unfold settled. congruence.
  - by intros w1 w2 H1 [[-> _] _].
  - by intros w1 w2 H1 [[-> _] _].
  - done.
Qed.

(** Writing the configuration of a member. *)
Lemma member_write p cur f w :
  p ∈ members → safe w → stored p cur w →
  config_key (f cur) = config_key cur → k_owners (f cur) = k_owners cur → (k_ready cur = true → k_ready (f cur) = true) →
  settled p (f cur) w →
  let w' := with_configs (<[own p.1 := f cur]> (w_configs w)) (w_tick w) in safe w' ∧ guarantee p w w'.
Proof.
  intros Hp [S1 S2 S3] Hcur Hkey Hown Hr Hset w'. split.
  - split; [done|done|]. intros q Hq. destruct (S3 q Hq) as [co [M1 M2 M3]]. exists co. split; [done|done|].
    intros k. simpl. destruct (decide (q = p)) as [->|Hne].
    + rewrite lookup_insert_eq. intros [= <-]. destruct (M3 cur Hcur) as (C1 & C2 & C3 & C4).
      rewrite Hkey, Hown. split_and!; [done|done|by intros H%C3%Hr|exact Hset].
    + rewrite lookup_insert_ne; [exact (M3 k)|]. intros [= E]. apply Hne. by apply (NoDup_fmap_eq fst members).
  - split; [done|]. split; [|by intros h _ Hh]. intros q Hq Hne. split; [|done]. simpl. apply lookup_insert_ne. by intros [= E].
Qed.

(** The state in which a reconciliation is written back: the stored
    configuration is as ready as the one that was read. *)
Definition writing (p : string * string) (k k' : Config) (w : World) : Prop :=
  (∃ cur, stored p cur w ∧ k_ready cur = k_ready k ∧ k_dataSecretName cur = k_dataSecretName k) ∧
  (k_ready k = true → k_ready k' = true) ∧ settled p k w ∧ settled p k' w.

Lemma rely_writing p k k' w w' : rely p w w' → writing p k k' w → writing p k k' w'.
Proof.
  intros HR ((cur & H1 & H2) & H3 & H4 & H5). split_and!; [|done|by eapply rely_settled..].
  exists cur. by split; [eapply rely_stored|].
Qed.

Lemma settled_same p k k' w : k_ready k' = k_ready k → k_dataSecretName k' = k_dataSecretName k → settled p k w → settled p k' w.
Proof. intros E1 E2 Hset. unfold settled. by rewrite E1, E2. Qed.

Lemma member_patch_if p k k' (b : bool) f (Q : World → Prop) w :
  p ∈ members → writing p k k' w →
  (∀ cur, config_key (f cur) = config_key cur ∧ k_owners (f cur) = k_owners cur) →
  (∀ w, writing p k k' w → Q w) →
  (∀ cur w, k_ready cur = k_ready k → k_dataSecretName cur = k_dataSecretName k → writing p k k' w →
     (k_ready cur = true → k_ready (f cur) = true) ∧ settled p (f cur) w ∧
     (stored p cur w → Q (with_configs (<[own p.1 := f cur]> (w_configs w)) (w_tick w)))) →
  does p (λ w _, Q w) (patch_if fails b (own p.1) f) w.
Proof.
  intros Hp HW Hf HQ Hstep. unfold patch_if. destruct b; [|by apply HQ].
  eapply owns_bind; [|intros w1 r H1; exact H1]. apply (owns_atomic _ _ _ (λ w _, Q w)). intros w1 HR HS.
  assert (writing p k k' w1) as HW1 by (by eapply rely_writing).
  assert (safe (w_tick w1) ∧ guarantee p w1 (w_tick w1)) as [HT HG] by (split; [by apply safe_tick|apply guarantee_tick]).
  assert (writing p k k' (w_tick w1)) as HW2 by exact HW1.
  destruct (fails (w_calls w1)); [by split_and!; [| |apply HQ]|]. destruct HW1 as [(cur & Hcur & Hc1 & Hc2) HW1].
  assert (w_configs (w_tick w1) !! own p.1 = Some cur) as -> by exact Hcur. cbn [fst snd].
  destruct (Hf cur) as [Hf1 Hf2]. destruct (Hstep cur w1 Hc1 Hc2) as (H1 & H2 & H3); [by split; [exists cur|]|].
  destruct (member_write p cur f w1) as [H4 H5]; [done..|]. split; [done|]. split; [done|]. by apply H3.
Qed.

Lemma writing_stored p k k' cur w :
  k_ready cur = k_ready k → k_dataSecretName cur = k_dataSecretName k → writing p k k' w →
  writing p k k' (with_configs (<[own p.1 := cur]> (w_configs w)) (w_tick w)).
Proof. intros H1 H2 (_ & HW). split; [|exact HW]. exists cur. split; [apply lookup_insert_eq|done]. Qed.

Lemma merged_same {A} `{EqDecision A} (before after stored : A) : stored = before → merged before after stored = after.
Proof. unfold merged. by destruct (decide (before = after)) as [->|]. Qed.

Lemma member_Patch p k k' w :
  p ∈ members → config_key k = own p.1 → writing p k k' w → does p (λ _ _, True) (Patch fails merge_spec k k') w.
Proof.
  intros Hp Hkey HW. unfold Patch. rewrite Hkey.
  assert (∀ f, (∀ cur, k_ready (f cur) = k_ready cur ∧ k_dataSecretName (f cur) = k_dataSecretName cur) → ∀ cur w,
            k_ready cur = k_ready k → k_dataSecretName cur = k_dataSecretName k → writing p k k' w →
            (k_ready cur = true → k_ready (f cur) = true) ∧ settled p (f cur) w ∧
            (stored p cur w → writing p k k' (with_configs (<[own p.1 := f cur]> (w_configs w)) (w_tick w)))) as Hsame.
  { intros f Hf cur w1 H1 H2 HW1. destruct (Hf cur) as [F1 F2]. split; [by rewrite F1|].
    split; [apply (settled_same p k); [by rewrite F1|by rewrite F2|by destruct HW1 as (_ & _ & ? & _)]|].
    intros _. apply writing_stored; [by rewrite F1|by rewrite F2|done]. }
  eapply owns_bind; [apply (member_patch_if p k k' _ _ (writing p k k')); [done..|by apply Hsame]|]. intros w1 e1 H1. cbn beta in H1.
  eapply owns_bind; [apply (member_patch_if p k k' _ _ (writing p k k')); [done..|by apply Hsame]|]. intros w2 e2 H2. cbn beta in H2.
  eapply owns_bind; [apply (member_patch_if p k k' _ _ (λ _, True)); [done..|]|done].
  intros cur w3 C1 C2 (_ & HR & _ & HS). cbn [k_ready k_dataSecretName set_observed set_status].
  rewrite (merged_same (k_ready k)) by done. split; [intros Hr; apply HR; congruence|]. split; [|done].
  eapply settled_same, HS; [done|exact (merged_same _ _ _ C2)].
Qed.

Lemma member_AddOwners p (P : World → Prop) owners w :
  (∀ w w', rely p w w' → P w → P w') → (∀ w, P w → P (w_tick w)) → P w →
  does p (λ w _, P w) (AddOwners fails owners) w.
Proof.
  intros HR HT. revert w. induction owners as [|o owners IH]; intros w HP; [done|]. cbn [AddOwners]. case_bool_decide; [|by apply IH].
  eapply owns_bind.
  - apply (member_read p (λ _, Done tt) (λ w _, P w)). intros w1 H1 _. assert (P w1) by (by eapply HR). split; by apply HT.
  - intros w1 [u| | |] H1; [by apply IH..|done|done].
Qed.

Notation reconcile := (Reconcile marshal unmarshal fails yaml_server yaml_agent quote new_token new_ca new_keys summary config_owner
  to_machine ranges_text error_text new_helper merge_spec).

Lemma member_Reconcile p w : p ∈ members → does p (λ _ _, True) (reconcile (own p.1)) w.
Proof.
  intros Hp. unfold Reconcile. eapply owns_bind.
  { apply (member_read p (λ w, found (w_configs w !! own p.1))
      (λ w r, match r with Done k => ∃ co, read_as p k co ∧ watched p k co w | _ => True end)).
    intros w1 _ HS. split; [done|]. simpl. destruct (w_configs w1 !! own p.1) as [k|] eqn:E; [|done]. simpl.
    destruct (sf_members w1 HS p Hp) as [co [M1 M2 M3]]. destruct (M3 k E) as (C1 & C2 & C3 & C4).
    exists co. split; [done|]. split; [exact E|exact C4|exact M1]. }
  intros w1 [k| | |] H1; [|done..]. destruct H1 as (co & HRA & HW). pose proof HRA as [R1 R2 (R3 & R4 & R5) R6].
  unfold tbind. eapply owns_bind; [apply (member_AddOwners p (watched p k co)); [by intros ?? ?; apply rely_watched|by apply tick_watched|exact HW]|].
  intros w2 [u|e|why] HW2; [|done..]. rewrite R2. eapply owns_bind.
  { apply (member_read p (λ w, found (w_machines w !! (k_namespace k, p.2)))
      (λ w r, watched p k co w ∧ match r with Done co' => co' = co | _ => True end)).
    intros w3 HR _. assert (watched p k co w3) as HW3 by (by eapply rely_watched). split; [by split; [apply tick_watched|]|].
    split; [by apply tick_watched|]. simpl. assert (k_namespace k = c_namespace (cl_meta cl)) as -> by (by injection R1).
    by rewrite (wa_machine _ _ _ _ HW3). }
  intros w3 [co'| | |] [HW3 H3]; [subst co'|done..]. rewrite R3, R5. eapply owns_bind.
  { apply (member_read p (λ w, found (w_clusters w !! cluster_key cl))
      (λ w r, watched p k co w ∧ match r with Done cl' => cl' = cl | _ => True end)).
    intros w4 HR HS. assert (watched p k co w4) as HW4 by (by eapply rely_watched). split; [by split; [apply tick_watched|]|].
    split; [by apply tick_watched|]. simpl. by rewrite (sf_cluster w4 HS). }
  intros w4 [cl'| | |] [HW4 H4]; [subst cl'|done..]. destruct (cl_paused cl || k_paused k); [done|]. destruct (new_helper k); [done|].
  eapply owns_bind; [by apply member_reconcile_config|]. intros w5 [k' r] (HW5 & Hr & Hset). unfold patched.
  eapply owns_bind; [|intros w6 e _; exact I]. apply member_Patch; [done..|]. pose proof HW5 as [W1 W2 W3].
  split; [by exists k|]. split; [|split; [done|]]; destruct r; done.
Qed.

Notation again := (reconciles marshal unmarshal fails yaml_server yaml_agent quote new_token new_ca new_keys summary config_owner
  to_machine ranges_text error_text new_helper merge_spec).

Lemma member_reconciles p n w : p ∈ members → does p (λ _ _, True) (again n (own p.1)) w.
Proof.
  intros Hp. revert w. induction n as [|n IH]; intros w; [done|]. cbn [reconciles].
  eapply owns_bind; [by apply member_Reconcile|]. intros w1 _ _. apply IH.
Qed.

Definition member_rely (i : nat) : World → World → Prop :=
  match members !! i with Some p => rely p | None => λ _ _, True end.
Definition member_guarantee (i : nat) : World → World → Prop :=
  match members !! i with Some p => guarantee p | None => eq end.

Lemma member_relies i : PreOrder (member_rely i).
Proof. unfold member_rely. destruct (members !! i); [apply _|]. by split. Qed.

Lemma member_guarantees i j w w' : i ≠ j → member_guarantee i w w' → member_rely j w w'.
Proof.
  unfold member_guarantee, member_rely. intros Hne HG. destruct (members !! j) as [q|] eqn:Ej; [|done].
  destruct (members !! i) as [p|] eqn:Ei; [|by subst].
  apply (guarantee_rely p); [by eapply list_elem_of_lookup_2| | |done]; intros E; apply Hne;
    [apply (proj1 (NoDup_alt _) member_names i j p.1)|apply (proj1 (NoDup_alt _) member_machines i j p.2)];
    by rewrite list_lookup_fmap, ?Ei, ?Ej; simpl; rewrite ?E.
Qed.


End Exclusive.

(** ** The theorem at a concrete cluster *)

Definition demo_object (initialized : bool) : ClusterObject :=
  {| cl_meta := demo_cluster; cl_paused := false; cl_infrastructureReady := true; cl_initialized := initialized;
     cl_endpoint := Some "10.0.0.1:6443"; cl_network := Some {| cn_serviceDomain := "cluster.local"; cn_services := None; cn_pods := Some ["10.1.0.0/16"] |} |}.

Definition demo_server (clusterInit : option bool) (store : string) : ServerConfiguration :=
  {| sv_database := {| DataStoreEndPoint := store; DataStoreCAFile := ""; DataStoreCertFile := ""; DataStoreKeyFile := ""; ClusterInit := clusterInit |};
     sv_listener := sv_listener zero_server; sv_networking := sv_networking zero_server; sv_components := sv_components zero_server;
     sv_processes := sv_processes zero_server; sv_agent := zero_agent |}.

Definition demo_config (name machine : string) (sv : option ServerConfiguration) : Config :=
  {| k_namespace := "ns"; k_name := name; k_uid := "u" +:+ name; k_owners := [("Machine", machine)]; k_paused := false; k_generation := 1;
     k_spec := {| ks_files := []; ks_cluster := None; ks_server := sv; ks_agent := None; ks_pre := ["true"]; ks_post := []; ks_version := "" |};
     k_ready := false; k_dataSecretName := None; k_observedGeneration := 0; k_conditions := ∅ |}.

Definition demo_owner (name : string) : ConfigOwner :=
  {| co_kind := "Machine"; co_namespace := "ns"; co_name := name; co_clusterName := "c"; co_controlPlane := true; co_dataSecretName := None |}.

Definition demo_world (initialized : bool) (sv : option ServerConfiguration) (secrets : gmap (string * string) Secret) : World :=
  {| w_configMaps := ∅; w_machines := {[("ns", "a") := demo_owner "a"; ("ns", "b") := demo_owner "b"]}; w_pools := ∅;
     w_clusters := {[("ns", "c") := demo_object initialized]}; w_secrets := secrets;
     w_configs := {[("ns", "ka") := demo_config "ka" "a" sv; ("ns", "kb") := demo_config "kb" "b" sv]}; w_calls := 0 |}.

Definition demo_members : list (string * string) := [("ka", "a"); ("kb", "b")].

Definition demo_yaml_server (c : K3sServerConfiguration) : result string := Ok ("server " +:+ ks_token c +:+ " " +:+ ks_serverURL c).
Definition demo_yaml_agent (c : K3sAgentConfiguration) : result string := Ok ("agent " +:+ ka_token c +:+ " " +:+ ka_server c).
Definition demo_token (n : nat) : result string := Ok (spaces n +:+ "t").
Definition demo_keys (n : nat) : result KeyPair := Ok {| kp_cert := spaces n +:+ "crt"; kp_key := spaces n +:+ "key" |}.
Definition demo_summary (_ : gmap string Condition) : Condition := {| cd_true := true; cd_severity := ""; cd_reason := ""; cd_message := "" |}.
Definition demo_config_owner (owners : list (string * string)) : option (bool * string) := (λ o, (bool_decide (o.1 = "MachinePool"), o.2)) <$> head owners.
Definition demo_merge (before after stored : K3sConfigSpec) : K3sConfigSpec := after.

Definition demo_reconciles (fails : nat → bool) (n : nat) (kk : string * string) : prog World unit :=
  reconciles demo_marshal demo_unmarshal fails demo_yaml_server demo_yaml_agent id demo_token demo_keys demo_keys demo_summary demo_config_owner
    (λ _, Ok None) (λ l, StrJoin l ",") (λ _, "error") (λ _, None) demo_merge n kk.

Definition demo_final (fails : nat → bool) (sched : list nat) : World :=
  (run_sched sched (demo_world false (Some (demo_server (Some true) "")) ∅,
     imap (λ i p, demo_reconciles fails (i + 2) (own (demo_object false) p.1)) demo_members)).1.

(** Both machines are reconciled in turns, and the first call fails. *)
Definition demo_sched : list nat := concat (replicate 60 [1; 0]).
Definition demo_fails (n : nat) : bool := bool_decide (n = 0).

Example demo_first_machine :
  let w := demo_final demo_fails demo_sched in
  held_by demo_unmarshal (demo_object false) w = Some "a" ∧
  map (λ p, k_ready <$> w_configs w !! own (demo_object false) p.1) demo_members = [Some true; Some false].
Proof. by vm_compute. Qed.

Lemma demo_safe sv :
  safe demo_unmarshal demo_yaml_server id demo_config_owner (demo_object false) demo_members (demo_world false sv ∅).
Proof.
  split; [reflexivity| |].
  - intros cm Hcm. cbn in Hcm. by rewrite lookup_empty in Hcm.
  - intros p Hp. set_unfold in Hp.
    assert (∀ k nm m, demo_config nm m sv = k → config_key k = own (demo_object false) nm ∧
              demo_config_owner (k_owners k) = Some (false, m) ∧ k_ready k = false) as Hk by (by intros k nm m <-).
    destruct Hp as [->|[->|[]]]; [exists (demo_owner "a")|exists (demo_owner "b")]; (split; [reflexivity|done|]);
      intros k Hc; cbn in Hc; [rewrite lookup_insert_eq in Hc; injection Hc as Hc; destruct (Hk k "ka" "a" Hc) as (H1 & H2 & H3)
                              |rewrite lookup_insert_ne in Hc by done; rewrite lookup_singleton_eq in Hc; injection Hc as Hc;
                               destruct (Hk k "kb" "b" Hc) as (H1 & H2 & H3)]; rewrite H3; split_and!; done.
Qed.

