(* ===== verification/K3sConfigRuns.v ===== *)
(** * What a reconciliation of a K3sConfig does when no call fails

    A machine that joins is given the token the first machine initialises the
    cluster with; a control plane on an external data store is never
    initialised: the reconciliation panics with the init lock held. *)

From Stdlib Require Import Ascii String ZArith.
From stdpp Require Import gmap strings list sets.
From S2P Require Import Webhook.
From S2P Require Import Prelude GoStrings Prog InitLock Bootstrap K3sConfig K3sConfigSpec.

(** ** Runs *)

Definition runs {V A : Type} (Q : V → A → Prop) (p : prog V A) (v : V) : Prop := Q (run p v).1 (run p v).2.

Lemma runs_bind {V A B} (Q : V → A → Prop) (R : V → B → Prop) (p : prog V A) (k : A → prog V B) v :
  runs Q p v → (∀ v' a, Q v' a → runs R (k a) v') → runs R (pbind p k) v.
Proof. unfold runs. intros Hp Hk. rewrite run_pbind. by apply Hk. Qed.

Lemma runs_weaken {V A} (Q Q' : V → A → Prop) (p : prog V A) v : (∀ v a, Q v a → Q' v a) → runs Q p v → runs Q' p v.
Proof. intros H HQ. by apply H. Qed.

(** Two states of the server that differ in the number of calls. *)
Record alike (v w : World) : Prop := {
  al_configMaps : w_configMaps w = w_configMaps v;
  al_machines : w_machines w = w_machines v;
  al_pools : w_pools w = w_pools v;
  al_clusters : w_clusters w = w_clusters v;
  al_secrets : w_secrets w = w_secrets v;
  al_configs : w_configs w = w_configs v;
}.

Lemma alike_refl w : alike w w.
Proof. done. Qed.
Lemma alike_tick v w : alike v w → alike v (w_tick w).
Proof. intros [H1 H2 H3 H4 H5 H6]. by split. Qed.
Lemma alike_secrets v w m : alike v w → alike (with_secrets m v) (with_secrets m (w_tick w)).
Proof. intros [H1 H2 H3 H4 H5 H6]. by split. Qed.
Lemma alike_configs v w m : alike v w → alike (with_configs m v) (with_configs m (w_tick w)).
Proof. intros [H1 H2 H3 H4 H5 H6]. by split. Qed.

Section Runs.
Context (marshal : string → string) (unmarshal : string → option string) (fails : nat → bool).
Hypothesis no_failure : ∀ n, fails n = false.

Lemma runs_wcall {A} (Q : World → reply A → Prop) f w :
  Q (f (w_tick w)).1 (f (w_tick w)).2 → runs Q (wcall fails f) w.
Proof. unfold runs, wcall, atomic. simpl. rewrite no_failure. by destruct (f (w_tick w)). Qed.

Lemma runs_read {A} v (f : World → reply A) w :
  (∀ w, alike v w → f w = f v) → alike v w → runs (λ w' a, alike v w' ∧ a = f v) (wcall fails (λ w, (w, f w))) w.
Proof. intros Hf Hw. apply runs_wcall. simpl. split; [by apply alike_tick|]. by apply Hf, alike_tick. Qed.

Lemma runs_get_config v kk w : alike v w → runs (λ w' a, alike v w' ∧ a = found (w_configs v !! kk)) (get_config fails kk) w.
Proof. apply (runs_read v (λ w, found (w_configs w !! kk))). by intros w' [_ _ _ _ _ ->]. Qed.

Lemma runs_get_machine v kk w :
  alike v w → runs (λ w' a, alike v w' ∧ a = found (w_machines v !! kk)) (get_owner fails false kk) w.
Proof. apply (runs_read v (λ w, found (w_machines w !! kk))). by intros w' [_ -> _ _ _ _]. Qed.

Lemma runs_get_cluster v kk w : alike v w → runs (λ w' a, alike v w' ∧ a = found (w_clusters v !! kk)) (get_cluster fails kk) w.
Proof. apply (runs_read v (λ w, found (w_clusters w !! kk))). by intros w' [_ _ _ -> _ _]. Qed.

Lemma runs_get_secret v kk w : alike v w → runs (λ w' a, alike v w' ∧ a = found (w_secrets v !! kk)) (get_secret fails kk) w.
Proof. apply (runs_read v (λ w, found (w_secrets w !! kk))). by intros w' [_ _ _ _ -> _]. Qed.

(** Create or update: the secret is there. *)
Lemma runs_store_secret v sk s what w :
  alike v w →
  runs (λ w' r, alike (with_secrets (<[sk := s]> (w_secrets v)) v) w' ∧ r = Ok tt) (store_secret fails sk s what) w.
Proof.
  intros Hw. pose proof (al_secrets _ _ Hw) as Hs. unfold store_secret.
  eapply (runs_bind (λ w r, match w_secrets v !! sk with
                            | Some _ => alike v w ∧ r = AlreadyExists
                            | None => alike (with_secrets (<[sk := s]> (w_secrets v)) v) w ∧ r = Done tt end)).
  - apply runs_wcall. simpl. rewrite Hs. destruct (w_secrets v !! sk); [by split; [apply alike_tick|]|].
    split; [|done]. simpl. by apply alike_secrets.
  - intros w1 r H. destruct (w_secrets v !! sk) eqn:E; destruct H as [H1 ->]; [|done].
    eapply (runs_bind (λ w r, alike (with_secrets (<[sk := s]> (w_secrets v)) v) w ∧ r = Done tt)).
    + apply runs_wcall. simpl. rewrite (al_secrets _ _ H1), E. split; [|done]. simpl. by apply alike_secrets.
    + by intros w2 r [H2 ->].
Qed.

Lemma runs_AddOwners v owners w : alike v w → runs (λ w' r, alike v w' ∧ r = Ok tt) (AddOwners fails owners) w.
Proof.
  revert w. induction owners as [|o owners IH]; intros w Hw; [done|]. cbn [AddOwners]. case_bool_decide; [|by apply IH].
  eapply runs_bind; [by apply (runs_read v (λ _, Done tt))|]. intros w1 r [H1 ->]. by apply IH.
Qed.

(** Files that say what they hold. *)
Lemma runs_resolveFiles v ns files w :
  Forall (λ f, f_contentFrom f = None) files → alike v w →
  runs (λ w' r, alike v w' ∧ r = Ok files) (resolveFiles fails ns files) w.
Proof.
  intros HF. revert w. induction HF as [|f files Hf HF IH]; intros w Hw; [done|]. cbn [resolveFiles]. rewrite Hf.
  unfold tbind at 1. eapply (runs_bind (λ w' r, alike v w' ∧ r = Ok f)); [done|]. intros w1 r [H1 ->].
  unfold tbind. eapply runs_bind; [by apply IH|]. by intros w2 r [H2 ->].
Qed.

(** ** Locks *)

Definition without_lock (cluster : Cluster) (v : World) : World :=
  put_api {| a_configMaps := delete (lock_key cluster) (w_configMaps v); a_machines := dom (w_machines v); a_calls := w_calls v |} v.

Lemma run_lift_bind {A B} (p : prog Api A) (k : A → prog Api B) w :
  run (lift (pbind p k)) w = run (lift (k (run (lift p) w).2)) (run (lift p) w).1.
Proof.
  revert w. induction p as [a|f IH] using prog_ind; intros w; simpl; [done|]. specialize (IH (api_of w)).
  destruct (f (api_of w)) as [s' p']. apply IH.
Qed.

Lemma runs_lift_bind {A B} (Q : World → A → Prop) (R : World → B → Prop) (p : prog Api A) (k : A → prog Api B) w :
  runs Q (lift p) w → (∀ w' a, Q w' a → runs R (lift (k a)) w') → runs R (lift (pbind p k)) w.
Proof. unfold runs. intros Hp Hk. rewrite run_lift_bind. by apply Hk. Qed.

Lemma runs_lift_call {A} (Q : World → reply A → Prop) (f : Api → Api * reply A) w :
  (let o := f (tick (api_of w)) in Q (put_api o.1 w) o.2) → runs Q (lift (call fails f)) w.
Proof. unfold runs. simpl. rewrite no_failure. by destruct (f (tick (api_of w))). Qed.

Lemma runs_Unlock cluster v w : alike v w → runs (λ w' r, alike (without_lock cluster v) w' ∧ r = true) (lift (Unlock fails cluster)) w.
Proof.
  intros Hw. unfold Unlock. eapply (runs_lift_bind (λ w r, alike v w ∧ r = found (w_configMaps v !! lock_key cluster))).
  { apply runs_lift_call. simpl. split; [by apply alike_tick|]. by rewrite (al_configMaps _ _ Hw). }
  intros w1 r [H1 ->]. destruct (w_configMaps v !! lock_key cluster) as [cm|] eqn:E; cbn [found].
  - eapply (runs_lift_bind (λ w r, alike (without_lock cluster v) w ∧ r = Done tt)).
    + apply runs_lift_call. simpl. rewrite (al_configMaps _ _ H1), E. split; [|done]. destruct H1 as [C1 C2 C3 C4 C5 C6].
      by split; simpl; rewrite ?C1.
    + by intros w2 r [H2 ->].
  - split; [|done]. destruct H1 as [C1 C2 C3 C4 C5 C6]. split; try done. simpl. by rewrite C1, delete_id.
Qed.

(** ** Reading and writing back *)

Context (yaml_server : K3sServerConfiguration → result string) (yaml_agent : K3sAgentConfiguration → result string).
Context (quote : string → string).
Context (new_token : nat → result string) (new_ca new_keys : nat → result KeyPair).
Context (summary : gmap string Condition → Condition).
Context (config_owner : list (string * string) → option (bool * string)).
Context (to_machine : ConfigOwner → result (option string)).
Context (ranges_text : list string → string) (error_text : error → string).
Context (new_helper : Config → option error) (merge_spec : K3sConfigSpec → K3sConfigSpec → K3sConfigSpec → K3sConfigSpec).

(** Where nobody else has written, a merge patch writes what was meant. *)
Hypothesis merge_own : ∀ before after, merge_spec before after before = after.

Definition stored_as (kk : string * string) (k : Config) (v : World) : World := with_configs (<[kk := k]> (w_configs v)) v.

Lemma stored_again kk k k' v : stored_as kk k' (stored_as kk k v) = stored_as kk k' v.
Proof. unfold stored_as, with_configs. simpl. by rewrite insert_insert_eq. Qed.

Lemma stored_id kk k v : w_configs v !! kk = Some k → stored_as kk k v = v.
Proof. intros H. unfold stored_as. rewrite insert_id by done. by destruct v. Qed.

Lemma runs_patch_if v kk k (b : bool) f w :
  alike (stored_as kk k v) w →
  runs (λ w' r, alike (stored_as kk (if b then f k else k) v) w' ∧ r = []) (patch_if fails b kk f) w.
Proof.
  intros Hw. unfold patch_if. destruct b; [|done].
  eapply (runs_bind (λ w' r, alike (stored_as kk (f k) v) w' ∧ r = Done tt)).
  - apply runs_wcall. simpl. rewrite (al_configs _ _ Hw). simpl. rewrite lookup_insert_eq. split; [|done]. simpl.
    rewrite <- (stored_again kk k (f k) v). by apply (alike_configs (stored_as kk k v)).
  - by intros w1 r [H1 ->].
Qed.

(** What is stored in the end. *)
Record written (k k' stored : Config) : Prop := {
  wr_key : config_key stored = config_key k;
  wr_owners : k_owners stored = k_owners k;
  wr_paused : k_paused stored = k_paused k;
  wr_spec : k_spec stored = k_spec k';
  wr_ready : k_ready stored = k_ready k';
  wr_secret : k_dataSecretName stored = k_dataSecretName k';
}.

Lemma runs_Patch v k k' w :
  w_configs v !! config_key k = Some k → alike v w →
  runs (λ w' r, (∃ k2, written k k' k2 ∧ alike (stored_as (config_key k) k2 v) w') ∧ r = None) (Patch fails merge_spec k k') w.
Proof.
  intros Hk Hw. unfold Patch. rewrite <- (stored_id (config_key k) k v Hk) in Hw. set (kk := config_key k) in *.
  eapply runs_bind; [exact (runs_patch_if v kk k _ _ w Hw)|]. intros w1 e1 [H1 ->].
  eapply runs_bind; [exact (runs_patch_if v kk _ _ _ w1 H1)|]. intros w2 e2 [H2 ->].
  eapply runs_bind; [exact (runs_patch_if v kk _ _ _ w2 H2)|]. intros w3 e3 [H3 ->].
  split; [|done]. eexists. split; [|exact H3].
  repeat (case_bool_decide; cbn); split; cbn; try done; rewrite ?merge_own, ?(merged_same (k_ready k)), ?(merged_same (k_dataSecretName k));
    try done; try congruence;
    match goal with Hn : ¬ (_ ≠ _) |- _ => apply dec_stable in Hn; congruence end.
Qed.

Record readable (v : World) (k : Config) (m : string) (co : ConfigOwner) (cl : ClusterObject) : Prop := {
  rd_config : w_configs v !! config_key k = Some k;
  rd_owner : config_owner (k_owners k) = Some (false, m);
  rd_machine : w_machines v !! (k_namespace k, m) = Some co;
  rd_cluster : w_clusters v !! (co_namespace co, co_clusterName co) = Some cl;
  rd_active : cl_paused cl = false ∧ k_paused k = false ∧ new_helper k = None;
}.

Notation one := (reconcile_config marshal unmarshal fails yaml_server yaml_agent quote new_token new_ca new_keys to_machine ranges_text error_text).
Notation reconcile := (Reconcile marshal unmarshal fails yaml_server yaml_agent quote new_token new_ca new_keys summary config_owner
  to_machine ranges_text error_text new_helper merge_spec).

Lemma runs_Reconcile Q R v k m co cl w :
  readable v k m co cl → alike v w →
  (∀ w1, alike v w1 → runs Q (one cl co k) w1) → (∀ w1 out, Q w1 out → runs R (patched fails summary merge_spec k out) w1) →
  runs R (reconcile (config_key k)) w.
Proof.
  intros [R1 R2 R3 R4 (R5 & R6 & R7)] Hw HQ HR. unfold Reconcile, tbind.
  eapply runs_bind; [by apply runs_get_config|]. intros w1 r1 [H1 ->]. rewrite R1. cbn [found].
  eapply runs_bind; [by apply runs_AddOwners|]. intros w2 r2 [H2 ->]. rewrite R2.
  eapply runs_bind; [by apply runs_get_machine|]. intros w3 r3 [H3 ->]. rewrite R3. cbn [found].
  eapply runs_bind; [by apply runs_get_cluster|]. intros w4 r4 [H4 ->]. rewrite R4. cbn [found].
  rewrite R5, R6, R7. cbn [orb]. eapply runs_bind; [by apply HQ|exact HR].
Qed.

(** ** Joining *)

(** The configuration of k3s for a machine that joins. *)
Definition join_options (t ep : string) : ClusterOptions := {| Token := t; TokenFile := ""; Server := "https://" +:+ ep |}.

Definition join_data (cl : ClusterObject) (co : ConfigOwner) (s : K3sConfigSpec) (t ep : string) : result string :=
  if co_controlPlane co then MarshalJoinServerConfiguration yaml_server (network_server ranges_text cl (default zero_server (ks_server s))) (join_options t ep)
  else MarshalJoinAgentConfiguration yaml_agent (default zero_agent (ks_agent s)) (join_options t ep).

Definition join_text (co : ConfigOwner) (s : K3sConfigSpec) (data : string) : string :=
  (if co_controlPlane co then NewJoinControlPlane quote else NewNode quote)
    {| bu_pre := ks_pre s; bu_post := ks_post s; bu_additional := ks_files s; bu_config := config_file data |}.

Lemma version_settings_keeps version s :
  let s' := version_settings version s in
  ks_files s' = ks_files s ∧ ks_cluster s' = ks_cluster s ∧ ks_server s' = ks_server s ∧ ks_agent s' = ks_agent s ∧
  ks_pre s' = ks_pre s ∧ ks_post s' = ks_post s.
Proof. unfold version_settings. destruct version as [v|]; [|done]. by case_bool_decide. Qed.

Lemma top_level_keeps cl version sv s :
  let s' := top_level_settings ranges_text cl version sv s in
  ks_files s' = ks_files s ∧ ks_cluster s' = ks_cluster s ∧ ks_server s' = Some (network_server ranges_text cl sv) ∧
  ks_agent s' = ks_agent s ∧ ks_pre s' = ks_pre s ∧ ks_post s' = ks_post s.
Proof. apply (version_settings_keeps version (with_server (network_server ranges_text cl sv) s)). Qed.

(** The discovery of a machine that says nothing itself. *)
Lemma runs_reconcileDiscovery v cl k t ep w :
  alike v w → ks_cluster (k_spec k) = Some zero_cluster → cl_endpoint cl = Some ep →
  value_at (token_key (k_namespace k) (c_name (cl_meta cl))) t v →
  runs (λ w' out, alike v w' ∧ out = (set_spec (with_cluster (join_options t ep) (k_spec k)) k, Ok 0%Z)) (reconcileDiscovery fails cl k) w.
Proof.
  intros Hw Hc He (s & Hs & Hv). unfold reconcileDiscovery. rewrite Hc, He. cbn [zero_cluster Token TokenFile Server fmap option_fmap option_map].
  rewrite (bool_decide_eq_false_2 ("" ≠ "")) by (by intros []). rewrite (bool_decide_eq_true_2 ("" = "")) by done.
  eapply runs_bind; [by apply runs_get_secret|]. intros w1 r [H1 ->]. cbn [set_spec k_namespace]. rewrite Hs. cbn [found]. rewrite Hv. done.
Qed.

Lemma runs_boot_with v cl k data d user_data text w :
  alike v w → data = Ok d → Forall (λ f, f_contentFrom f = None) (ks_files (k_spec k)) →
  user_data {| bu_pre := ks_pre (k_spec k); bu_post := ks_post (k_spec k); bu_additional := ks_files (k_spec k); bu_config := config_file d |} = Ok text →
  runs (λ w' out, alike (with_secrets (<[config_key k := value_secret cl k text]> (w_secrets v)) v) w' ∧
                  out = (MarkTrue DataSecretAvailableCondition (set_status true (Some (k_name k)) k), Ok 0%Z))
    (boot_with fails error_text cl k data user_data) w.
Proof.
  intros Hw -> HF HU. unfold boot_with. eapply runs_bind; [by apply runs_resolveFiles|]. intros w1 r [H1 ->]. rewrite HU.
  unfold storeBootstrapData. eapply runs_bind; [by apply runs_store_secret|]. by intros w2 r [H2 ->].
Qed.

Definition lock_free (cl : ClusterObject) (v : World) : Prop := w_configMaps v !! lock_key (cl_meta cl) = None.

(** What is left behind: the lock is released, the bootstrap secret is [text]
    and the configuration is ready. *)
Definition bootstrapped (cl : ClusterObject) (k : Config) (text : string) (w : World) : Prop :=
  lock_free cl w ∧ value_at (config_key k) text w ∧
  ∃ k', w_configs w !! config_key k = Some k' ∧ k_ready k' = true ∧ k_dataSecretName k' = Some (k_name k).

Record joining (v : World) (k : Config) (m : string) (co : ConfigOwner) (cl : ClusterObject) (version : option string) (ep : string) : Prop := {
  jn_readable : readable v k m co cl;
  jn_cluster : cl_infrastructureReady cl = true ∧ cl_initialized cl = true ∧ cl_endpoint cl = Some ep;
  jn_fresh : k_ready k = false ∧ co_dataSecretName co = None;
  jn_machine : to_machine co = Ok version;
  jn_spec : ks_cluster (k_spec k) = None ∧ Forall (λ f, f_contentFrom f = None) (ks_files (k_spec k));
}.

Lemma runs_patched Q v k k' r w :
  w_configs v !! config_key k = Some k → alike v w →
  (∀ w' k2, written k k' k2 → alike (stored_as (config_key k) k2 v) w' → Q w' r) →
  runs Q (patched fails summary merge_spec k (k', r)) w.
Proof.
  intros Hk Hw HQ. unfold patched. eapply runs_bind; [by apply runs_Patch|]. intros w1 e [(k2 & [W1 W2 W3 W4 W5 W6] & H1) ->].
  destruct r; apply (HQ w1 k2); done.
Qed.

(** The end of both ways to join. *)
Lemma runs_join_end v cl k k1 s d data new w :
  alike v w → k_namespace k1 = k_namespace k ∧ k_name k1 = k_name k ∧ k_uid k1 = k_uid k →
  ks_files (k_spec k1) = ks_files s ∧ ks_pre (k_spec k1) = ks_pre s ∧ ks_post (k_spec k1) = ks_post s →
  Forall (λ f, f_contentFrom f = None) (ks_files s) → data = Ok d →
  let text := new {| bu_pre := ks_pre s; bu_post := ks_post s; bu_additional := ks_files s; bu_config := config_file d |} in
  runs (λ w out, alike (with_secrets (<[config_key k := value_secret cl k text]> (w_secrets v)) v) w ∧
                 out.2 = Ok 0%Z ∧ k_ready out.1 = true ∧ k_dataSecretName out.1 = Some (k_name k))
    (boot_with fails error_text cl k1 data (λ input, Ok (new input))) w.
Proof.
  intros Hw (E1 & E2 & E3) (F1 & F2 & F3) HF Hd text.
  eapply runs_weaken; [|eapply (runs_boot_with v cl _ _ d); [exact Hw|exact Hd|by rewrite F1|reflexivity]].
  intros w1 out [H1 ->]. split; [|by cbn; rewrite E2]. revert H1.
  unfold text, value_secret, controller_ref, config_key. by rewrite E1, E2, E3, F1, F2, F3.
Qed.

Lemma join_run v k m co cl version ep t d :
  joining v k m co cl version ep → value_at (token_key (k_namespace k) (c_name (cl_meta cl))) t v →
  join_data cl co (k_spec k) t ep = Ok d →
  runs (λ w r, r = Ok 0%Z ∧ bootstrapped cl k (join_text co (k_spec k) d) w) (reconcile (config_key k)) v.
Proof.
  intros [HR (J1 & J2 & J3) (J4 & J5) J6 (J7 & J8)] Ht Hd.
  set (v1 := without_lock (cl_meta cl) v).
  set (v2 := with_secrets (<[config_key k := value_secret cl k (join_text co (k_spec k) d)]> (w_secrets v1)) v1).
  eapply (runs_Reconcile (λ w out, alike v2 w ∧ out.2 = Ok 0%Z ∧ k_ready out.1 = true ∧ k_dataSecretName out.1 = Some (k_name k))); [exact HR|done| |].
  - intros w1 H1. unfold reconcile_config. rewrite J1, J2, J4. cbn [negb]. rewrite bool_decide_eq_false_2 by (by intros [[] _]).
    eapply runs_bind; [by apply runs_Unlock|]. intros w2 u [H2 _]. rewrite J7. cbn [default].
    set (k0 := set_spec _ k).
    destruct (co_controlPlane co) eqn:Ecp.
    + unfold joinControlplane. rewrite Ecp, J6. cbn [negb].
      set (k1 := set_spec _ _). destruct (top_level_keeps cl version (default zero_server (ks_server (k_spec k0))) (with_server (default zero_server (ks_server (k_spec k0))) (k_spec k0)))
        as (K1 & K2 & K3 & K4 & K5 & K6).
      eapply runs_bind; [apply (runs_reconcileDiscovery v1 _ k1 t ep); [done|exact K2|done|done]|]. intros w3 out [H3 ->]. cbn beta iota.
      unfold join_data in Hd. rewrite Ecp in Hd.
      assert (k_spec k1 = top_level_settings ranges_text cl version (default zero_server (ks_server (k_spec k0)))
                (with_server (default zero_server (ks_server (k_spec k0))) (k_spec k0))) as Ek1 by done.
      assert (k_namespace k1 = k_namespace k ∧ k_name k1 = k_name k ∧ k_uid k1 = k_uid k) as (Ek2 & Ek3 & Ek4) by done.
      rewrite <- Ek1 in *. clearbody k1. unfold v2, join_text. rewrite Ecp.
      apply (runs_join_end v1 cl k _ (k_spec k) d); [exact H3|done..|exact J8|]. rewrite <- Hd. cbn. by rewrite K3.
    + unfold joinWorker. rewrite J6. set (k1 := set_spec _ k0).
      destruct (version_settings_keeps version (k_spec k0)) as (K1 & K2 & K3 & K4 & K5 & K6).
      eapply runs_bind; [apply (runs_reconcileDiscovery v1 _ k1 t ep); [done|exact K2|done|done]|]. intros w3 out [H3 ->]. cbn beta iota.
      unfold join_data in Hd. rewrite Ecp in Hd.
      assert (k_spec k1 = version_settings version (k_spec k0)) as Ek1 by done.
      assert (k_namespace k1 = k_namespace k ∧ k_name k1 = k_name k ∧ k_uid k1 = k_uid k) as (Ek2 & Ek3 & Ek4) by done.
      rewrite <- Ek1 in *. clearbody k1. unfold v2, join_text. rewrite Ecp.
      apply (runs_join_end v1 cl k _ (k_spec k) d); [exact H3|done..|exact J8|]. rewrite <- Hd. cbn. by rewrite K4.
  - intros w1 [k' r] (H1 & Hz & Hr & Hs). cbn [fst snd] in *. subst r. eapply runs_patched; [|exact H1|].
    + exact (rd_config _ _ _ _ _ HR).
    + intros w' k2 [_ _ _ _ E1 E2] H2. split; [done|]. split; [|split].
      * unfold lock_free. rewrite (al_configMaps _ _ H2). simpl. apply lookup_delete_eq.
      * eexists. rewrite (al_secrets _ _ H2). simpl. split; [apply lookup_insert_eq|]. apply value_secret_value.
      * exists k2. rewrite (al_configs _ _ H2). simpl. split; [apply lookup_insert_eq|]. by rewrite E1, E2.
Qed.

(** ** The first machine *)

Hypothesis unmarshal_marshal : ∀ m, unmarshal (marshal m) = Some m.
Hypothesis new_token_ok : ∀ n, is_ok (new_token n) = true.
Hypothesis new_ca_ok : ∀ n, is_ok (new_ca n) = true.

(** All but the locks. *)
Definition but_locks (v w : World) : Prop :=
  w_machines w = w_machines v ∧ w_clusters w = w_clusters v ∧ w_secrets w = w_secrets v ∧ w_configs w = w_configs v.

(** The lock is free or the machine's. *)
Definition may_lock (cl : ClusterObject) (m : string) (v : World) : Prop :=
  lock_free cl v ∨ held_by unmarshal cl v = Some m.

Lemma runs_Lock cl m w :
  may_lock cl m w →
  runs (λ w' r, r = true ∧ but_locks w w' ∧ held_by unmarshal cl w' = Some m) (lift (Lock marshal unmarshal fails (cl_meta cl) m)) w.
Proof.
  intros HL. unfold Lock.
  eapply (runs_lift_bind (λ w' r, w' = w_tick w ∧ r = found (w_configMaps w !! lock_key (cl_meta cl)))); [by apply runs_lift_call|].
  intros w1 r [-> ->]. destruct (w_configMaps w !! lock_key (cl_meta cl)) as [cm|] eqn:E; cbn [found].
  - destruct HL as [HL|HL]; [unfold lock_free in HL; congruence|]. unfold held_by, holder in HL. cbn in HL. rewrite E in HL. cbn in HL.
    rewrite HL, bool_decide_eq_true_2 by done. split; [done|]. split; [done|]. unfold held_by, holder. cbn. by rewrite E.
  - eapply (runs_lift_bind (λ w' r, r = Done tt ∧ but_locks w w' ∧ held_by unmarshal cl w' = Some m)).
    + apply runs_lift_call. cbn. rewrite E. split; [done|]. split; [done|]. unfold held_by, holder. cbn. rewrite lookup_insert_eq. cbn.
      by apply information_new.
    + by intros w2 r (-> & H2 & H3).
Qed.

(** A machine that exists keeps the lock. *)
Lemma run_Lock_refused cl m m' w :
  held_by unmarshal cl w = Some m → m' ≠ m → is_Some (w_machines w !! (c_namespace (cl_meta cl), m)) →
  runs (λ w' r, r = false) (lift (Lock marshal unmarshal fails (cl_meta cl) m')) w.
Proof.
  intros HL Hne Hm. unfold Lock.
  eapply (runs_lift_bind (λ w' r, w' = w_tick w ∧ r = found (w_configMaps w !! lock_key (cl_meta cl)))); [by apply runs_lift_call|].
  intros w1 r [-> ->]. unfold held_by, holder in HL. cbn in HL. destruct (w_configMaps w !! lock_key (cl_meta cl)) as [cm|]; [|done].
  cbn in HL. cbn [found]. rewrite HL, bool_decide_eq_false_2 by (by intros ->).
  eapply (runs_lift_bind (λ _ r, r = Done tt)); [|by intros w1 r ->].
  apply runs_lift_call. cbn. rewrite bool_decide_eq_true_2; [done|]. by apply elem_of_dom.
Qed.

(** The certificates of the cluster, where they are stored, can be read. *)
Definition readable_certificates (cl : ClusterObject) (v : World) : Prop :=
  ∀ sk s, sk ∈ certificate_secrets cl → w_secrets v !! sk = Some s → is_ok (secretToKeyPair s) = true.

Lemma runs_Lookup v ck cs w :
  alike v w → Forall (λ c, ct_external c = false ∧ ct_generated c = false) cs →
  (∀ c s, c ∈ cs → w_secrets v !! secret_key ck c = Some s → is_ok (secretToKeyPair s) = true) →
  runs (λ w' r, alike v w' ∧ ∃ cs', r = Ok cs' ∧ map ct_purpose cs' = map ct_purpose cs ∧
          Forall (λ c', ct_generated c' = false ∧ (ct_keyPair c' = None → w_secrets v !! secret_key ck c' = None)) cs')
    (Lookup fails ck cs) w.
Proof.
  intros Hw HF. revert w Hw. induction HF as [|c cs [He Hg] HF IH]; intros w Hw Hok; [by split; [|exists []]|]. cbn [Lookup].
  eapply runs_bind; [by apply runs_get_secret|]. intros w1 r [H1 ->]. specialize (IH w1 H1 (λ c' s Hc, Hok c' s (list_elem_of_further _ _ _ Hc))).
  destruct (w_secrets v !! secret_key ck c) as [s|] eqn:E; cbn [found].
  - specialize (Hok c s ltac:(by left) E). destruct (secretToKeyPair s) as [kp|e|why]; [|done..].
    unfold tbind. eapply runs_bind; [exact IH|]. intros w2 r [H2 (cs' & -> & Hp & HF')]. split; [done|]. eexists. split; [done|].
    split; [simpl; by f_equal|]. by constructor.
  - rewrite He. unfold tbind. eapply runs_bind; [exact IH|]. intros w2 r [H2 (cs' & -> & Hp & HF')]. split; [done|]. eexists.
    split; [done|]. split; [simpl; by f_equal|]. by constructor.
Qed.

Lemma runs_generate_certificate v c w :
  alike v w → ct_purpose c ≠ APIServerEtcdClient → ct_purpose c ≠ ServiceAccount →
  runs (λ w' r, alike v w' ∧ ∃ kp, r = Ok (with_keyPair kp true c)) (generate_certificate new_ca new_keys c) w.
Proof.
  intros Hw H1 H2. unfold generate_certificate. rewrite !bool_decide_eq_false_2 by done. unfold tbind.
  eapply (runs_bind (λ w' r, alike v w' ∧ is_ok r = true)); [unfold runs; simpl; split; [by apply alike_tick|by apply new_ca_ok]|].
  intros w1 [kp|e|why] [H3 H4]; [|done..]. split; [done|]. by exists kp.
Qed.

Lemma runs_Generate v ck cs w :
  alike v w → Forall (λ c, ct_purpose c ≠ APIServerEtcdClient ∧ ct_purpose c ≠ ServiceAccount) cs →
  Forall (λ c, ct_generated c = false ∧ (ct_keyPair c = None → w_secrets v !! secret_key ck c = None)) cs →
  runs (λ w' r, alike v w' ∧ ∃ cs', r = Ok cs' ∧ map ct_purpose cs' = map ct_purpose cs ∧
          Forall (λ c', is_Some (ct_keyPair c') ∧ (ct_generated c' = true → w_secrets v !! secret_key ck c' = None)) cs')
    (Generate new_ca new_keys cs) w.
Proof.
  intros Hw HP HF. revert w Hw HP. induction HF as [|c cs [Hg Hk] HF IH]; intros w Hw HP; [by split; [|exists []]|].
  apply Forall_cons in HP as [[Hp1 Hp2] HP]. cbn [Generate]. unfold tbind at 1.
  eapply (runs_bind (λ w' r, alike v w' ∧ ∃ c', r = Ok c' ∧ ct_purpose c' = ct_purpose c ∧ is_Some (ct_keyPair c') ∧
                       (ct_generated c' = true → w_secrets v !! secret_key ck c' = None))).
  - destruct (ct_keyPair c) as [kp|] eqn:E; [split; [done|]; exists c; rewrite E; split_and!; [done..|congruence]|].
    eapply runs_weaken; [|by apply (runs_generate_certificate v)]. intros w1 r [H1 [kp ->]]. split; [done|]. eexists.
    split_and!; [done|done|by eexists|]. intros _. by apply Hk.
  - intros w1 r [H1 (c' & -> & Hp' & Hs' & Hg')]. unfold tbind. eapply runs_bind; [by apply IH|].
    intros w2 r [H2 (cs' & -> & Hp & HF')]. split; [done|]. eexists. split; [done|]. split; [simpl; by f_equal|]. by constructor.
Qed.

(** All but some secrets, and those that have changed hold a certificate. *)
Record certified (Kw : list (string * string)) (v w : World) : Prop := {
  ce_configMaps : w_configMaps w = w_configMaps v;
  ce_machines : w_machines w = w_machines v;
  ce_clusters : w_clusters w = w_clusters v;
  ce_configs : w_configs w = w_configs v;
  ce_secrets : ∀ sk, w_secrets w !! sk = w_secrets v !! sk ∨
                 sk ∈ Kw ∧ ∃ s, w_secrets w !! sk = Some s ∧ is_ok (secretToKeyPair s) = true;
}.

Lemma alike_certified Kw v w : alike v w → certified Kw v w.
Proof. intros [H1 H2 H3 H4 H5 H6]. split; [done..|]. intros sk. left. by rewrite H5. Qed.

Lemma runs_SaveGenerated v ck owner cs w :
  NoDup (secret_key ck <$> cs) →
  (∀ c, c ∈ cs → is_Some (ct_keyPair c) ∧ (ct_generated c = true → w_secrets v !! secret_key ck c = None)) →
  alike v w → runs (λ w' r, certified (secret_key ck <$> cs) v w' ∧ r = Ok tt) (SaveGenerated fails ck owner cs) w.
Proof.
  revert v w. induction cs as [|c cs IH]; intros v w HN HF Hw; [by split; [apply alike_certified|]|].
  rewrite fmap_cons in HN. apply NoDup_cons in HN as [Hn HN]. destruct (HF c ltac:(by left)) as [[kp Hk] Hg].
  assert (∀ c', c' ∈ cs → is_Some (ct_keyPair c') ∧ (ct_generated c' = true → w_secrets v !! secret_key ck c' = None)) as HF'.
  { intros c' Hc'. apply HF. by right. }
  cbn [SaveGenerated]. destruct (ct_generated c) eqn:Eg.
  - destruct (AsSecret_spec ck owner c kp Hk) as (s & -> & Hs).
    set (v1 := with_secrets (<[secret_key ck c := s]> (w_secrets v)) v).
    eapply (runs_bind (λ w' r, alike v1 w' ∧ r = Done tt)).
    { apply runs_wcall. cbn [w_tick w_secrets]. rewrite (al_secrets _ _ Hw), Hg by done. split; [|done]. by apply alike_secrets. }
    intros w1 r [H1 ->]. eapply runs_weaken; [|apply (IH v1); [done| |exact H1]].
    + intros w2 r [[C1 C2 C3 C4 C5] ->]. split; [|done]. split; [done..|]. intros sk. destruct (C5 sk) as [H|[H (s' & H2 & H3)]].
      * simpl in H. destruct (decide (sk = secret_key ck c)) as [->|Hne]; [|left; by rewrite H, lookup_insert_ne].
        right. split; [by left|]. exists s. rewrite H, lookup_insert_eq. by rewrite Hs.
      * right. split; [by right|]. by exists s'.
    + intros c' Hc'. destruct (HF' c' Hc') as [H2 H3]. split; [done|]. intros Hg'. simpl. rewrite lookup_insert_ne; [by apply H3|].
      intros E. apply Hn. rewrite E. by apply list_elem_of_fmap_2.
  - eapply runs_weaken; [|by apply (IH v)]. intros w2 r [[C1 C2 C3 C4 C5] ->]. split; [|done]. split; [done..|].
    intros sk. destruct (C5 sk) as [H|[H H2]]; [by left|right]. split; [by right|done].
Qed.

Lemma runs_certificates v cl owner w :
  readable_certificates cl v → alike v w →
  runs (λ w' r, certified (certificate_secrets cl) v w' ∧ is_ok r = true)
    (LookupOrGenerate fails new_ca new_keys (cluster_key cl) owner NewCertificatesForInitialControlPlane) w.
Proof.
  intros HC Hw. pose proof (cluster_secrets_distinct cl) as [_ HN]%NoDup_cons. unfold LookupOrGenerate, tbind.
  eapply runs_bind; [apply (runs_Lookup v); [done|by repeat constructor|]|].
  { intros c s Hc. apply HC. unfold certificate_secrets. by apply list_elem_of_fmap_2. }
  intros w1 r [H1 (cs1 & -> & P1 & F1)].
  assert (Forall (λ c, ct_purpose c ≠ APIServerEtcdClient ∧ ct_purpose c ≠ ServiceAccount) cs1) as HP.
  { cut (Forall (λ p, p ≠ APIServerEtcdClient ∧ p ≠ ServiceAccount) (map ct_purpose cs1)); [by rewrite list.Forall_fmap|].
    rewrite P1. by repeat constructor. }
  eapply runs_bind; [by apply (runs_Generate v (cluster_key cl))|]. intros w2 r [H2 (cs2 & -> & P2 & F2)].
  assert (secret_key (cluster_key cl) <$> cs2 = certificate_secrets cl) as Hk.
  { assert (map ct_purpose cs2 = map ct_purpose NewCertificatesForInitialControlPlane) as P3 by congruence.
    pose proof (f_equal (map (λ p, ((cluster_key cl).1, Name (cluster_key cl).2 p))) P3) as H. rewrite !map_map in H. exact H. }
  eapply runs_bind; [apply (runs_SaveGenerated v); [by rewrite Hk| |done]|].
  { rewrite list.Forall_forall in F2. exact F2. }
  intros w3 r [H3 ->]. split; [by rewrite Hk in H3|done].
Qed.

Lemma token_not_certificate cl ns : token_key ns (c_name (cl_meta cl)) ∉ certificate_secrets cl.
Proof.
  change (token_key ns (c_name (cl_meta cl)) ∉ (λ s, (c_namespace (cl_meta cl), c_name (cl_meta cl) +:+ s)) <$> ["-ca"; "-cca"]).
  intros (s & E & Hs)%list_elem_of_fmap. injection E as _ E. apply str_app_inj_l in E. subst s. set_unfold in Hs. naive_solver.
Qed.

(** The machine has the lock and nothing else has happened to the cluster. *)
Record holding (cl : ClusterObject) (m : string) (v w : World) : Prop := {
  ho_lock : held_by unmarshal cl w = Some m;
  ho_machines : w_machines w = w_machines v;
  ho_clusters : w_clusters w = w_clusters v;
  ho_configs : w_configs w = w_configs v;
  ho_certificates : readable_certificates cl w;
}.

(** A server that does not say whether it initialises the cluster. *)
Definition undecided (k : Config) (sv : ServerConfiguration) : Prop :=
  ks_server (k_spec k) = Some sv ∧ ClusterInit (sv_database sv) = None.

Lemma runs_initialise cl m version k sv w :
  undecided k sv → k_ready k = false → held_by unmarshal cl w = Some m → readable_certificates cl w →
  runs (λ w' out, holding cl m w w' ∧ is_panic out.2 = true ∧ k_ready out.1 = false ∧
                  undecided out.1 (network_server ranges_text cl sv))
    (initialise fails yaml_server quote new_token new_ca new_keys ranges_text error_text cl version k) w.
Proof.
  intros [HS HI] Hr Hh HC. unfold initialise. rewrite HS. cbn [default].
  set (k1 := set_spec _ k). destruct (top_level_keeps cl version sv (k_spec k)) as (_ & _ & K3 & _).
  assert (ks_server (k_spec k1) = Some (network_server ranges_text cl sv)) as HS1 by exact K3.
  assert (k_ready k1 = false) as Hr1 by done. clearbody k1.
  assert (ClusterInit (sv_database (network_server ranges_text cl sv)) = None) as HI1 by (unfold network_server; by destruct (cl_network cl)).
  eapply runs_bind; [by apply (runs_certificates w)|]. intros w1 r [[C1 C2 C3 C4 C5] Hok]. destruct r as [cs|e|why]; [|done..]. cbn beta iota zeta.
  assert (holding cl m w w1) as HO.
  { split; [unfold held_by, holder in *; cbn; by rewrite C1|done..|]. intros sk s Hsk Hs. destruct (C5 sk) as [H|[_ (s' & H & H')]].
    - apply (HC sk); [done|]. by rewrite <- H.
    - rewrite H in Hs. by injection Hs as ->. }
  clear C1 C2 C3 C4 C5. unfold generateAndStoreToken, tbind.
  eapply (runs_bind (λ w' r, holding cl m w w' ∧ is_ok r = true)).
  { eapply (runs_bind (λ w' r, alike w1 w' ∧ is_ok r = true)); [unfold runs; cbn; split; [by apply alike_tick|apply new_token_ok]|].
    intros w2 [t|e|why] [H2 Ht]; [|done..]. eapply runs_bind; [by apply (runs_store_secret w1)|]. intros w3 r [H3 ->]. split; [|done]. cbn [run fst].
    destruct HO as [O1 O2 O3 O4 O5], H3 as [A1 A2 A3 A4 A5 A6]. cbn in A1, A2, A3, A4, A5, A6.
    split; [unfold held_by, holder in *; cbn; by rewrite A1|congruence..|]. intros sk s Hsk. rewrite A5. rewrite lookup_insert_ne; [by apply O5|].
    intros E. rewrite <- E in Hsk. by apply (token_not_certificate cl (k_namespace k1)) in Hsk. }
  intros w2 r [H2 Hok2]. destruct r as [t|e|why]; [|done..]. cbn beta iota zeta. unfold MarshalInitServerConfiguration.
  cbn [MarkTrue set_conditions k_spec]. rewrite HS1. cbn [default from_option id]. rewrite HI1. split; [done|]. split; [done|]. split; [done|]. by split.
Qed.

(** A control plane whose machine may take the lock of its cluster. *)
Record deciding (v : World) (k : Config) (m : string) (co : ConfigOwner) (cl : ClusterObject) (version : option string) : Prop := {
  dc_readable : readable v k m co cl;
  dc_namespace : k_namespace k = c_namespace (cl_meta cl);
  dc_cluster : cl_infrastructureReady cl = true ∧ cl_initialized cl = false;
  dc_machine : co_controlPlane co = true ∧ co_name co = m ∧ co_dataSecretName co = None ∧ to_machine co = Ok version;
  dc_fresh : k_ready k = false;
  dc_lock : may_lock cl m v;
  dc_certificates : readable_certificates cl v;
}.

Hypothesis helper_ok : ∀ k, new_helper k = None.

Lemma undecided_run v k m co cl version sv :
  deciding v k m co cl version → undecided k sv →
  runs (λ w r, is_panic r = true ∧ held_by unmarshal cl w = Some m ∧
               ∃ k', config_key k' = config_key k ∧ deciding w k' m co cl version ∧ undecided k' (network_server ranges_text cl sv))
    (reconcile (config_key k)) v.
Proof.
  intros [HR D1 (D2 & D3) (D4 & D5 & D6 & D7) D8 D9 D10] HU. pose proof HR as [R1 R2 R3 R4 (R5 & R6 & R7)].
  eapply (runs_Reconcile (λ w out, (holding cl m v w) ∧ is_panic out.2 = true ∧ k_ready out.1 = false ∧
            undecided out.1 (network_server ranges_text cl sv))); [exact HR|done| |].
  - intros w1 H1. unfold reconcile_config. rewrite D2, D3, D6, D8. cbn [negb]. rewrite bool_decide_eq_false_2 by (by intros [[] _]).
    unfold handleClusterNotInitialized. rewrite D4, D7, D5. cbn [negb].
    set (k1 := if bool_decide _ then k else _).
    assert (undecided k1 sv ∧ k_ready k1 = false) as [HU1 Hr1] by (unfold k1; case_bool_decide; by split).
    clearbody k1. rewrite bool_decide_eq_false_2 by (intros [E _]; destruct HU1; congruence).
    eapply runs_bind; [apply runs_Lock|].
    { destruct D9 as [D9|D9]; [left|right]; unfold lock_free, held_by, holder in *; cbn in *; by rewrite (al_configMaps _ _ H1). }
    intros w2 r (-> & (B1 & B2 & B3 & B4) & Hh). eapply runs_bind; [apply runs_initialise; [exact HU1|done|exact Hh|]|].
    { intros sk s Hsk. rewrite B3, (al_secrets _ _ H1). by apply D10. }
    intros w3 [k2 r] ([O1 O2 O3 O4 O5] & Hp & Hr2 & HU2). destruct H1 as [A1 A2 A3 A4 A5 A6].
    cbn [fst snd] in *. destruct r; [done..|]. split; [|done]. cbn [run fst]. split; [done|congruence..|done].
  - intros w1 [k2 r] ([O1 O2 O3 O4 O5] & Hp & Hr2 & HU2). cbn [fst snd] in *.
    eapply (runs_patched _ w1); [by rewrite O4|done|]. intros w2 k3 [W1 W2 W3 W4 W5 W6] [A1 A2 A3 A4 A5 A6]. cbn in A1, A2, A3, A4, A5, A6.
    assert (held_by unmarshal cl w2 = Some m) as Hh2 by (unfold held_by, holder in *; cbn in *; by rewrite A1).
    split; [done|]. split; [done|]. exists k3. split; [done|]. split; [|unfold undecided in *; by rewrite W4].
    injection W1 as W1a W1b. split; [|congruence|done|done|by rewrite W5|by right|].
    + split; [rewrite A6; unfold config_key; rewrite W1a, W1b; apply lookup_insert_eq|by rewrite W2|by rewrite W1a, A2, O2|by rewrite A4, O3|].
      split; [done|]. rewrite W3. by split; [|apply helper_ok].
    + intros sk s. rewrite A5. apply O5.
Qed.

Lemma undecided_runs v k m co cl version sv n :
  deciding v k m co cl version → undecided k sv →
  ∃ k' sv', config_key k' = config_key k ∧ undecided k' sv' ∧
            deciding (Nat.iter n (λ w, (run (reconcile (config_key k)) w).1) v) k' m co cl version.
Proof.
  intros HD HU. induction n as [|n IH]; [by exists k, sv|]. destruct IH as (k' & sv' & Hk & HU' & HD').
  destruct (undecided_run _ k' m co cl version sv' HD' HU') as (_ & _ & k2 & Hk2 & HD2 & HU2). rewrite Hk in Hk2, HD2.
  exists k2, (network_server ranges_text cl sv'). split; [done|]. split; [done|exact HD2].
Qed.

(** C24: A control plane on an external data store that leaves [clusterInit] out
    is neither changed nor refused by the webhook, and is never initialised:
    every reconciliation of its first machine panics after it has taken the init
    lock, which it keeps, so that every other machine is refused as well. *)
Theorem external_datastore_blocks v k m co cl version sv :
  deciding v k m co cl version → ks_server (k_spec k) = Some sv →
  DataStoreEndPoint (sv_database sv) ≠ "" → ClusterInit (sv_database sv) = None →
  let d := {| Webhook.DataStoreEndPoint := DataStoreEndPoint (sv_database sv); Webhook.ClusterInit := ClusterInit (sv_database sv) |} in
  default_database (Some d) = d ∧ validateServerConfiguration (Some d) None = [] ∧
  ∀ n, let step w := (run (reconcile (config_key k)) w).1 in
    is_panic (run (reconcile (config_key k)) (Nat.iter n step v)).2 = true ∧
    held_by unmarshal cl (Nat.iter (S n) step v) = Some m ∧
    (∃ k', w_configs (Nat.iter (S n) step v) !! config_key k = Some k' ∧ k_ready k' = false) ∧
    ∀ m', m' ≠ m → (run (lift (Lock marshal unmarshal fails (cl_meta cl) m')) (Nat.iter (S n) step v)).2 = false.
Proof.
  intros HD Hsv He Hc d. split; [|split].
  - unfold default_database. cbn. by rewrite bool_decide_eq_false_2 by (by intros [? _]).
  - unfold validateServerConfiguration, inits. cbn. by rewrite Hc.
  - intros n step. destruct (undecided_runs v k m co cl version sv n HD ltac:(done)) as (k' & sv' & Hk & HU' & HD').
    pose proof (undecided_run _ k' m co cl version sv' HD' HU') as (H1 & H2 & k2 & Hk2 & HD2 & _). rewrite Hk in *.
    split; [exact H1|]. split; [exact H2|]. destruct HD2 as [[R1 R2 R3 R4 R5] N1 _ _ F1 _ _]. split; [exists k2; by rewrite <- Hk2|].
    intros m' Hne. apply (run_Lock_refused cl m m'); [exact H2|done|]. rewrite <- N1. eexists. exact R3.
Qed.


End Runs.

(** ** The theorems at concrete clusters *)

Definition demo_reconcile (kk : string * string) : prog World (result Z) :=
  Reconcile demo_marshal demo_unmarshal (λ _, false) demo_yaml_server demo_yaml_agent id demo_token demo_keys demo_keys demo_summary demo_config_owner
    (λ _, Ok None) (λ l, StrJoin l ",") (λ _, "error") (λ _, None) demo_merge kk.

Definition external_server : ServerConfiguration := demo_server None "mysql://db".

Lemma external_datastore_blocks_witness :
  let v := demo_world false (Some external_server) ∅ in
  let d := {| Webhook.DataStoreEndPoint := "mysql://db"; Webhook.ClusterInit := None |} in
  default_database (Some d) = d ∧ validateServerConfiguration (Some d) None = [] ∧
  ∀ n, let step w := (run (demo_reconcile ("ns", "ka")) w).1 in
    is_panic (run (demo_reconcile ("ns", "ka")) (Nat.iter n step v)).2 = true ∧
    held_by demo_unmarshal (demo_object false) (Nat.iter (S n) step v) = Some "a" ∧
    (∃ k', w_configs (Nat.iter (S n) step v) !! ("ns", "ka") = Some k' ∧ k_ready k' = false) ∧
    ∀ m', m' ≠ "a" → (run (lift (Lock demo_marshal demo_unmarshal (λ _, false) demo_cluster m')) (Nat.iter (S n) step v)).2 = false.
Proof.
  intros v.
  apply (external_datastore_blocks demo_marshal demo_unmarshal (λ _, false) (λ _, eq_refl) demo_yaml_server demo_yaml_agent id demo_token demo_keys demo_keys
    demo_summary demo_config_owner (λ _, Ok None) (λ l, StrJoin l ",") (λ _, "error") (λ _, None) demo_merge (λ _ _, eq_refl) (λ _, eq_refl)
    (λ _, eq_refl) (λ _, eq_refl) (λ _, eq_refl) v (demo_config "ka" "a" (Some external_server)) "a" (demo_owner "a") (demo_object false) None external_server);
    [|reflexivity|done|reflexivity].
  split; [split; reflexivity || done|reflexivity|done|done|reflexivity|left; reflexivity|].
  intros sk s _ Hs. cbn in Hs. by rewrite lookup_empty in Hs.
Defined.

Definition demo_pair : KeyPair := {| kp_cert := "crt"; kp_key := "key" |}.
Definition demo_certificates : list Certificate := map (with_keyPair demo_pair true) NewCertificatesForInitialControlPlane.
Definition demo_certificate : Secret :=
  {| s_labels := ∅; s_owners := []; s_data := {["tls.crt" := "crt"; "tls.key" := "key"]}; s_type := "" |}.
Definition demo_value (v : string) : Secret := value_secret (demo_object true) (demo_config "ka" "a" None) v.
Definition demo_input : BaseUserData := {| bu_pre := []; bu_post := []; bu_additional := []; bu_config := config_file "server t " |}.
Definition demo_text : string := match NewInitControlPlane id demo_input demo_certificates with Ok s => s | _ => "" end.

Definition demo_secrets : gmap (string * string) Secret :=
  {[("ns", "c-token") := demo_value "t"; ("ns", "c-ca") := demo_certificate; ("ns", "c-cca") := demo_certificate;
    ("ns", "ka") := demo_value demo_text]}.

