(* ===== verification/HostSelect.v ===== *)
(** * Choosing hosts for a group:
      [src/feature/pkg/controllers/infrastructure/inventory_hostselector.go] and
      the provider IDs of [src/feature/pkg/const/helper.go]

    A controller that needs more hosts in a group takes them from those in no
    group.  The choice is a slice of the list [ConvertGroup] keeps of them; that
    list has the capacity of all hosts, and what was removed from it is zeroed
    behind its end. *)

From S2P Require Import Prelude GoStrings Fuel Groups.
From stdpp Require Import strings list.

#[local] Open Scope nat_scope.

(** ** Provider IDs *)

(** "kk://<cluster>/" *)
Definition provider_prefix (clusterName : string) : string := "kk://" +:+ clusterName +:+ "/".

Definition Host2ProviderID (clusterName host : string) : option string :=
  Some ("kk://" +:+ clusterName +:+ "/" +:+ host).

Definition ProviderID2Host (clusterName : string) (providerID : option string) : string :=
  TrimPrefix (default "" providerID) (provider_prefix clusterName).

(** ** Groups of an inventory as a map *)

(** [inv.Spec.Groups[name]] *)
Definition get_group (inv : Inventory) (name : string) : InventoryGroup :=
  default zero_group (alookup name (inv_groups inv)).

Definition set_group (inv : Inventory) (name : string) (g : InventoryGroup) : Inventory :=
  {| inv_hosts := inv_hosts inv; inv_vars := inv_vars inv; inv_groups := aset name g (inv_groups inv) |}.

(** [group.Hosts = hosts] *)
Definition with_hosts (g : InventoryGroup) (hosts : list string) : InventoryGroup :=
  {| group_groups := group_groups g; group_hosts := hosts; group_vars := group_vars g |}.

(** ** Selection *)

Section Selection.

(** [rand.Int(rand.Reader, i + 1)]: [None] when it fails. *)
Context (draw : nat → option nat).

(** [hosts[i], hosts[j] = hosts[j], hosts[i]] *)
Definition swap (i j : nat) (hosts : list string) : list string :=
  match hosts !! i, hosts !! j with
  | Some hi, Some hj => <[j := hi]> (<[i := hj]> hosts)
  | _, _ => hosts
  end.

(** The loop of [shuffleHosts], from [i] down to 1. *)
Fixpoint shuffle_from (i : nat) (hosts : list string) : list string :=
  match i with
  | O => hosts
  | S i' => shuffle_from i' (match draw i with Some j => swap i j hosts | None => hosts end)
  end.

Definition shuffleHosts (hosts : list string) : list string := shuffle_from (length hosts - 1) hosts.

(** [ungrouped[:remain]]: past its end the list goes on up to its capacity,
    the number of hosts, with what [slices.Delete] has zeroed. *)
Definition slice_ungrouped (inv : Inventory) (ungrouped : list string) (remain : nat) : result (list string) :=
  if bool_decide (remain ≤ length (inv_hosts inv))
  then Ok (take remain (ungrouped ++ replicate (length (inv_hosts inv) - length ungrouped) ""))
  else Panic "slice bounds out of range".

(** What both selectors do with the list of ungrouped hosts; [None]:
    [ConvertGroup] does not return. *)
Definition select_hosts (order : list string → list string) (groupName : string) (remain : Z) (inv : Inventory)
    : load (list string * Inventory) :=
  if bool_decide (0 < remain)%Z then
    match ConvertGroup inv with
    | None => None
    | Some groups =>
        match groups !! VariableUnGrouped with
        | None => lret ([], inv)
        | Some ungrouped =>
            Some (let! availableHosts := slice_ungrouped inv (order ungrouped) (Z.to_nat remain) in
                  let g := get_group inv groupName in
                  Ok (availableHosts, set_group inv groupName (with_hosts g (group_hosts g ++ availableHosts))))
        end
    end
  else lret ([], inv).

Definition RandomSelector : string → Z → Inventory → load (list string * Inventory) := select_hosts shuffleHosts.

Definition SequenceSelector : string → Z → Inventory → load (list string * Inventory) := select_hosts (λ l, l).

End Selection.

(** ** Lemmas *)

Lemma provider_roundtrip clusterName host : ProviderID2Host clusterName (Host2ProviderID clusterName host) = host.
Proof.
  unfold ProviderID2Host, Host2ProviderID, provider_prefix. cbn [default from_option id].
  replace ("kk://" +:+ clusterName +:+ "/" +:+ host) with (("kk://" +:+ clusterName +:+ "/") +:+ host)
    by (by rewrite !str_app_assoc).
  apply TrimPrefix_app.
Qed.

Lemma get_group_set inv name name' g :
  get_group (set_group inv name' g) name = if bool_decide (name = name') then g else get_group inv name.
Proof. unfold get_group. simpl. rewrite alookup_aset. by case_bool_decide. Qed.

Lemma aset_keys {A} k (v : A) l x : x ∈ map fst (aset k v l) ↔ x = k ∨ x ∈ map fst l.
Proof.
  induction l as [|[k0 a] l IH]; simpl; [rewrite list_elem_of_singleton; split; [by left|intros [?|H]; [done|by apply not_elem_of_nil in H]]|].
  case_bool_decide as E; simpl; rewrite !elem_of_cons; [subst; tauto|]. rewrite IH. tauto.
Qed.

Section SelectionLemmas.
Context (draw : nat → option nat).

Lemma swap_Permutation i j hosts : swap i j hosts ≡ₚ hosts.
Proof.
  unfold swap. destruct (hosts !! i) as [hi|] eqn:Ei, (hosts !! j) as [hj|] eqn:Ej; try done.
  by apply Permutation_insert_swap.
Qed.

Lemma shuffle_Permutation hosts : shuffleHosts draw hosts ≡ₚ hosts.
Proof.
  unfold shuffleHosts. generalize (length hosts - 1). intros i. revert hosts.
  induction i as [|i IH]; intros hosts; cbn [shuffle_from]; [done|]. rewrite IH.
  destruct (draw (S i)); [apply swap_Permutation|done].
Qed.

End SelectionLemmas.

(** ** What is selected *)

(** The hosts of the inventory that are in none of its groups. *)
Definition ungrouped_host (inv : Inventory) (h : string) : Prop :=
  h ∈ map fst (inv_hosts inv) ∧ ∀ g, g ∈ map fst (inv_groups inv) → ¬ in_group inv g h.

(** The selected hosts [hs] of an inventory with the ungrouped hosts [u]. *)
Lemma select_hosts_spec order groupName remain inv :
  (∀ l, order l ≡ₚ l) → acyclic inv → NoDup (map fst (inv_hosts inv)) → (0 < remain)%Z →
  ∃ u, NoDup u ∧ (∀ x, x ∈ u ↔ ungrouped_host inv x)
    ∧ select_hosts order groupName remain inv
      = if bool_decide (Z.to_nat remain ≤ length (inv_hosts inv))
        then let hs := take (Z.to_nat remain) (u ++ replicate (length (inv_hosts inv) - length u) "") in
             let g := get_group inv groupName in
             lret (hs, set_group inv groupName (with_hosts g (group_hosts g ++ hs)))
        else Some (Panic "slice bounds out of range").
Proof.
  intros Ho Ha Hnd Hr.
  destruct (ConvertGroup_flattens inv Ha Hnd) as (groups & Eg & _ & _ & u & Eu & Hu & Hx).
  exists (order u). split_and!.
  - by rewrite Ho.
  - intros x. rewrite (elem_of_Permutation_proper x (order u) u (Ho u)). apply Hx.
  - unfold select_hosts. rewrite bool_decide_true by done. rewrite Eg, Eu. unfold slice_ungrouped.
    by case_bool_decide; simpl.
Qed.

Lemma ungrouped_length inv u :
  NoDup u → (∀ x, x ∈ u ↔ ungrouped_host inv x) → length u ≤ length (inv_hosts inv).
Proof.
  intros Hu Hx. rewrite <-(length_map fst). apply NoDup_subset_length; [done|].
  intros x H. by apply Hx in H as [? _].
Qed.

(** [group.Hosts = append(group.Hosts, hs...)] *)
Definition chosen (groupName : string) (inv : Inventory) (hs : list string) : Inventory :=
  let g := get_group inv groupName in set_group inv groupName (with_hosts g (group_hosts g ++ hs)).

(** Whatever is selected is in no group, or it is no host at all. *)
Lemma select_hosts_ok order groupName remain inv hs inv' :
  (∀ l, order l ≡ₚ l) → acyclic inv → NoDup (map fst (inv_hosts inv)) →
  select_hosts order groupName remain inv = Some (Ok (hs, inv')) →
  (inv' = inv ∧ hs = [] ∨ inv' = chosen groupName inv hs) ∧ ∀ h, h ∈ hs → h = "" ∨ ungrouped_host inv h.
Proof.
  intros Ho Ha Hnd E. destruct (decide (0 < remain)%Z) as [Hr|Hr].
  - destruct (select_hosts_spec order groupName remain inv Ho Ha Hnd Hr) as (u & _ & Hx & Es).
    rewrite Es in E. case_bool_decide; [|discriminate E]. apply lret_ok in E. injection E as <- <-. split; [by right|].
    intros h Hh. assert (Hin : h ∈ u ++ replicate (length (inv_hosts inv) - length u) "").
    { eapply subseteq_take. exact Hh. }
    apply elem_of_app in Hin as [Hin|Hin]; [right; by apply Hx|left]. by apply elem_of_replicate in Hin as [? _].
  - unfold select_hosts in E. rewrite bool_decide_false in E by done. apply lret_ok in E. injection E as <- <-.
    split; [by left|]. intros h Hh. by apply not_elem_of_nil in Hh.
Qed.

(** ** Properties *)

(** [RandomSelector] adds to the group as many hosts as are asked for.  With
    enough hosts outside the groups they are distinct hosts of the inventory in
    no group; with fewer, all of those, and for each one missing the empty host
    name, as long as the inventory has that many hosts at all, and a panic
    beyond that.  The code checks the number nowhere. *)
Theorem RandomSelector_selects draw groupName remain inv :
  acyclic inv → NoDup (map fst (inv_hosts inv)) → (0 < remain)%Z →
  ∃ u, NoDup u ∧ (∀ x, x ∈ u ↔ ungrouped_host inv x)
    ∧ (Z.to_nat remain ≤ length u →
       ∃ hs, RandomSelector draw groupName remain inv = lret (hs, chosen groupName inv hs)
         ∧ NoDup hs ∧ length hs = Z.to_nat remain ∧ hs ⊆ u)
    ∧ (length u < Z.to_nat remain ≤ length (inv_hosts inv) →
       let hs := u ++ replicate (Z.to_nat remain - length u) "" in
       RandomSelector draw groupName remain inv = lret (hs, chosen groupName inv hs))
    ∧ (length (inv_hosts inv) < Z.to_nat remain →
       RandomSelector draw groupName remain inv = Some (Panic "slice bounds out of range")).
Proof.
  intros Ha Hnd Hr.
  destruct (select_hosts_spec (shuffleHosts draw) groupName remain inv (shuffle_Permutation draw) Ha Hnd Hr)
    as (u & Hu & Hx & Es). fold (RandomSelector draw groupName remain inv) in Es.
  pose proof (ungrouped_length inv u Hu Hx) as Hl. exists u. split_and!; [done|done| | |].
  - intros H. exists (take (Z.to_nat remain) u). rewrite Es, bool_decide_true by lia.
    rewrite take_app_le by lia. split_and!; [done|..].
    + rewrite <-(take_drop (Z.to_nat remain) u) in Hu. by apply NoDup_app in Hu as [? _].
    + rewrite length_take. lia.
    + apply subseteq_take.
  - intros [H1 H2] hs. rewrite Es, bool_decide_true by lia.
    rewrite take_app_ge, take_replicate, Nat.min_l by lia. done.
  - intros H. by rewrite Es, bool_decide_false by lia.
Qed.

Lemma ex_inventory_hosts : NoDup (map fst (inv_hosts ex_inventory)).
Proof. apply (bool_decide_unpack _). by vm_compute. Qed.

Lemma ex_inventory_node3 : ungrouped_host ex_inventory "node3".
Proof.
  destruct (ConvertGroup_flattens ex_inventory ex_inventory_acyclic ex_inventory_hosts)
    as (groups & E & _ & _ & u & Eu & _ & Hx).
  assert (E3 : (groups ← ConvertGroup ex_inventory; groups !! VariableUnGrouped) = Some ["node3"])
    by (vm_compute; reflexivity).
  rewrite E in E3. simpl in E3. rewrite Eu in E3. injection E3 as ->. apply Hx. by left.
Qed.

Lemma RandomSelector_selects_witness :
  ∃ hs, RandomSelector (λ _, None) "worker" 1 ex_inventory = lret (hs, chosen "worker" ex_inventory hs)
    ∧ length hs = 1.
Proof.
  destruct (RandomSelector_selects (λ _, None) "worker" 1 ex_inventory) as (u & Hu & Hx & H & _);
    [exact ex_inventory_acyclic|exact ex_inventory_hosts|lia|].
  destruct H as (hs & E & _ & Hn & _); [|by exists hs].
  pose proof (proj2 (Hx "node3") ex_inventory_node3) as H3. destruct u; [by apply not_elem_of_nil in H3|simpl; lia].
Defined.

(** One host is in no group, two are asked for: the second has no name. *)
Example RandomSelector_unnamed :
  RandomSelector (λ _, None) "worker" 2 ex_inventory
  = lret (["node3"; ""], chosen "worker" ex_inventory ["node3"; ""]).
Proof. vm_compute. reflexivity. Qed.

Example RandomSelector_panics :
  RandomSelector (λ _, None) "worker" 4 ex_inventory = Some (Panic "slice bounds out of range").
Proof. vm_compute. reflexivity. Qed.
