(* ===== verification/Capkk.v ===== *)
(** * The objects and the client of the CAPKK controllers:
      [src/feature/pkg/controllers/infrastructure/helper.go],
      [src/feature/pkg/controllers/util/util.go] and the types of
      [src/feature/api]

    A controller reads and writes objects of the API server; each call of the
    client is one step and may fail.  A reconciliation is a function of the
    server and of the object it changes in memory, which it writes back at its
    end. *)

From S2P Require Import Prelude GoStrings Fuel Groups.
From stdpp Require Import gmap strings list sets.

#[local] Open Scope nat_scope.

(** ** Objects *)

Record OwnerRef := { or_apiVersion : string; or_kind : string; or_name : string; or_uid : string }.

#[export] Instance OwnerRef_eq_dec : EqDecision OwnerRef.
Proof. solve_decision. Defined.

(** The metadata the controllers read or set; writing to annotations that are
    nil ([None]) panics. *)
Record ObjectMeta := {
  o_namespace : string;
  o_name : string;
  o_uid : string;
  o_labels : gmap string string;
  o_annotations : option (gmap string string);
  o_owners : list OwnerRef;
  o_finalizers : list string;
  o_deleting : bool;
  o_version : nat;
}.

Record KKMachine := {
  km_meta : ObjectMeta;
  km_roles : list string;
  km_providerID : option string;
  km_kubeVersion : option string;
  km_config : option string;
  km_ready : bool;
  km_failureReason : string;
  km_failureMessage : string;
}.

(** A Machine of the Cluster API. *)
Record Machine := { ma_meta : ObjectMeta; ma_version : option string; ma_dataSecretName : option string }.

Record VolumeMount := { vm_name : string; vm_mountPath : string; vm_readOnly : bool }.
Inductive VolumeSource := PersistentVolumeClaim (claimName : string) | Secret (secretName : string).
Record Volume := { vo_name : string; vo_source : VolumeSource }.

Record Playbook := {
  pb_meta : ObjectMeta;
  pb_projectAddr : string;
  pb_playbook : string;
  pb_inventory : string * string;
  pb_config : string;
  pb_volumes : list Volume;
  pb_volumeMounts : list VolumeMount;
  pb_serviceAccountName : string;
  pb_phase : string;
  pb_failureReason : string;
  pb_failureMessage : string;
}.

(** A pod of one container: what the playbook controller sets, and the status:
    phase, message and, by container, the reason and message it ended with. *)
Record Pod := {
  po_meta : ObjectMeta;
  po_serviceAccountName : string;
  po_volumes : list Volume;
  po_volumeMounts : list VolumeMount;
  po_image : string;
  po_imagePullPolicy : string;
  po_args : list string;
  po_phase : string;
  po_message : string;
  po_terminated : list (string * option (string * string));
}.

Definition PlaybookPhaseFailed : string := "Failed".
Definition PlaybookPhaseSucceeded : string := "Succeeded".

(** [kkcorev1.Inventory]; its specification is the one [ConvertGroup] reads. *)
Record InventoryObject := {
  iv_meta : ObjectMeta;
  iv_spec : Inventory;
  iv_ready : bool;
  iv_phase : string;
}.

Definition InventoryPhasePending : string := "Pending".
Definition InventoryPhaseRunning : string := "Running".
Definition InventoryPhaseSucceeded : string := "Succeeded".
Definition InventoryPhaseFailed : string := "Failed".

Record InventoryHost := { ih_name : string; ih_connector : string; ih_vars : option string }.

(** A condition of an object: its status, reason and message. *)
Record Condition := { co_status : string; co_reason : string; co_message : string }.

Record KKCluster := {
  kc_meta : ObjectMeta;
  kc_inventoryHosts : list InventoryHost;
  kc_hostCheckGroup : string;
  kc_tolerate : bool;
  kc_endpointType : string;
  kc_ready : bool;
  kc_failureReason : string;
  kc_failureMessage : string;
  kc_conditions : gmap string Condition;
}.

(** References to other objects: namespace, name and, for the control plane,
    API version and kind. *)
Record Cluster := {
  cl_meta : ObjectMeta;
  cl_paused : bool;
  cl_infrastructureRef : string * string;
  cl_controlPlaneRef : string * string;
  cl_controlPlaneGvk : string * string;
  cl_endpointHost : string;
}.

(** An unstructured object: its API version and kind, and what [NestedInt64]
    answers for [spec.replicas] (0 when it is not set). *)
Record ControlPlane := { cp_meta : ObjectMeta; cp_gvk : string * string; cp_replicas : result Z }.

Record MachineDeployment := { md_meta : ObjectMeta; md_replicas : option Z }.

Definition zero_meta : ObjectMeta :=
  {| o_namespace := ""; o_name := ""; o_uid := ""; o_labels := ∅; o_annotations := None; o_owners := [];
     o_finalizers := []; o_deleting := false; o_version := 0 |}.

Definition zero_inventory : InventoryObject :=
  {| iv_meta := zero_meta; iv_spec := {| inv_hosts := []; inv_vars := ""; inv_groups := [] |};
     iv_ready := false; iv_phase := "" |}.

(** What the API server stores, and how many calls it has answered. *)
Record Server := {
  sv_clusters : list Cluster;
  sv_kkclusters : list KKCluster;
  sv_controlPlanes : list ControlPlane;
  sv_deployments : list MachineDeployment;
  sv_machines : list Machine;
  sv_kkmachines : list KKMachine;
  sv_inventories : list InventoryObject;
  sv_playbooks : list Playbook;
  sv_pods : list Pod;
  sv_secrets : list (string * string);
  sv_calls : nat;
}.

Definition tick (s : Server) : Server :=
  {| sv_clusters := sv_clusters s; sv_kkclusters := sv_kkclusters s; sv_controlPlanes := sv_controlPlanes s;
     sv_deployments := sv_deployments s; sv_machines := sv_machines s; sv_kkmachines := sv_kkmachines s;
     sv_inventories := sv_inventories s; sv_playbooks := sv_playbooks s; sv_pods := sv_pods s; sv_secrets :=
     sv_secrets s; sv_calls := S (sv_calls s) |}.

(** The collections the controllers write. *)

Definition set_kkmachines (l : list KKMachine) (s : Server) : Server :=
  {| sv_clusters := sv_clusters s; sv_kkclusters := sv_kkclusters s; sv_controlPlanes := sv_controlPlanes s;
     sv_deployments := sv_deployments s; sv_machines := sv_machines s; sv_kkmachines := l; sv_inventories :=
     sv_inventories s; sv_playbooks := sv_playbooks s; sv_pods := sv_pods s; sv_secrets := sv_secrets s;
     sv_calls := sv_calls s |}.

Definition set_playbooks (l : list Playbook) (s : Server) : Server :=
  {| sv_clusters := sv_clusters s; sv_kkclusters := sv_kkclusters s; sv_controlPlanes := sv_controlPlanes s;
     sv_deployments := sv_deployments s; sv_machines := sv_machines s; sv_kkmachines := sv_kkmachines s;
     sv_inventories := sv_inventories s; sv_playbooks := l; sv_pods := sv_pods s; sv_secrets := sv_secrets
     s; sv_calls := sv_calls s |}.

Definition set_inventories (l : list InventoryObject) (s : Server) : Server :=
  {| sv_clusters := sv_clusters s; sv_kkclusters := sv_kkclusters s; sv_controlPlanes := sv_controlPlanes s;
     sv_deployments := sv_deployments s; sv_machines := sv_machines s; sv_kkmachines := sv_kkmachines s;
     sv_inventories := l; sv_playbooks := sv_playbooks s; sv_pods := sv_pods s; sv_secrets := sv_secrets s;
     sv_calls := sv_calls s |}.

Definition set_pods (l : list Pod) (s : Server) : Server :=
  {| sv_clusters := sv_clusters s; sv_kkclusters := sv_kkclusters s; sv_controlPlanes := sv_controlPlanes s;
     sv_deployments := sv_deployments s; sv_machines := sv_machines s; sv_kkmachines := sv_kkmachines s;
     sv_inventories := sv_inventories s; sv_playbooks := sv_playbooks s; sv_pods := l; sv_secrets :=
     sv_secrets s; sv_calls := sv_calls s |}.

(** ** Kinds of objects *)

(** What the client needs of a kind to read it: the metadata, the API version
    and kind, and where the server keeps its objects. *)
Class Kind (A : Type) := {
  meta : A → ObjectMeta;
  gvk : A → string * string;
  items : Server → list A;
}.

(** The kinds the controllers write. *)
Class Stored (A : Type) `{Kind A} := {
  with_meta : ObjectMeta → A → A;
  with_items : list A → Server → Server;
}.

#[export] Instance KKMachine_kind : Kind KKMachine :=
  { meta := km_meta; items := sv_kkmachines;
    gvk _ := ("infrastructure.cluster.x-k8s.io/v1beta1", "KKMachine") }.
#[export] Instance KKMachine_stored : Stored KKMachine := {
  with_meta m o := {| km_meta := m; km_roles := km_roles o; km_providerID := km_providerID o;
    km_kubeVersion := km_kubeVersion o; km_config := km_config o; km_ready := km_ready o;
    km_failureReason := km_failureReason o; km_failureMessage := km_failureMessage o |};
  with_items := set_kkmachines }.

#[export] Instance Playbook_kind : Kind Playbook :=
  { meta := pb_meta; items := sv_playbooks; gvk _ := ("kubekey.kubesphere.io/v1", "Playbook") }.
#[export] Instance Playbook_stored : Stored Playbook := {
  with_meta m o := {| pb_meta := m; pb_projectAddr := pb_projectAddr o; pb_playbook := pb_playbook o;
    pb_inventory := pb_inventory o; pb_config := pb_config o; pb_volumes := pb_volumes o;
    pb_volumeMounts := pb_volumeMounts o; pb_serviceAccountName := pb_serviceAccountName o;
    pb_phase := pb_phase o; pb_failureReason := pb_failureReason o; pb_failureMessage := pb_failureMessage o |};
  with_items := set_playbooks }.

#[export] Instance Inventory_kind : Kind InventoryObject :=
  { meta := iv_meta; items := sv_inventories; gvk _ := ("kubekey.kubesphere.io/v1", "Inventory") }.
#[export] Instance Inventory_stored : Stored InventoryObject := {
  with_meta m o := {| iv_meta := m; iv_spec := iv_spec o; iv_ready := iv_ready o; iv_phase := iv_phase o |};
  with_items := set_inventories }.

#[export] Instance Pod_kind : Kind Pod := { meta := po_meta; items := sv_pods; gvk _ := ("v1", "Pod") }.
#[export] Instance Pod_stored : Stored Pod := {
  with_meta m o := {| po_meta := m; po_serviceAccountName := po_serviceAccountName o; po_volumes := po_volumes o;
    po_volumeMounts := po_volumeMounts o; po_image := po_image o; po_imagePullPolicy := po_imagePullPolicy o;
    po_args := po_args o; po_phase := po_phase o; po_message := po_message o; po_terminated := po_terminated o |};
  with_items := set_pods }.

#[export] Instance KKCluster_kind : Kind KKCluster :=
  { meta := kc_meta; items := sv_kkclusters;
    gvk _ := ("infrastructure.cluster.x-k8s.io/v1beta1", "KKCluster") }.

#[export] Instance Cluster_kind : Kind Cluster :=
  { meta := cl_meta; items := sv_clusters; gvk _ := ("cluster.x-k8s.io/v1beta1", "Cluster") }.

#[export] Instance ControlPlane_kind : Kind ControlPlane :=
  { meta := cp_meta; items := sv_controlPlanes; gvk := cp_gvk }.

#[export] Instance MachineDeployment_kind : Kind MachineDeployment :=
  { meta := md_meta; items := sv_deployments; gvk _ := ("cluster.x-k8s.io/v1beta1", "MachineDeployment") }.

#[export] Instance Machine_kind : Kind Machine :=
  { meta := ma_meta; items := sv_machines; gvk _ := ("cluster.x-k8s.io/v1beta1", "Machine") }.

Definition key {A} `{Kind A} (a : A) : string * string := (o_namespace (meta a), o_name (meta a)).

(** ** A reconciliation

    A function of the server and of what it changes in memory ([L]); [None] is
    a call that does not return.  A panic or an error keeps what was done. *)

Definition M (L A : Type) : Type := Server * L → option (result A * (Server * L)).

Definition ret {L A} (a : A) : M L A := λ st, Some (Ok a, st).
Definition fail {L A} (e : error) : M L A := λ st, Some (Err e, st).
Definition panic {L A} (why : string) : M L A := λ st, Some (Panic why, st).

Definition bind {L A B} (m : M L A) (k : A → M L B) : M L B := λ st,
  match m st with
  | None => None
  | Some (Ok a, st') => k a st'
  | Some (Err e, st') => Some (Err e, st')
  | Some (Panic w, st') => Some (Panic w, st')
  end.

Notation "'let*' x ':=' m 'in' k" := (bind m (λ x, k))
  (at level 10, x pattern, m at level 100, k at level 200) : go_scope.

(** [errors.Wrapf] *)
Definition wrap {L A} (what : string) (m : M L A) : M L A := λ st,
  match m st with
  | Some (Err e, st') => Some (Err (Wrap what e), st')
  | r => r
  end.

(** [ok, _ := f()]: the error is dropped. *)
Definition attempt {L A} (m : M L A) : M L (option A) := λ st,
  match m st with
  | None => None
  | Some (Ok a, st') => Some (Ok (Some a), st')
  | Some (Err _, st') => Some (Ok None, st')
  | Some (Panic w, st') => Some (Panic w, st')
  end.

Definition local {L} : M L L := λ st, Some (Ok st.2, st).
Definition set_local {L} (l : L) : M L unit := λ st, Some (Ok tt, (st.1, l)).
Definition lift {L A} (m : load A) : M L A := λ st,
  match m with None => None | Some r => Some (r, st) end.
Definition when {L} (b : bool) (m : M L unit) : M L unit := if b then m else ret tt.

Fixpoint for_each {L A} (f : A → M L unit) (l : list A) : M L unit :=
  match l with
  | [] => ret tt
  | a :: l' => let* _ := f a in for_each f l'
  end.

(** ** The client *)

Section Client.

(** Which calls fail, and with what. *)
Context (api : nat → option error).

Definition call {L A} (f : Server → result A * Server) : M L A := λ '(s, l),
  match api (sv_calls s) with
  | Some e => Some (Err e, (tick s, l))
  | None => let '(r, s') := f (tick s) in Some (r, (s', l))
  end.

Definition find_key {A} `{Kind A} (k : string * string) (l : list A) : option A :=
  List.find (λ a, bool_decide (key a = k)) l.

(** [Get]; [None] is an error [IsNotFound] recognises. *)
Definition Get {L} (A : Type) `{Kind A} (k : string * string) : M L (option A) :=
  call (λ s, (Ok (find_key k (items s)), s)).

(** [List]: without the option [InNamespace], of all namespaces. *)
Definition ListObjects {L} (A : Type) `{Kind A} (select : ObjectMeta → bool) : M L (list A) :=
  call (λ s, (Ok (List.filter (λ a, select (meta a)) (items s)), s)).

(** The list with the objects of [a]'s key changed by [f]. *)
Definition change {A} `{Kind A} (k : string * string) (f : A → list A) (l : list A) : list A :=
  l ≫= λ a, if bool_decide (key a = k) then f a else [a].

Definition NotFound : error := Msg "not found".
Definition Conflict : error := Msg "the object has been modified".
Definition AlreadyExists : error := Msg "already exists".

Definition with_version (v : nat) (m : ObjectMeta) : ObjectMeta :=
  {| o_namespace := o_namespace m; o_name := o_name m; o_uid := o_uid m; o_labels := o_labels m;
     o_annotations := o_annotations m; o_owners := o_owners m; o_finalizers := o_finalizers m;
     o_deleting := o_deleting m; o_version := v |}.

Definition with_deleting (m : ObjectMeta) : ObjectMeta :=
  {| o_namespace := o_namespace m; o_name := o_name m; o_uid := o_uid m; o_labels := o_labels m;
     o_annotations := o_annotations m; o_owners := o_owners m; o_finalizers := o_finalizers m;
     o_deleting := true; o_version := S (o_version m) |}.

(** [Delete]: an object with finalizers is marked, one without is gone. *)
Definition delete_step {A} `{Stored A} (a : A) : list A :=
  if bool_decide (o_finalizers (meta a) = []) then []
  else if o_deleting (meta a) then [a]
  else [with_meta (with_deleting (meta a)) a].

Definition DeleteObject {L A} `{Stored A} (a : A) : M L unit :=
  call (λ s, match find_key (key a) (items s) with
             | None => (Err NotFound, s)
             | Some _ => (Ok tt, with_items (change (key a) delete_step (items s)) s)
             end).

(** [Update]: refused when the object has been changed since it was read. *)
Definition Update {L A} `{Stored A} (a : A) : M L unit :=
  call (λ s, match find_key (key a) (items s) with
             | None => (Err NotFound, s)
             | Some b =>
                 if bool_decide (o_version (meta a) = o_version (meta b))
                 then (Ok tt, with_items (change (key a)
                         (λ _, [with_meta (with_version (S (o_version (meta b))) (meta a)) a]) (items s)) s)
                 else (Err Conflict, s)
             end).

(** [Create] of an object with its name. *)
Definition Create {L A} `{Stored A} (a : A) : M L unit :=
  call (λ s, match find_key (key a) (items s) with
             | Some _ => (Err AlreadyExists, s)
             | None => (Ok tt, with_items (items s ++ [a]) s)
             end).

End Client.

(** ** Lemmas *)

(** What holds of every outcome of a call that returns. *)
Definition outcome {L A} (m : M L A) (st : Server * L) (Q : result A → Server * L → Prop) : Prop :=
  ∀ r st', m st = Some (r, st') → Q r st'.

Section Outcomes.
Context {L : Type}.

Lemma outcome_bind {A B} (m : M L A) (k : A → M L B) st Q :
  outcome m st (λ r st', match r with
                         | Ok a => outcome (k a) st' Q
                         | Err e => Q (Err e) st'
                         | Panic w => Q (Panic w) st'
                         end) →
  outcome (bind m k) st Q.
Proof.
  intros H r st' E. unfold bind in E. destruct (m st) as [[[a|e|w] st1]|] eqn:Em; simplify_eq; specialize (H _ _ Em); [by apply H|done..].
Qed.

Lemma outcome_wrap {A} what (m : M L A) st (Q : result A → Server * L → Prop) :
  outcome m st (λ r st', match r with Err e => Q (Err (Wrap what e)) st' | _ => Q r st' end) →
  outcome (wrap what m) st Q.
Proof.
  intros H r st' E. unfold wrap in E. destruct (m st) as [[[a|e|w] st1]|] eqn:Em; simplify_eq; exact (H _ _ Em).
Qed.

Lemma outcome_mono {A} (m : M L A) st (Q Q' : result A → Server * L → Prop) :
  outcome m st Q → (∀ r st', Q r st' → Q' r st') → outcome m st Q'.
Proof. intros H HQ r st' E. by apply HQ, H. Qed.

Lemma outcome_eq {A} (m : M L A) st (Q : result A → Server * L → Prop) :
  outcome m st Q → outcome m st (λ r st', m st = Some (r, st') ∧ Q r st').
Proof. intros H r st' E. split; [exact E|by apply H]. Qed.

Lemma outcome_ret {A} (a : A) st (Q : result A → Server * L → Prop) : Q (Ok a) st → outcome (ret a) st Q.
Proof. intros H r st' E. unfold ret in E. by simplify_eq. Qed.

Lemma outcome_fail {A} e st (Q : result A → Server * L → Prop) : Q (Err e) st → outcome (fail e) st Q.
Proof. intros H r st' E. unfold fail in E. by simplify_eq. Qed.

Lemma outcome_lift {A} (m : load A) st (Q : result A → Server * L → Prop) :
  (∀ r, m = Some r → Q r st) → outcome (lift m) st Q.
Proof. intros H r st' E. unfold lift in E. destruct m as [x|]; [|done]. injection E as -> ->. by apply H. Qed.

Lemma outcome_local st (Q : result L → Server * L → Prop) : Q (Ok st.2) st → outcome local st Q.
Proof. intros H r st' E. unfold local in E. injection E as <- <-. exact H. Qed.

Lemma outcome_set_local l st (Q : result unit → Server * L → Prop) : Q (Ok tt) (st.1, l) → outcome (set_local l) st Q.
Proof. intros H r st' E. unfold set_local in E. injection E as <- <-. exact H. Qed.

Lemma outcome_attempt {A} (m : M L A) st (Q : result (option A) → Server * L → Prop) :
  outcome m st (λ r st', match r with
                         | Ok a => Q (Ok (Some a)) st'
                         | Err _ => Q (Ok None) st'
                         | Panic w => Q (Panic w) st'
                         end) →
  outcome (attempt m) st Q.
Proof.
  intros H r st' E. unfold attempt in E. destruct (m st) as [[[a|e|w] st1]|] eqn:Em; simplify_eq; exact (H _ _ Em).
Qed.

(** A loop whose steps keep what each of them ends with, also when they fail. *)
Lemma outcome_for_each {A} (f : A → M L unit) l (P : Server * L → Prop) st :
  P st → (∀ a st, a ∈ l → P st → outcome (f a) st (λ _ st', P st')) →
  outcome (for_each f l) st (λ _ st', P st').
Proof.
  intros HP Hf. revert st HP. induction l as [|a l IH]; intros st HP; cbn [for_each]; [by apply outcome_ret|].
  apply outcome_bind. eapply outcome_mono; [apply Hf; [left|exact HP]|].
  intros [[]|e|w] st' HP'; [|done..]. apply IH; [|exact HP']. intros b st1 Hb. apply Hf. by right.
Qed.

(** *** What every outcome of a call keeps *)

Definition keeps {A} (P : Server * L → Prop) (m : M L A) : Prop := ∀ st, P st → outcome m st (λ _ st', P st').

Lemma keeps_seq {A B} P (m : M L A) (k : A → M L B) : keeps P m → (∀ a, keeps P (k a)) → keeps P (bind m k).
Proof.
  intros Hm Hk st HP. apply outcome_bind. eapply outcome_mono; [by apply Hm|].
  intros [a|e|w] st' HP'; [by apply Hk|done..].
Qed.

Lemma keeps_ret {A} P (a : A) : keeps P (ret a).
Proof. intros st HP. by apply outcome_ret. Qed.

Lemma keeps_fail {A} P e : keeps P (fail (A := A) e).
Proof. intros st HP. by apply outcome_fail. Qed.

Lemma keeps_lift {A} P (m : load A) : keeps P (lift m).
Proof. intros st HP. by apply outcome_lift. Qed.

Lemma keeps_local P : keeps P local.
Proof. intros st HP. by apply outcome_local. Qed.

Lemma keeps_wrap {A} P what (m : M L A) : keeps P m → keeps P (wrap what m).
Proof. intros H st HP. apply outcome_wrap. eapply outcome_mono; [by apply H|]. by intros []. Qed.

Lemma keeps_attempt {A} P (m : M L A) : keeps P m → keeps P (attempt m).
Proof. intros H st HP. apply outcome_attempt. eapply outcome_mono; [by apply H|]. by intros []. Qed.

Lemma keeps_when P b (m : M L unit) : keeps P m → keeps P (when b m).
Proof. intros H. destruct b; [exact H|apply keeps_ret]. Qed.

Lemma keeps_for_each {A} P (f : A → M L unit) l : (∀ a, keeps P (f a)) → keeps P (for_each f l).
Proof. intros H. induction l; [apply keeps_ret|]. by apply keeps_seq. Qed.

Lemma keeps_call {A} (P : Server * L → Prop) api (f : Server → result A * Server) :
  (∀ s l, P (s, l) → P (tick s, l)) → (∀ s l, P (s, l) → P ((f s).2, l)) → keeps P (call api f).
Proof.
  intros Ht Hf [s l] HP r st' E. unfold call in E. destruct (api _); [injection E as <- <-; by apply Ht|].
  destruct (f (tick s)) as [r' s'] eqn:Ef. injection E as <- <-.
  change s' with (r', s').2. rewrite <-Ef. by apply Hf, Ht.
Qed.

End Outcomes.

#[export] Hint Resolve keeps_seq keeps_ret keeps_fail keeps_lift keeps_local keeps_wrap keeps_attempt keeps_when
  keeps_for_each : kk.

(** [List] answers what is there. *)
Lemma ListObjects_outcome {L} api (A : Type) `{Kind A} select (s : Server) (l : L) :
  outcome (ListObjects api A select) (s, l) (λ r st', st' = (tick s, l)
    ∧ match r with Ok r => r = List.filter (λ a, select (meta a)) (items (tick s)) | _ => True end).
Proof.
  intros r st' E. unfold ListObjects, call in E. destruct (api _); by injection E as <- <-.
Qed.

(** ** The collections of the server *)

Lemma find_key_Some {A} `{Kind A} k (l : list A) a :
  find_key k l = Some a → key a = k ∧ ∃ l1 l2, l = l1 ++ a :: l2.
Proof.
  intros E. apply List.find_some in E as [Hin E]. apply bool_decide_eq_true in E. split; [done|].
  apply list_elem_of_split. by apply list_elem_of_In.
Qed.

Lemma find_key_None {A} `{Kind A} k (l : list A) a : find_key k l = None → a ∈ l → key a ≠ k.
Proof.
  intros E Hin. apply List.find_none with (x := a) in E; [by apply bool_decide_eq_false in E|].
  by apply list_elem_of_In.
Qed.

Lemma find_key_In {A} `{Kind A} (l : list A) a : NoDup (key <$> l) → a ∈ l → find_key (key a) l = Some a.
Proof.
  intros Hnd Hin. unfold find_key. destruct (List.find _ l) as [b|] eqn:E.
  - apply find_key_Some in E as [Hk (l1 & l2 & ->)].
    rewrite fmap_app, fmap_cons in Hnd. apply NoDup_app in Hnd as (_ & Hd & Hnd).
    apply NoDup_cons in Hnd as [Hnb _]. apply elem_of_app in Hin as [Hin|Hin].
    + exfalso. apply (Hd (key a)); [by apply list_elem_of_fmap_2|]. rewrite <-Hk. by left.
    + apply elem_of_cons in Hin as [->|Hin]; [done|]. exfalso. apply Hnb. rewrite Hk. by apply list_elem_of_fmap_2.
  - exfalso. by apply (find_key_None _ _ _ E Hin).
Qed.

Lemma change_away {A} `{Kind A} k f (l : list A) : k ∉ (key <$> l) → change k f l = l.
Proof.
  induction l as [|a l IH]; [done|]. rewrite fmap_cons, not_elem_of_cons. intros [Hne Hn].
  unfold change. cbn. rewrite bool_decide_false by done. cbn. f_equal. by apply IH.
Qed.

Lemma change_app {A} `{Kind A} k f (l1 l2 : list A) : change k f (l1 ++ l2) = change k f l1 ++ change k f l2.
Proof. apply bind_app. Qed.

Lemma change_unique {A} `{Kind A} f (l1 l2 : list A) a :
  NoDup (key <$> l1 ++ a :: l2) → change (key a) f (l1 ++ a :: l2) = l1 ++ f a ++ l2.
Proof.
  rewrite fmap_app, fmap_cons. intros Hnd. apply NoDup_app in Hnd as (_ & Hd & Hnd).
  apply NoDup_cons in Hnd as [Hna _].
  rewrite change_app, change_away by (intros Hin; apply (Hd _ Hin); by left).
  f_equal. change (a :: l2) with ([a] ++ l2). rewrite change_app, (change_away _ _ l2) by done.
  f_equal. unfold change. cbn. rewrite bool_decide_true by done. by rewrite app_nil_r.
Qed.

#[global] Arguments find_key {A H} k l : simpl never.
#[global] Arguments change {A H} k f l : simpl never.
