(* ===== verification/ClusterScope.v ===== *)
(** * What the CAPKK controllers share:
      [src/feature/pkg/controllers/infrastructure/helper.go],
      [src/feature/pkg/controllers/util/util.go] and [src/feature/pkg/const/env.go]

    The objects of one cluster, the playbooks of an owner, and the volumes a
    playbook's pod mounts. *)

From S2P Require Import Prelude GoStrings Fuel Groups Capkk.
From stdpp Require Import gmap strings list sets.

#[local] Open Scope nat_scope.

(** The libraries and the environment: [schema.ParseGroupVersion], the
    annotations of a paused cluster ([annotations.IsPaused]), the name of a
    cluster's secret ([secret.Name]), what the server appends to a generated
    name, the environment, and the random numbers of [shuffleHosts]. *)
Class KubeLib := {
  ParseGroupVersion : string → result (string * string);
  IsPaused : Cluster → KKCluster → bool;
  secret_Name : string → string → string;
  generated : nat → string;
  LookupEnv : string → option string;
  draw : nat → option nat;
}.

(** ** Constants *)

Definition ClusterNameLabel : string := "cluster.x-k8s.io/cluster-name".
Definition MachineControlPlaneNameLabel : string := "cluster.x-k8s.io/control-plane-name".
Definition MachineDeploymentNameLabel : string := "cluster.x-k8s.io/deployment-name".
Definition CAPKKWorkdir : string := "/kubekey/".
Definition CAPKKProjectdir : string := "/capkk/project/".
Definition CAPKKBinarydir : string := "/capkk/kubekey/".
Definition CAPKKCloudConfigPath : string := "/capkk/cloud/cloud-config".
Definition CAPKKCloudKubeConfigPath : string := "/capkk/cloud/kubeconfig".
Definition CAPKKPlaybookHostCheck : string := "playbooks/host_check.yaml".
Definition CAPKKPlaybookAddNode : string := "playbooks/add_node.yaml".
Definition CAPKKPlaybookDeleteNode : string := "playbooks/delete_node.yaml".
Definition defaultClusterGroup : string := "k8s_cluster".
Definition KKClusterSSHPrivateKeyAnnotation : string := "kkcluster.infrastructure.cluster.x-k8s.io/ssh-auth".
Definition KubeconfigSecret : string := "kubeconfig".

(** ** Metadata *)

Definition annotation (m : ObjectMeta) (k : string) : option string := default ∅ (o_annotations m) !! k.

(** [MatchingLabels] and [HasLabels] *)
Definition has_label_value (k v : string) (m : ObjectMeta) : bool := bool_decide (o_labels m !! k = Some v).
Definition has_label (k : string) (m : ObjectMeta) : bool := bool_decide (is_Some (o_labels m !! k)).

Definition with_finalizers (l : list string) (m : ObjectMeta) : ObjectMeta :=
  {| o_namespace := o_namespace m; o_name := o_name m; o_uid := o_uid m; o_labels := o_labels m;
     o_annotations := o_annotations m; o_owners := o_owners m; o_finalizers := l;
     o_deleting := o_deleting m; o_version := o_version m |}.

(** [controllerutil.ContainsFinalizer], [AddFinalizer] and [RemoveFinalizer] *)
Definition ContainsFinalizer (m : ObjectMeta) (f : string) : bool := bool_decide (f ∈ o_finalizers m).
Definition AddFinalizer (m : ObjectMeta) (f : string) : ObjectMeta :=
  if ContainsFinalizer m f then m else with_finalizers (o_finalizers m ++ [f]) m.
Definition RemoveFinalizer (m : ObjectMeta) (f : string) : ObjectMeta :=
  with_finalizers (List.filter (λ x, negb (bool_decide (x = f))) (o_finalizers m)) m.

Definition with_annotations (a : option (gmap string string)) (m : ObjectMeta) : ObjectMeta :=
  {| o_namespace := o_namespace m; o_name := o_name m; o_uid := o_uid m; o_labels := o_labels m;
     o_annotations := a; o_owners := o_owners m; o_finalizers := o_finalizers m;
     o_deleting := o_deleting m; o_version := o_version m |}.

(** Writing an annotation after making the map when it is nil. *)
Definition set_annotation (k v : string) (m : ObjectMeta) : ObjectMeta :=
  with_annotations (Some (<[k := v]> (default ∅ (o_annotations m)))) m.

(** [ctrl.SetControllerReference] on a fresh object of the owner's namespace. *)
Definition owner_ref {A} `{Kind A} (a : A) : OwnerRef :=
  {| or_apiVersion := (gvk a).1; or_kind := (gvk a).2; or_name := o_name (meta a); or_uid := o_uid (meta a) |}.

(** The objects of one cluster. *)
Record clusterScope := {
  cs_namespace : string;
  cs_name : string;
  cs_cluster : Cluster;
  cs_controlPlane : ControlPlane;
  cs_deployment : MachineDeployment;
  cs_kkcluster : KKCluster;
  cs_inventory : InventoryObject;
}.

Section ClusterScope.
Context `{KL : KubeLib} (api : nat → option error).

(** [Getenv]: a variable that is set but empty is empty. *)
Definition Getenv (env def : string) : string := default def (LookupEnv env).

Definition getControlPlaneGroupName : string := Getenv "CAPKK_GROUP_CONTROLPLANE" "kube_control_plane".
Definition getWorkerGroupName : string := Getenv "CAPKK_GROUP_WORKER" "kube_worker".

(** [GetObjectListFromOwner] *)
Definition owned_by {A} `{Kind A} (owner : A) (m : ObjectMeta) : bool :=
  existsb (λ r, bool_decide (or_kind r = (gvk owner).2) && bool_decide (or_apiVersion r = (gvk owner).1)
                && bool_decide (or_name r = o_name (meta owner)) && bool_decide (or_uid r = o_uid (meta owner)))
    (o_owners m).

Definition GetObjectListFromOwner {L A} `{Kind A} (owner : A) (B : Type) `{Kind B} : M L (list B) :=
  let* l := wrap "failed to list object %q"
    (ListObjects api B (λ m, bool_decide (o_namespace m = o_namespace (meta owner)))) in
  ret (List.filter (λ b, owned_by owner (meta b)) l).

(** [GetOwnerFromObject] of the kind with the given group and kind. *)
Fixpoint owner_from (B : Type) `{Kind B} {L} (g : string * string) (namespace : string) (refs : list OwnerRef) : M L B :=
  match refs with
  | [] => fail (Msg "owner not found")
  | r :: refs' =>
      if bool_decide (or_kind r = g.2) then
        let* gv := wrap "failed to parse gv" (lift (Some (ParseGroupVersion (or_apiVersion r)))) in
        if bool_decide (gv.1 = g.1) then
          let* o := Get api B (namespace, or_name r) in
          match o with Some b => ret b | None => fail NotFound end
        else owner_from B g namespace refs'
      else owner_from B g namespace refs'
  end.

Definition GetOwnerFromObject {L A} `{Kind A} (a : A) (B : Type) `{Kind B} (g : string * string) : M L B :=
  owner_from B g (o_namespace (meta a)) (o_owners (meta a)).

(** [newClusterScope] *)
Definition the_only {A} (d : A) (r : option (list A)) : A :=
  match r with Some [a] => a | _ => d end.

Definition or_not_found {L A} (o : option A) : M L A :=
  match o with Some a => ret a | None => fail NotFound end.

Definition newClusterScope {L} (namespace name : string) : M L clusterScope :=
  let* cluster := wrap "failed to get cluster with scope"
    (let* o := Get api Cluster (namespace, name) in or_not_found o) in
  let* kkcluster := wrap "failed to get kkcluster with scope"
    (let* o := Get api KKCluster (cl_infrastructureRef cluster) in or_not_found o) in
  let* _ := wrap "failed to get group version with scope"
    (lift (Some (ParseGroupVersion (cl_controlPlaneGvk cluster).1))) in
  let* cp := wrap "failed to get control-plane with scope" (Get api ControlPlane (cl_controlPlaneRef cluster)) in
  let* mds := attempt (GetObjectListFromOwner cluster MachineDeployment) in
  let* invs := attempt (GetObjectListFromOwner kkcluster InventoryObject) in
  ret {| cs_namespace := namespace; cs_name := name; cs_cluster := cluster;
         cs_controlPlane :=
           default {| cp_meta := zero_meta; cp_gvk := cl_controlPlaneGvk cluster; cp_replicas := Ok 0%Z |} cp;
         cs_deployment := the_only {| md_meta := zero_meta; md_replicas := None |} mds;
         cs_kkcluster := kkcluster;
         cs_inventory := the_only zero_inventory invs |}.

Definition isPaused (scope : clusterScope) : bool := IsPaused (cs_cluster scope) (cs_kkcluster scope).

(** [ifPlaybookCompleted] *)
Definition completed (p : Playbook) : bool :=
  bool_decide (pb_phase p = PlaybookPhaseFailed) || bool_decide (pb_phase p = PlaybookPhaseSucceeded).

Definition ifPlaybookCompleted {L A} `{Kind A} (owner : A) : M L bool :=
  let* playbooks := GetObjectListFromOwner owner Playbook in
  ret (forallb completed playbooks).

(** [ok, _ := scope.ifPlaybookCompleted(...)] *)
Definition playbooks_done {L A} `{Kind A} (owner : A) : M L bool :=
  let* r := attempt (ifPlaybookCompleted owner) in ret (default false r).

(** [getVolumeMounts] *)
Definition pvc_mount (name path : string) (readOnly : bool) (claim : string) : list (Volume * VolumeMount) :=
  if bool_decide (claim = "") then []
  else [({| vo_name := name; vo_source := PersistentVolumeClaim claim |},
         {| vm_name := name; vm_mountPath := path; vm_readOnly := readOnly |})].

Definition secret_mount (name path secretName : string) : Volume * VolumeMount :=
  ({| vo_name := name; vo_source := Secret secretName |},
   {| vm_name := name; vm_mountPath := path; vm_readOnly := true |}).

Definition getVolumeMounts {L} (scope : clusterScope) : M L (list Volume * list VolumeMount) :=
  let clusterName := o_name (meta (cs_cluster scope)) in
  let pvcs := pvc_mount "kubekey" CAPKKBinarydir false (Getenv "CAPKK_VOLUME_BINARY" "")
    ++ pvc_mount "project" CAPKKProjectdir true (Getenv "CAPKK_VOLUME_PROJECT" "")
    ++ pvc_mount "workdir" CAPKKWorkdir false (Getenv "CAPKK_VOLUME_WORKDIR" "") in
  let ssh := match annotation (meta (cs_kkcluster scope)) KKClusterSSHPrivateKeyAnnotation with
    | Some sshName => [secret_mount "ssh" "/root/.ssh" (if bool_decide (sshName = "") then secret_Name clusterName "ssh" else sshName)]
    | None => []
    end in
  let kubeconfig := secret_Name clusterName KubeconfigSecret in
  let* found := attempt (call api (λ s, (Ok (bool_decide ((cs_namespace scope, kubeconfig) ∈ sv_secrets s)), s))) in
  let l := pvcs ++ ssh
    ++ (if default false found then [secret_mount "kubeconfig" CAPKKCloudKubeConfigPath kubeconfig] else []) in
  ret (map fst l, map snd l).

(** A playbook the controllers create: its name is generated, its owner the
    object it is for. *)
Definition create_playbook {L A} `{Kind A} (scope : clusterScope) (owner : A) (playbook config : string)
    (volumes : list Volume) (mounts : list VolumeMount) : M L string :=
  let name s := o_name (meta owner) +:+ "-" +:+ generated (sv_calls s) in
  let object s := {| pb_meta := {| o_namespace := cs_namespace scope; o_name := name s; o_uid := name s;
                                   o_labels := {[ClusterNameLabel := cs_name scope]}; o_annotations := None;
                                   o_owners := [owner_ref owner]; o_finalizers := []; o_deleting := false;
                                   o_version := 0 |};
                     pb_projectAddr := CAPKKProjectdir; pb_playbook := playbook;
                     pb_inventory := key (cs_inventory scope); pb_config := config;
                     pb_volumes := volumes; pb_volumeMounts := mounts; pb_serviceAccountName := "";
                     pb_phase := ""; pb_failureReason := ""; pb_failureMessage := "" |} in
  λ st, (let* _ := Create api (object st.1) in ret (name st.1)) st.

End ClusterScope.

(** ** What the calls keep *)

Section Keeps.
Context `{KL : KubeLib} (api : nat → option error) (scope : clusterScope).

Lemma keeps_Get {L} (P : Server * L → Prop) A `{Kind A} k :
  (∀ s l, P (s, l) → P (tick s, l)) → keeps P (Get api A k).
Proof. intros Ht. by apply keeps_call. Qed.

Lemma keeps_List {L} (P : Server * L → Prop) A `{Kind A} select :
  (∀ s l, P (s, l) → P (tick s, l)) → keeps P (ListObjects api A select).
Proof. intros Ht. by apply keeps_call. Qed.

Lemma keeps_GetObjectListFromOwner {L A} `{Kind A} (P : Server * L → Prop) (o : A) B `{Kind B} :
  (∀ s l, P (s, l) → P (tick s, l)) → keeps P (GetObjectListFromOwner api o B).
Proof.
  intros Ht. unfold GetObjectListFromOwner. apply keeps_seq; [|intros l; apply keeps_ret].
  by apply keeps_wrap, keeps_List.
Qed.

Lemma keeps_playbooks_done {L A} `{Kind A} (P : Server * L → Prop) (o : A) :
  (∀ s l, P (s, l) → P (tick s, l)) → keeps P (playbooks_done api o).
Proof.
  intros Ht. unfold playbooks_done, ifPlaybookCompleted.
  apply keeps_seq; [apply keeps_attempt, keeps_seq; [by apply keeps_GetObjectListFromOwner|]|];
    intros x; apply keeps_ret.
Qed.

Lemma keeps_getVolumeMounts {L} (P : Server * L → Prop) :
  (∀ s l, P (s, l) → P (tick s, l)) → keeps P (getVolumeMounts api scope).
Proof.
  intros Ht. unfold getVolumeMounts. apply keeps_seq; [|intros x; apply keeps_ret].
  by apply keeps_attempt, keeps_call.
Qed.

Lemma keeps_create_playbook {L A} `{Kind A} (P : Server * L → Prop) (o : A) playbook config vs ms :
  (∀ s l, P (s, l) → P (tick s, l)) → (∀ s l ps, P (s, l) → P (set_playbooks ps s, l)) →
  keeps P (create_playbook api scope o playbook config vs ms).
Proof.
  intros Ht Hp st HP r st' E. revert E. unfold create_playbook. apply keeps_seq; [|intros ?; apply keeps_ret|exact HP].
  apply keeps_call; [done|]. intros s l Hs. simpl. destruct (find_key _ _); simpl; [done|by apply Hp].
Qed.

End Keeps.
