(* ===== verification/InventoryController.v ===== *)
(** * The inventory controller:
      [src/feature/pkg/controllers/infrastructure/inventory_controller.go]

    An inventory is checked by a playbook; once it is ready the controller
    gives every machine of the control plane and of the deployment a host, and
    the hosts to their groups. *)

From S2P Require Import Prelude GoStrings Fuel Groups HostSelect Capkk ClusterScope.
From stdpp Require Import gmap strings list sets.

#[local] Open Scope nat_scope.

Definition InventoryCAPKKFinalizer : string := "inventory.kubekey.kubesphere.io/capkk".
Definition HostCheckPlaybookAnnotation : string := "playbook.kubekey.kubesphere.io/host-check".

(** A double quote. *)
Definition dquote : string := String (Ascii.ascii_of_nat 34) EmptyString.

(** ** The inventory in memory *)

Definition with_status (ready : bool) (phase : string) (i : InventoryObject) : InventoryObject :=
  {| iv_meta := iv_meta i; iv_spec := iv_spec i; iv_ready := ready; iv_phase := phase |}.
Definition with_phase (phase : string) (i : InventoryObject) : InventoryObject := with_status (iv_ready i) phase i.
Definition with_ready (ready : bool) (i : InventoryObject) : InventoryObject := with_status ready (iv_phase i) i.
Definition with_spec (spec : Inventory) (i : InventoryObject) : InventoryObject :=
  {| iv_meta := iv_meta i; iv_spec := spec; iv_ready := iv_ready i; iv_phase := iv_phase i |}.
Definition with_imeta (m : ObjectMeta) (i : InventoryObject) : InventoryObject :=
  {| iv_meta := m; iv_spec := iv_spec i; iv_ready := iv_ready i; iv_phase := iv_phase i |}.

Notation MI := (M InventoryObject).

Definition modify (f : InventoryObject → InventoryObject) : MI unit := let* i := local in set_local (f i).

Definition set_group_hosts (group : string) (hosts : list string) : MI unit :=
  modify (λ i, with_spec (set_group (iv_spec i) group (with_hosts (get_group (iv_spec i) group) hosts)) i).

Definition set_provider (km : KKMachine) (id : option string) : KKMachine :=
  {| km_meta := km_meta km; km_roles := km_roles km; km_providerID := id; km_kubeVersion := km_kubeVersion km;
     km_config := km_config km; km_ready := km_ready km; km_failureReason := km_failureReason km;
     km_failureMessage := km_failureMessage km |}.

Section InventoryController.
Context `{KL : KubeLib} (api : nat → option error).

(** ** The check of the hosts *)

(** The JSON of the configuration. *)
Definition host_check_config (group : string) : string :=
  "{" +:+ dquote +:+ "workdir" +:+ dquote +:+ ":" +:+ dquote +:+ CAPKKWorkdir +:+ dquote +:+ "," +:+ dquote
  +:+ "check_group" +:+ dquote +:+ ":" +:+ dquote +:+ group +:+ dquote +:+ "}".

Definition createHostCheckPlaybook (scope : clusterScope) : MI unit :=
  let* inventory := local in
  let* ok := playbooks_done api inventory in
  if ok then
    let* volumes := getVolumeMounts api scope in
    let* name := wrap "failed to create playbook use inventory"
      (create_playbook api scope inventory CAPKKPlaybookHostCheck
         (host_check_config (kc_hostCheckGroup (cs_kkcluster scope))) volumes.1 volumes.2) in
    modify (λ i, with_imeta (set_annotation HostCheckPlaybookAnnotation name (iv_meta i)) i)
  else ret tt.

(** [Annotations[HostCheckPlaybookAnnotation]] *)
Definition host_check (i : InventoryObject) : string :=
  default "" (annotation (iv_meta i) HostCheckPlaybookAnnotation).

Definition reconcileInventoryPlaybook (scope : clusterScope) : MI unit :=
  let* inventory := local in
  if bool_decide (host_check inventory = "") then createHostCheckPlaybook scope
  else
    let* o := wrap "failed to get playbook with inventory"
      (Get api Playbook (cs_namespace scope, host_check inventory)) in
    match o with
    | None => createHostCheckPlaybook scope
    | Some playbook =>
        if bool_decide (pb_phase playbook = PlaybookPhaseSucceeded) then modify (with_phase InventoryPhaseSucceeded)
        else if bool_decide (pb_phase playbook = PlaybookPhaseFailed) then modify (with_phase InventoryPhaseFailed)
        else ret tt
    end.

(** ** Hosts for the machines *)

(** [setProviderID]: [kkmachine] is a copy of the element of the list, which
    keeps its nil provider ID, and the server has the updated machine. *)
Definition setProviderID (clusterName : string) (kkmachineList : list KKMachine) (availableHosts : list string) : MI unit :=
  for_each (λ host,
    for_each (λ kkmachine,
      match km_providerID kkmachine with
      | Some _ => ret tt
      | None => wrap "failed to set provider to kkmachine"
                  (Update api (set_provider kkmachine (Host2ProviderID clusterName host)))
      end) kkmachineList) availableHosts.

(** [RandomSelector] on the inventory in memory. *)
Definition select (group : string) (remain : Z) : MI (list string) :=
  let* i := local in
  let* r := lift (RandomSelector draw group remain (iv_spec i)) in
  let* _ := set_local (with_spec r.2 i) in ret r.1.

(** The hosts the machines of a list already have. *)
Definition exist_hosts (clusterName : string) (l : list KKMachine) : list string :=
  l ≫= λ km, match km_providerID km with
             | Some _ => [ProviderID2Host clusterName (km_providerID km)]
             | None => []
             end.

(** What both syncs do once the machines are known. *)
Definition sync_group (scope : clusterScope) (group : string) (machines : nat) (kkmachineList : list KKMachine) : MI unit :=
  let exist := exist_hosts (cs_name scope) kkmachineList in
  if bool_decide (machines < length exist) then ret tt
  else
    let* _ := set_group_hosts group exist in
    let* hosts := select group (Z.of_nat machines - Z.of_nat (length exist)) in
    setProviderID (cs_name scope) kkmachineList hosts.

Definition syncInventoryControlPlaneGroups (scope : clusterScope) : MI unit :=
  let* groupNum := wrap "failed to get replicas from controlPlane" (lift (Some (cp_replicas (cs_controlPlane scope)))) in
  if negb (bool_decide (Z.rem groupNum 2 = 1%Z)) then fail (Msg "replicas must be singular")
  else
    let* machineList := GetObjectListFromOwner api (cs_controlPlane scope) Machine in
    if negb (bool_decide (Z.of_nat (length machineList) = groupNum)) then ret tt
    else
      let* kkmachineList := wrap "failed to get kkMachineList"
        (ListObjects api KKMachine
           (has_label_value MachineControlPlaneNameLabel (o_name (meta (cs_controlPlane scope))))) in
      sync_group scope getControlPlaneGroupName (length machineList) kkmachineList.

Definition syncInventoryWorkerGroups (scope : clusterScope) : MI unit :=
  let groupNum := default 0%Z (md_replicas (cs_deployment scope)) in
  let select := has_label_value MachineDeploymentNameLabel (o_name (meta (cs_deployment scope))) in
  let* machineList := wrap "failed to get machineList" (ListObjects api Machine select) in
  if negb (bool_decide (Z.of_nat (length machineList) = groupNum)) then ret tt
  else
    let* kkmachineList := wrap "failed to get kkmachineList" (ListObjects api KKMachine select) in
    sync_group scope getWorkerGroupName (length machineList) kkmachineList.

(** ** Reconciliation *)

(** The switch over the phase. *)
Definition reconcile_phase (scope : clusterScope) : MI unit :=
  let* i := local in
  if bool_decide (iv_phase i = "") || bool_decide (iv_phase i = InventoryPhasePending) then
    let* _ := modify (with_ready false) in
    let* _ := createHostCheckPlaybook scope in
    modify (with_phase InventoryPhaseRunning)
  else if bool_decide (iv_phase i = InventoryPhaseRunning) then reconcileInventoryPlaybook scope
  else if bool_decide (iv_phase i = InventoryPhaseSucceeded) then modify (with_ready true)
  else if bool_decide (iv_phase i = InventoryPhaseFailed) then
    let* _ := when (kc_tolerate (cs_kkcluster scope)) (modify (with_ready true)) in
    when (bool_decide (host_check i = "")) (modify (with_phase InventoryPhasePending))
  else ret tt.

Definition cluster_group : InventoryGroup :=
  {| group_groups := [getControlPlaneGroupName; getWorkerGroupName]; group_hosts := []; group_vars := "" |}.

Definition sync_groups (scope : clusterScope) : MI unit :=
  let* _ := syncInventoryControlPlaneGroups scope in
  let* _ := syncInventoryWorkerGroups scope in
  modify (λ i, with_spec (set_group (iv_spec i) defaultClusterGroup cluster_group) i).

Definition reconcileNormal (scope : clusterScope) : MI unit :=
  let* _ := reconcile_phase scope in
  let* i := local in
  when (iv_ready i) (sync_groups scope).

Definition delete_all {L A} `{Stored A} (what : string) (l : list A) : M L unit :=
  for_each (λ a, wrap what (DeleteObject api a)) l.

Definition reconcileDelete (scope : clusterScope) : MI unit :=
  let* i := local in
  let* playbookList := GetObjectListFromOwner api i Playbook in
  let* _ := delete_all "failed to delete playbook" playbookList in
  let* mdList := wrap "failed to list machineDeployment"
    (ListObjects api KKMachine (λ m, has_label_value ClusterNameLabel (cs_name scope) m && has_label MachineDeploymentNameLabel m)) in
  let* _ := delete_all "failed to delete machineDeployment" mdList in
  if nonempty mdList then ret tt
  else
    let* cpList := wrap "failed to list machineControlPlane"
      (ListObjects api KKMachine (λ m, has_label_value ClusterNameLabel (cs_name scope) m && has_label MachineControlPlaneNameLabel m)) in
    let* _ := delete_all "failed to delete machineControlPlane" cpList in
    when (negb (nonempty playbookList) && negb (nonempty mdList) && negb (nonempty cpList))
      (modify (λ i, with_imeta (RemoveFinalizer (iv_meta i) InventoryCAPKKFinalizer) i)).

(** What follows once the objects of the cluster are known. *)
Definition reconcile_scope (scope : clusterScope) : MI unit :=
  let* i := local in
  if isPaused scope then ret tt
  else if negb (o_deleting (iv_meta i)) && negb (ContainsFinalizer (iv_meta i) InventoryCAPKKFinalizer) then
    modify (λ i, with_imeta (AddFinalizer (iv_meta i) InventoryCAPKKFinalizer) i)
  else if o_deleting (iv_meta i) then reconcileDelete scope
  else reconcileNormal scope.

End InventoryController.
