(* ===== verification/InventorySpec.v ===== *)
(** * What the inventory controller does to machines and groups

    [setProviderID] gives the machines one host; the groups of the control
    plane and of the workers stay exclusive; deletion takes the workers first. *)

From S2P Require Import Prelude GoStrings Fuel Groups HostSelect Capkk ClusterScope InventoryController.
From stdpp Require Import gmap strings list sets relations.

#[local] Open Scope nat_scope.

(** ** Machines get hosts *)

(** A machine as it was, or one of the list that had no provider ID and has the
    host's now. *)
Definition moved (clusterName h : string) (l : list KKMachine) (b b' : KKMachine) : Prop :=
  b' = b ∨ (b ∈ l ∧ km_providerID b = None
            ∧ b' = with_meta (with_version (S (o_version (km_meta b))) (km_meta b))
                     (set_provider b (Host2ProviderID clusterName h))).

Section Moves.
Context (clusterName h : string) (l : list KKMachine).

Lemma moved_key b b' : moved clusterName h l b b' → key b' = key b.
Proof. intros [->|(_ & _ & ->)]; done. Qed.

Lemma moved_labels b b' : moved clusterName h l b b' → o_labels (km_meta b') = o_labels (km_meta b).
Proof. intros [->|(_ & _ & ->)]; done. Qed.

Lemma moved_keys m m' : Forall2 (moved clusterName h l) m m' → key <$> m' = key <$> m.
Proof. induction 1 as [|b b' m m' Hb _ IH]; [done|]. rewrite !fmap_cons, IH. f_equal. by apply moved_key. Qed.

Lemma moved_refl m : Forall2 (moved clusterName h l) m m.
Proof. induction m; constructor; [by left|done]. Qed.

End Moves.

Section Machines.
Context (api : nat → option error) (clusterName : string).
Context (l m0 : list KKMachine) (Hl : ∀ km, km ∈ l → km ∈ m0) (Hkeys : NoDup (key <$> m0)).

(** What a call leaves behind: every machine is as it was or has the host. *)
Definition machines_moved (h : string) (s : Server) : Prop := Forall2 (moved clusterName h l) m0 (sv_kkmachines s).

Definition given (h : string) (km : KKMachine) : KKMachine :=
  with_meta (with_version (S (o_version (km_meta km))) (km_meta km)) (set_provider km (Host2ProviderID clusterName h)).

Lemma moved_version h b b' : moved clusterName h l b b' → o_version (km_meta b') = o_version (km_meta b) → b' = b.
Proof. intros [->|(_ & _ & ->)]; [done|simpl; lia]. Qed.

(** One update: it succeeds on a machine that is still as it was read. *)
Lemma Update_moved h h' km s (i : InventoryObject) :
  machines_moved h s → km ∈ l →
  outcome (Update api (set_provider km (Host2ProviderID clusterName h'))) (s, i) (λ r st',
    st'.2 = i ∧
    match r with
    | Ok _ => ∃ m1 m2, sv_kkmachines s = m1 ++ km :: m2 ∧ sv_kkmachines st'.1 = m1 ++ given h' km :: m2
    | _ => sv_kkmachines st'.1 = sv_kkmachines s
    end).
Proof.
  intros Hm Hin r st' E. unfold Update, call in E.
  destruct (api (sv_calls s)) as [e|]; [by injection E as <- <-|]. cbn in E.
  destruct (find_key _ _) as [b|] eqn:Eb; [|by injection E as <- <-].
  apply find_key_Some in Eb as [Hk (m1 & m2 & Es)]. case_bool_decide as Hv; [|by injection E as <- <-].
  injection E as <- <-. split; [done|]. exists m1, m2.
  assert (Hb : b = km).
  { unfold machines_moved in Hm. rewrite Es in Hm. apply Forall2_app_inv_r in Hm as (k1 & k2 & _ & Hc & E0).
    apply Forall2_cons_inv_r in Hc as (b0 & k3 & Hb0 & _ & E1). rewrite E1 in E0.
    assert (Hkb : key b0 = key km) by (rewrite <-(moved_key _ _ _ _ _ Hb0); exact Hk).
    assert (b0 = km) as ->.
    { pose proof (find_key_In _ _ Hkeys (Hl km Hin)) as F1.
      assert (Hin0 : b0 ∈ m0) by (rewrite E0; apply elem_of_app; right; by left).
      pose proof (find_key_In _ _ Hkeys Hin0) as F2. congruence. }
    eapply moved_version; [exact Hb0|]. by symmetry. }
  subst b. split; [done|]. cbn. rewrite Es.
  change (key (set_provider km _)) with (key km). rewrite change_unique; [done|].
  rewrite <-Es, (moved_keys _ _ _ _ _ Hm). exact Hkeys.
Qed.

Lemma machines_moved_step h km s s' m1 m2 :
  machines_moved h s → km ∈ l → km_providerID km = None →
  sv_kkmachines s = m1 ++ km :: m2 → sv_kkmachines s' = m1 ++ given h km :: m2 → machines_moved h s'.
Proof.
  unfold machines_moved. intros Hm Hin Hn Es Es'. rewrite Es in Hm. rewrite Es'.
  apply Forall2_app_inv_r in Hm as (k1 & k2 & H1 & H2 & E0). apply Forall2_cons_inv_r in H2 as (b0 & k3 & Hb0 & H3 & E1). rewrite E0, E1.
  apply Forall2_app; [done|]. constructor; [|done]. destruct Hb0 as [<-|(_ & _ & ->)]; [by right|done].
Qed.

(** The step of the loops of [setProviderID]. *)
Notation give h := (λ kkmachine : KKMachine,
  match km_providerID kkmachine with
  | Some _ => ret tt
  | None => wrap "failed to set provider to kkmachine"
              (Update api (set_provider kkmachine (Host2ProviderID clusterName h)))
  end : M InventoryObject unit).

(** A pass over the machines with the first host: those it passes are no longer
    as they were read. *)
Lemma first_pass h l' s (i : InventoryObject) :
  (∀ km, km ∈ l' → km ∈ l) → machines_moved h s →
  outcome (for_each (give h) l') (s, i) (λ r st', st'.2 = i ∧ machines_moved h st'.1
    ∧ (∀ km, km_providerID km = None → km ∉ sv_kkmachines s → km ∉ sv_kkmachines st'.1)
    ∧ (r = Ok tt → ∀ km, km ∈ l' → km_providerID km = None → km ∉ sv_kkmachines st'.1)).
Proof.
  revert s. induction l' as [|km l' IH]; intros s Hsub Hm; cbn [for_each].
  { apply outcome_ret. split_and!; [done..|]. intros _ km Hin. by apply not_elem_of_nil in Hin. }
  apply outcome_bind. destruct (km_providerID km) as [id|] eqn:Eid.
  - apply outcome_ret. eapply outcome_mono; [apply IH; [|exact Hm]|].
    { intros km' Hin. apply Hsub. by right. }
    intros r st' (H1 & H2 & H3 & H4). split_and!; [done..|]. intros Hr km' Hin Hn.
    apply elem_of_cons in Hin as [->|Hin]; [congruence|by apply H4].
  - apply outcome_wrap. eapply outcome_mono; [apply (Update_moved h); [exact Hm|apply Hsub; by left]|].
    intros [[]|e|w] [s' i'] [Hi H]; cbn in Hi, H; subst i'.
    2,3: unfold machines_moved; cbn; rewrite H; split_and!; done.
    destruct H as (m1 & m2 & Es & Es').
    assert (Hm' : machines_moved h s') by (eapply machines_moved_step; eauto; apply Hsub; by left).
    assert (Hgone : ∀ km', km_providerID km' = None → km' ∉ sv_kkmachines s → km' ∉ sv_kkmachines s').
    { intros km' Hn Hnin Hin. apply Hnin. rewrite Es' in Hin. rewrite Es.
      apply elem_of_app in Hin as [Hin|Hin]; [apply elem_of_app; by left|].
      apply elem_of_cons in Hin as [->|Hin]; [discriminate Hn|]. apply elem_of_app. right. by right. }
    eapply outcome_mono; [apply IH; [|exact Hm']|].
    { intros km' Hin. apply Hsub. by right. }
    intros r st' (H1 & H2 & H3 & H4). split_and!; [done|done|by eauto|].
    intros Hr km' Hin Hn. apply elem_of_cons in Hin as [->|Hin]; [|by apply H4]. apply H3; [done|].
    intros Hin. assert (Hnd : NoDup (key <$> sv_kkmachines s)) by (rewrite (moved_keys _ _ _ _ _ Hm); exact Hkeys).
    rewrite Es, fmap_app, fmap_cons in Hnd. apply NoDup_app in Hnd as (_ & Hd & Hnd).
    apply NoDup_cons in Hnd as [Hnk _]. rewrite Es' in Hin. apply elem_of_app in Hin as [Hin|Hin].
    + apply (Hd (key km)); [by apply list_elem_of_fmap_2|by left].
    + apply elem_of_cons in Hin as [E|Hin]; [by rewrite E in Hn|]. apply Hnk. by apply list_elem_of_fmap_2.
Qed.

(** A later pass gives nothing: its first update is refused. *)
Lemma later_pass h h' l' s (i : InventoryObject) :
  (∀ km, km ∈ l' → km ∈ l) → machines_moved h s →
  (∀ km, km ∈ l → km_providerID km = None → km ∉ sv_kkmachines s) →
  outcome (for_each (give h') l') (s, i) (λ r st', st'.2 = i ∧ sv_kkmachines st'.1 = sv_kkmachines s
    ∧ (r = Ok tt → ∀ km, km ∈ l' → km_providerID km ≠ None)).
Proof.
  revert s. induction l' as [|km l' IH]; intros s Hsub Hm Hgone; cbn [for_each].
  { apply outcome_ret. split_and!; [done..|]. intros _ km Hin. by apply not_elem_of_nil in Hin. }
  apply outcome_bind. destruct (km_providerID km) as [id|] eqn:Eid.
  - apply outcome_ret. eapply outcome_mono; [apply IH; [|exact Hm|exact Hgone]|].
    { intros km' Hin. apply Hsub. by right. }
    intros r st' (H1 & H2 & H3). split_and!; [done..|]. intros Hr km' Hin.
    apply elem_of_cons in Hin as [->|Hin]; [congruence|by apply H3].
  - apply outcome_wrap. eapply outcome_mono; [apply (Update_moved h); [exact Hm|apply Hsub; by left]|].
    intros [[]|e|w] [s' i'] [Hi H]; cbn in Hi, H; subst i'; [|split_and!; done..].
    destruct H as (m1 & m2 & Es & _). exfalso. apply (Hgone km); [apply Hsub; by left|done|].
    rewrite Es. apply elem_of_app. right. by left.
Qed.

Lemma setProviderID_outcome hosts s (i : InventoryObject) :
  sv_kkmachines s = m0 →
  outcome (setProviderID api clusterName l hosts) (s, i) (λ r st', st'.2 = i
    ∧ match hosts with
      | [] => sv_kkmachines st'.1 = m0
      | h :: later => machines_moved h st'.1
          ∧ (r = Ok tt ∨ (∃ st1, for_each (give h) l (s, i) = Some (Ok tt, st1)) →
             ∀ km, km ∈ l → km_providerID km = None → km ∉ sv_kkmachines st'.1)
          ∧ (r = Ok tt → later ≠ [] → ∀ km, km ∈ l → km_providerID km ≠ None)
      end).
Proof.
  intros E0. unfold setProviderID. destruct hosts as [|h later]; cbn [for_each]; [by apply outcome_ret|].
  apply outcome_bind. assert (Hm : machines_moved h s) by (unfold machines_moved; rewrite E0; apply moved_refl).
  eapply outcome_mono; [apply outcome_eq, (first_pass h); [done|exact Hm]|].
  intros [[]|e|w] [s' i'] (Ef & Hi & Hm' & _ & Hgone); cbn in Hi; subst i'.
  2,3: split_and!; [done|done| |done]; intros [?|[st1 ?]]; congruence.
  specialize (Hgone eq_refl).
  apply (outcome_mono _ _ (λ r st', st'.2 = i ∧ machines_moved h st'.1
    ∧ (∀ km, km ∈ l → km_providerID km = None → km ∉ sv_kkmachines st'.1)
    ∧ (r = Ok tt → later ≠ [] → ∀ km, km ∈ l → km_providerID km ≠ None))).
  2:{ intros r st' (? & ? & ? & ?). by split_and!. }
  clear s E0 Hm Ef.
  revert s' Hm' Hgone. induction later as [|h' later IH]; intros s' Hm' Hgone; cbn [for_each].
  { apply outcome_ret. split_and!; done. }
  apply outcome_bind. eapply outcome_mono; [apply (later_pass h); [done|exact Hm'|exact Hgone]|].
  intros [[]|e|w] [s1 i1] (Hi & Hs & Hall); cbn in Hi, Hs; subst i1.
  2,3: split_and!; [done|unfold machines_moved; cbn; by rewrite Hs|cbn; by rewrite Hs|done].
  specialize (Hall eq_refl). eapply outcome_mono; [apply IH|].
  - unfold machines_moved. cbn. rewrite Hs. exact Hm'.
  - cbn. rewrite Hs. exact Hgone.
  - intros r st' (H1 & H2 & H3 & H4). split_and!; [done|done|exact H3|]. intros _ _. exact Hall.
Qed.

(** Without failing calls the first pass ends. *)
Lemma first_pass_ok h l' s (i : InventoryObject) :
  (∀ n, api n = None) → NoDup (key <$> sv_kkmachines s) → NoDup (key <$> l') →
  (∀ km, km ∈ l' → km ∈ sv_kkmachines s) → ∃ s', for_each (give h) l' (s, i) = Some (Ok tt, (s', i)).
Proof.
  intros Hapi. revert s. induction l' as [|km l' IH]; intros s Hnd Hl' Hin; cbn [for_each]; [by exists s|].
  rewrite fmap_cons in Hl'. apply NoDup_cons in Hl' as [Hk Hl'].
  assert (Hin' : ∀ km', km' ∈ l' → km' ∈ sv_kkmachines s) by (intros km' ?; apply Hin; by right).
  unfold bind at 1. destruct (km_providerID km) as [id|] eqn:Eid; [by apply IH|].
  unfold wrap, Update, call. rewrite Hapi. cbn.
  change (key (set_provider km (Host2ProviderID clusterName h))) with (key km).
  rewrite (find_key_In _ km Hnd) by (apply Hin; by left). rewrite bool_decide_true by done.
  assert (Hkm : km ∈ sv_kkmachines s) by (apply Hin; by left).
  apply list_elem_of_split in Hkm as (m1 & m2 & Es). apply IH; cbn; rewrite ?Es in *.
  - rewrite change_unique by done. rewrite !fmap_app, !fmap_cons in *. exact Hnd.
  - done.
  - rewrite change_unique by done. intros km' Hkm'. specialize (Hin' km' Hkm').
    apply elem_of_app in Hin' as [?|Hin']; [apply elem_of_app; by left|].
    apply elem_of_cons in Hin' as [->|?]; [exfalso; apply Hk; by apply list_elem_of_fmap_2|].
    apply elem_of_app. right. by right.
Qed.

End Machines.

(** ** Calls that return *)

Definition returns {L A} (m : M L A) : Prop := ∀ st, is_Some (m st).

Lemma returns_ret {L A} (a : A) : returns (ret (L := L) a).
Proof. intros st. by eexists. Qed.

Lemma returns_bind {L A B} (m : M L A) (k : A → M L B) : returns m → (∀ a, returns (k a)) → returns (bind m k).
Proof. intros Hm Hk st. unfold bind. destruct (Hm st) as [[[a|e|w] st'] ->]; [apply Hk|done..]. Qed.

Lemma returns_wrap {L A} what (m : M L A) : returns m → returns (wrap what m).
Proof. intros Hm st. unfold wrap. destruct (Hm st) as [[[a|e|w] st'] ->]; done. Qed.

Lemma returns_call {L A} api (f : Server → result A * Server) : returns (call (L := L) api f).
Proof. intros [s l]. unfold call. destruct (api _); [done|]. by destruct (f _). Qed.

Lemma returns_for_each {L A} (f : A → M L unit) l : (∀ a, returns (f a)) → returns (for_each f l).
Proof. intros Hf. induction l; [apply returns_ret|]. apply returns_bind; auto. Qed.

Lemma setProviderID_returns api clusterName l hosts : returns (setProviderID api clusterName l hosts).
Proof.
  unfold setProviderID. apply returns_for_each. intros h. apply returns_for_each. intros km.
  destruct (km_providerID km); [apply returns_ret|]. apply returns_wrap, returns_call.
Qed.

(** What [setProviderID] leaves behind. *)
Lemma setProviderID_moves api c l h later s i :
  NoDup (key <$> sv_kkmachines s) → NoDup (key <$> l) → (∀ km, km ∈ l → km ∈ sv_kkmachines s) →
  ∃ r s', setProviderID api c l (h :: later) (s, i) = Some (r, (s', i))
    ∧ Forall2 (moved c h l) (sv_kkmachines s) (sv_kkmachines s')
    ∧ (later ≠ [] → (∃ km, km ∈ l ∧ km_providerID km = None) → r ≠ Ok tt)
    ∧ ((∀ n, api n = None) → ∀ km, km ∈ l → km_providerID km = None → given c h km ∈ sv_kkmachines s').
Proof.
  intros Hnd Hl Hin. destruct (setProviderID_returns api c l (h :: later) (s, i)) as [[r [s' i']] E].
  destruct (setProviderID_outcome api c l (sv_kkmachines s) Hin Hnd (h :: later) s i eq_refl _ _ E)
    as (Hi & Hm & Hgone & Hlater). cbn in Hi, Hm, Hgone. subst i'. exists r, s'. split_and!; [done|exact Hm| |].
  - intros Hne (km & Hkm & Hn) ->. by apply (Hlater eq_refl Hne km Hkm).
  - intros Hapi km Hkm Hn. destruct (first_pass_ok api c h l s i Hapi Hnd Hl Hin) as [s1 E1].
    assert (Hg : km ∉ sv_kkmachines s') by (apply Hgone; [right; by eexists|done|done]).
    specialize (Hin km Hkm). apply list_elem_of_lookup in Hin as [n En].
    destruct (Forall2_lookup_l _ _ _ _ _ Hm En) as (km' & En' & Hmv).
    apply list_elem_of_lookup_2 in En'. destruct Hmv as [->|(_ & _ & ->)]; [done|exact En'].
Qed.

(** ** Exclusive groups *)

(** A group and the label of the machines whose hosts it holds. *)
Record side := { side_group : string; side_label : ObjectMeta → bool }.

(** What keeps the groups of two sides apart: a host in both is no host, and
    the hosts of each side's machines are in its group. *)
Record exclusive (clusterName : string) (a b : side) (ms : list KKMachine) (inv : Inventory) : Prop := {
  ex_keys : NoDup (key <$> ms);
  ex_labels km : km ∈ ms → side_label a (km_meta km) = true → side_label b (km_meta km) = true → False;
  ex_acyclic : acyclic inv;
  ex_hosts : NoDup (map fst (inv_hosts inv));
  ex_leaves : group_groups (get_group inv (side_group a)) = [] ∧ group_groups (get_group inv (side_group b)) = [];
  ex_disjoint h : h ∈ group_hosts (get_group inv (side_group a)) →
                  h ∈ group_hosts (get_group inv (side_group b)) → h = "";
  ex_left km : km ∈ ms → side_label a (km_meta km) = true → km_providerID km ≠ None →
               ProviderID2Host clusterName (km_providerID km) ∈ group_hosts (get_group inv (side_group a));
  ex_right km : km ∈ ms → side_label b (km_meta km) = true → km_providerID km ≠ None →
                ProviderID2Host clusterName (km_providerID km) ∈ group_hosts (get_group inv (side_group b));
}.

Lemma exclusive_sym c a b ms inv : exclusive c a b ms inv → exclusive c b a ms inv.
Proof. intros [H1 H2 H3 H4 [H5 H5'] H6 H7 H8]. split; eauto. Qed.

(** *** The groups of an inventory *)

Lemma child_same inv inv' :
  (∀ g, group_groups (get_group inv' g) = group_groups (get_group inv g)) → ∀ g cg, child inv' g cg → child inv g cg.
Proof.
  intros Hg g cg (v & Ev & Hc). specialize (Hg g). unfold get_group in Hg. rewrite Ev in Hg. simpl in Hg.
  rewrite Hg in Hc. destruct (alookup g (inv_groups inv)) as [w|] eqn:Ew; [by exists w|].
  by apply not_elem_of_nil in Hc.
Qed.

Lemma acyclic_mono inv inv' : (∀ g cg, child inv' g cg → child inv g cg) → acyclic inv → acyclic inv'.
Proof.
  intros Hc Ha g Ht. apply (Ha g). clear Ha.
  assert (∀ x y, tc (child inv') x y → tc (child inv) x y) as H; [|by apply H].
  induction 1 as [x y H|x y z H _ IH]; [apply tc_once|eapply tc_l; [|exact IH]]; by apply Hc.
Qed.

Lemma get_group_hosts_in_group inv g h : h ∈ group_hosts (get_group inv g) → g ∈ map fst (inv_groups inv) ∧ in_group inv g h.
Proof.
  unfold get_group. destruct (alookup g (inv_groups inv)) as [v|] eqn:E; simpl; [|by intros ?%not_elem_of_nil].
  intros Hh. split; [apply alookup_In; by eexists|by eapply in_group_here].
Qed.

(** The group [g] with the hosts [hs]. *)
Notation regroup inv g hs := (set_group inv g (with_hosts (get_group inv g) hs)).

Lemma regroup_groups inv g hs g' : group_groups (get_group (regroup inv g hs) g') = group_groups (get_group inv g').
Proof. rewrite get_group_set. by case_bool_decide; subst. Qed.

Lemma regroup_hosts inv g hs : group_hosts (get_group (regroup inv g hs) g) = hs.
Proof. rewrite get_group_set. by rewrite bool_decide_true. Qed.

Lemma regroup_other inv g hs g' : g' ≠ g → get_group (regroup inv g hs) g' = get_group inv g'.
Proof. intros H. by rewrite get_group_set, bool_decide_false. Qed.

Section Exclusive.
Context (c : string) (a b : side) (Hab : side_group a ≠ side_group b).

(** Giving the group of one side other hosts. *)
Lemma exclusive_regroup ms inv hs :
  exclusive c a b ms inv →
  (∀ h, h ∈ hs → h ∈ group_hosts (get_group inv (side_group b)) → h = "") →
  (∀ km, km ∈ ms → side_label a (km_meta km) = true → km_providerID km ≠ None → ProviderID2Host c (km_providerID km) ∈ hs) →
  exclusive c a b ms (regroup inv (side_group a) hs).
Proof.
  intros H Hd Hm. split.
  - apply H.
  - apply H.
  - eapply acyclic_mono; [|apply H]. apply child_same, regroup_groups.
  - apply H.
  - rewrite !regroup_groups. apply H.
  - rewrite regroup_hosts, regroup_other by done. exact Hd.
  - rewrite regroup_hosts. exact Hm.
  - rewrite regroup_other by done. apply H.
Qed.

(** Machines that keep their labels and provider IDs. *)
Lemma exclusive_machines ms ms' inv :
  exclusive c a b ms inv → NoDup (key <$> ms') →
  (∀ km', km' ∈ ms' → ∃ km, km ∈ ms ∧ o_labels (km_meta km') = o_labels (km_meta km) ∧ km_providerID km' = km_providerID km) →
  (∀ m m', o_labels m = o_labels m' → side_label a m = side_label a m' ∧ side_label b m = side_label b m') →
  exclusive c a b ms' inv.
Proof.
  intros H Hnd Hms Hlab. split; [done| |apply H|apply H|apply H|apply H| |];
    intros km' Hin; destruct (Hms km' Hin) as (km & Hkm & El & Ep); destruct (Hlab _ _ El) as [Ea Eb];
    rewrite ?Ea, ?Eb, ?Ep; by apply H.
Qed.

(** One host given to machines of one side. *)
Lemma exclusive_moved ms ms' inv h l :
  exclusive c a b ms inv → l = List.filter (λ km, side_label a (km_meta km)) ms →
  Forall2 (moved c h l) ms ms' → h ∈ group_hosts (get_group inv (side_group a)) →
  (∀ m m', o_labels m = o_labels m' → side_label a m = side_label a m' ∧ side_label b m = side_label b m') →
  exclusive c a b ms' inv.
Proof.
  intros H El Hm Hh Hlab.
  assert (Hfrom : ∀ km', km' ∈ ms' → ∃ km, km ∈ ms ∧ moved c h l km km').
  { intros km' Hin. apply list_elem_of_lookup in Hin as [n En].
    destruct (Forall2_lookup_r _ _ _ _ _ Hm En) as (km & E & Hmv). exists km. split; [|done].
    by apply list_elem_of_lookup_2 in E. }
  assert (Hsame : ∀ km km', moved c h l km km' →
    side_label a (km_meta km') = side_label a (km_meta km) ∧ side_label b (km_meta km') = side_label b (km_meta km)).
  { intros km km' Hmv. apply Hlab. by eapply moved_labels. }
  split; [|..|].
  - rewrite (moved_keys _ _ _ _ _ Hm). apply H.
  - intros km' Hin. destruct (Hfrom km' Hin) as (km & Hk & Hmv). destruct (Hsame _ _ Hmv) as [-> ->]. by apply H.
  - apply H.
  - apply H.
  - apply H.
  - apply H.
  - intros km' Hin. destruct (Hfrom km' Hin) as (km & Hk & Hmv). destruct (Hsame _ _ Hmv) as [-> _].
    destruct Hmv as [->|(_ & _ & ->)]; [by apply H|]. intros _ _. cbn. rewrite provider_roundtrip. exact Hh.
  - intros km' Hin. destruct (Hfrom km' Hin) as (km & Hk & Hmv). destruct (Hsame _ _ Hmv) as [_ ->].
    destruct Hmv as [->|(Hl & _ & ->)]; [by apply H|]. intros Hb _. exfalso.
    rewrite El in Hl. apply list_elem_of_In, filter_In in Hl as [_ Ha]. by eapply (ex_labels _ _ _ _ _ H km).
Qed.

End Exclusive.

(** ** The controller keeps the groups exclusive *)

Section Controller.
Context `{KL : KubeLib} (api : nat → option error) (scope : clusterScope).

Definition cp_side : side :=
  {| side_group := getControlPlaneGroupName;
     side_label := has_label_value MachineControlPlaneNameLabel (o_name (meta (cs_controlPlane scope))) |}.
Definition worker_side : side :=
  {| side_group := getWorkerGroupName;
     side_label := has_label_value MachineDeploymentNameLabel (o_name (meta (cs_deployment scope))) |}.

Notation by_labels a b := (∀ m m', o_labels m = o_labels m' →
  side_label a m = side_label a m' ∧ side_label b m = side_label b m').

Lemma exist_hosts_elem c l h :
  h ∈ exist_hosts c l ↔ ∃ km, km ∈ l ∧ km_providerID km ≠ None ∧ h = ProviderID2Host c (km_providerID km).
Proof.
  unfold exist_hosts. rewrite list_elem_of_bind. split.
  - intros (km & Hh & Hkm). exists km. destruct (km_providerID km); [|by apply not_elem_of_nil in Hh].
    apply list_elem_of_singleton in Hh as ->. done.
  - intros (km & Hkm & Hn & ->). exists km. destruct (km_providerID km); [|done]. split; [by left|done].
Qed.

(** What the selection does to the inventory in memory. *)
Lemma select_outcome group remain s i :
  acyclic (iv_spec i) → NoDup (map fst (inv_hosts (iv_spec i))) →
  outcome (select group remain) (s, i) (λ r st',
    st'.1 = s ∧ match r with
                | Ok hs => (∀ h, h ∈ hs → h = "" ∨ ungrouped_host (iv_spec i) h)
                           ∧ (iv_spec st'.2 = iv_spec i ∧ hs = [] ∨ iv_spec st'.2 = chosen group (iv_spec i) hs)
                | _ => st'.2 = i
                end).
Proof.
  intros Ha Hh. unfold select. apply outcome_bind, outcome_local, outcome_bind, outcome_lift. cbn [fst snd].
  intros r Er. destruct r as [[hs inv']|e|w]; [|done..]. apply outcome_bind, outcome_set_local, outcome_ret.
  split; [done|].
  apply (select_hosts_ok _ _ _ _ _ _ (shuffle_Permutation draw) Ha Hh) in Er as [Hi Hs]. cbn. split; [done|exact Hi].
Qed.

Lemma sync_group_exclusive a b n l s i :
  side_group a ≠ side_group b → by_labels a b →
  exclusive (cs_name scope) a b (sv_kkmachines s) (iv_spec i) →
  l = List.filter (λ km, side_label a (km_meta km)) (sv_kkmachines s) →
  outcome (sync_group api scope (side_group a) n l) (s, i)
    (λ _ st', exclusive (cs_name scope) a b (sv_kkmachines st'.1) (iv_spec st'.2)).
Proof.
  intros Hab Hlab H El. unfold sync_group. case_bool_decide; [by apply outcome_ret|].
  set (exist := exist_hosts (cs_name scope) l).
  assert (Hex : ∀ h, h ∈ exist ↔ ∃ km, km ∈ sv_kkmachines s ∧ side_label a (km_meta km) = true
                                  ∧ km_providerID km ≠ None ∧ h = ProviderID2Host (cs_name scope) (km_providerID km)).
  { intros h. unfold exist. rewrite exist_hosts_elem, El. split.
    - intros (km & Hk & Hn & ->). apply list_elem_of_In, filter_In in Hk as [Hk Hla]. exists km.
      by rewrite list_elem_of_In.
    - intros (km & Hk & Hla & Hn & ->). exists km. rewrite list_elem_of_In, filter_In, <-list_elem_of_In. done. }
  unfold set_group_hosts, modify.
  apply outcome_bind, outcome_bind, outcome_local, outcome_set_local, outcome_bind. cbn [fst snd].
  set (i1 := with_spec _ i).
  assert (H1 : exclusive (cs_name scope) a b (sv_kkmachines s) (iv_spec i1)).
  { apply exclusive_regroup; [done|done| |].
    - intros h Hh. apply Hex in Hh as (km & Hk & Hla & Hn & ->). by apply H; apply H.
    - intros km Hk Hla Hn. apply Hex. by exists km. }
  eapply outcome_mono; [apply select_outcome; apply H1|].
  intros r [s2 i2] [Es Hr]. cbn in Es. subst s2. destruct r as [hs|e|w]; [|cbn in Hr; by subst i2..].
  destruct Hr as [Hsel Hi2]. cbn in Hi2.
  assert (H2 : exclusive (cs_name scope) a b (sv_kkmachines s) (iv_spec i2)
               ∧ ∀ h, h ∈ hs → h ∈ group_hosts (get_group (iv_spec i2) (side_group a))).
  { destruct Hi2 as [[-> ->]| ->]; [split; [done|by intros h ?%not_elem_of_nil]|]. unfold chosen. split.
    - apply exclusive_regroup; [done|done| |].
      + intros h Hh Hb. apply elem_of_app in Hh as [Hh|Hh]; [by apply H1|].
        destruct (Hsel h Hh) as [->|[_ Hu]]; [done|]. exfalso.
        apply get_group_hosts_in_group in Hb as [Hb1 Hb2]. by apply (Hu (side_group b)).
      + intros km Hk Hla Hn. apply elem_of_app. left. by apply H1.
    - intros h Hh. rewrite regroup_hosts. apply elem_of_app. by right. }
  destruct H2 as [H2 Hin].
  eapply outcome_mono; [apply (setProviderID_outcome api (cs_name scope) l (sv_kkmachines s)); [|apply H2|done]|].
  { intros km Hk. rewrite El in Hk. by apply list_elem_of_In, filter_In in Hk as [?%list_elem_of_In _]. }
  intros r [s3 i3] [Ei Hm]. cbn in Ei, Hm. subst i3. cbn. destruct hs as [|h later].
  - by rewrite Hm.
  - destruct Hm as [Hm _]. eapply exclusive_moved; [exact H2|exact El|exact Hm|apply Hin; by left|exact Hlab].
Qed.

(** Membership in the invariant, which looks at the machines and at the
    specification of the inventory only. *)
Definition Exclusive (st : Server * InventoryObject) : Prop :=
  exclusive (cs_name scope) cp_side worker_side (sv_kkmachines st.1) (iv_spec st.2).

Lemma keeps_modify (P : Server * InventoryObject → Prop) f : (∀ s i, P (s, i) → P (s, f i)) → keeps P (modify f).
Proof.
  intros H [s i] HP. unfold modify. apply outcome_bind, outcome_local, outcome_set_local. by apply H.
Qed.

(** *** The phases *)

Lemma Exclusive_tick s i : Exclusive (s, i) → Exclusive (tick s, i).
Proof. exact (λ H, H). Qed.
Lemma Exclusive_playbooks s i ps : Exclusive (s, i) → Exclusive (set_playbooks ps s, i).
Proof. exact (λ H, H). Qed.
Local Hint Resolve Exclusive_tick Exclusive_playbooks : core.

Lemma createHostCheckPlaybook_keeps : keeps Exclusive (createHostCheckPlaybook api scope).
Proof.
  unfold createHostCheckPlaybook. apply keeps_seq; [apply keeps_local|intros i].
  apply keeps_seq; [by apply keeps_playbooks_done|intros []; [|apply keeps_ret]].
  apply keeps_seq; [by apply keeps_getVolumeMounts|intros vs].
  apply keeps_seq; [by apply keeps_wrap, keeps_create_playbook|intros name]. by apply keeps_modify.
Qed.

Lemma reconcileInventoryPlaybook_keeps : keeps Exclusive (reconcileInventoryPlaybook api scope).
Proof.
  unfold reconcileInventoryPlaybook. apply keeps_seq; [apply keeps_local|intros i].
  case_bool_decide; [apply createHostCheckPlaybook_keeps|].
  apply keeps_seq; [by apply keeps_wrap, keeps_Get|intros [p|]; [|apply createHostCheckPlaybook_keeps]].
  repeat case_bool_decide; try by apply keeps_modify. apply keeps_ret.
Qed.

Lemma reconcile_phase_keeps : keeps Exclusive (reconcile_phase api scope).
Proof.
  unfold reconcile_phase. apply keeps_seq; [apply keeps_local|intros i].
  destruct (_ || _).
  { apply keeps_seq; [by apply keeps_modify|intros _].
    apply keeps_seq; [apply createHostCheckPlaybook_keeps|intros _]. by apply keeps_modify. }
  case_bool_decide; [apply reconcileInventoryPlaybook_keeps|].
  case_bool_decide; [by apply keeps_modify|]. case_bool_decide; [|apply keeps_ret].
  apply keeps_seq; [by apply keeps_when, keeps_modify|intros _]. by apply keeps_when, keeps_modify.
Qed.

(** *** The groups *)

Context (Hnames : getControlPlaneGroupName ≠ getWorkerGroupName).
Context (Hcluster : defaultClusterGroup ≠ getControlPlaneGroupName ∧ defaultClusterGroup ≠ getWorkerGroupName).

Lemma sides_by_labels : by_labels cp_side worker_side.
Proof. intros m m' E. unfold cp_side, worker_side, has_label_value. simpl. by rewrite E. Qed.

(** Listing the machines of one side and giving its group their hosts. *)
Lemma listed_sync_keeps a b what n :
  side_group a ≠ side_group b → by_labels a b →
  (∀ ms inv, exclusive (cs_name scope) a b ms inv ↔ exclusive (cs_name scope) cp_side worker_side ms inv) →
  keeps Exclusive (let* l := wrap what (ListObjects api KKMachine (side_label a)) in sync_group api scope (side_group a) n l).
Proof.
  intros Hab Hlab Hsides [s i] H. apply outcome_bind, outcome_wrap.
  eapply outcome_mono; [apply ListObjects_outcome|]. intros r st' [-> Hr]. destruct r as [l|e|w]; [|exact H..].
  eapply outcome_mono; [apply (sync_group_exclusive a b); [done|done|by apply Hsides|exact Hr]|].
  intros r' st' H'. by apply Hsides.
Qed.

Lemma syncInventoryControlPlaneGroups_keeps : keeps Exclusive (syncInventoryControlPlaneGroups api scope).
Proof.
  unfold syncInventoryControlPlaneGroups. apply keeps_seq; [apply keeps_wrap, keeps_lift|intros n].
  destruct (negb _); [apply keeps_fail|].
  apply keeps_seq; [by apply keeps_GetObjectListFromOwner|intros ms]. destruct (negb _); [apply keeps_ret|].
  apply (listed_sync_keeps cp_side worker_side); [exact Hnames|exact sides_by_labels|done].
Qed.

Lemma syncInventoryWorkerGroups_keeps : keeps Exclusive (syncInventoryWorkerGroups api scope).
Proof.
  unfold syncInventoryWorkerGroups. apply keeps_seq; [by apply keeps_wrap, keeps_List|intros ms].
  destruct (negb _); [apply keeps_ret|].
  apply (listed_sync_keeps worker_side cp_side); [by apply not_eq_sym| |].
  - intros m m' E. by destruct (sides_by_labels m m' E).
  - intros ms' inv. split; apply exclusive_sym.
Qed.

Lemma cluster_group_other inv g :
  defaultClusterGroup ≠ g → get_group (set_group inv defaultClusterGroup cluster_group) g = get_group inv g.
Proof. intros H. by rewrite get_group_set, bool_decide_false. Qed.

(** The group of the cluster refers to the two groups only, which refer to
    none. *)
Lemma cluster_group_acyclic inv :
  acyclic inv → group_groups (get_group inv getControlPlaneGroupName) = [] →
  group_groups (get_group inv getWorkerGroupName) = [] →
  acyclic (set_group inv defaultClusterGroup cluster_group).
Proof.
  intros Ha H1 H2. destruct Hcluster as [Hc1 Hc2]. set (inv' := set_group _ _ _).
  assert (Hleaf : ∀ g, group_groups (get_group inv' g) = [] → ∀ x, ¬ tc (child inv') g x).
  { intros g Hg x Ht. assert (∃ cg, child inv' g cg) as (cg & v & Ev & Hcg) by (inversion Ht; subst; eauto).
    unfold get_group in Hg. rewrite Ev in Hg. simpl in Hg. rewrite Hg in Hcg. by apply not_elem_of_nil in Hcg. }
  assert (Hcp : group_groups (get_group inv' getControlPlaneGroupName) = [])
    by (unfold inv'; by rewrite cluster_group_other).
  assert (Hw : group_groups (get_group inv' getWorkerGroupName) = [])
    by (unfold inv'; by rewrite cluster_group_other).
  assert (Hchild : ∀ g cg, child inv' g cg →
    child inv g cg ∨ cg = getControlPlaneGroupName ∨ cg = getWorkerGroupName).
  { intros g cg (v & Ev & Hcg). simpl in Ev. rewrite alookup_aset in Ev. case_bool_decide.
    - injection Ev as <-. right. simpl in Hcg. set_solver.
    - left. by exists v. }
  assert (Htc : ∀ x y, tc (child inv') x y → tc (child inv) x y
    ∨ y = getControlPlaneGroupName ∨ y = getWorkerGroupName).
  { induction 1 as [x y H|x y z H Ht IH].
    - destruct (Hchild _ _ H) as [?|?]; [left; by apply tc_once|by right].
    - destruct (Hchild _ _ H) as [?|[->| ->]].
      + destruct IH as [?|?]; [left; by eapply tc_l|by right].
      + by apply Hleaf in Ht.
      + by apply Hleaf in Ht. }
  intros g Ht. destruct (Htc _ _ Ht) as [?|[->| ->]]; [by apply (Ha g)|exact (Hleaf _ Hcp _ Ht)|exact (Hleaf _ Hw _ Ht)].
Qed.

Lemma sync_groups_keeps : keeps Exclusive (sync_groups api scope).
Proof.
  unfold sync_groups. apply keeps_seq; [apply syncInventoryControlPlaneGroups_keeps|intros _].
  apply keeps_seq; [apply syncInventoryWorkerGroups_keeps|intros _].
  apply keeps_modify. intros s i H. destruct Hcluster as [Hc1 Hc2]. unfold Exclusive in *. cbn [fst snd] in *.
  assert (E1 : get_group (iv_spec (with_spec (set_group (iv_spec i) defaultClusterGroup cluster_group) i)) getControlPlaneGroupName
               = get_group (iv_spec i) getControlPlaneGroupName) by (apply cluster_group_other; done).
  assert (E2 : get_group (iv_spec (with_spec (set_group (iv_spec i) defaultClusterGroup cluster_group) i)) getWorkerGroupName
               = get_group (iv_spec i) getWorkerGroupName) by (apply cluster_group_other; done).
  destruct H as [H1 H2 H3 H4 [H5 H5'] H6 H7 H8]. cbn [side_group cp_side worker_side] in *.
  split; cbn [side_group cp_side worker_side]; rewrite ?E1, ?E2; try done.
  by apply cluster_group_acyclic.
Qed.

Lemma reconcileNormal_keeps : keeps Exclusive (reconcileNormal api scope).
Proof.
  unfold reconcileNormal. apply keeps_seq; [apply reconcile_phase_keeps|intros _].
  apply keeps_seq; [apply keeps_local|intros i]. apply keeps_when, sync_groups_keeps.
Qed.

(** *** Deletion *)

Lemma delete_step_from (km km' : KKMachine) :
  km' ∈ delete_step km → key km' = key km ∧ o_labels (km_meta km') = o_labels (km_meta km) ∧ km_providerID km' = km_providerID km.
Proof.
  unfold delete_step. case_bool_decide; [by intros ?%not_elem_of_nil|].
  destruct (o_deleting _); intros ->%list_elem_of_singleton; done.
Qed.

(** What is left of the machines when one is deleted. *)
Lemma change_delete k (l : list KKMachine) :
  (∀ km', km' ∈ change k delete_step l → ∃ km, km ∈ l ∧ key km' = key km
     ∧ o_labels (km_meta km') = o_labels (km_meta km) ∧ km_providerID km' = km_providerID km)
  ∧ (NoDup (key <$> l) → NoDup (key <$> change k delete_step l)).
Proof.
  assert (Hfrom : ∀ l km', km' ∈ change k delete_step l → ∃ km, km ∈ l ∧ key km' = key km
     ∧ o_labels (km_meta km') = o_labels (km_meta km) ∧ km_providerID km' = km_providerID km).
  { clear l. intros l km' Hin. apply list_elem_of_bind in Hin as (km & Hin & Hkm). exists km. split; [done|].
    case_bool_decide; [by apply delete_step_from|]. by apply list_elem_of_singleton in Hin as ->. }
  split; [apply Hfrom|]. induction l as [|km l IH]; [done|]. rewrite fmap_cons. intros [Hn Hnd]%NoDup_cons.
  change (km :: l) with ([km] ++ l). rewrite change_app, fmap_app. apply NoDup_app. split_and!; [|..|by apply IH].
  - unfold change. cbn. rewrite app_nil_r. case_bool_decide; [|apply NoDup_singleton].
    unfold delete_step. case_bool_decide; [constructor|]. destruct (o_deleting _); apply NoDup_singleton.
  - intros x Hx Hx'. apply Hn. apply list_elem_of_fmap in Hx as (m1 & -> & H1), Hx' as (m2 & E2 & H2).
    apply Hfrom in H1 as (n1 & ->%list_elem_of_singleton & E1 & _), H2 as (n2 & H2 & E3 & _).
    rewrite <-E1, E2, E3. by apply list_elem_of_fmap_2.
Qed.

Lemma delete_machines_keeps what (l : list KKMachine) : keeps Exclusive (delete_all api what l).
Proof.
  apply keeps_for_each. intros km. apply keeps_wrap, keeps_call; [done|].
  intros s i H. cbn. destruct (find_key _ _); [|exact H]. cbn.
  destruct (change_delete (key km) (sv_kkmachines s)) as [Hfrom Hnd].
  eapply exclusive_machines; [exact H|apply Hnd, H| |exact sides_by_labels].
  intros km' Hin. destruct (Hfrom km' Hin) as (m & Hm & _ & El & Ep). by exists m.
Qed.

Lemma reconcileDelete_keeps : keeps Exclusive (reconcileDelete api scope).
Proof.
  unfold reconcileDelete. apply keeps_seq; [apply keeps_local|intros i].
  apply keeps_seq; [by apply keeps_GetObjectListFromOwner|intros ps].
  apply keeps_seq.
  { apply keeps_for_each. intros p. apply keeps_wrap, keeps_call; [done|].
    intros s i' H. cbn. by destruct (find_key _ _). }
  intros _. apply keeps_seq; [by apply keeps_wrap, keeps_List|intros mds].
  apply keeps_seq; [apply delete_machines_keeps|intros _]. destruct (nonempty mds); [apply keeps_ret|].
  apply keeps_seq; [by apply keeps_wrap, keeps_List|intros cps].
  apply keeps_seq; [apply delete_machines_keeps|intros _]. by apply keeps_when, keeps_modify.
Qed.

Lemma reconcile_scope_keeps : keeps Exclusive (reconcile_scope api scope).
Proof.
  unfold reconcile_scope. apply keeps_seq; [apply keeps_local|intros i].
  destruct (isPaused scope); [apply keeps_ret|]. destruct (_ && _); [by apply keeps_modify|].
  destruct (o_deleting _); [apply reconcileDelete_keeps|apply reconcileNormal_keeps].
Qed.

End Controller.

(** ** Properties *)

(** The code means to give each machine of a list a host of its own
    ("if machine already has providerID, skip").  It gives the first host to
    every machine that has none, because the machine it changes is a copy of the
    list's element: no machine ever gets a later host, when no call fails every
    machine without a host gets the first one, and a second host makes the call
    fail as soon as there is such a machine. *)
Theorem setProviderID_one_host api c l h later s i :
  NoDup (key <$> sv_kkmachines s) → NoDup (key <$> l) → (∀ km, km ∈ l → km ∈ sv_kkmachines s) →
  ∃ r s', setProviderID api c l (h :: later) (s, i) = Some (r, (s', i))
    ∧ Forall2 (moved c h l) (sv_kkmachines s) (sv_kkmachines s')
    ∧ (later ≠ [] → (∃ km, km ∈ l ∧ km_providerID km = None) → r ≠ Ok tt)
    ∧ ((∀ n, api n = None) → ∀ km, km ∈ l → km_providerID km = None → given c h km ∈ sv_kkmachines s').
Proof. apply setProviderID_moves. Qed.

(** C12: a reconciliation of the inventory, whatever it does and whether it
    succeeds, fails or panics, keeps the groups of the control plane and of the
    workers exclusive: a name that is in both is no host, and the hosts of the
    machines of either are in its group.  (As the comment of [reconcileNormal]
    asks.) *)
Theorem reconcile_groups_exclusive `{KL : KubeLib} api scope s i r s' i' :
  getControlPlaneGroupName ≠ getWorkerGroupName →
  defaultClusterGroup ≠ getControlPlaneGroupName ∧ defaultClusterGroup ≠ getWorkerGroupName →
  exclusive (cs_name scope) (cp_side scope) (worker_side scope) (sv_kkmachines s) (iv_spec i) →
  reconcile_scope api scope (s, i) = Some (r, (s', i')) →
  exclusive (cs_name scope) (cp_side scope) (worker_side scope) (sv_kkmachines s') (iv_spec i').
Proof. intros Hn Hc H E. exact (reconcile_scope_keeps api scope Hn Hc (s, i) H _ _ E). Qed.

(** ** A cluster of three control plane machines *)

#[local] Instance ex_lib : KubeLib := {
  ParseGroupVersion gv := Ok (gv, "v1"); IsPaused c _ := cl_paused c; secret_Name c p := c +:+ "-" +:+ p;
  generated _ := "x"; LookupEnv _ := None; draw _ := None }.

Definition ex_meta (name : string) (labels : gmap string string) (owners : list OwnerRef) : ObjectMeta :=
  {| o_namespace := "ns"; o_name := name; o_uid := name; o_labels := labels; o_annotations := None;
     o_owners := owners; o_finalizers := []; o_deleting := false; o_version := 0 |}.

Definition ex_cp : ControlPlane :=
  {| cp_meta := ex_meta "kcp" ∅ []; cp_gvk := ("controlplane/v1", "KubeadmControlPlane"); cp_replicas := Ok 3%Z |}.

Definition ex_machine (name : string) : Machine :=
  {| ma_meta := ex_meta name ∅ [owner_ref ex_cp]; ma_version := None; ma_dataSecretName := None |}.

Definition ex_kkmachine (name : string) : KKMachine :=
  {| km_meta := ex_meta name {[ClusterNameLabel := "c"; MachineControlPlaneNameLabel := "kcp"]} [];
     km_roles := []; km_providerID := None; km_kubeVersion := None; km_config := None; km_ready := false;
     km_failureReason := ""; km_failureMessage := "" |}.

Definition ex_kkmachines : list KKMachine := map ex_kkmachine ["m1"; "m2"; "m3"].

Definition ex_server : Server :=
  {| sv_clusters := []; sv_kkclusters := []; sv_controlPlanes := []; sv_deployments := [];
     sv_machines := map ex_machine ["m1"; "m2"; "m3"]; sv_kkmachines := ex_kkmachines;
     sv_inventories := []; sv_playbooks := []; sv_pods := []; sv_secrets := []; sv_calls := 0 |}.

Definition ex_checked : InventoryObject :=
  {| iv_meta := with_finalizers [InventoryCAPKKFinalizer] (ex_meta "c" ∅ []);
     iv_spec := {| inv_hosts := [("node1", ""); ("node2", ""); ("node3", "")]; inv_vars := ""; inv_groups := [] |};
     iv_ready := false; iv_phase := InventoryPhaseSucceeded |}.

Definition ex_scope : clusterScope :=
  {| cs_namespace := "ns"; cs_name := "c";
     cs_cluster := {| cl_meta := ex_meta "c" ∅ []; cl_paused := false; cl_infrastructureRef := ("ns", "c");
                      cl_controlPlaneRef := ("ns", "kcp"); cl_controlPlaneGvk := cp_gvk ex_cp; cl_endpointHost := "" |};
     cs_controlPlane := ex_cp;
     cs_deployment := {| md_meta := zero_meta; md_replicas := None |};
     cs_kkcluster := {| kc_meta := ex_meta "c" ∅ []; kc_inventoryHosts := []; kc_hostCheckGroup := "";
                        kc_tolerate := false; kc_endpointType := ""; kc_ready := false; kc_failureReason := "";
                        kc_failureMessage := ""; kc_conditions := ∅ |};
     cs_inventory := ex_checked |}.

(** Two reconciliations later the three machines have one host, three times in
    the group of the control plane. *)
Example three_machines_one_host :
  match reconcile_scope (λ _, None) ex_scope (ex_server, ex_checked) with
  | Some (r1, (s1, i1)) =>
      is_ok r1 = false ∧ map km_providerID (sv_kkmachines s1) = replicate 3 (Some "kk://c/node1")
      ∧ match reconcile_scope (λ _, None) ex_scope (s1, i1) with
        | Some (r2, (s2, i2)) =>
            r2 = Ok tt ∧ map km_providerID (sv_kkmachines s2) = replicate 3 (Some "kk://c/node1")
            ∧ group_hosts (get_group (iv_spec i2) "kube_control_plane") = ["node1"; "node1"; "node1"]
        | None => False
        end
  | None => False
  end.
Proof. vm_compute. split_and!; reflexivity. Qed.

Lemma ex_kkmachines_keys : NoDup (key <$> ex_kkmachines).
Proof. by_decision. Qed.

Lemma setProviderID_one_host_witness :
  ∃ r s', setProviderID (λ _, None) "c" ex_kkmachines ["node1"; "node2"; "node3"] (ex_server, ex_checked)
          = Some (r, (s', ex_checked))
    ∧ r ≠ Ok tt ∧ ∀ km, km ∈ ex_kkmachines → given "c" "node1" km ∈ sv_kkmachines s'.
Proof.
  destruct (setProviderID_one_host (λ _, None) "c" ex_kkmachines "node1" ["node2"; "node3"] ex_server ex_checked)
    as (r & s' & E & _ & Hne & Hall); [exact ex_kkmachines_keys|exact ex_kkmachines_keys|done|].
  exists r, s'. split; [exact E|]. split.
  - apply Hne; [discriminate|]. exists (ex_kkmachine "m1"). split; [by left|reflexivity].
  - intros km Hin. apply Hall; [reflexivity|exact Hin|].
    apply list_elem_of_In, in_map_iff in Hin as (n & <- & _). reflexivity.
Defined.

Lemma ex_exclusive : exclusive "c" (cp_side ex_scope) (worker_side ex_scope) (sv_kkmachines ex_server) (iv_spec ex_checked).
Proof.
  assert (H0 : ∀ g, group_hosts (get_group (iv_spec ex_checked) g) = []) by done.
  assert (Hn : ∀ km, km ∈ sv_kkmachines ex_server → km_providerID km = None).
  { intros km Hin. apply list_elem_of_In, in_map_iff in Hin as (n & <- & _). reflexivity. }
  split.
  - exact ex_kkmachines_keys.
  - intros km Hin _. apply list_elem_of_In, in_map_iff in Hin as (n & <- & _).
    unfold side_label, worker_side, has_label_value. rewrite bool_decide_eq_true. intros E. vm_compute in E. discriminate E.
  - apply (acyclic_by_rank _ (λ _, 0)). intros g cg (v & Ev & _). discriminate Ev.
  - by_decision.
  - done.
  - intros h Hh. rewrite H0 in Hh. by apply not_elem_of_nil in Hh.
  - intros km Hin _ Hp. by destruct (Hp (Hn km Hin)).
  - intros km Hin _ Hp. by destruct (Hp (Hn km Hin)).
Qed.

Lemma reconcile_groups_exclusive_witness :
  ∃ r s' i', reconcile_scope (λ _, None) ex_scope (ex_server, ex_checked) = Some (r, (s', i'))
    ∧ exclusive "c" (cp_side ex_scope) (worker_side ex_scope) (sv_kkmachines s') (iv_spec i').
Proof.
  destruct (reconcile_scope (λ _, None) ex_scope (ex_server, ex_checked)) as [[r [s' i']]|] eqn:E.
  - exists r, s', i'. split; [reflexivity|].
    apply (reconcile_groups_exclusive (λ _, None) ex_scope ex_server ex_checked r s' i');
      [discriminate|split; discriminate|exact ex_exclusive|exact E].
  - exfalso. vm_compute in E. discriminate E.
Defined.
