(* ===== verification/InventoryDeletion.v ===== *)
(** * Deleting an inventory

    [reconcileDelete] of the inventory controller deletes the machines of the
    workers before those of the control plane, and lets the inventory go when
    nothing is left. *)

From S2P Require Import Prelude GoStrings Fuel Groups HostSelect Capkk ClusterScope InventoryController InventorySpec.
From stdpp Require Import gmap strings list sets.

#[local] Open Scope nat_scope.

(** The laws of the kinds that are deleted. *)
Class StoredSpec (A : Type) `{Stored A} := {
  items_with_items l s : items (with_items l s) = l;
  items_tick s : items (tick s) = items s;
  key_deleting (a : A) : key (with_meta (with_deleting (meta a)) a) = key a;
}.

#[export] Instance KKMachine_spec : StoredSpec KKMachine.
Proof. by split. Qed.
#[export] Instance Playbook_spec : StoredSpec Playbook.
Proof. by split. Qed.

(** The collection after the objects with keys [ks] have been deleted. *)
Definition deleted {A} `{Stored A} (ks : list (string * string)) (l : list A) : list A :=
  l ≫= λ a, if bool_decide (key a ∈ ks) then delete_step a else [a].

Section Deletion.
Context {A : Type} `{SA : StoredSpec A}.

Lemma delete_step_key (a b : A) : b ∈ delete_step a → key b = key a.
Proof.
  unfold delete_step. case_bool_decide; [by intros ?%not_elem_of_nil|].
  destruct (o_deleting _); intros ->%list_elem_of_singleton; [done|apply key_deleting].
Qed.

Lemma deleted_nil (l : list A) : deleted [] l = l.
Proof. unfold deleted. induction l as [|a l IH]; [done|]. cbn. by rewrite IH. Qed.

Lemma deleted_cons k ks (l : list A) : k ∉ ks → deleted ks (change k delete_step l) = deleted (k :: ks) l.
Proof.
  intros Hk. induction l as [|a l IH]; [done|].
  change (a :: l) with ([a] ++ l). rewrite change_app. unfold deleted in *. rewrite !bind_app, IH. f_equal.
  unfold change. cbn. rewrite !app_nil_r. destruct (decide (key a = k)) as [Ha|Ha].
  - rewrite bool_decide_true, (bool_decide_true (key a ∈ _)) by (done || (rewrite Ha; by left)).
    assert (∀ l0 : list A, (∀ b, b ∈ l0 → key b = k) →
      (l0 ≫= λ b, if bool_decide (key b ∈ ks) then delete_step b else [b]) = l0) as Hid.
    { induction l0 as [|b l0 IH0]; intros Hb; [done|]. cbn. rewrite bool_decide_false, IH0; [done| |].
      - intros c Hc. apply Hb. by right.
      - rewrite (Hb b) by (by left). done. }
    apply Hid. intros b Hb. rewrite <-Ha. by apply delete_step_key.
  - rewrite (bool_decide_false (key a = k)) by done. cbn. rewrite app_nil_r.
    assert (Hiff : key a ∈ ks ↔ key a ∈ k :: ks) by (rewrite elem_of_cons; naive_solver).
    by rewrite (bool_decide_ext _ _ Hiff).
Qed.

Lemma deleted_away ks (l : list A) a : a ∈ l → key a ∉ ks → a ∈ deleted ks l.
Proof.
  intros Ha Hk. apply list_elem_of_bind. exists a. rewrite bool_decide_false by done. split; [by left|done].
Qed.

(** What is left of a deleted object waits for its finalizers. *)
Lemma deleted_marked ks (l : list A) b :
  b ∈ deleted ks l → ∃ a, a ∈ l ∧ key b = key a
    ∧ (key a ∉ ks ∧ b = a ∨ key a ∈ ks ∧ o_finalizers (meta a) ≠ [] ∧ b ∈ delete_step a).
Proof.
  intros Hb. apply list_elem_of_bind in Hb as (a & Hb & Ha). exists a. case_bool_decide as Hk.
  - split_and!; [done|by apply delete_step_key|]. right. split_and!; [done| |done].
    intros Hf. unfold delete_step in Hb. rewrite bool_decide_true in Hb by done. by apply not_elem_of_nil in Hb.
  - apply list_elem_of_singleton in Hb as ->. split_and!; [done|done|]. by left.
Qed.

Lemma delete_all_ok {L} api what (l : list A) (s : Server) (x : L) :
  (∀ n, api n = None) → NoDup (key <$> l) → (∀ a, a ∈ l → a ∈ items s) →
  ∃ s', delete_all api what l (s, x) = Some (Ok tt, (s', x)) ∧ items s' = deleted (key <$> l) (items s).
Proof.
  intros Hapi. revert s. induction l as [|a l IH]; intros s Hnd Hin; cbn [for_each delete_all].
  { exists s. split; [done|]. by rewrite deleted_nil. }
  rewrite fmap_cons in *. apply NoDup_cons in Hnd as [Hk Hnd]. unfold delete_all in *. cbn [for_each].
  unfold bind at 1. unfold wrap, DeleteObject, call. rewrite Hapi. rewrite items_tick.
  destruct (find_key (key a) (items s)) as [b|] eqn:Eb.
  2:{ exfalso. by apply (find_key_None _ _ _ Eb (Hin a (list_elem_of_here _ _))). }
  destruct (IH (with_items (change (key a) delete_step (items s)) (tick s))) as (s' & E & Ei); [done| |].
  - intros c Hc. rewrite items_with_items.
    assert (Hca : key c ≠ key a) by (intros Ek; apply Hk; rewrite <-Ek; by apply list_elem_of_fmap_2).
    apply list_elem_of_bind. exists c. rewrite bool_decide_false by done. split; [by left|]. apply Hin. by right.
  - exists s'. split; [exact E|]. rewrite Ei, items_with_items. by apply deleted_cons.
Qed.

End Deletion.

(** ** What [reconcileDelete] deletes *)

Lemma filter_keys {A} `{Kind A} (f : A → bool) (l : list A) : NoDup (key <$> l) → NoDup (key <$> List.filter f l).
Proof.
  induction l as [|a l IH]; [done|]. rewrite fmap_cons. intros [Hn Hnd]%NoDup_cons. cbn.
  destruct (f a); [|by apply IH]. rewrite fmap_cons. apply NoDup_cons. split; [|by apply IH].
  intros (b & Eb & Hb)%list_elem_of_fmap. apply Hn. rewrite Eb. apply list_elem_of_fmap_2.
  apply list_elem_of_In, filter_In in Hb as [Hb _]. by apply list_elem_of_In.
Qed.

Lemma filter_elem {A} (f : A → bool) (l : list A) a : a ∈ List.filter f l → a ∈ l.
Proof. rewrite !list_elem_of_In, filter_In. by intros [? _]. Qed.

Lemma nonempty_false {A} (l : list A) : nonempty l = false ↔ l = [].
Proof. by destruct l. Qed.

Section ReconcileDelete.
Context (scope : clusterScope).

(** The objects of the three lists: of every namespace but the playbooks. *)
Definition owned_playbooks (i : InventoryObject) (s : Server) : list Playbook :=
  List.filter (λ p, owned_by i (pb_meta p))
    (List.filter (λ p, bool_decide (o_namespace (pb_meta p) = o_namespace (iv_meta i))) (sv_playbooks s)).

Definition worker_machines (s : Server) : list KKMachine :=
  List.filter (λ km, has_label_value ClusterNameLabel (cs_name scope) (km_meta km)
                     && has_label MachineDeploymentNameLabel (km_meta km)) (sv_kkmachines s).

Definition control_plane_machines (s : Server) : list KKMachine :=
  List.filter (λ km, has_label_value ClusterNameLabel (cs_name scope) (km_meta km)
                     && has_label MachineControlPlaneNameLabel (km_meta km)) (sv_kkmachines s).

Definition without_finalizer (i : InventoryObject) : InventoryObject :=
  with_imeta (RemoveFinalizer (iv_meta i) InventoryCAPKKFinalizer) i.

Lemma delete_playbooks_machines {L} api what (l : list Playbook) (s s' : Server) (x x' : L) r :
  delete_all api what l (s, x) = Some (r, (s', x')) → sv_kkmachines s' = sv_kkmachines s.
Proof.
  intros E. refine (keeps_for_each (λ st, sv_kkmachines st.1 = sv_kkmachines s) _ l _ (s, x) eq_refl _ _ E).
  intros p. apply keeps_wrap, keeps_call; [done|]. intros s1 x1 H. cbn. by destruct (find_key _ _).
Qed.

Lemma delete_machines_playbooks {L} api what (l : list KKMachine) (s s' : Server) (x x' : L) r :
  delete_all api what l (s, x) = Some (r, (s', x')) → sv_playbooks s' = sv_playbooks s.
Proof.
  intros E. refine (keeps_for_each (λ st, sv_playbooks st.1 = sv_playbooks s) _ l _ (s, x) eq_refl _ _ E).
  intros p. apply keeps_wrap, keeps_call; [done|]. intros s1 x1 H. cbn. by destruct (find_key _ _).
Qed.

Lemma bind_ok {L A B} (m : M L A) (k : A → M L B) st a st' : m st = Some (Ok a, st') → bind m k st = k a st'.
Proof. intros E. unfold bind. by rewrite E. Qed.

Lemma wrap_ok {L A} what (m : M L A) st a st' : m st = Some (Ok a, st') → wrap what m st = Some (Ok a, st').
Proof. intros E. unfold wrap. by rewrite E. Qed.

Lemma List_ok {L} api (A : Type) `{Kind A} select (s : Server) (l : L) :
  (∀ n, api n = None) →
  ListObjects api A select (s, l) = Some (Ok (List.filter (λ a, select (meta a)) (items (tick s))), (tick s, l)).
Proof. intros Hapi. unfold ListObjects, call. by rewrite Hapi. Qed.

Lemma reconcileDelete_result api s i :
  (∀ n, api n = None) → NoDup (key <$> sv_playbooks s) → NoDup (key <$> sv_kkmachines s) →
  ∃ s', reconcileDelete api scope (s, i)
        = Some (Ok tt, (s', if nonempty (owned_playbooks i s) || nonempty (worker_machines s)
                               || nonempty (control_plane_machines s)
                            then i else without_finalizer i))
    ∧ sv_playbooks s' = deleted (key <$> owned_playbooks i s) (sv_playbooks s)
    ∧ sv_kkmachines s' = deleted (key <$> (if nonempty (worker_machines s) then worker_machines s
                                           else control_plane_machines s)) (sv_kkmachines s).
Proof.
  intros Hapi Hp Hk. unfold reconcileDelete.
  rewrite (bind_ok _ _ (s, i) i (s, i)) by done.
  rewrite (bind_ok _ _ (s, i) (owned_playbooks i s) (tick s, i)).
  2:{ unfold GetObjectListFromOwner. erewrite bind_ok; [|by apply wrap_ok, List_ok]. done. }
  destruct (delete_all_ok api "failed to delete playbook" (owned_playbooks i s) (tick s) i Hapi) as (s1 & E1 & Ep).
  { by apply filter_keys, filter_keys. }
  { intros p ?%filter_elem%filter_elem. done. }
  rewrite (bind_ok _ _ _ _ _ E1). pose proof (delete_playbooks_machines _ _ _ _ _ _ _ _ E1) as Ek1. cbn in Ep, Ek1.
  rewrite (bind_ok _ _ _ (worker_machines s) (tick s1, i)).
  2:{ apply wrap_ok. rewrite List_ok by done. cbn. by rewrite Ek1. }
  destruct (delete_all_ok api "failed to delete machineDeployment" (worker_machines s) (tick s1) i Hapi) as (s2 & E2 & Ew).
  { by apply filter_keys. }
  { intros p Hin%filter_elem. cbn. by rewrite Ek1. }
  rewrite (bind_ok _ _ _ _ _ E2). pose proof (delete_machines_playbooks _ _ _ _ _ _ _ _ E2) as Ep2. cbn in Ew, Ep2.
  rewrite Ek1 in Ew. destruct (nonempty (worker_machines s)) eqn:Hw.
  { exists s2. rewrite orb_true_r. split_and!; [done|rewrite Ep2; exact Ep|exact Ew]. }
  apply nonempty_false in Hw. assert (Ew' : sv_kkmachines s2 = sv_kkmachines s) by (rewrite Ew, Hw; apply deleted_nil). clear Ew. rename Ew' into Ew.
  rewrite (bind_ok _ _ _ (control_plane_machines s) (tick s2, i)).
  2:{ apply wrap_ok. rewrite List_ok by done. cbn. by rewrite Ew. }
  destruct (delete_all_ok api "failed to delete machineControlPlane" (control_plane_machines s) (tick s2) i Hapi) as (s3 & E3 & Ec).
  { by apply filter_keys. }
  { intros p Hin%filter_elem. cbn. by rewrite Ew. }
  rewrite (bind_ok _ _ _ _ _ E3). pose proof (delete_machines_playbooks _ _ _ _ _ _ _ _ E3) as Ep3. cbn in Ec, Ep3.
  exists s3. split_and!; [|rewrite Ep3, Ep2; exact Ep|rewrite Ec, Ew; done].
  destruct (nonempty (owned_playbooks i s)), (nonempty (control_plane_machines s)); done.
Qed.

End ReconcileDelete.

(** ** Properties *)


(** A machine of a cluster of the same name in another namespace. *)
Definition foreign_machine : KKMachine :=
  {| km_meta := {| o_namespace := "other"; o_name := "m1"; o_uid := "m1";
                   o_labels := {[ClusterNameLabel := "c"; MachineControlPlaneNameLabel := "kcp"]};
                   o_annotations := None; o_owners := []; o_finalizers := []; o_deleting := false; o_version := 0 |};
     km_roles := []; km_providerID := None; km_kubeVersion := None; km_config := None; km_ready := true;
     km_failureReason := ""; km_failureMessage := "" |}.

Definition two_namespaces : Server := set_kkmachines [foreign_machine] ex_server.

