(* ===== verification/KKClusterController.v ===== *)
(** * The cluster controller:
      [src/feature/pkg/controllers/infrastructure/kkcluster_controller.go],
      [kkcluster_webhook.go] and [ConvertKKClusterToInventoryHost] of
      [src/feature/pkg/converter/converter.go]

    The hosts of a KKCluster become the hosts of its inventory; the state of
    the inventory and of the machines becomes the status of the KKCluster. *)

From S2P Require Import Prelude GoStrings Fuel Groups HostSelect Capkk ClusterScope InventoryController InventorySpec.
From stdpp Require Import gmap strings list sets.

#[local] Open Scope nat_scope.

Definition KKClusterFinalizer : string := "kkcluster.infrastructure.cluster.x-k8s.io".
Definition KKClusterNodeReachedCondition : string := "NodeReached".
Definition KKClusterNodeReachedConditionReasonWaiting : string := "waiting for node status check".
Definition KKClusterNodeReachedConditionReasonUnreached : string := "node is unreachable".
Definition KKClusterKKMachineConditionReady : string := "KKClusterMachineReady".
Definition KKMachineKKMachineConditionReasonFailed : string := "kkmachine run failed".
Definition KKClusterFailedUnknown : string := "unknown".
Definition KKClusterFailedInvalidHosts : string := "hosts defined in kkcluster is invalid.".
Definition VariableConnector : string := "connector".
Definition ControlPlaneEndpointTypeVIP : string := "kube_vip".
Definition ControlPlaneEndpointTypeDNS : string := "dns".

(** JSON objects as maps from keys to JSON texts: [json.Unmarshal] into a map
    ([Ok None]: the text is null, which makes the map nil), [json.Marshal] of a
    map; and the text of an error. *)
Class JsonLib := {
  unmarshal_object : string → result (option (gmap string string));
  marshal_object : gmap string string → result string;
  error_text : error → string;
}.

(** ** The cluster in memory *)

Definition with_kmeta (m : ObjectMeta) (k : KKCluster) : KKCluster :=
  {| kc_meta := m; kc_inventoryHosts := kc_inventoryHosts k; kc_hostCheckGroup := kc_hostCheckGroup k;
     kc_tolerate := kc_tolerate k; kc_endpointType := kc_endpointType k; kc_ready := kc_ready k;
     kc_failureReason := kc_failureReason k; kc_failureMessage := kc_failureMessage k;
     kc_conditions := kc_conditions k |}.

Definition with_kstatus (ready : bool) (reason message : string) (cs : gmap string Condition) (k : KKCluster) : KKCluster :=
  {| kc_meta := kc_meta k; kc_inventoryHosts := kc_inventoryHosts k; kc_hostCheckGroup := kc_hostCheckGroup k;
     kc_tolerate := kc_tolerate k; kc_endpointType := kc_endpointType k; kc_ready := ready;
     kc_failureReason := reason; kc_failureMessage := message; kc_conditions := cs |}.

Definition with_failure (reason message : string) (k : KKCluster) : KKCluster :=
  with_kstatus (kc_ready k) reason message (kc_conditions k) k.
Definition with_kready (ready : bool) (k : KKCluster) : KKCluster :=
  with_kstatus ready (kc_failureReason k) (kc_failureMessage k) (kc_conditions k) k.

(** [conditions.MarkTrue], [MarkFalse] and [MarkUnknown] *)
Definition mark (type status reason message : string) (k : KKCluster) : KKCluster :=
  with_kstatus (kc_ready k) (kc_failureReason k) (kc_failureMessage k)
    (<[type := {| co_status := status; co_reason := reason; co_message := message |}]> (kc_conditions k)) k.
Definition MarkTrue (type : string) : KKCluster → KKCluster := mark type "True" "" "".
Definition MarkFalse (type reason message : string) : KKCluster → KKCluster := mark type "False" reason message.
Definition MarkUnknown (type reason message : string) : KKCluster → KKCluster := mark type "Unknown" reason message.

(** [KKClusterWebhook.Default] *)
Definition Default (k : KKCluster) : KKCluster :=
  {| kc_meta := kc_meta k; kc_inventoryHosts := kc_inventoryHosts k;
     kc_hostCheckGroup := if bool_decide (kc_hostCheckGroup k = "") then VariableUnGrouped else kc_hostCheckGroup k;
     kc_tolerate := kc_tolerate k;
     kc_endpointType := if bool_decide (kc_endpointType k = "") then ControlPlaneEndpointTypeVIP else kc_endpointType k;
     kc_ready := kc_ready k; kc_failureReason := kc_failureReason k; kc_failureMessage := kc_failureMessage k;
     kc_conditions := kc_conditions k |}.

Notation MK := (M (KKCluster * InventoryObject)).

Definition modify_cluster (f : KKCluster → KKCluster) : MK unit := let* ki := local in set_local (f ki.1, ki.2).
Definition modify_inventory (f : InventoryObject → InventoryObject) : MK unit := let* ki := local in set_local (ki.1, f ki.2).

Section KKClusterController.
Context `{KL : KubeLib} `{JL : JsonLib} (api : nat → option error).

(** ** The hosts of the inventory *)

(** One host: its variables with the connector among them. *)
Definition convert_host (ih : InventoryHost) : result string :=
  let! vars :=
    match ih_vars ih with
    | None => Ok ∅
    | Some raw =>
        match unmarshal_object raw with
        | Ok (Some vars) => Ok vars
        | Ok None => Panic "assignment to entry in nil map"
        | Err e => Err (Wrap "failed to unmarshal kkcluster.spec.InventoryHost" e)
        | Panic w => Panic w
        end
    end in
  match marshal_object (<[VariableConnector := ih_connector ih]> vars) with
  | Err e => Err (Wrap "marshal kkclusters to inventory" e)
  | r => r
  end.

Fixpoint convert_hosts (l : list InventoryHost) (acc : list (string * string)) : result (list (string * string)) :=
  match l with
  | [] => Ok acc
  | ih :: l' => let! data := convert_host ih in convert_hosts l' (aset (ih_name ih) data acc)
  end.

Definition ConvertKKClusterToInventoryHost (k : KKCluster) : result (list (string * string)) :=
  convert_hosts (kc_inventoryHosts k) [].

(** [reflect.DeepEqual] of the hosts the server answered, nil when there are
    none, and the converted ones, which are not nil. *)
Definition same_hosts (stored converted : list (string * string)) : bool :=
  nonempty stored && bool_decide ((list_to_map stored : gmap string string) = list_to_map converted).

(** The loop over the groups: [g] is a copy of the group, and its new hosts are
    set in the copy. *)
Definition new_group_hosts (hosts : list (string * string)) (g : InventoryGroup) : list string :=
  group_hosts g ≫= λ h,
    if bool_decide (h = VariableLocalHost) then [h]
    else List.map (λ _, h) (List.filter (λ hn, bool_decide (h = hn.1)) hosts).

Fixpoint clean_groups (hosts : list (string * string)) (groups : list (string * InventoryGroup)) : list (string * InventoryGroup) :=
  match groups with
  | [] => []
  | (name, group) :: groups' =>
      let g := group in
      let g := with_hosts g (new_group_hosts hosts g) in
      (name, group) :: clean_groups hosts groups'
  end.

Definition with_inventory_hosts (hosts : list (string * string)) (i : Inventory) : Inventory :=
  {| inv_hosts := hosts; inv_vars := inv_vars i; inv_groups := clean_groups hosts (inv_groups i) |}.

Definition new_inventory (scope : clusterScope) (k : KKCluster) (hosts : list (string * string)) : InventoryObject :=
  {| iv_meta := {| o_namespace := cs_namespace scope; o_name := cs_name scope; o_uid := cs_name scope;
                   o_labels := {[ClusterNameLabel := cs_name scope]}; o_annotations := None;
                   o_owners := [owner_ref k]; o_finalizers := []; o_deleting := false; o_version := 0 |};
     iv_spec := {| inv_hosts := hosts; inv_vars := ""; inv_groups := [] |};
     iv_ready := false; iv_phase := "" |}.

(** ** Reconciliation *)

Definition kkcluster_reconcileNormal (scope : clusterScope) : MK unit :=
  let* ki := local in
  match ConvertKKClusterToInventoryHost ki.1 with
  | Panic w => panic w
  | Err e =>
      let* _ := modify_cluster (λ k, with_failure KKClusterFailedInvalidHosts (kc_failureMessage k) k) in fail e
  | Ok inventoryHosts =>
      if bool_decide (o_name (iv_meta ki.2) = "") then
        let inventory := new_inventory scope ki.1 inventoryHosts in
        let* _ := modify_inventory (λ _, inventory) in
        wrap "failed to create inventory for kkcluster" (Create api inventory)
      else if same_hosts (inv_hosts (iv_spec ki.2)) inventoryHosts then ret tt
      else
        modify_inventory (λ i, with_status false InventoryPhasePending
          (with_imeta (set_annotation HostCheckPlaybookAnnotation "" (iv_meta i))
             (with_spec (with_inventory_hosts inventoryHosts (iv_spec i)) i)))
  end.

Definition kkcluster_reconcileDelete (scope : clusterScope) : MK unit :=
  let* ki := local in
  let* l := GetObjectListFromOwner api ki.1 InventoryObject in
  let* _ := delete_all api "failed to delete inventory" l in
  when (negb (nonempty l)) (modify_cluster (λ k, with_kmeta (RemoveFinalizer (kc_meta k) KKClusterFinalizer) k)).

(** The condition of the hosts' check. *)
Definition mark_reached (i : InventoryObject) : KKCluster → KKCluster :=
  if bool_decide (iv_phase i = InventoryPhasePending) then
    MarkUnknown KKClusterNodeReachedCondition KKClusterNodeReachedConditionReasonWaiting
      "waiting for inventory host check playbook."
  else if bool_decide (iv_phase i = InventoryPhaseSucceeded) then MarkTrue KKClusterNodeReachedCondition
  else if bool_decide (iv_phase i = InventoryPhaseFailed) then
    MarkFalse KKClusterNodeReachedCondition KKClusterNodeReachedConditionReasonUnreached
      ("inventory host check playbook " +:+ host_check i +:+ " run failed")
  else λ k, k.

Definition failed_machines (l : list KKMachine) : list string :=
  List.map (λ km, o_name (km_meta km)) (List.filter (λ km, negb (bool_decide (km_failureReason km = ""))) l).

Definition mark_failed (names : list string) (k : KKCluster) : KKCluster :=
  with_failure KKMachineKKMachineConditionReasonFailed ("[" +:+ StrJoin names "," +:+ "]")
    (MarkFalse KKClusterKKMachineConditionReady KKMachineKKMachineConditionReasonFailed
       ("failed kkmachine " +:+ StrJoin names ",") k).

Definition reconcileStatus (scope : clusterScope) : MK unit :=
  let* ki := local in
  let* _ := modify_cluster (mark_reached ki.2) in
  let* _ := modify_cluster (λ k, with_kready (kc_ready k || iv_ready ki.2) k) in
  let* kkmachineList := wrap "failed to get kkMachineList"
    (ListObjects api KKMachine (has_label_value ClusterNameLabel (cs_name scope))) in
  let names := failed_machines kkmachineList in
  let* _ := when (nonempty names) (modify_cluster (mark_failed names)) in
  let* cpn := wrap "failed to get replicas from machineControlPlane" (lift (Some (cp_replicas (cs_controlPlane scope)))) in
  let mdn := default 0%Z (md_replicas (cs_deployment scope)) in
  let* ki := local in
  when (kc_ready ki.1 && bool_decide (kc_failureReason ki.1 = "")
        && bool_decide (Z.of_nat (length kkmachineList) = cpn + mdn)%Z)
    (modify_cluster (MarkTrue KKClusterKKMachineConditionReady)).

(** The body of [Reconcile], before its deferred function. *)
Definition kkcluster_body (scope : clusterScope) : MK unit :=
  let* ki := local in
  if isPaused scope then ret tt
  else if negb (o_deleting (kc_meta ki.1)) && negb (ContainsFinalizer (kc_meta ki.1) KKClusterFinalizer) then
    modify_cluster (λ k, with_kmeta (AddFinalizer (kc_meta k) KKClusterFinalizer) k)
  else if o_deleting (kc_meta ki.1) then kkcluster_reconcileDelete scope
  else kkcluster_reconcileNormal scope.

(** What the deferred function sets for an error. *)
Definition record_failure (e : error) (k : KKCluster) : KKCluster :=
  with_failure (if bool_decide (kc_failureReason k = "") then KKClusterFailedUnknown else kc_failureReason k)
    (error_text e) k.

(** The result of a call and of what is deferred after it. *)
Definition join_results (r d : result unit) : result unit :=
  match r, d with
  | Panic w, _ => Panic w
  | _, Panic w => Panic w
  | Ok _, Ok _ => Ok tt
  | Ok _, Err e => Err (Joined [e])
  | Err e, Ok _ => Err e
  | Err e, Err e' => Err (Joined [e; e'])
  end.

(** The objects as they are when the deferred function writes them back. *)
Definition kkcluster_reconcile (scope : clusterScope) : MK unit := λ st,
  match kkcluster_body scope st with
  | None => None
  | Some (r, (s, (k, i))) =>
      let k := match r with Err e => record_failure e k | _ => k end in
      match reconcileStatus scope (s, (k, i)) with
      | None => None
      | Some (d, st') => Some (join_results r d, st')
      end
  end.

End KKClusterController.

(** ** Lemmas *)

Lemma clean_groups_same hosts groups : clean_groups hosts groups = groups.
Proof. induction groups as [|[name g] groups IH]; [done|]. simpl. by rewrite IH. Qed.

Lemma keeps_modify_cluster (P : Server * (KKCluster * InventoryObject) → Prop) f :
  (∀ s k i, P (s, (k, i)) → P (s, (f k, i))) → keeps P (modify_cluster f).
Proof.
  intros H [s [k i]] HP. unfold modify_cluster. apply outcome_bind, outcome_local, outcome_set_local. by apply H.
Qed.

Lemma keeps_modify_inventory (P : Server * (KKCluster * InventoryObject) → Prop) f :
  (∀ s k i, P (s, (k, i)) → P (s, (k, f i))) → keeps P (modify_inventory f).
Proof.
  intros H [s [k i]] HP. unfold modify_inventory. apply outcome_bind, outcome_local, outcome_set_local. by apply H.
Qed.

Section KKClusterLemmas.
Context `{KL : KubeLib} `{JL : JsonLib} (api : nat → option error) (scope : clusterScope).

(** The machines of the cluster are reported ready. *)
Definition machines_ready (k : KKCluster) : Prop :=
  ∃ c, kc_conditions k !! KKClusterKKMachineConditionReady = Some c ∧ co_status c = "True".

(** A failure is recorded and the machines are not reported ready. *)
Definition stuck (st : Server * (KKCluster * InventoryObject)) : Prop :=
  kc_failureReason st.2.1 ≠ "" ∧ ¬ machines_ready st.2.1.

Lemma mark_other type status reason message k :
  type ≠ KKClusterKKMachineConditionReady → machines_ready (mark type status reason message k) ↔ machines_ready k.
Proof. intros H. unfold machines_ready. simpl. by rewrite lookup_insert_ne. Qed.

Lemma mark_reached_stuck s k i j : stuck (s, (k, i)) → stuck (s, (mark_reached j k, i)).
Proof.
  intros [H1 H2]. unfold mark_reached, MarkUnknown, MarkTrue, MarkFalse.
  repeat case_bool_decide; (split; [done|]); cbn [fst snd]; rewrite ?mark_other by discriminate; done.
Qed.

Lemma reconcileStatus_stuck : keeps stuck (reconcileStatus api scope).
Proof.
  unfold reconcileStatus. apply keeps_seq; [apply keeps_local|intros [k0 i0]].
  apply keeps_seq; [apply keeps_modify_cluster; intros s k i; apply mark_reached_stuck|intros _].
  apply keeps_seq; [by apply keeps_modify_cluster|intros _].
  apply keeps_seq; [apply keeps_wrap; by apply keeps_call|intros l].
  apply keeps_seq.
  { apply keeps_when, keeps_modify_cluster. intros s k i _. split; [done|]. cbn. intros (c & Ec & E).
    cbn in Ec. rewrite lookup_insert_eq in Ec. by injection Ec as <-. }
  intros _. apply keeps_seq; [apply keeps_wrap, keeps_lift|intros cpn].
  intros [s [k i]] H. apply outcome_bind, outcome_local. cbn [snd fst].
  rewrite (bool_decide_false (kc_failureReason k = "")) by apply H. rewrite andb_false_r. cbn. by apply outcome_ret.
Qed.

(** The body of [Reconcile] leaves the conditions alone and takes no failure
    back. *)
Lemma kkcluster_body_keeps (P : Server * (KKCluster * InventoryObject) → Prop) :
  (∀ s ki, P (s, ki) → P (tick s, ki)) →
  (∀ s l ki, P (s, ki) → P (set_inventories l s, ki)) →
  (∀ s k i i', P (s, (k, i)) → P (s, (k, i'))) →
  (∀ s k i m, P (s, (k, i)) → P (s, (with_kmeta m k, i))) →
  (∀ s k i, P (s, (k, i)) → P (s, (with_failure KKClusterFailedInvalidHosts (kc_failureMessage k) k, i))) →
  keeps P (kkcluster_body api scope).
Proof.
  intros Ht Hi Hinv Hm Hf. unfold kkcluster_body. apply keeps_seq; [apply keeps_local|intros [k0 i0]].
  destruct (isPaused scope); [apply keeps_ret|].
  destruct (_ && _); [by apply keeps_modify_cluster; intros; apply Hm|].
  destruct (o_deleting _).
  - unfold kkcluster_reconcileDelete. apply keeps_seq; [apply keeps_local|intros [k1 i1]].
    apply keeps_seq; [by apply keeps_GetObjectListFromOwner|intros l].
    apply keeps_seq.
    { apply keeps_for_each. intros j. apply keeps_wrap, keeps_call; [done|].
      intros s ki H. cbn. destruct (find_key _ _); [by apply Hi|done]. }
    intros _. apply keeps_when, keeps_modify_cluster. intros; by apply Hm.
  - unfold kkcluster_reconcileNormal. apply keeps_seq; [apply keeps_local|intros [k1 i1]]. cbn [fst snd].
    destruct (ConvertKKClusterToInventoryHost k1) as [hosts|e|w].
    + case_bool_decide.
      * apply keeps_seq; [apply keeps_modify_inventory; intros; by eapply Hinv|intros _].
        apply keeps_wrap, keeps_call; [done|]. intros s ki Hp. cbn. destruct (find_key _ _); [done|by apply Hi].
      * destruct (same_hosts _ _); [apply keeps_ret|]. apply keeps_modify_inventory. intros; by eapply Hinv.
    + apply keeps_seq; [apply keeps_modify_cluster; intros; by apply Hf|intros _]. apply keeps_fail.
    + intros st HP r st' E. unfold panic in E. by injection E as <- <-.
Qed.

Lemma kkcluster_reconcile_stuck s k i r st' :
  (kc_failureReason k ≠ "" ∨ ∃ e st1, kkcluster_body api scope (s, (k, i)) = Some (Err e, st1)) →
  ¬ machines_ready k →
  kkcluster_reconcile api scope (s, (k, i)) = Some (r, st') → stuck st'.
Proof.
  intros Hfail Hk E. unfold kkcluster_reconcile in E.
  destruct (kkcluster_body api scope (s, (k, i))) as [[r1 [s1 [k1 i1]]]|] eqn:Eb; [|discriminate E].
  assert (Hk1 : ¬ machines_ready k1).
  { apply (kkcluster_body_keeps (λ st, ¬ machines_ready st.2.1)) in Eb; done. }
  assert (H1 : stuck (s1, (match r1 with Err e => record_failure e k1 | _ => k1 end, i1))).
  { assert (Hr : kc_failureReason k ≠ "" → kc_failureReason k1 ≠ "").
    { intros H. apply (kkcluster_body_keeps (λ st, kc_failureReason st.2.1 ≠ "")) in Eb; done. }
    destruct r1 as [u|e|w].
    - destruct Hfail as [H|(e & st1 & H)]; [split; [by apply Hr|done]|discriminate H].
    - split; [|exact Hk1]. cbn. by case_bool_decide.
    - destruct Hfail as [H|(e & st1 & H)]; [split; [by apply Hr|done]|discriminate H]. }
  destruct (reconcileStatus api scope _) as [[d st2]|] eqn:Es; [|discriminate E]. injection E as <- <-.
  exact (reconcileStatus_stuck _ H1 _ _ Es).
Qed.

End KKClusterLemmas.

(** ** Properties *)

(** A failure of a cluster is final.  Once a reconciliation has failed, for
    whatever reason, or a reason of failure is recorded, no reconciliation
    clears the reason, and none reports the machines ready that were not: the
    next one may start from here again. *)
Theorem failure_is_final `{KL : KubeLib} `{JL : JsonLib} api scope s k i r s' k' i' :
  (kc_failureReason k ≠ "" ∨ ∃ e st1, kkcluster_body api scope (s, (k, i)) = Some (Err e, st1)) →
  ¬ machines_ready k →
  kkcluster_reconcile api scope (s, (k, i)) = Some (r, (s', (k', i'))) →
  kc_failureReason k' ≠ "" ∧ ¬ machines_ready k'.
Proof. intros Hf Hk E. exact (kkcluster_reconcile_stuck api scope s k i r _ Hf Hk E). Qed.

(** When the hosts of a cluster change, its inventory gets the new hosts and
    is to be checked again, and its groups are what they were: a host that is
    removed stays in its groups.  The loop that is to remove it changes a copy
    of each group. *)
Theorem removed_hosts_stay `{JL : JsonLib} api scope s k i hosts :
  ConvertKKClusterToInventoryHost k = Ok hosts → o_name (iv_meta i) ≠ "" →
  same_hosts (inv_hosts (iv_spec i)) hosts = false →
  ∃ i', kkcluster_reconcileNormal api scope (s, (k, i)) = Some (Ok tt, (s, (k, i')))
    ∧ inv_hosts (iv_spec i') = hosts ∧ iv_ready i' = false ∧ iv_phase i' = InventoryPhasePending ∧ host_check i' = ""
    ∧ ∀ g, get_group (iv_spec i') g = get_group (iv_spec i) g.
Proof.
  intros Eh Hn Hs. eexists. split.
  { unfold kkcluster_reconcileNormal, bind, local, modify_inventory, set_local. cbn [fst snd].
    rewrite Eh, bool_decide_false, Hs by done. reflexivity. }
  split_and!; [done|done|done| |].
  - unfold host_check, annotation. cbn. by rewrite lookup_insert_eq.
  - intros g. unfold get_group. cbn. by rewrite clean_groups_same.
Qed.

#[local] Instance ex_json : JsonLib := {
  unmarshal_object _ := Ok (Some ∅);
  marshal_object m := Ok (default "" (m !! VariableConnector));
  error_text _ := "failed" }.

Definition ex_cluster (hosts : list string) (reason : string) : KKCluster :=
  {| kc_meta := with_finalizers [KKClusterFinalizer] (ex_meta "c" ∅ []);
     kc_inventoryHosts := map (λ h, {| ih_name := h; ih_connector := h; ih_vars := None |}) hosts;
     kc_hostCheckGroup := ""; kc_tolerate := false; kc_endpointType := ""; kc_ready := false;
     kc_failureReason := reason; kc_failureMessage := ""; kc_conditions := ∅ |}.

Definition ex_grouped : InventoryObject :=
  {| iv_meta := ex_meta "c" ∅ [];
     iv_spec := {| inv_hosts := [("node1", "node1"); ("node2", "node2")]; inv_vars := "";
                   inv_groups := [("etcd", {| group_groups := []; group_hosts := ["node1"; "node2"]; group_vars := "" |})] |};
     iv_ready := true; iv_phase := InventoryPhaseSucceeded |}.

Lemma removed_hosts_stay_witness :
  ∃ i', kkcluster_reconcileNormal (λ _, None) ex_scope (ex_server, (ex_cluster ["node2"] "", ex_grouped))
        = Some (Ok tt, (ex_server, (ex_cluster ["node2"] "", i')))
    ∧ inv_hosts (iv_spec i') = [("node2", "node2")]
    ∧ group_hosts (get_group (iv_spec i') "etcd") = ["node1"; "node2"].
Proof.
  destruct (removed_hosts_stay (λ _, None) ex_scope ex_server (ex_cluster ["node2"] "") ex_grouped [("node2", "node2")])
    as (i' & E & Eh & _ & _ & _ & Eg); [reflexivity|discriminate|reflexivity|].
  exists i'. split_and!; [exact E|exact Eh|]. rewrite Eg. reflexivity.
Defined.

(** The first call fails, once: the reason stays. *)
Lemma failure_is_final_witness :
  ∃ r s' k' i',
    kkcluster_reconcile (KL := ex_lib) (λ n, if bool_decide (n = 0) then Some (Msg "timeout") else None) ex_scope
      (ex_server, (ex_cluster ["node1"] "", zero_inventory)) = Some (r, (s', (k', i')))
    ∧ kc_failureReason k' ≠ "" ∧ ¬ machines_ready k'.
Proof.
  destruct (kkcluster_reconcile (KL := ex_lib) (λ n, if bool_decide (n = 0) then Some (Msg "timeout") else None) ex_scope
      (ex_server, (ex_cluster ["node1"] "", zero_inventory))) as [[r [s' [k' i']]]|] eqn:E.
  - exists r, s', k', i'. split; [reflexivity|].
    refine (failure_is_final (KL := ex_lib) _ ex_scope ex_server (ex_cluster ["node1"] "") zero_inventory r s' k' i' _ _ E).
    + right. eexists _, _. vm_compute. reflexivity.
    + intros (c & Ec & _). discriminate Ec.
  - exfalso. vm_compute in E. discriminate E.
Defined.
