(* ===== verification/KKMachineController.v ===== *)
(** * The machine controller:
      [src/feature/pkg/controllers/infrastructure/kkmachine_controller.go]

    A machine joins its cluster by a playbook and leaves it by another; the
    names of both are annotations of the machine, and its finalizer goes when
    neither is left. *)

From S2P Require Import Prelude GoStrings Fuel Groups HostSelect Capkk ClusterScope InventoryController.
From S2P Require Import InventorySpec KKClusterController.
From stdpp Require Import gmap strings list sets.

#[local] Open Scope nat_scope.

Definition KKMachineFinalizer : string := "kkmachine.infrastructure.cluster.x-k8s.io".
Definition AddNodePlaybookAnnotation : string := "playbook.kubekey.kubesphere.io/add-node".
Definition DeleteNodePlaybookAnnotation : string := "playbook.kubekey.kubesphere.io/delete-node".
Definition KKMachineFailedReasonAddNodeFailed : string := "add node failed".

(** The values the controller sets in a configuration. *)
Inductive field := FString (s : string) | FStrings (l : list string) | FMap (m : string).

(** An unstructured object, [unstructured.SetNestedField] and its kin (an object
    on the path that is no map is an error), JSON, the embedded files of
    [versions] (an error: there is no such file), and the network of a cluster
    as [ToUnstructured] converts it. *)
Class ConfigLib := {
  Object : Type;
  empty_object : Object;
  SetNestedField : list string → field → Object → error + Object;
  marshal_config : Object → string;
  version_config : string → error + Object;
  cluster_network : Cluster → error + string;
}.

(** [kkcorev1.Config]: the raw specification and the object. *)
Record Config `{ConfigLib} := { cf_raw : option string; cf_object : option Object }.

(** ** The machine in memory *)

Definition with_mmeta (m : ObjectMeta) (km : KKMachine) : KKMachine :=
  {| km_meta := m; km_roles := km_roles km; km_providerID := km_providerID km; km_kubeVersion := km_kubeVersion km;
     km_config := km_config km; km_ready := km_ready km; km_failureReason := km_failureReason km;
     km_failureMessage := km_failureMessage km |}.
Definition with_mstatus (ready : bool) (reason message : string) (km : KKMachine) : KKMachine :=
  {| km_meta := km_meta km; km_roles := km_roles km; km_providerID := km_providerID km;
     km_kubeVersion := km_kubeVersion km; km_config := km_config km; km_ready := ready;
     km_failureReason := reason; km_failureMessage := message |}.
Definition with_kubeVersion (v : option string) (km : KKMachine) : KKMachine :=
  {| km_meta := km_meta km; km_roles := km_roles km; km_providerID := km_providerID km; km_kubeVersion := v;
     km_config := km_config km; km_ready := km_ready km; km_failureReason := km_failureReason km;
     km_failureMessage := km_failureMessage km |}.
Definition with_config (c : option string) (km : KKMachine) : KKMachine :=
  {| km_meta := km_meta km; km_roles := km_roles km; km_providerID := km_providerID km;
     km_kubeVersion := km_kubeVersion km; km_config := c; km_ready := km_ready km;
     km_failureReason := km_failureReason km; km_failureMessage := km_failureMessage km |}.

Notation MM := (M KKMachine).

Definition modify_machine (f : KKMachine → KKMachine) : MM unit := let* km := local in set_local (f km).

Section KKMachineController.
Context `{KL : KubeLib} `{CL : ConfigLib} (api : nat → option error).

(** ** The configuration of a playbook *)

(** [Config.Value]: the object, an empty one when there is none yet: the raw
    specification is not looked at. *)
Definition Value (c : Config) : Object := default empty_object (cf_object c).

(** [Config.MarshalJSON] *)
Definition config_text (c : Config) : string :=
  match cf_object c with Some o => marshal_config o | None => default "{}" (cf_raw c) end.

(** Settings in order, up to the first error. *)
Fixpoint set_fields (l : list (list string * (error + field))) (c : Config) : Config * option error :=
  match l with
  | [] => (c, None)
  | (path, r) :: l' =>
      let o := Value c in
      match (match r with inl e => inl e | inr f => SetNestedField path f o end) with
      | inl e => ({| cf_raw := cf_raw c; cf_object := Some o |}, Some (Wrap "failed to set in config" e))
      | inr o' => set_fields l' {| cf_raw := cf_raw c; cf_object := Some o' |}
      end
  end.

Definition fields_before (scope : clusterScope) (km : KKMachine) : list (list string * (error + field)) :=
  [(["work_dir"], inr (FString CAPKKWorkdir));
   (["node_name"], inr (FString (ProviderID2Host (cs_name scope) (km_providerID km))))].

Definition fields_after (scope : clusterScope) (km : KKMachine) (version : string) : list (list string * (error + field)) :=
  let endpoint := inr (FString (cl_endpointHost (cs_cluster scope))) in
  let type := kc_endpointType (cs_kkcluster scope) in
  [(["kube_version"], inr (FString version));
   (["kubernetes"; "cluster_name"], inr (FString (o_name (meta (cs_cluster scope)))));
   (["kubernetes"; "roles"], inr (FStrings (km_roles km)));
   (["cluster_network"], match cluster_network (cs_cluster scope) with inl e => inl e | inr m => inr (FMap m) end)]
  ++ (if bool_decide (type = ControlPlaneEndpointTypeVIP)
      then [(["kubernetes"; "control_plane_endpoint"; "kube_vip"; "address"], endpoint)]
      else if bool_decide (type = ControlPlaneEndpointTypeDNS) then []
      else [([], inl (Msg "unsupport ControlPlaneEndpointType"))])
  ++ [(["kubernetes"; "control_plane_endpoint"; "host"], endpoint);
      (["kubernetes"; "control_plane_endpoint"; "type"], inr (FString type))].

(** [getConfig] returns the configuration also with an error. *)
Definition getConfig (scope : clusterScope) (km : KKMachine) : result (Config * option error) :=
  let none := {| cf_raw := None; cf_object := None |} in
  let fill (c : Config) :=
    match set_fields (fields_before scope km) c with
    | (c, Some e) => Ok (c, Some e)
    | (c, None) =>
        match km_kubeVersion km with
        | None => Panic "nil pointer dereference"
        | Some v => Ok (set_fields (fields_after scope km v) c)
        end
    end in
  match km_config km with
  | Some raw => fill {| cf_raw := Some raw; cf_object := None |}
  | None =>
      match km_kubeVersion km with
      | None => Ok (none, Some (Msg "kubeVersion or config is empty"))
      | Some v =>
          match version_config v with
          | inr o => fill {| cf_raw := None; cf_object := Some o |}
          | inl e => Ok (none, Some e)
          end
      end
  end.

(** ** Playbooks *)

(** [kkmachine.Annotations[k] = v] *)
Definition annotate (k v : string) : MM unit :=
  let* km := local in
  match o_annotations (km_meta km) with
  | None => panic "assignment to entry in nil map"
  | Some a => set_local (with_mmeta (with_annotations (Some (<[k := v]> a)) (km_meta km)) km)
  end.

Definition createAddNodePlaybook (scope : clusterScope) (dataSecretName : string) : MM unit :=
  let* km := local in
  let* ok := playbooks_done api km in
  if ok then
    let* volumes := getVolumeMounts api scope in
    let cloud := secret_mount "cloud-config" CAPKKCloudConfigPath dataSecretName in
    let* config := lift (Some (getConfig scope km)) in
    let* name := wrap "failed to create addNode playbook"
      (create_playbook api scope km CAPKKPlaybookAddNode (config_text config.1)
         (volumes.1 ++ [cloud.1]) (volumes.2 ++ [cloud.2])) in
    annotate AddNodePlaybookAnnotation name
  else ret tt.

Definition createDeleteNodePlaybook (scope : clusterScope) : MM unit :=
  let* km := local in
  let* ok := playbooks_done api km in
  if ok then
    let* config := lift (Some (getConfig scope km)) in
    let* volumes := getVolumeMounts api scope in
    let* name := wrap "failed to create delNode playbook"
      (create_playbook api scope km CAPKKPlaybookDeleteNode (config_text config.1) volumes.1 volumes.2) in
    annotate DeleteNodePlaybookAnnotation name
  else ret tt.

(** The name a machine has for a playbook, "" when it has none. *)
Definition playbook_name (km : KKMachine) (k : string) : string := default "" (annotation (km_meta km) k).

Definition get_named (scope : clusterScope) (name : string) : MM (option Playbook) :=
  if bool_decide (name = "") then ret None
  else wrap "failed to get playbook from kkmachine" (Get api Playbook (cs_namespace scope, name)).

Definition getPlaybook (scope : clusterScope) (km : KKMachine) : MM (option Playbook * option Playbook) :=
  let* a := get_named scope (playbook_name km AddNodePlaybookAnnotation) in
  let* d := get_named scope (playbook_name km DeleteNodePlaybookAnnotation) in
  ret (a, d).

(** ** Reconciliation *)

Definition remove_finalizer : MM unit :=
  modify_machine (λ km, with_mmeta (RemoveFinalizer (km_meta km) KKMachineFinalizer) km).

(** [if addNodePlaybook == nil && delNodePlaybook == nil] *)
Definition remove_if_gone (a d : option Playbook) : MM unit :=
  match a, d with None, None => remove_finalizer | _, _ => ret tt end.

Definition kkmachine_reconcileDelete (scope : clusterScope) : MM unit :=
  let* km := local in
  let addName := playbook_name km AddNodePlaybookAnnotation in
  let delName := playbook_name km DeleteNodePlaybookAnnotation in
  let* ad := getPlaybook scope km in
  let '(a, d) := ad in
  if bool_decide (addName = "") && bool_decide (delName = "") then
    let* _ := remove_finalizer in remove_if_gone a d
  else if negb (bool_decide (addName = "")) && bool_decide (delName = "") then
    match a with
    | None => createDeleteNodePlaybook scope
    | Some p => if completed p then createDeleteNodePlaybook scope else ret tt
    end
  else if negb (bool_decide (addName = "")) && negb (bool_decide (delName = "")) then
    match a, d with
    | Some p, _ =>
        if o_deleting (pb_meta p) then
          match d with
          | Some q =>
              if o_deleting (pb_meta q) then remove_if_gone a d
              else if bool_decide (pb_phase q = PlaybookPhaseSucceeded)
              then wrap "failed to delete delNodePlaybook" (DeleteObject api q)
              else ret tt
          | None => remove_if_gone a d
          end
        else wrap "failed to delete addNodePlaybook" (DeleteObject api p)
    | None, Some q =>
        if o_deleting (pb_meta q) then remove_if_gone a d
        else if bool_decide (pb_phase q = PlaybookPhaseSucceeded)
        then wrap "failed to delete delNodePlaybook" (DeleteObject api q)
        else ret tt
    | None, None => remove_if_gone a d
    end
  else remove_if_gone a d.

Definition kkmachine_reconcileNormal (scope : clusterScope) (dataSecretName : string) : MM unit :=
  let* km := local in
  let playbookName := playbook_name km AddNodePlaybookAnnotation in
  if bool_decide (playbookName = "") then
    let* _ := modify_machine (with_mstatus false "" "") in
    createAddNodePlaybook scope dataSecretName
  else
    let* o := wrap "failed to get playbook" (Get api Playbook (cs_namespace scope, playbookName)) in
    match o with
    | None => ret tt
    | Some playbook =>
        if bool_decide (pb_phase playbook = PlaybookPhaseSucceeded) then modify_machine (with_mstatus true "" "")
        else if bool_decide (pb_phase playbook = PlaybookPhaseFailed) then
          modify_machine (with_mstatus false KKMachineFailedReasonAddNodeFailed
            ("add_node playbook " +:+ playbookName +:+ " run failed"))
        else ret tt
    end.

(** [Reconcile] between reading the objects and writing the machine back; the
    result is the time after which to come again, in seconds. *)
Definition kkmachine_reconcile (scope : clusterScope) : MM Z :=
  let* km := local in
  if isPaused scope then ret 0%Z
  else if negb (o_deleting (km_meta km)) && negb (ContainsFinalizer (km_meta km) KKMachineFinalizer) then
    let* _ := modify_machine (λ km, with_mmeta (AddFinalizer (km_meta km) KKMachineFinalizer) km) in ret 0%Z
  else if o_deleting (km_meta km) then let* _ := kkmachine_reconcileDelete scope in ret 0%Z
  else
    let* machine := GetOwnerFromObject api km Machine ("cluster.x-k8s.io", "Machine") in
    let* _ := modify_machine (with_kubeVersion (ma_version machine)) in
    match km_providerID km, ma_dataSecretName machine with
    | None, _ => ret 0%Z
    | Some _, None => ret 10%Z
    | Some _, Some secret => let* _ := kkmachine_reconcileNormal scope secret in ret 0%Z
    end.

End KKMachineController.

(** ** Lemmas *)

Section KKMachineLemmas.
Context `{KL : KubeLib} `{CL : ConfigLib} (api : nat → option error) (scope : clusterScope).

(** Settings do not look at the raw specification. *)
Lemma set_fields_raw l r1 r2 o :
  let c1 := set_fields l {| cf_raw := r1; cf_object := o |} in
  let c2 := set_fields l {| cf_raw := r2; cf_object := o |} in
  cf_object c1.1 = cf_object c2.1 ∧ c1.2 = c2.2.
Proof.
  revert o. induction l as [|[path r] l IH]; intros o; [done|]. cbn.
  destruct (match r with inl e => inl e | inr f => SetNestedField path f _ end) as [e|o']; [done|apply IH].
Qed.

Lemma set_fields_some l (c : Config) : is_Some (cf_object c) ∨ l ≠ [] → is_Some (cf_object (set_fields l c).1).
Proof.
  revert c. induction l as [|[path r] l IH]; intros c Hc; [by destruct Hc|]. cbn.
  destruct (match r with inl e => inl e | inr f => SetNestedField path f _ end) as [e|o'] eqn:E;
    cbn; [by eexists|]. apply IH. left. by eexists.
Qed.

Lemma config_text_object (c1 c2 : Config) :
  is_Some (cf_object c1) → cf_object c1 = cf_object c2 → config_text c1 = config_text c2.
Proof. intros [o E1] E2. unfold config_text. by rewrite <-E2, E1. Qed.

(** The playbooks a machine's annotations name. *)
Definition named (s : Server) (km : KKMachine) (k : string) : option Playbook :=
  if bool_decide (playbook_name km k = "") then None
  else find_key (cs_namespace scope, playbook_name km k) (sv_playbooks s).

Lemma get_named_outcome s (x km : KKMachine) k :
  outcome (get_named api scope (playbook_name km k)) (s, x) (λ r st', st'.2 = x ∧ sv_playbooks st'.1 = sv_playbooks s
    ∧ match r with Ok o => o = named s km k | _ => True end).
Proof.
  unfold get_named, named. case_bool_decide; [by apply outcome_ret|]. apply outcome_wrap.
  intros r st' E. unfold Get, call in E. by destruct (api _); injection E as <- <-.
Qed.

Lemma getPlaybook_outcome s km :
  outcome (getPlaybook api scope km) (s, km) (λ r st', st'.2 = km ∧ sv_playbooks st'.1 = sv_playbooks s
    ∧ match r with
      | Ok (a, d) => a = named s km AddNodePlaybookAnnotation ∧ d = named s km DeleteNodePlaybookAnnotation
      | _ => True
      end).
Proof.
  unfold getPlaybook. apply outcome_bind. eapply outcome_mono; [apply get_named_outcome|].
  intros r [s1 x] (Hx & Hs & Ha). cbn in Hx, Hs. subst x. destruct r as [a|e|w]; [|done..]. subst a.
  apply outcome_bind. eapply outcome_mono; [apply get_named_outcome|].
  intros r [s2 x] (Hx & Hs2 & Hd). cbn in Hx, Hs2. subst x. destruct r as [d|e|w]; [|split_and!; [done|exact (eq_trans Hs2 Hs)|done]..].
  apply outcome_ret. split_and!; [done|exact (eq_trans Hs2 Hs)|done|].
  rewrite Hd. unfold named. by rewrite Hs.
Qed.

Lemma keeps_modify_machine (P : Server * KKMachine → Prop) f : (∀ s km, P (s, km) → P (s, f km)) → keeps P (modify_machine f).
Proof.
  intros H [s km] HP. unfold modify_machine. apply outcome_bind, outcome_local, outcome_set_local. by apply H.
Qed.

(** *** The finalizer *)

Definition finalizers_are (fs : list string) (st : Server * KKMachine) : Prop := o_finalizers (km_meta st.2) = fs.

Lemma annotate_finalizers fs k v : keeps (finalizers_are fs) (annotate k v).
Proof.
  intros [s km] H. unfold annotate. apply outcome_bind, outcome_local. cbn [snd].
  destruct (o_annotations (km_meta km)); [by apply outcome_set_local|].
  intros r st' E. unfold panic in E. by injection E as <- <-.
Qed.

Lemma createDeleteNodePlaybook_finalizers fs : keeps (finalizers_are fs) (createDeleteNodePlaybook api scope).
Proof.
  unfold createDeleteNodePlaybook. apply keeps_seq; [apply keeps_local|intros km].
  apply keeps_seq; [by apply keeps_playbooks_done|intros []; [|apply keeps_ret]].
  apply keeps_seq; [apply keeps_lift|intros config].
  apply keeps_seq; [by apply keeps_getVolumeMounts|intros vs].
  apply keeps_seq; [by apply keeps_wrap, keeps_create_playbook|intros name]. apply annotate_finalizers.
Qed.

Lemma DeletePlaybook_finalizers fs what (p : Playbook) : keeps (finalizers_are fs) (wrap what (DeleteObject api p)).
Proof. apply keeps_wrap, keeps_call; [done|]. intros s km H. cbn. by destruct (find_key _ _). Qed.

(** Either the finalizers stay, or neither playbook is there. *)
Definition released (s : Server) (km km' : KKMachine) : Prop :=
  o_finalizers (km_meta km') = o_finalizers (km_meta km)
  ∨ named s km AddNodePlaybookAnnotation = None ∧ named s km DeleteNodePlaybookAnnotation = None.

Lemma kkmachine_reconcileDelete_released s km :
  outcome (kkmachine_reconcileDelete api scope) (s, km) (λ _ st', released s km st'.2).
Proof.
  unfold kkmachine_reconcileDelete. apply outcome_bind, outcome_local. cbn [snd].
  apply outcome_bind. eapply outcome_mono; [apply getPlaybook_outcome|].
  intros r [s1 x] (Hx & _ & Had). cbn in Hx. subst x. destruct r as [[a d]|e|w]; [|by left..].
  destruct Had as [Ea Ed].
  assert (Hgone : ∀ m : M KKMachine unit, a = None → d = None → outcome m (s1, km) (λ _ st', released s km st'.2)).
  { intros m -> -> r st' E. right. by rewrite <-Ea, <-Ed. }
  assert (Hkeep : ∀ m : M KKMachine unit, keeps (finalizers_are (o_finalizers (km_meta km))) m →
    outcome m (s1, km) (λ _ st', released s km st'.2)).
  { intros m Hm. eapply outcome_mono; [by apply Hm|]. intros r st' H. by left. }
  assert (Hrem : outcome (remove_if_gone a d) (s1, km) (λ _ st', released s km st'.2)).
  { destruct a; [by apply Hkeep, keeps_ret|]. destruct d; [by apply Hkeep, keeps_ret|by apply Hgone]. }
  destruct (bool_decide (playbook_name km AddNodePlaybookAnnotation = "")) eqn:Eadd,
    (bool_decide (playbook_name km DeleteNodePlaybookAnnotation = "")) eqn:Edel; cbn [andb negb]; bools.
  - apply Hgone; [rewrite Ea|rewrite Ed]; unfold named; by rewrite bool_decide_true.
  - exact Hrem.
  - destruct a as [p|]; [destruct (completed p)|]; try (by apply Hkeep, createDeleteNodePlaybook_finalizers).
    by apply Hkeep, keeps_ret.
  - destruct a as [p|].
    + destruct (o_deleting (pb_meta p)); [|by apply Hkeep, DeletePlaybook_finalizers].
      destruct d as [q|]; [|exact Hrem]. destruct (o_deleting (pb_meta q)); [exact Hrem|].
      case_bool_decide; [by apply Hkeep, DeletePlaybook_finalizers|by apply Hkeep, keeps_ret].
    + destruct d as [q|]; [|exact Hrem]. destruct (o_deleting (pb_meta q)); [exact Hrem|].
      case_bool_decide; [by apply Hkeep, DeletePlaybook_finalizers|by apply Hkeep, keeps_ret].
Qed.

(** *** A playbook that is neither running nor successful *)

(** The machine's leaving has started, the add playbook is gone and the other
    one is there, not deleted and not successful. *)
Definition leaving_failed (km : KKMachine) (s : Server) : Prop :=
  playbook_name km AddNodePlaybookAnnotation ≠ "" ∧ playbook_name km DeleteNodePlaybookAnnotation ≠ ""
  ∧ named s km AddNodePlaybookAnnotation = None
  ∧ ∃ q, named s km DeleteNodePlaybookAnnotation = Some q ∧ o_deleting (pb_meta q) = false
         ∧ pb_phase q ≠ PlaybookPhaseSucceeded.

Lemma get_named_returns name : returns (get_named api scope name).
Proof. unfold get_named. case_bool_decide; [apply returns_ret|]. apply returns_wrap, returns_call. Qed.

Lemma getPlaybook_returns km : returns (getPlaybook api scope km).
Proof. apply returns_bind; [apply get_named_returns|]. intros a. apply returns_bind; [apply get_named_returns|]. intros d. apply returns_ret. Qed.

Lemma leaving_failed_waits s km :
  leaving_failed km s →
  ∃ r s', kkmachine_reconcileDelete api scope (s, km) = Some (r, (s', km)) ∧ sv_playbooks s' = sv_playbooks s.
Proof.
  intros (Hadd & Hdel & Ha & q & Hq & Hnd & Hph). destruct (getPlaybook_returns km (s, km)) as [[r [s1 x]] E].
  destruct (getPlaybook_outcome s km _ _ E) as (Hx & Hs & Had). cbn in Hx, Hs. subst x.
  unfold kkmachine_reconcileDelete, bind at 1, local. cbn [snd]. unfold bind at 1. rewrite E.
  destruct r as [[a d]|e|w]; [|by exists (Err e), s1|by exists (Panic w), s1].
  destruct Had as [-> ->]. rewrite !bool_decide_false by done. cbn [andb negb].
  rewrite Ha, Hq, Hnd, bool_decide_false by done. by exists (Ok tt), s1.
Qed.

(** [n] reconciliations of a deleted machine. *)
Fixpoint rounds (n : nat) (st : Server * KKMachine) : option (Server * KKMachine) :=
  match n with
  | O => Some st
  | S n' => match kkmachine_reconcileDelete api scope st with
            | Some (_, st') => rounds n' st'
            | None => None
            end
  end.

Lemma rounds_waiting n s km :
  leaving_failed km s → ∃ s', rounds n (s, km) = Some (s', km) ∧ sv_playbooks s' = sv_playbooks s.
Proof.
  revert s. induction n as [|n IH]; intros s H; cbn [rounds]; [by exists s|].
  destruct (leaving_failed_waits s km H) as (r & s1 & -> & Hs). destruct (IH s1) as (s' & E & Hs').
  - destruct H as (? & ? & ? & ?). unfold leaving_failed, named in *. by rewrite Hs.
  - exists s'. split; [exact E|]. by rewrite Hs'.
Qed.

End KKMachineLemmas.

(** ** Properties *)

(** A machine with a configuration of its own gets none of it: whatever the
    text, the playbooks that add or delete its node are made with the same
    configuration, the settings of [getConfig] alone, because [Config.Value]
    starts from an empty object when only the raw text is set. *)
Theorem config_ignored `{CL : ConfigLib} scope km r1 r2 :
  rmap (λ c, (config_text c.1, c.2)) (getConfig scope (with_config (Some r1) km))
  = rmap (λ c, (config_text c.1, c.2)) (getConfig scope (with_config (Some r2) km)).
Proof.
  unfold getConfig. cbn [km_config with_config].
  change (fields_before scope (with_config (Some r1) km)) with (fields_before scope km).
  change (fields_before scope (with_config (Some r2) km)) with (fields_before scope km).
  assert (Hne : fields_before scope km ≠ []) by discriminate. revert Hne. generalize (fields_before scope km). intros fb Hne.
  destruct (set_fields_raw fb (Some r1) (Some r2) None) as [Eo Ee].
  pose proof (set_fields_some fb {| cf_raw := Some r1; cf_object := None |} (or_intror Hne)) as Hs.
  destruct (set_fields fb {| cf_raw := Some r1; cf_object := None |}) as [[x1 o1] e1].
  destruct (set_fields fb {| cf_raw := Some r2; cf_object := None |}) as [[x2 o2] e2].
  cbn in Eo, Ee, Hs. subst o2 e2.
  destruct e1 as [e|]; [cbn; by rewrite (config_text_object {| cf_raw := x1; cf_object := o1 |} {| cf_raw := x2; cf_object := o1 |})|].
  cbn [km_kubeVersion with_config].
  destruct (km_kubeVersion km) as [v|]; [|done].
  change (fields_after scope (with_config (Some r1) km) v) with (fields_after scope km v).
  change (fields_after scope (with_config (Some r2) km) v) with (fields_after scope km v).
  generalize (fields_after scope km v). intros fa.
  destruct (set_fields_raw fa x1 x2 o1) as [Fo Fe]. cbn in Fo, Fe |- *.
  rewrite Fe. f_equal. f_equal. apply config_text_object; [|exact Fo]. apply set_fields_some. by left.
Qed.

(** The finalizer of a machine goes only when both playbooks its annotations
    name, where they name any, are gone. *)
Theorem finalizer_released `{KL : KubeLib} `{CL : ConfigLib} api scope s km r s' km' k :
  kkmachine_reconcileDelete api scope (s, km) = Some (r, (s', km')) →
  KKMachineFinalizer ∈ o_finalizers (km_meta km) → KKMachineFinalizer ∉ o_finalizers (km_meta km') →
  k = AddNodePlaybookAnnotation ∨ k = DeleteNodePlaybookAnnotation → playbook_name km k ≠ "" →
  find_key (cs_namespace scope, playbook_name km k) (sv_playbooks s) = None.
Proof.
  intros E Hin Hout Hk Hn. destruct (kkmachine_reconcileDelete_released api scope s km _ _ E) as [H|[Ha Hd]].
  - exfalso. apply Hout. cbn in H. by rewrite H.
  - unfold named in Ha, Hd. destruct Hk as [->| ->]; [clear Hd|clear Ha]; by rewrite bool_decide_false in * by done.
Qed.

(** A machine whose playbook for leaving has failed is never released: the
    controller waits for it to be completed, but takes a successful one only.
    However often it is reconciled, the machine keeps its finalizer and both
    annotations, and the playbook stays. *)
Theorem failed_delete_blocks `{KL : KubeLib} `{CL : ConfigLib} api scope s km n :
  leaving_failed scope km s →
  ∃ s', rounds api scope n (s, km) = Some (s', km) ∧ sv_playbooks s' = sv_playbooks s.
Proof. apply rounds_waiting. Qed.

#[local] Instance ex_config : ConfigLib := {
  Object := unit; empty_object := tt; SetNestedField _ _ _ := inr tt; marshal_config _ := "{}";
  version_config _ := inr tt; cluster_network _ := inr "{}" }.

Definition ex_leaving : KKMachine :=
  {| km_meta := {| o_namespace := "ns"; o_name := "m1"; o_uid := "m1"; o_labels := {[ClusterNameLabel := "c"]};
                   o_annotations := Some {[AddNodePlaybookAnnotation := "m1-add"; DeleteNodePlaybookAnnotation := "m1-del"]};
                   o_owners := []; o_finalizers := [KKMachineFinalizer]; o_deleting := true; o_version := 0 |};
     km_roles := []; km_providerID := None; km_kubeVersion := Some "v1.23.15"; km_config := None; km_ready := true;
     km_failureReason := ""; km_failureMessage := "" |}.

Definition ex_playbook (name phase : string) : Playbook :=
  {| pb_meta := ex_meta name ∅ []; pb_projectAddr := ""; pb_playbook := ""; pb_inventory := ("ns", "c");
     pb_config := ""; pb_volumes := []; pb_volumeMounts := []; pb_serviceAccountName := "";
     pb_phase := phase; pb_failureReason := ""; pb_failureMessage := "" |}.

Definition ex_failed : Server := set_playbooks [ex_playbook "m1-del" PlaybookPhaseFailed] ex_server.

Lemma failed_delete_blocks_witness :
  ∃ s', rounds (KL := ex_lib) (λ _, None) ex_scope 5 (ex_failed, ex_leaving) = Some (s', ex_leaving)
    ∧ sv_playbooks s' = [ex_playbook "m1-del" PlaybookPhaseFailed].
Proof.
  apply (failed_delete_blocks (KL := ex_lib) (λ _, None) ex_scope ex_failed ex_leaving 5).
  split_and!; [discriminate|discriminate|reflexivity|].
  exists (ex_playbook "m1-del" PlaybookPhaseFailed). split_and!; [reflexivity|reflexivity|discriminate].
Defined.

Definition ex_released : option (result unit * (Server * KKMachine)) :=
  kkmachine_reconcileDelete (KL := ex_lib) (λ _, None) ex_scope (ex_server, ex_leaving).

Lemma ex_released_finalizers : (λ o, o_finalizers (km_meta o.2.2)) <$> ex_released = Some [].
Proof. vm_compute. reflexivity. Qed.

Lemma finalizer_released_witness :
  ∃ r s' km', ex_released = Some (r, (s', km')) ∧ o_finalizers (km_meta km') = []
    ∧ find_key ("ns", "m1-del") (sv_playbooks ex_server) = None.
Proof.
  pose proof ex_released_finalizers as Hf. destruct ex_released as [[r [s' km']]|] eqn:E; [|discriminate Hf].
  injection Hf as Hf. exists r, s', km'. split_and!; [reflexivity|exact Hf|].
  apply (finalizer_released (KL := ex_lib) (λ _, None) ex_scope ex_server ex_leaving r s' km' DeleteNodePlaybookAnnotation E);
    [by left|cbn in Hf; rewrite Hf; apply not_elem_of_nil|by right|discriminate].
Defined.
