(* ===== verification/PlaybookController.v ===== *)
(** * The playbook controller:
      [src/feature/pkg/controllers/core/playbook_controller.go]

    A playbook is pending, then running; a running playbook has a pod that
    executes it, and the pod's end is the playbook's. *)

From S2P Require Import Prelude GoStrings Fuel Groups Capkk ClusterScope InventorySpec InventoryDeletion.
From S2P Require Import InventoryController KKClusterController KKMachineController.
From stdpp Require Import gmap strings list sets.

#[local] Open Scope nat_scope.

Definition podPlaybookLabel : string := "kubekey.kubesphere.io/playbook".
Definition executorContainer : string := "executor".
Definition PlaybookCompletedFinalizer : string := "kubekey.kubesphere.io/playbook-completed".
Definition PlaybookPhasePending : string := "Pending".
Definition PlaybookPhaseRunning : string := "Running".
Definition PlaybookFailedReasonUnknown : string := "unknown".
Definition PlaybookFailedReasonPodFailed : string := "pod executor failed".
Definition PodFailed : string := "Failed".
Definition PodSucceeded : string := "Succeeded".

(** ** The playbook in memory *)

Definition with_pmeta (m : ObjectMeta) (p : Playbook) : Playbook := with_meta m p.

Definition with_pstatus (phase reason message : string) (p : Playbook) : Playbook :=
  {| pb_meta := pb_meta p; pb_projectAddr := pb_projectAddr p; pb_playbook := pb_playbook p;
     pb_inventory := pb_inventory p; pb_config := pb_config p; pb_volumes := pb_volumes p;
     pb_volumeMounts := pb_volumeMounts p; pb_serviceAccountName := pb_serviceAccountName p;
     pb_phase := phase; pb_failureReason := reason; pb_failureMessage := message |}.

Definition with_pphase (phase : string) (p : Playbook) : Playbook :=
  with_pstatus phase (pb_failureReason p) (pb_failureMessage p) p.

Notation MP := (M Playbook).

Definition modify_playbook (f : Playbook → Playbook) : MP unit := let* p := local in set_local (f p).

Section PlaybookController.
Context `{KL : KubeLib} `{JL : JsonLib} (api : nat → option error).

(** ** Pods *)

(** The message of a failed pod: how the container of the executor ended. *)
Definition pod_message (pod : Pod) : string :=
  fold_left (λ message cs,
    match cs with
    | (name, Some (reason, m)) => if bool_decide (name = executorContainer) then reason +:+ ": " +:+ m else message
    | (_, None) => message
    end) (po_terminated pod) (po_message pod).

Definition playbook_reconcileStatus : MP unit :=
  let* p := local in
  let* podList := wrap "failed to get pod list from playbook" (GetObjectListFromOwner api p Pod) in
  match podList with
  | [pod] =>
      if completed p then ret tt
      else if bool_decide (po_phase pod = PodFailed) then
        modify_playbook (with_pstatus PlaybookPhaseFailed PlaybookFailedReasonPodFailed (pod_message pod))
      else if bool_decide (po_phase pod = PodSucceeded) then modify_playbook (with_pphase PlaybookPhaseSucceeded)
      else ret tt
  | _ => ret tt
  end.

Definition playbook_reconcileDelete : MP unit :=
  let* p := local in
  let* podList := GetObjectListFromOwner api p Pod in
  let* _ := when (completed p) (delete_all api "failed to delete pod" podList) in
  when (negb (nonempty podList)) (modify_playbook (λ p, with_pmeta (RemoveFinalizer (pb_meta p) PlaybookCompletedFinalizer) p)).

(** The pod of a playbook; the call numbered [n] creates it. *)
Definition playbook_pod (p : Playbook) (n : nat) : Pod :=
  let name := o_name (pb_meta p) +:+ "-" +:+ generated n in
  let verbose := Getenv "EXECUTOR_VERBOSE" "" in
  {| po_meta := {| o_namespace := o_namespace (pb_meta p); o_name := name; o_uid := name;
                   o_labels := {[podPlaybookLabel := o_name (pb_meta p)]}; o_annotations := None;
                   o_owners := [owner_ref p]; o_finalizers := []; o_deleting := false; o_version := 0 |};
     po_serviceAccountName := pb_serviceAccountName p;
     po_volumes := pb_volumes p; po_volumeMounts := pb_volumeMounts p;
     po_image := Getenv "EXECUTOR_IMAGE" "docker.io/kubesphere/executor:latest";
     po_imagePullPolicy := Getenv "EXECUTOR_IMAGE_PULLPOLICY" "";
     po_args := ["playbook"; "--name"; o_name (pb_meta p); "--namespace"; o_namespace (pb_meta p)]
                ++ (if bool_decide (verbose = "") then [] else ["-v"; verbose]);
     po_phase := ""; po_message := ""; po_terminated := [] |}.

Definition is_pod_of (p : Playbook) (m : ObjectMeta) : bool :=
  bool_decide (o_namespace m = o_namespace (pb_meta p)) && has_label_value podPlaybookLabel (o_name (pb_meta p)) m.

Definition dealRunningPlaybook : MP unit :=
  let* p := local in
  let* podList := wrap "failed to list pod" (ListObjects api Pod (is_pod_of p)) in
  if nonempty podList then ret tt
  else wrap "failed to create pod of playbook" (λ st, Create api (playbook_pod p (sv_calls st.1)) st).

Definition playbook_reconcileNormal : MP unit :=
  let* p := local in
  if bool_decide (pb_phase p = "") then modify_playbook (with_pphase PlaybookPhasePending)
  else if bool_decide (pb_phase p = PlaybookPhasePending) then modify_playbook (with_pphase PlaybookPhaseRunning)
  else if bool_decide (pb_phase p = PlaybookPhaseRunning) then dealRunningPlaybook
  else ret tt.

(** ** Reconciliation *)

Definition playbook_body : MP unit :=
  let* p := local in
  if negb (o_deleting (pb_meta p)) && negb (ContainsFinalizer (pb_meta p) PlaybookCompletedFinalizer) then
    modify_playbook (λ p, with_pmeta (AddFinalizer (pb_meta p) PlaybookCompletedFinalizer) p)
  else if o_deleting (pb_meta p) then playbook_reconcileDelete
  else playbook_reconcileNormal.

Definition record_playbook_failure (e : error) (p : Playbook) : Playbook :=
  with_pstatus (pb_phase p)
    (if bool_decide (pb_failureReason p = "") then PlaybookFailedReasonUnknown else pb_failureReason p)
    (error_text e) p.

(** The playbook as it is when the deferred function writes it back. *)
Definition playbook_reconcile : MP unit := λ st,
  match playbook_body st with
  | None => None
  | Some (r, (s, p)) =>
      let p := match r with Err e => record_playbook_failure e p | _ => p end in
      match playbook_reconcileStatus (s, p) with
      | None => None
      | Some (d, st') => Some (join_results r d, st')
      end
  end.

(** ** A playbook that has ended *)

Lemma keeps_modify_playbook (P : Server * Playbook → Prop) f : (∀ s p, P (s, p) → P (s, f p)) → keeps P (modify_playbook f).
Proof.
  intros H [s p] HP. unfold modify_playbook. apply outcome_bind, outcome_local, outcome_set_local. by apply H.
Qed.

Definition ended (phase : string) (st : Server * Playbook) : Prop := pb_phase st.2 = phase ∧ completed st.2 = true.

Lemma completed_phases p : completed p = true → pb_phase p ≠ "" ∧ pb_phase p ≠ PlaybookPhasePending ∧ pb_phase p ≠ PlaybookPhaseRunning.
Proof. unfold completed. intros [H|H]%orb_true_iff; bools; rewrite H; split_and!; discriminate. Qed.

Lemma playbook_reconcileStatus_ended phase : keeps (ended phase) playbook_reconcileStatus.
Proof.
  unfold playbook_reconcileStatus. intros [s p] H. apply outcome_bind, outcome_local. cbn [snd].
  apply outcome_bind. eapply outcome_mono.
  { apply (keeps_wrap (λ st, ended phase st ∧ st.2 = p)); [|by split].
    apply keeps_GetObjectListFromOwner. by intros ? ? [? ?]. }
  intros r [s1 p1] [H1 Hp]. cbn in Hp. subst p1. destruct r as [pods|e|w]; [|done..].
  destruct pods as [|pod [|? ?]]; [by apply outcome_ret| |by apply outcome_ret].
  destruct H as [_ Hc]. cbn [snd] in Hc. rewrite Hc. by apply outcome_ret.
Qed.

Lemma playbook_body_ended phase : keeps (ended phase) playbook_body.
Proof.
  unfold playbook_body. intros [s p] H. apply outcome_bind, outcome_local. cbn [snd].
  destruct (_ && _); [by apply keeps_modify_playbook|]. destruct (o_deleting _).
  - revert H. apply (λ H, H (s, p)). unfold playbook_reconcileDelete. apply keeps_seq; [apply keeps_local|intros q].
    apply keeps_seq; [by apply keeps_GetObjectListFromOwner|intros pods].
    apply keeps_seq.
    { apply keeps_when, keeps_for_each. intros pod. apply keeps_wrap, keeps_call; [done|].
      intros s' p' H. cbn. by destruct (find_key _ _). }
    intros _. by apply keeps_when, keeps_modify_playbook.
  - unfold playbook_reconcileNormal. apply outcome_bind, outcome_local. cbn [snd].
    destruct (completed_phases p (proj2 H)) as (H1 & H2 & H3). rewrite !bool_decide_false by done.
    by apply outcome_ret.
Qed.

Lemma playbook_reconcile_ended phase : keeps (ended phase) playbook_reconcile.
Proof.
  intros [s p] H r st' E. unfold playbook_reconcile in E.
  destruct (playbook_body (s, p)) as [[r1 [s1 p1]]|] eqn:Eb; [|discriminate E].
  pose proof (playbook_body_ended phase _ H _ _ Eb) as H1.
  assert (H2 : ended phase (s1, match r1 with Err e => record_playbook_failure e p1 | _ => p1 end))
    by (destruct r1; exact H1).
  destruct (playbook_reconcileStatus _) as [[d st2]|] eqn:Es; [|discriminate E]. injection E as <- <-.
  exact (playbook_reconcileStatus_ended phase _ H2 _ _ Es).
Qed.

End PlaybookController.

(** ** A new playbook *)

Section Starting.
Context `{KL : KubeLib} `{JL : JsonLib} (api : nat → option error) (Hapi : ∀ n, api n = None).

(** No pod is the playbook's, by label or by owner. *)
Definition no_pod (p : Playbook) (s : Server) : Prop :=
  ∀ pod, pod ∈ sv_pods s → is_pod_of p (po_meta pod) = false ∧ owned_by p (po_meta pod) = false.

Lemma filter_none {A} (f : A → bool) (l : list A) : (∀ a, a ∈ l → f a = false) → List.filter f l = [].
Proof.
  induction l as [|a l IH]; intros Hf; [done|]. cbn. rewrite (Hf a) by (by left). apply IH. intros b Hb. apply Hf. by right.
Qed.

Lemma owned_pods_ok p s :
  GetObjectListFromOwner api p Pod (s, p)
  = Some (Ok (List.filter (λ b, owned_by p (po_meta b))
               (List.filter (λ b, bool_decide (o_namespace (po_meta b) = o_namespace (pb_meta p))) (sv_pods s))), (tick s, p)).
Proof. unfold GetObjectListFromOwner. erewrite bind_ok; [|by apply wrap_ok, List_ok]. done. Qed.

Lemma status_no_pod p s : no_pod p s → playbook_reconcileStatus api (s, p) = Some (Ok tt, (tick s, p)).
Proof.
  intros H. unfold playbook_reconcileStatus. rewrite (bind_ok _ _ (s, p) p (s, p)) by done.
  rewrite (bind_ok _ _ _ [] (tick s, p)); [done|]. apply wrap_ok. rewrite owned_pods_ok. repeat f_equal.
  apply filter_none. intros pod Hin. apply filter_elem in Hin. by apply H.
Qed.

(** A reconciliation that leaves the playbook without a pod. *)
Lemma reconcile_no_pod s p p' :
  playbook_body api (s, p) = Some (Ok tt, (s, p')) → no_pod p' s →
  playbook_reconcile api (s, p) = Some (Ok tt, (tick s, p')).
Proof. intros Eb Hp. unfold playbook_reconcile. by rewrite Eb, status_no_pod. Qed.

(** [n] successful reconciliations. *)
Fixpoint reconciles (n : nat) (st : Server * Playbook) : option (Server * Playbook) :=
  match n with
  | O => Some st
  | S n' => match playbook_reconcile api st with
            | Some (Ok _, st') => reconciles n' st'
            | _ => None
            end
  end.

(** The playbook with its finalizer. *)
Definition finalized (p : Playbook) : Playbook :=
  with_pmeta (with_finalizers (o_finalizers (pb_meta p) ++ [PlaybookCompletedFinalizer]) (pb_meta p)) p.

Lemma finalized_contains p : ContainsFinalizer (pb_meta (finalized p)) PlaybookCompletedFinalizer = true.
Proof. apply bool_decide_eq_true. cbn. apply elem_of_app. right. by left. Qed.

Lemma body_finalizes s p :
  o_deleting (pb_meta p) = false → ContainsFinalizer (pb_meta p) PlaybookCompletedFinalizer = false →
  playbook_body api (s, p) = Some (Ok tt, (s, finalized p)).
Proof.
  intros Hd Hf. unfold playbook_body. rewrite (bind_ok _ _ (s, p) p (s, p)) by done. rewrite Hd, Hf. cbn [negb andb].
  unfold modify_playbook. rewrite (bind_ok _ _ (s, p) p (s, p)) by done. unfold set_local, AddFinalizer. by rewrite Hf.
Qed.

Lemma body_next_phase s p phase :
  o_deleting (pb_meta p) = false → ContainsFinalizer (pb_meta p) PlaybookCompletedFinalizer = true →
  pb_phase p = "" ∧ phase = PlaybookPhasePending ∨ pb_phase p = PlaybookPhasePending ∧ phase = PlaybookPhaseRunning →
  playbook_body api (s, p) = Some (Ok tt, (s, with_pphase phase p)).
Proof.
  intros Hd Hf Hph. unfold playbook_body. rewrite (bind_ok _ _ (s, p) p (s, p)) by done. rewrite Hd, Hf. cbn [negb andb].
  unfold playbook_reconcileNormal. rewrite (bind_ok _ _ (s, p) p (s, p)) by done.
  destruct Hph as [[E ->]|[E ->]]; rewrite E; reflexivity.
Qed.

(** Creating the pod, and seeing it. *)
Lemma body_creates s p :
  o_deleting (pb_meta p) = false → ContainsFinalizer (pb_meta p) PlaybookCompletedFinalizer = true →
  pb_phase p = PlaybookPhaseRunning → no_pod p s →
  (∀ n pod, pod ∈ sv_pods s → key pod ≠ key (playbook_pod p n)) →
  ∃ s' n, playbook_body api (s, p) = Some (Ok tt, (s', p)) ∧ sv_pods s' = sv_pods s ++ [playbook_pod p n].
Proof.
  intros Hd Hf Hph Hp Hk. eexists _, (S (sv_calls s)). unfold playbook_body.
  rewrite (bind_ok _ _ (s, p) p (s, p)) by done. rewrite Hd, Hf. cbn [negb andb].
  unfold playbook_reconcileNormal. rewrite (bind_ok _ _ (s, p) p (s, p)) by done.
  rewrite Hph. rewrite !bool_decide_false by discriminate. rewrite bool_decide_true by done.
  unfold dealRunningPlaybook. rewrite (bind_ok _ _ (s, p) p (s, p)) by done.
  rewrite (bind_ok _ _ _ [] (tick s, p)).
  2:{ apply wrap_ok. rewrite List_ok by done. repeat f_equal. apply filter_none. intros pod Hin. by apply Hp. }
  cbn [nonempty fst]. split.
  - apply wrap_ok. unfold Create, call. rewrite Hapi.
    destruct (find_key _ _) as [pod|] eqn:Ef; [|reflexivity].
    apply find_key_Some in Ef as [Ek (l1 & l2 & El)]. exfalso.
    apply (Hk (S (sv_calls s)) pod); [|exact Ek]. cbn in El. rewrite El. apply elem_of_app. right. by left.
  - reflexivity.
Qed.

Lemma owned_own_pod p n : owned_by p (po_meta (playbook_pod p n)) = true.
Proof. unfold owned_by. cbn. by rewrite !bool_decide_true. Qed.

Lemma status_own_pod p s l n :
  sv_pods s = l ++ [playbook_pod p n] → (∀ pod, pod ∈ l → owned_by p (po_meta pod) = false) →
  playbook_reconcileStatus api (s, p) = Some (Ok tt, (tick s, p)).
Proof.
  intros El H. unfold playbook_reconcileStatus. rewrite (bind_ok _ _ (s, p) p (s, p)) by done.
  rewrite (bind_ok _ _ _ [playbook_pod p n] (tick s, p)).
  - by destruct (completed p).
  - apply wrap_ok. rewrite owned_pods_ok, El. repeat f_equal. rewrite !List.filter_app. cbn [List.filter].
    rewrite (bool_decide_true (o_namespace _ = _)) by done. cbn [List.filter]. rewrite owned_own_pod.
    rewrite (filter_none _ (List.filter _ l)); [done|]. intros pod Hin. apply filter_elem in Hin. by apply H.
Qed.

Lemma reconciles_start s p :
  pb_phase p = "" → o_deleting (pb_meta p) = false →
  ContainsFinalizer (pb_meta p) PlaybookCompletedFinalizer = false → no_pod p s →
  (∀ n pod, pod ∈ sv_pods s → key pod ≠ key (playbook_pod p n)) →
  let p' := with_pphase PlaybookPhaseRunning (finalized p) in
  ∃ s' n, reconciles 4 (s, p) = Some (s', p') ∧ sv_pods s' = sv_pods s ++ [playbook_pod p' n].
Proof.
  intros Hph Hd Hf Hp Hk p'. pose proof (finalized_contains p) as Hf'. unfold reconciles.
  rewrite (reconcile_no_pod s p (finalized p)); [|by apply body_finalizes|exact Hp].
  rewrite (reconcile_no_pod (tick s) (finalized p) (with_pphase PlaybookPhasePending (finalized p)));
    [|apply body_next_phase; [exact Hd|exact Hf'|by left]|exact Hp].
  rewrite (reconcile_no_pod (tick (tick s)) (with_pphase PlaybookPhasePending (finalized p)) p');
    [|apply (body_next_phase _ (with_pphase PlaybookPhasePending (finalized p))); [exact Hd|exact Hf'|by right]|exact Hp].
  destruct (body_creates (tick (tick (tick s))) p') as (s1 & n & Eb & Es); [exact Hd|exact Hf'|done|exact Hp|exact Hk|].
  unfold playbook_reconcile. rewrite Eb.
  rewrite (status_own_pod p' s1 (sv_pods s) n Es) by (intros pod Hin; by apply Hp).
  exists (tick s1), n. split; [done|exact Es].
Qed.

End Starting.

(** ** Properties *)

(** C14: a new playbook is started: without failing calls, four reconciliations
    give it its finalizer, make it pending and then running, and create its pod,
    one, with its volumes, which runs "kk playbook" on it. *)
Theorem playbook_started `{KL : KubeLib} `{JL : JsonLib} api s p :
  (∀ n, api n = None) → pb_phase p = "" → o_deleting (pb_meta p) = false →
  ContainsFinalizer (pb_meta p) PlaybookCompletedFinalizer = false → no_pod p s →
  (∀ n pod, pod ∈ sv_pods s → key pod ≠ key (playbook_pod p n)) →
  let p' := with_pphase PlaybookPhaseRunning (finalized p) in
  ∃ s' n, reconciles api 4 (s, p) = Some (s', p') ∧ sv_pods s' = sv_pods s ++ [playbook_pod p' n].
Proof. intros Hapi Hph Hd Hf Hp Hk p'. by apply reconciles_start. Qed.

(** A playbook that has failed or succeeded stays as it ended, whatever its
    pods do and whichever calls fail. *)
Theorem playbook_ended_stays `{KL : KubeLib} `{JL : JsonLib} api s p r s' p' :
  completed p = true → playbook_reconcile api (s, p) = Some (r, (s', p')) → pb_phase p' = pb_phase p.
Proof. intros Hc E. by apply (playbook_reconcile_ended api (pb_phase p) (s, p) (conj eq_refl Hc)) in E as [? _]. Qed.

#[local] Instance ex_json : JsonLib := {
  unmarshal_object _ := Ok (Some ∅); marshal_object _ := Ok ""; error_text _ := "failed" }.

Lemma playbook_started_witness :
  ∃ s' n, reconciles (KL := ex_lib) (λ _, None) 4 (ex_server, ex_playbook "p" "")
          = Some (s', with_pphase PlaybookPhaseRunning (finalized (ex_playbook "p" "")))
    ∧ sv_pods s' = [playbook_pod (KL := ex_lib) (with_pphase PlaybookPhaseRunning (finalized (ex_playbook "p" ""))) n].
Proof.
  apply (playbook_started (KL := ex_lib) (λ _, None) ex_server (ex_playbook "p" ""));
    [reflexivity|reflexivity|reflexivity|reflexivity|intros pod Hin|intros n pod Hin];
    destruct (not_elem_of_nil pod Hin).
Defined.
