(* ===== verification/PlaybookWebhook.v ===== *)
(** * The webhook of playbooks: [src/feature/pkg/controllers/core/playbook_webhook.go]

    A playbook without a service account gets one of its namespace, which is
    bound to the role of the executor.  All namespaces share one binding; requests
    are admitted concurrently, so the webhook is a program of API calls. *)

From Stdlib Require Import String.
From S2P Require Import Prelude Prog Capkk.
From stdpp Require Import gmap strings list sets.

#[local] Open Scope nat_scope.

Definition defaultServiceAccountName : string := "kubekey-executor".
Definition defaultClusterRoleBindingName : string := "kubekey-executor".

Record Subject := { sj_kind : string; sj_name : string; sj_namespace : string }.

#[export] Instance Subject_eq_dec : EqDecision Subject.
Proof. solve_decision. Defined.

Record ClusterRoleBinding := { cb_subjects : list Subject; cb_role : string }.

(** What the API server holds of roles, service accounts and bindings. *)
Record Rbac := {
  rb_clusterRoles : gset string;
  rb_serviceAccounts : gset (string * string);
  rb_bindings : gmap string ClusterRoleBinding;
  rb_calls : nat;
}.

Definition set_accounts (l : gset (string * string)) (s : Rbac) : Rbac :=
  {| rb_clusterRoles := rb_clusterRoles s; rb_serviceAccounts := l; rb_bindings := rb_bindings s; rb_calls := rb_calls s |}.
Definition set_bindings (m : gmap string ClusterRoleBinding) (s : Rbac) : Rbac :=
  {| rb_clusterRoles := rb_clusterRoles s; rb_serviceAccounts := rb_serviceAccounts s; rb_bindings := m; rb_calls := rb_calls s |}.
Definition count_call (s : Rbac) : Rbac :=
  {| rb_clusterRoles := rb_clusterRoles s; rb_serviceAccounts := rb_serviceAccounts s; rb_bindings := rb_bindings s; rb_calls := S (rb_calls s) |}.

(** Errors, as [IsNotFound] tells them apart. *)
Inductive api_error := IsNotFound | Other (e : error).

Section Webhook.
Context (api : nat → option error).

Definition rbac_call {A} (f : Rbac → Rbac * (api_error + A)) : prog Rbac (api_error + A) :=
  atomic (λ s, match api (rb_calls s) with
               | Some e => (count_call s, inl (Other e))
               | None => f (count_call s)
               end).

Definition get_clusterRole (name : string) : prog Rbac (api_error + ()) :=
  rbac_call (λ s, (s, if bool_decide (name ∈ rb_clusterRoles s) then inr () else inl IsNotFound)).

Definition get_serviceAccount (k : string * string) : prog Rbac (api_error + ()) :=
  rbac_call (λ s, (s, if bool_decide (k ∈ rb_serviceAccounts s) then inr () else inl IsNotFound)).

Definition create_serviceAccount (k : string * string) : prog Rbac (api_error + ()) :=
  rbac_call (λ s, if bool_decide (k ∈ rb_serviceAccounts s) then (s, inl (Other AlreadyExists))
                  else (set_accounts ({[k]} ∪ rb_serviceAccounts s) s, inr ())).

Definition get_binding (name : string) : prog Rbac (api_error + ClusterRoleBinding) :=
  rbac_call (λ s, (s, match rb_bindings s !! name with Some b => inr b | None => inl IsNotFound end)).

Definition create_binding (name : string) (b : ClusterRoleBinding) : prog Rbac (api_error + ()) :=
  rbac_call (λ s, match rb_bindings s !! name with
                  | Some _ => (s, inl (Other AlreadyExists))
                  | None => (set_bindings (<[name := b]> (rb_bindings s)) s, inr ())
                  end).

(** A merge patch without a resource version replaces the list. *)
Definition patch_subjects (name : string) (subjects : list Subject) : prog Rbac (api_error + ()) :=
  rbac_call (λ s, match rb_bindings s !! name with
                  | None => (s, inl IsNotFound)
                  | Some b => (set_bindings (<[name := {| cb_subjects := subjects; cb_role := cb_role b |}]> (rb_bindings s)) s, inr ())
                  end).

Definition to_error (e : api_error) : error := match e with IsNotFound => NotFound | Other e => e end.

Definition subject_of (ns : string) : Subject :=
  {| sj_kind := "ServiceAccount"; sj_name := defaultServiceAccountName; sj_namespace := ns |}.

(** From the binding on. *)
Definition bind_account (ns clusterrole : string) : prog Rbac (option error) :=
  do! b <- get_binding defaultClusterRoleBindingName in
  match b with
  | inl (Other e) => PRet (Some (Wrap "failed to get clusterrolebinding" e))
  | inl IsNotFound =>
      do! c <- create_binding defaultClusterRoleBindingName {| cb_subjects := [subject_of ns]; cb_role := clusterrole |} in
      PRet match c with inl e => Some (to_error e) | inr _ => None end
  | inr crb =>
      if existsb (λ sj, bool_decide (sj = subject_of ns)) (cb_subjects crb) then PRet None
      else
        do! p <- patch_subjects defaultClusterRoleBindingName (cb_subjects crb ++ [subject_of ns]) in
        PRet match p with inl e => Some (Wrap "fail to update clusterrolebinding" (to_error e)) | inr _ => None end
  end.

Definition syncServiceAccount (ns clusterrole : string) : prog Rbac (option error) :=
  do! cr <- get_clusterRole clusterrole in
  match cr with
  | inl e => PRet (Some (Wrap "failed to get clusterrole" (to_error e)))
  | inr _ =>
      let key := (ns, defaultServiceAccountName) in
      do! sa <- get_serviceAccount key in
      match sa with
      | inl (Other e) => PRet (Some (Wrap "failed to get serviceaccount" e))
      | inr _ => bind_account ns clusterrole
      | inl IsNotFound =>
          do! c <- create_serviceAccount key in
          match c with
          | inl e => PRet (Some (to_error e))
          | inr _ => bind_account ns clusterrole
          end
      end
  end.

Definition with_serviceAccount (name : string) (p : Playbook) : Playbook :=
  {| pb_meta := pb_meta p; pb_projectAddr := pb_projectAddr p; pb_playbook := pb_playbook p;
     pb_inventory := pb_inventory p; pb_config := pb_config p; pb_volumes := pb_volumes p;
     pb_volumeMounts := pb_volumeMounts p; pb_serviceAccountName := name; pb_phase := pb_phase p;
     pb_failureReason := pb_failureReason p; pb_failureMessage := pb_failureMessage p |}.

(** [Default]; the object, if it is a playbook, and the value of the environment
    variable. *)
Definition Default (executorClusterRole : string) (obj : option Playbook) : prog Rbac (error + Playbook) :=
  match obj with
  | None => PRet (inl (Msg "failed to convert to playbooks"))
  | Some p =>
      if bool_decide (pb_serviceAccountName p = "" ∧ executorClusterRole ≠ "") then
        do! r <- syncServiceAccount (o_namespace (pb_meta p)) executorClusterRole in
        PRet match r with Some e => inl e | None => inr (with_serviceAccount defaultServiceAccountName p) end
      else if bool_decide (pb_serviceAccountName p = "") then PRet (inr (with_serviceAccount "default" p))
      else PRet (inr p)
  end.

(** ** Properties *)

(** The account of a namespace exists and the shared binding names it. *)
Definition bound (ns : string) (s : Rbac) : Prop :=
  (ns, defaultServiceAccountName) ∈ rb_serviceAccounts s ∧
  ∃ b, rb_bindings s !! defaultClusterRoleBindingName = Some b ∧ subject_of ns ∈ cb_subjects b.

(** Nothing that is there goes away, and the roles of the bindings stay. *)
Record rbac_le (s s' : Rbac) : Prop := {
  le_accounts : rb_serviceAccounts s ⊆ rb_serviceAccounts s';
  le_bindings : ∀ n b, rb_bindings s !! n = Some b → ∃ b', rb_bindings s' !! n = Some b' ∧ cb_role b' = cb_role b ∧ cb_subjects b ⊆ cb_subjects b';
}.

#[local] Instance rbac_le_preorder : PreOrder rbac_le.
Proof.
  split.
  - intros s. split; [done|]. intros n b H. by exists b.
  - intros s1 s2 s3 [H1 H2] [H3 H4]. split; [by etrans|]. intros n b H.
    destruct (H2 n b H) as (b' & Hb' & Hr & Hs). destruct (H4 n b' Hb') as (b2 & Hb2 & Hr2 & Hs2). exists b2.
    split_and!; [done|congruence|by etrans].
Qed.

Lemma bound_le ns s s' : rbac_le s s' → bound ns s → bound ns s'.
Proof.
  intros [H1 H2] [Ha (b & Hb & Hs)]. split; [by apply H1|]. destruct (H2 _ b Hb) as (b' & Hb' & _ & Hsub). exists b'. auto.
Qed.

Lemma run_rbac_call {A} (f : Rbac → Rbac * (api_error + A)) s :
  run (rbac_call f) s = match api (rb_calls s) with Some e => (count_call s, inl (Other e)) | None => f (count_call s) end.
Proof. unfold rbac_call, atomic. simpl. destruct (api (rb_calls s)); [done|]. by destruct (f (count_call s)). Qed.

Lemma same_le s s' : rb_serviceAccounts s' = rb_serviceAccounts s → rb_bindings s' = rb_bindings s → rbac_le s s'.
Proof. intros E1 E2. split; rewrite ?E1, ?E2; [done|]. intros n b H. by exists b. Qed.

#[local] Arguments pbind : simpl never.

Ltac rbac_step :=
  rewrite run_pbind, run_rbac_call;
  match goal with |- context [api ?n] => destruct (api n) as [?e|] end; cbn [fst snd run]; [by split; [apply same_le|]|].

Lemma run_bind_account ns clusterrole s :
  let '(s', r) := run (bind_account ns clusterrole) s in
  rbac_le s s' ∧ (r = None → (ns, defaultServiceAccountName) ∈ rb_serviceAccounts s → bound ns s').
Proof.
  unfold bind_account. rewrite run_pbind. unfold get_binding. rewrite run_rbac_call. destruct (api (rb_calls s)) as [e|]; [by split; [apply same_le|]|].
  cbn [fst snd]. change (rb_bindings (count_call s)) with (rb_bindings s).
  destruct (rb_bindings s !! defaultClusterRoleBindingName) as [crb|] eqn:Hb.
  - destruct (existsb _ (cb_subjects crb)) eqn:Hex.
    + split; [by apply same_le|]. intros _ Ha. split; [done|]. exists crb. split; [done|].
      apply existsb_exists in Hex as (sj & Hin & ->%bool_decide_eq_true). by apply list_elem_of_In.
    + rewrite run_pbind. unfold patch_subjects. rewrite run_rbac_call. destruct (api _) as [e|]; [by split; [apply same_le|]|].
      change (rb_bindings (count_call (count_call s))) with (rb_bindings s). rewrite Hb. cbn [fst snd run]. split.
      * split; [done|]. intros n b Hn. simpl. destruct (decide (n = defaultClusterRoleBindingName)) as [->|Hne].
        -- rewrite Hb in Hn. injection Hn as <-. eexists. rewrite lookup_insert_eq. split_and!; [done|done|]. simpl. set_solver.
        -- exists b. by rewrite lookup_insert_ne.
      * intros _ Ha. split; [done|]. eexists. simpl. rewrite lookup_insert_eq. split; [done|]. simpl. set_solver.
  - rewrite run_pbind. unfold create_binding. rewrite run_rbac_call. destruct (api _) as [e|]; [by split; [apply same_le|]|].
    change (rb_bindings (count_call (count_call s))) with (rb_bindings s). rewrite Hb. cbn [fst snd run]. split.
    + split; [done|]. intros n b Hn. exists b. simpl. rewrite lookup_insert_ne by congruence. done.
    + intros _ Ha. split; [done|]. eexists. simpl. rewrite lookup_insert_eq. split; [done|]. simpl. set_solver.
Qed.

Lemma run_syncServiceAccount ns clusterrole s :
  let '(s', r) := run (syncServiceAccount ns clusterrole) s in
  rbac_le s s' ∧ (r = None → bound ns s').
Proof.
  unfold syncServiceAccount. rewrite run_pbind. unfold get_clusterRole. rewrite run_rbac_call.
  destruct (api (rb_calls s)) as [e|]; [by split; [apply same_le|]|]. cbn [fst snd].
  destruct (bool_decide _); [|by split; [apply same_le|]]. cbv zeta. rewrite run_pbind. unfold get_serviceAccount. rewrite run_rbac_call.
  destruct (api _) as [e|]; [by split; [apply same_le|]|]. cbn [fst snd]. change (rb_serviceAccounts (count_call (count_call s))) with (rb_serviceAccounts s).
  case_bool_decide as Hsa.
  - pose proof (run_bind_account ns clusterrole (count_call (count_call s))) as H.
    destruct (run (bind_account ns clusterrole) _) as [s' r]. destruct H as [H1 H2]. split; [|intros Hr; by apply H2].
    etrans; [|exact H1]. by apply same_le.
  - rewrite run_pbind. unfold create_serviceAccount. rewrite run_rbac_call. destruct (api _) as [e|]; [by split; [apply same_le|]|].
    cbn [fst snd]. case_bool_decide as Hsa'; [by split; [apply same_le|]|]. cbn [fst snd].
    match goal with |- context [run (bind_account _ _) ?x] => pose proof (run_bind_account ns clusterrole x) as H; set (s1 := x) in * end.
    destruct (run (bind_account ns clusterrole) s1) as [s' r]. destruct H as [H1 H2]. split.
    + etrans; [|exact H1]. split; [simpl; set_solver|]. intros n b Hn. by exists b.
    + intros Hr. apply H2; [done|]. simpl. set_solver.
Qed.

(** A playbook that is admitted runs as its own service account if it names
    one, as "default" where no role is configured, and otherwise as the
    executor's account of its namespace, which then exists and is named by the
    shared binding; on the way no account, binding or subject is taken away, and
    the role of a binding never changes. *)
Theorem Default_spec executorClusterRole p s :
  let '(s', r) := run (Default executorClusterRole (Some p)) s in
  rbac_le s s' ∧
  ∀ p', r = inr p' →
    (pb_serviceAccountName p ≠ "" → p' = p ∧ s' = s) ∧
    (pb_serviceAccountName p = "" → p' = with_serviceAccount (pb_serviceAccountName p') p ∧
       (executorClusterRole = "" → pb_serviceAccountName p' = "default" ∧ s' = s) ∧
       (executorClusterRole ≠ "" → pb_serviceAccountName p' = defaultServiceAccountName ∧ bound (o_namespace (pb_meta p)) s')).
Proof.
  unfold Default. case_bool_decide as Hsync.
  - destruct Hsync as [Hp Hrole]. rewrite run_pbind. pose proof (run_syncServiceAccount (o_namespace (pb_meta p)) executorClusterRole s) as H.
    destruct (run (syncServiceAccount _ _) s) as [s' [e|]]; destruct H as [H1 H2]; simpl; split; [done|done|done|].
    intros p' [= <-]. split; [done|]. intros _. split; [done|]. split; [done|]. auto.
  - case_bool_decide as Hp; simpl; (split; [done|]); intros p' [= <-].
    + split; [done|]. intros _. split; [done|]. split; [done|]. intros Hrole. by destruct Hsync.
    + split; [done|]. done.
Qed.

End Webhook.

(** ** Concurrent admissions *)

Definition playbook_in (ns : string) : Playbook :=
  {| pb_meta := {| o_namespace := ns; o_name := "install"; o_uid := ""; o_labels := ∅; o_annotations := None; o_owners := [];
                   o_finalizers := []; o_deleting := false; o_version := 0 |};
     pb_projectAddr := ""; pb_playbook := "site.yaml"; pb_inventory := ("", ""); pb_config := ""; pb_volumes := []; pb_volumeMounts := [];
     pb_serviceAccountName := ""; pb_phase := ""; pb_failureReason := ""; pb_failureMessage := "" |}.

Definition one_binding : Rbac :=
  {| rb_clusterRoles := {["executor"]}; rb_serviceAccounts := {[("c", defaultServiceAccountName)]};
     rb_bindings := {[defaultClusterRoleBindingName := {| cb_subjects := [subject_of "c"]; cb_role := "executor" |}]}; rb_calls := 0 |}.

(** Two admissions that read the binding before either patches it: both
    succeed, and the account of one namespace is not bound. *)
Theorem admissions_lose_subjects :
  let st := run_pool (replicate 4 0 ++ replicate 5 1) [Default (λ _, None) "executor" (Some (playbook_in "a")); Default (λ _, None) "executor" (Some (playbook_in "b"))] one_binding in
  (∀ r, r ∈ st.2 → ∃ p, r = inr p ∧ pb_serviceAccountName p = defaultServiceAccountName) ∧
  bound "a" st.1 ∧ ¬ bound "b" st.1.
Proof.
  cbv zeta. split_and!.
  - intros r Hr. vm_compute in Hr. repeat (apply elem_of_cons in Hr as [->|Hr]; [by eexists|]). by apply elem_of_nil in Hr.
  - split; [by_decision|]. eexists. split; [vm_compute; reflexivity|]. by_decision.
  - intros [_ (b & Hb & Hin)]. vm_compute in Hb. injection Hb as <-. revert Hin. by_decision.
Qed.

Lemma Default_spec_witness :
  bound "a" (run (Default (λ _, None) "executor" (Some (playbook_in "a"))) one_binding).1.
Proof.
  pose proof (Default_spec (λ _, None) "executor" (playbook_in "a") one_binding) as H.
  destruct (run (Default (λ _, None) "executor" (Some (playbook_in "a"))) one_binding) as [s' r] eqn:E.
  destruct H as [_ H]. assert (r = inr (with_serviceAccount defaultServiceAccountName (playbook_in "a"))) as Hr.
  { change r with (snd (s', r)). rewrite <- E. vm_compute. reflexivity. }
  destruct (H _ Hr) as [_ H2]. destruct (H2 eq_refl) as (_ & _ & H3). by destruct (H3 ltac:(done)).
Defined.
