(* ===== verification/Tmpl.v ===== *)
(** * Templates and conditions:
      [src/feature/pkg/converter/tmpl/template.go],
      [src/feature/api/project/v1/playbook.go] and [conditional.go]

    Strings that contain template syntax are executed by [text/template] with
    the sprig functions; that engine is a parameter. *)

From S2P Require Import Prelude GoStrings Values.
From stdpp Require Import gmap strings list.
From Stdlib Require Import Ascii String.

(** ** Template syntax *)

Definition IsTmplSyntax (s : string) : bool := Contains s "{{" && Contains s "}}".
Definition ParseTmplSyntax (s : string) : string := "{{ " +:+ s +:+ "}}".

(** A YAML node as [When.UnmarshalYAML] looks at it. *)
Inductive WhenNode :=
| WScalar (text : string)
| WSequence (items : option (list string))    (* None: an item is not a string *)
| WOther.

(** [When.UnmarshalYAML] *)
Definition When_UnmarshalYAML (node : WhenNode) : result (list string) :=
  match node with
  | WScalar t => Ok [if IsTmplSyntax t then t else "{{ " +:+ t +:+ " }}"]
  | WSequence None => Err (Msg "cannot unmarshal into []string")
  | WSequence (Some l) => Ok (map (λ v, if IsTmplSyntax v then v else ParseTmplSyntax v) l)
  | WOther => Err (Msg "unsupported type, excepted string or array of strings")
  end.

(** ** Evaluation *)

(** [bytes.EqualFold(o, "true")]: none of the letters has a case fold outside
    ASCII. *)
Definition lower (a : ascii) : ascii :=
  let n := nat_of_ascii a in
  if bool_decide (65 ≤ n ∧ n ≤ 90) then ascii_of_nat (n + 32) else a.

Fixpoint str_lower (s : string) : string :=
  match s with EmptyString => EmptyString | String a s' => String (lower a) (str_lower s') end.

Definition is_true_text (s : string) : bool := bool_decide (str_lower s = "true").

Section Eval.

(** Parsing and executing one template in a context: one parameter for both
    stages, which fail with messages that differ only in the stage they
    name. *)
Context (tmpl_execute : gmap string value → string → result string).

(** [ParseFunc] with the conversion [f]. *)
Definition ParseFunc {Output : Type} (ctx : gmap string value) (input : string)
    (f : string → Output) : result Output :=
  if negb (IsTmplSyntax input) then Ok (f input)
  else match tmpl_execute ctx input with
       | Ok out => Ok (f out)
       | Err e => Err (Wrap ("failed to execute template '" +:+ input +:+ "'") e)
       | Panic w => Panic w
       end.

Definition Parse (ctx : gmap string value) (input : string) : result string :=
  ParseFunc ctx input (λ o, o).

(** [ParseBool(ctx, inputs...)]: conjunction, left to right. *)
Fixpoint ParseBool (ctx : gmap string value) (inputs : list string) : result bool :=
  match inputs with
  | [] => Ok true
  | input :: rest =>
      let! output := ParseFunc ctx input is_true_text in
      if output then ParseBool ctx rest else Ok false
  end.

(** [ParseBool] is a short-circuit conjunction: it is true exactly when every
    condition evaluates to a spelling of "true". *)
Lemma ParseBool_true ctx inputs :
  ParseBool ctx inputs = Ok true ↔
  Forall (λ input, ∃ out, Parse ctx input = Ok out ∧ is_true_text out = true) inputs.
Proof.
  assert (∀ input b, ParseFunc ctx input is_true_text = Ok b ↔
            ∃ out, Parse ctx input = Ok out ∧ is_true_text out = b) as HP.
  { intros input b. unfold Parse, ParseFunc. destruct (negb _); [naive_solver|].
    destruct (tmpl_execute ctx input); naive_solver. }
  induction inputs as [|input rest IH]; simpl; [by split|].
  rewrite Forall_cons, <- IH. split.
  - intros H. apply rbind_ok in H as ([] & H1 & H2); [|done]. by apply HP in H1.
  - intros [(out & H1 & H2) H3].
    assert (ParseFunc ctx input is_true_text = Ok true) as -> by (apply HP; eauto). done.
Qed.

(** Nothing after the first false condition is evaluated. *)
Lemma ParseBool_stops ctx inputs1 input inputs2 :
  ParseBool ctx inputs1 = Ok true → ParseFunc ctx input is_true_text = Ok false →
  ParseBool ctx (inputs1 ++ input :: inputs2) = Ok false.
Proof.
  intros H1 H2. induction inputs1 as [|i1 inputs1 IH]; simpl in *; [by rewrite H2|].
  apply rbind_ok in H1 as ([] & E & H1); [|done]. rewrite E. simpl. by apply IH.
Qed.

End Eval.

(** Every condition a [When] holds is a template: the engine, not the literal
    text, decides it. *)
Lemma When_always_template node l :
  When_UnmarshalYAML node = Ok l → Forall (λ c, IsTmplSyntax c = true) l.
Proof.
  assert (∀ s p t : string, Contains (p +:+ (t +:+ s)) t = true) as HC.
  { intros s p t. induction p as [|a p IH]; simpl.
    - destruct (t +:+ s) eqn:E; simpl; rewrite <- E, HasPrefix_app; done.
    - change (String a p +:+ (t +:+ s)) with (String a (p +:+ (t +:+ s))). simpl.
      rewrite IH. apply orb_true_r. }
  assert (∀ s, IsTmplSyntax ("{{ " +:+ s +:+ "}}") = true) as HT.
  { intros s. unfold IsTmplSyntax. apply andb_true_iff. split.
    - apply (HC (" " +:+ s +:+ "}}") "" "{{").
    - change ("{{ " +:+ s +:+ "}}") with ("{{ " +:+ (s +:+ "}}")).
      rewrite <- str_app_assoc, <- (str_app_nil_r "}}"). apply HC. }
  destruct node as [t|[items|]|]; simpl; intros [= <-].
  - constructor; [|done]. destruct (IsTmplSyntax t) eqn:E; [done|].
    replace (t +:+ " }}") with ((t +:+ " ") +:+ "}}") by apply str_app_assoc. apply HT.
  - apply Forall_map, list.Forall_forall. intros s _. simpl. destruct (IsTmplSyntax s) eqn:E; [done|].
    apply HT.
Qed.
