(* ===== verification/Hostnames.v ===== *)
(** * Which hosts a name stands for: [GetHostnames] of
      [src/feature/pkg/variable/variable_get.go]

    A play names its hosts: a host, a group, an element of a group
    ("group[0]") or a random member of one ("group|random"); a name may be a
    template over the configuration. *)

From S2P Require Import Prelude GoStrings Values Groups Vars Tmpl.
From stdpp Require Import gmap strings list sets.
From Stdlib Require Import Ascii.

(** ** The two regular expressions *)

(** The longest prefix of characters that satisfy [p], and the rest. *)
Fixpoint span_chars (p : ascii → bool) (s : string) : string * string :=
  match s with
  | String a s' => if p a then let '(x, rest) := span_chars p s' in (String a x, rest) else (EmptyString, s)
  | EmptyString => (EmptyString, EmptyString)
  end.

Definition is_digit (a : ascii) : bool := match digit a with Some _ => true | None => false end.

(** The class [\s]: tab, newline, form feed, carriage return, space. *)
Definition re_space (a : ascii) : bool :=
  let n := nat_of_ascii a in (n =? 9)%nat || (n =? 10)%nat || (n =? 12)%nat || (n =? 13)%nat || (n =? 32)%nat.

(** [.] matches anything but a newline. *)
Fixpoint no_newline (s : string) : bool :=
  match s with
  | String a s' => negb (nat_of_ascii a =? 10)%nat && no_newline s'
  | EmptyString => true
  end.

(** [^(.*?)\[(\d+)\]$]: the group and the index.  The brackets and digits at
    the end fix the rest. *)
Definition match_index (s : string) : option (string * string) :=
  match str_rev s with
  | String "]" r =>
      let '(ds, r') := span_chars is_digit r in
      match ds, r' with
      | String _ _, String "[" p => if no_newline p then Some (str_rev p, str_rev ds) else None
      | _, _ => None
      end
  | _ => None
  end.

(** [^(.+?)\s*\|\s*random$]: the group is what stands before the bar without
    the spaces at its end, but at least one character. *)
Definition match_random (s : string) : option string :=
  if HasSuffix s "random" then
    let '(_, r) := span_chars re_space (TrimPrefix (str_rev s) "modnar") in
    match r with
    | String "|" p =>
        let '(spaces, rest) := span_chars re_space p in
        let group := match rest with
                     | String _ _ => str_rev rest
                     | EmptyString => match str_rev spaces with
                                      | String a _ => String a EmptyString
                                      | EmptyString => EmptyString
                                      end
                     end in
        if bool_decide (group = EmptyString) then None
        else if no_newline group then Some group else None
    | _ => None
    end
  else None.

Section Hostnames.

Context (json_unmarshal : string → option (gmap string value)).
Context (tmpl_execute : gmap string value → string → result string).

(** [rand.Intn(n)], for positive [n]. *)
Context (Intn : nat → nat).

(** The name after its template, if it has one that succeeds. *)
Definition parsed_name (v : VarValue) (n : string) : result string :=
  match ParseFunc tmpl_execute (Extension2Variables json_unmarshal (v_config v)) n (λ s, s) with
  | Ok pn => Ok pn
  | Err _ => Ok n
  | Panic w => Panic w
  end.

(** [ConvertGroup] of the inventory, which [New] has called before. *)
Definition store_groups (v : VarValue) : gmap string (list string) := default ∅ (ConvertGroup (v_inventory v)).

(** The element of a group. *)
Definition add_indexed (v : VarValue) (n : string) (hs : list string) : result (list string) :=
  match match_index (TrimSpace n) with
  | None => Ok hs
  | Some (g, ds) =>
      match Atoi ds with
      | None => Err (Msg ("failed to convert " +:+ ds +:+ " to int"))
      | Some index =>
          match store_groups v !! g with
          | None => Ok hs
          | Some group =>
              if bool_decide (Z.of_nat (length group) ≤ index)%Z
              then Err (Msg ("index out of range for group " +:+ g))
              else match group !! Z.to_nat index with
                   | Some h => Ok (hs ++ [h])%list
                   | None => Panic "index out of range"
                   end
          end
      end
  end.

(** A random member; [Intn] panics for an empty group. *)
Definition add_random (v : VarValue) (n : string) (hs : list string) : result (list string) :=
  match match_random (TrimSpace n) with
  | None => Ok hs
  | Some g =>
      match store_groups v !! g with
      | None => Ok hs
      | Some group =>
          if bool_decide (group = []) then Panic "invalid argument to Intn"
          else match group !! Intn (length group) with
               | Some h => Ok (hs ++ [h])%list
               | None => Panic "index out of range"
               end
      end
  end.

(** One turn of the loop over the names. *)
Definition add_name (v : VarValue) (hs : list string) (n : string) : result (list string) :=
  let! n := parsed_name v n in
  let hs := match v_hosts v !! n with Some _ => (hs ++ [n])%list | None => hs end in
  let hs := match store_groups v !! n with Some group => CombineSlice hs group | None => hs end in
  let! hs := add_indexed v n hs in
  add_random v n hs.

Fixpoint add_names (v : VarValue) (hs : list string) (names : list string) : result (list string) :=
  match names with
  | [] => Ok hs
  | n :: rest => let! hs' := add_name v hs n in add_names v hs' rest
  end.

Definition GetHostnames (names : list string) (v : VarValue) : result (list string) :=
  match names with
  | [] => Err (Msg "nil value returned")
  | _ => add_names v [] names
  end.

End Hostnames.

(** ** Lemmas *)

Section Lemmas.

Context (json_unmarshal : string → option (gmap string value)).
Context (tmpl_execute : gmap string value → string → result string) (Intn : nat → nat).

(** A host of the store, or a member of one of its groups. *)
Definition known_host (v : VarValue) (h : string) : Prop :=
  is_Some (v_hosts v !! h) ∨ ∃ g group, store_groups v !! g = Some group ∧ h ∈ group.

(** A name that is neither a template nor one of the two patterns. *)
Definition plain_name (n : string) : Prop :=
  IsTmplSyntax n = false ∧ match_index (TrimSpace n) = None ∧ match_random (TrimSpace n) = None.

(** What a plain name stands for. *)
Definition named_by (v : VarValue) (n h : string) : Prop :=
  (h = n ∧ is_Some (v_hosts v !! n)) ∨ ∃ group, store_groups v !! n = Some group ∧ h ∈ group.

(** The host of that name and the group of that name, together. *)
Definition base_hosts (v : VarValue) (n : string) (hs : list string) : list string :=
  let hs := match v_hosts v !! n with Some _ => (hs ++ [n])%list | None => hs end in
  match store_groups v !! n with Some group => CombineSlice hs group | None => hs end.

Lemma base_hosts_elem v n hs h : h ∈ base_hosts v n hs ↔ h ∈ hs ∨ named_by v n h.
Proof.
  unfold base_hosts, named_by. destruct (v_hosts v !! n) as [hv|] eqn:Eh, (store_groups v !! n) as [group|] eqn:Eg;
    rewrite ?CombineSlice_elem, ?elem_of_app, ?list_elem_of_singleton; naive_solver.
Qed.

Lemma named_by_known v n h : named_by v n h → known_host v h.
Proof. intros [[-> H]|(group & Hg & Hh)]; [by left|right; eauto]. Qed.

Lemma add_indexed_known v n hs l :
  add_indexed v n hs = Ok l → Forall (known_host v) hs → Forall (known_host v) l.
Proof.
  unfold add_indexed. intros E H. destruct (match_index _) as [[g ds]|]; [|by injection E as <-].
  destruct (Atoi ds) as [index|]; [|done]. destruct (store_groups v !! g) as [group|] eqn:Eg; [|by injection E as <-].
  case_bool_decide; [done|]. destruct (group !! Z.to_nat index) as [h|] eqn:Eh; [|done]. injection E as <-.
  apply Forall_app. split; [done|]. apply Forall_singleton. right. exists g, group.
  split; [done|]. by eapply list_elem_of_lookup_2.
Qed.

Lemma add_random_known v n hs l :
  add_random Intn v n hs = Ok l → Forall (known_host v) hs → Forall (known_host v) l.
Proof.
  unfold add_random. intros E H. destruct (match_random _) as [g|]; [|by injection E as <-].
  destruct (store_groups v !! g) as [group|] eqn:Eg; [|by injection E as <-].
  case_bool_decide; [done|]. destruct (group !! Intn (length group)) as [h|] eqn:Eh; [|done]. injection E as <-.
  apply Forall_app. split; [done|]. apply Forall_singleton. right. exists g, group.
  split; [done|]. by eapply list_elem_of_lookup_2.
Qed.

Lemma add_names_known names v hs l :
  add_names json_unmarshal tmpl_execute Intn v hs names = Ok l → Forall (known_host v) hs → Forall (known_host v) l.
Proof.
  revert hs. induction names as [|n names IH]; intros hs E H; simpl in E; [by injection E as <-|].
  apply rbind_ok in E as (hs' & E1 & E2). apply (IH hs'); [done|]. unfold add_name in E1.
  apply rbind_ok in E1 as (n' & _ & E1). apply rbind_ok in E1 as (hs1 & E1 & E3).
  eapply add_random_known; [exact E3|]. eapply add_indexed_known; [exact E1|].
  apply list.Forall_forall. intros h [Hh|Hh]%(base_hosts_elem v n' hs).
  - by eapply list.Forall_forall in H.
  - by eapply named_by_known.
Qed.

Lemma add_name_plain v hs n :
  plain_name n → add_name json_unmarshal tmpl_execute Intn v hs n = Ok (base_hosts v n hs).
Proof.
  intros (Ht & Hi & Hr). unfold add_name, parsed_name, ParseFunc. rewrite Ht. simpl.
  unfold add_indexed. rewrite Hi. simpl. unfold add_random. by rewrite Hr.
Qed.

Lemma add_names_plain names v hs :
  Forall plain_name names →
  ∃ l, add_names json_unmarshal tmpl_execute Intn v hs names = Ok l ∧
       ∀ h, h ∈ l ↔ h ∈ hs ∨ ∃ n, n ∈ names ∧ named_by v n h.
Proof.
  intros H. revert hs. induction H as [|n names Hn _ IH]; intros hs.
  - exists hs. split; [done|]. intros h. split; [auto|]. intros [?|(n & Hn & _)]; [done|by apply not_elem_of_nil in Hn].
  - cbn [add_names]. rewrite (add_name_plain v hs n Hn). simpl. destruct (IH (base_hosts v n hs)) as (l & E & Hl).
    exists l. split; [done|]. intros h. rewrite Hl, base_hosts_elem. setoid_rewrite elem_of_cons. naive_solver.
Qed.

(** The names of a play stand for hosts the store knows and nothing else;
    plain names never fail and give exactly the hosts and the members of the
    groups they name; no name at all is an error; and a random member of an
    empty group (the group "ungrouped" when every host is in one) panics. *)
Theorem GetHostnames_spec names v :
  (∀ l, GetHostnames json_unmarshal tmpl_execute Intn names v = Ok l → Forall (known_host v) l) ∧
  (names ≠ [] → Forall plain_name names →
   ∃ l, GetHostnames json_unmarshal tmpl_execute Intn names v = Ok l ∧
        ∀ h, h ∈ l ↔ ∃ n, n ∈ names ∧ named_by v n h) ∧
  (names = [] → ∃ e, GetHostnames json_unmarshal tmpl_execute Intn names v = Err e) ∧
  (∀ n g rest, names = n :: rest → IsTmplSyntax n = false → match_index (TrimSpace n) = None →
     match_random (TrimSpace n) = Some g → store_groups v !! g = Some [] →
     is_panic (GetHostnames json_unmarshal tmpl_execute Intn names v) = true).
Proof.
  split_and!.
  - intros l. destruct names as [|n names]; [done|]. intros E. by eapply add_names_known.
  - intros Hne Hp. destruct (add_names_plain names v [] Hp) as (l & E & Hl). destruct names; [done|].
    exists l. split; [exact E|]. intros h. rewrite Hl. split; [|auto]. intros [Hh|?]; [by apply not_elem_of_nil in Hh|done].
  - intros ->. by eexists.
  - intros n g rest -> Ht Hi Hr Hg. simpl. unfold add_name, parsed_name, ParseFunc. rewrite Ht. simpl.
    unfold add_indexed. rewrite Hi. simpl. unfold add_random. rewrite Hr, Hg. by rewrite bool_decide_true.
Qed.

End Lemmas.

(** One host, in a group: nothing is left ungrouped. *)
Definition grouped_store : VarValue :=
  {| v_config := ""; v_result := None; v_hosts := {["node1" := nil_host]};
     v_inventory := {| inv_hosts := [("node1", "")]; inv_vars := "";
                       inv_groups := [("web", {| group_groups := []; group_hosts := ["node1"]; group_vars := "" |})] |} |}.

Lemma GetHostnames_spec_witness :
  is_panic (GetHostnames (λ _, None) (λ _ _, Err (Msg "no template")) (λ _, 0) ["ungrouped | random"] grouped_store) = true ∧
  ∃ l, GetHostnames (λ _, None) (λ _ _, Err (Msg "no template")) (λ _, 0) ["web"] grouped_store = Ok l ∧ "node1" ∈ l.
Proof.
  split.
  - apply (GetHostnames_spec (λ _, None) (λ _ _, Err (Msg "no template")) (λ _, 0) ["ungrouped | random"] grouped_store)
      with "ungrouped | random" "ungrouped" []; vm_compute; reflexivity.
  - destruct (GetHostnames_spec (λ _, None) (λ _ _, Err (Msg "no template")) (λ _, 0) ["web"] grouped_store) as (_ & H & _).
    destruct H as (l & E & Hl); [discriminate| |].
    + constructor; [|constructor]. split; [|split]; vm_compute; reflexivity.
    + exists l. split; [exact E|]. apply Hl. exists "web". split; [left|].
      right. exists ["node1"]. split; [vm_compute; reflexivity|left].
Defined.
