(* ===== verification/Memory.v ===== *)
(** * Go's memory for dynamic values

    A [map[string]any] or [[]any] is a reference: copies share it and an
    assignment through one copy is seen through all of them.  The variable
    store relies on [maps.Clone], which copies one level only, so its updates
    are modelled on an explicit heap.  [repr h v x] says that the reference or
    scalar [v] stands for the tree [x] in the heap [h]; [inject] allocates a
    tree, [reify] reads one back. *)

From S2P Require Import Prelude Values.
From stdpp Require Import gmap strings list sets.

Notation loc := nat.

(** The content of an [any]. *)
Inductive hval :=
| HNil
| HBool (b : bool)
| HInt (z : Z)
| HFloat (text : string)
| HStr (s : string)
| HBytes (s : string)
| HSlice (l : loc)
| HMap (l : loc).

(** What a reference points to: [map[string]any], [[]any], and the two typed
    containers [ConvertGroup] gives, [map[string][]string] and [[]string]. *)
Inductive cell :=
| CMap (m : gmap string hval)
| CSlice (l : list hval)
| CGroups (m : gmap string loc)
| CStrings (l : list string).

(** Cells are never freed; a new one goes to the end. *)
Notation heap := (list cell).

Definition alloc (h : heap) (c : cell) : heap * loc := (h ++ [c], length h).
Definition store_cell (h : heap) (l : loc) (c : cell) : heap := <[l := c]> h.

(** ** Trees in memory *)

Inductive repr (h : heap) : hval → value → Prop :=
| repr_nil : repr h HNil VNil
| repr_bool b : repr h (HBool b) (VBool b)
| repr_int z : repr h (HInt z) (VInt z)
| repr_float t : repr h (HFloat t) (VFloat t)
| repr_str s : repr h (HStr s) (VStr s)
| repr_bytes s : repr h (HBytes s) (VBytes s)
| repr_slice l vs xs :
    h !! l = Some (CSlice vs) → length vs = length xs →
    (∀ i v x, vs !! i = Some v → xs !! i = Some x → repr h v x) →
    repr h (HSlice l) (VList xs)
| repr_strings l ss :
    h !! l = Some (CStrings ss) → repr h (HSlice l) (VList (VStr <$> ss))
| repr_map l m xs :
    h !! l = Some (CMap m) → dom m = dom xs →
    (∀ k v x, m !! k = Some v → xs !! k = Some x → repr h v x) →
    repr h (HMap l) (VMap xs)
| repr_groups l (g : gmap string loc) (gs : gmap string (list string)) :
    h !! l = Some (CGroups g) → dom g = dom gs →
    (∀ k a ss, g !! k = Some a → gs !! k = Some ss → h !! a = Some (CStrings ss)) →
    repr h (HMap l) (VMap ((λ ss, VList (VStr <$> ss)) <$> gs)).
(** The entries of a map as [reflect] and [range] give them. *)
Definition map_entries (h : heap) (l : loc) : option (gmap string hval) :=
  match h !! l with
  | Some (CMap m) => Some m
  | Some (CGroups g) => Some (HSlice <$> g)
  | _ => None
  end.

(** ** Allocation of a tree *)

Fixpoint inject (x : value) (h : heap) : heap * hval :=
  match x with
  | VNil => (h, HNil)
  | VBool b => (h, HBool b)
  | VInt z => (h, HInt z)
  | VFloat t => (h, HFloat t)
  | VStr s => (h, HStr s)
  | VBytes s => (h, HBytes s)
  | VList xs =>
      let '(h1, vs) :=
        (fix go xs h := match xs with
                        | [] => (h, [])
                        | x :: xs' => let '(h1, v) := inject x h in
                                      let '(h2, vs) := go xs' h1 in (h2, v :: vs)
                        end) xs h in
      let '(h2, l) := alloc h1 (CSlice vs) in (h2, HSlice l)
  | VMap m =>
      let '(h1, c) := map_fold (λ k x '(h, c), let '(h1, v) := inject x h in (h1, <[k := v]> c)) (h, ∅) m in
      let '(h2, l) := alloc h1 (CMap c) in (h2, HMap l)
  end.

(** A decoded map. *)
Definition inject_map (m : gmap string value) (h : heap) : heap * loc :=
  let '(h1, c) := map_fold (λ k x '(h, c), let '(h1, v) := inject x h in (h1, <[k := v]> c)) (h, ∅) m in
  alloc h1 (CMap c).

(** ** Reading a tree back *)

Definition omap_values {A B : Type} (f : A → option B) (m : gmap string A) : option (gmap string B) :=
  map_fold (λ k a acc, m ← acc; b ← f a; Some (<[k := b]> m)) (Some ∅) m.

(** [None]: deeper than [fuel]; a heap without cycles is never deeper than its
    number of cells. *)
Fixpoint reify (fuel : nat) (h : heap) (v : hval) : option value :=
  match v with
  | HNil => Some VNil
  | HBool b => Some (VBool b)
  | HInt z => Some (VInt z)
  | HFloat t => Some (VFloat t)
  | HStr s => Some (VStr s)
  | HBytes s => Some (VBytes s)
  | HSlice l =>
      match fuel, h !! l with
      | S fuel', Some (CSlice vs) => VList <$> mapM (reify fuel' h) vs
      | S fuel', Some (CStrings ss) => Some (VList (VStr <$> ss))
      | _, _ => None
      end
  | HMap l =>
      match fuel, map_entries h l with
      | S fuel', Some m => VMap <$> omap_values (reify fuel' h) m
      | _, _ => None
      end
  end.

(** ** Depth *)

Fixpoint vdepth (x : value) : nat :=
  match x with
  | VList xs => S (foldr (λ x n, Nat.max (vdepth x) n) 0 xs)
  | VMap m => S (map_fold (λ _ x n, Nat.max (vdepth x) n) 0 m)
  | _ => 0
  end.

Lemma vdepth_list xs x : x ∈ xs → vdepth x < vdepth (VList xs).
Proof. simpl. induction 1 as [x xs|x y xs Hx IH]; simpl in *; lia. Qed.

Lemma vdepth_list_le xs n : (∀ x, x ∈ xs → vdepth x ≤ n) → vdepth (VList xs) ≤ S n.
Proof.
  simpl. intros H. apply le_n_S. induction xs as [|x xs IH]; simpl; [lia|].
  apply Nat.max_lub; [apply H|apply IH; intros; apply H]; set_solver.
Qed.

Lemma vdepth_map m k x : m !! k = Some x → vdepth x < vdepth (VMap m).
Proof.
  simpl. revert k x. apply (map_fold_weak_ind (λ n m, ∀ k x, m !! k = Some x → vdepth x < S n)).
  - intros k x H. by rewrite lookup_empty in H.
  - intros i y m' n Hi IH k x H. destruct (decide (i = k)) as [->|].
    + rewrite lookup_insert_eq in H. injection H as ->. lia.
    + rewrite lookup_insert_ne in H by done. specialize (IH k x H). lia.
Qed.

Lemma vdepth_map_le m n : (∀ k x, m !! k = Some x → vdepth x ≤ n) → vdepth (VMap m) ≤ S n.
Proof.
  simpl. intros H. apply le_n_S. revert H.
  apply (map_fold_weak_ind (λ r m, (∀ k x, m !! k = Some x → vdepth x ≤ n) → r ≤ n)); [lia|].
  intros i y m' r Hi IH H. apply Nat.max_lub.
  - apply (H i y). apply lookup_insert_eq.
  - apply IH. intros k x Hk. apply (H k x). rewrite lookup_insert_ne; [done|]. congruence.
Qed.

(** ** [repr] *)

Lemma repr_mono h h' v x :
  (∀ l c, h !! l = Some c → h' !! l = Some c) → repr h v x → repr h' v x.
Proof.
  intros HM. induction 1; [constructor..| | | |].
  - eapply repr_slice; eauto.
  - eapply repr_strings; eauto.
  - eapply repr_map; eauto.
  - eapply repr_groups; eauto.
Qed.

Lemma repr_prefix h h' v x : h `prefix_of` h' → repr h v x → repr h' v x.
Proof. intros [k ->]. apply repr_mono. intros l c H. by apply lookup_app_l_Some. Qed.

(** Both kinds of maps, read through their entries. *)
Lemma repr_entries h l xs :
  repr h (HMap l) (VMap xs) →
  ∃ m, map_entries h l = Some m ∧ dom m = dom xs ∧
       ∀ k v x, m !! k = Some v → xs !! k = Some x → repr h v x.
Proof.
  unfold map_entries. inversion 1 as [| | | | | | | |? m ? E HD HR|? g gs E HD HR]; subst; rewrite E; eexists;
    (split; [done|]); [done|].
  split; [by rewrite !dom_fmap_L|]. intros k v x Hv Hx.
  apply lookup_fmap_Some in Hv as (a & <- & Ha). apply lookup_fmap_Some in Hx as (ss & <- & Hss).
  apply repr_strings. by eapply HR.
Qed.

(** Both kinds of slices. *)
Lemma repr_items h l xs :
  repr h (HSlice l) (VList xs) →
  (∃ vs, h !! l = Some (CSlice vs) ∧ Forall2 (repr h) vs xs) ∨
  (∃ ss, h !! l = Some (CStrings ss) ∧ xs = VStr <$> ss).
Proof.
  inversion 1 as [| | | | | |? vs ? E HL HR|? ss E| |]; subst.
  - left. exists vs. split; [done|]. apply Forall2_same_length_lookup. eauto.
  - right. eauto.
Qed.

Lemma repr_det h v x y : repr h v x → repr h v y → x = y.
Proof.
  intros H. revert y. induction H as [ | | | | | |l vs xs E HL _ IH|l ss E|l m xs E HD _ IH|l g gs E HD HR];
    intros y Hy; inversion Hy as [ | | | | | |? vs' ys E' HL' HR'|? ss' E'|? m' ys E' HD' HR'|? g' gs' E' HD' HR'];
    subst; try done; rewrite E in E'; simplify_eq; try done.
  - f_equal. apply (list_eq_same_length _ _ (length xs)); [lia..|].
    intros i x y Hi Hx Hx'. destruct (lookup_lt_is_Some_2 vs' i) as [v Hv]; [lia|]. eauto.
  - f_equal. apply map_eq. intros k. destruct (m' !! k) as [v|] eqn:Hv.
    + assert (is_Some (xs !! k)) as [x Hx] by (apply elem_of_dom; rewrite <- HD; by apply elem_of_dom_2 in Hv).
      assert (is_Some (ys !! k)) as [y Hy'] by (apply elem_of_dom; rewrite <- HD'; by apply elem_of_dom_2 in Hv).
      rewrite Hx, Hy'. f_equal. eauto.
    + apply not_elem_of_dom in Hv. assert (k ∉ dom xs ∧ k ∉ dom ys) as [H1 H2] by (split; congruence).
      apply not_elem_of_dom in H1, H2. congruence.
  - f_equal. f_equal. apply map_eq. intros k. destruct (g' !! k) as [a|] eqn:Ha.
    + assert (is_Some (gs !! k)) as [x Hx] by (apply elem_of_dom; rewrite <- HD; by apply elem_of_dom_2 in Ha).
      assert (is_Some (gs' !! k)) as [y Hy'] by (apply elem_of_dom; rewrite <- HD'; by apply elem_of_dom_2 in Ha).
      specialize (HR _ _ _ Ha Hx). specialize (HR' _ _ _ Ha Hy'). congruence.
    + apply not_elem_of_dom in Ha. assert (k ∉ dom gs ∧ k ∉ dom gs') as [H1 H2] by (split; congruence).
      apply not_elem_of_dom in H1, H2. congruence.
Qed.

Section Depth.
Context (h : heap).

(** Cells of distinct ancestors of a tree [x]: they stand for deeper trees. *)
Definition above (x : value) (a : loc) : Prop :=
  ∃ y, (repr h (HMap a) y ∨ repr h (HSlice a) y) ∧ vdepth x < vdepth y.

Definition ancestors (x : value) (anc : list loc) : Prop :=
  NoDup anc ∧ Forall (λ a, a < length h) anc ∧ Forall (above x) anc.

Lemma ancestors_count x anc : ancestors x anc → length anc ≤ length h.
Proof.
  intros (Hn & Hf & _). rewrite <- (length_seq (length h) 0).
  apply submseteq_length, NoDup_submseteq; [done|].
  intros a Ha. apply elem_of_seq. eapply list.Forall_forall in Hf; [|done]. lia.
Qed.

(** No cell is met twice on the way down. *)
Lemma ancestors_down x v a anc y :
  repr h v x → (v = HMap a ∨ v = HSlice a) → ancestors x anc → vdepth y < vdepth x →
  ancestors y (a :: anc).
Proof.
  intros Hr Hv (Hn & Hb & Ha) Hy. split_and!.
  - constructor; [|done]. intros Hin. eapply list.Forall_forall in Ha; [|done].
    destruct Ha as (z & Hz & Hd). assert (x = z) as ->; [|lia].
    destruct Hv as [->| ->], Hz as [Hz|Hz]; [by eapply repr_det| | |by eapply repr_det];
      inversion Hr; subst; inversion Hz; subst; congruence.
  - constructor; [|done]. destruct Hv as [->| ->]; inversion Hr; subst; by eapply lookup_lt_Some.
  - constructor.
    + exists x. split; [|done]. destruct Hv as [->| ->]; auto.
    + eapply Forall_impl; [exact Ha|]. intros b (z & ? & ?). exists z. split; [done|lia].
Qed.

Lemma repr_list_elem v xs x : repr h v (VList xs) → x ∈ xs → ∃ w, repr h w x.
Proof.
  intros Hr [i Hi]%list_elem_of_lookup.
  assert (∃ a, v = HSlice a) as [a ->] by (inversion Hr; eauto).
  destruct (repr_items _ _ _ Hr) as [(vs & _ & HF)|(ss & _ & ->)].
  - destruct (Forall2_lookup_r _ _ _ _ _ HF Hi) as (w & _ & Hw). eauto.
  - rewrite list_lookup_fmap in Hi. destruct (ss !! i); simplify_eq/=. eexists; constructor.
Qed.

Lemma repr_map_elem v m k x : repr h v (VMap m) → m !! k = Some x → ∃ w, repr h w x.
Proof.
  intros Hr Hx. assert (∃ a, v = HMap a) as [a ->] by (inversion Hr; eauto).
  destruct (repr_entries _ _ _ Hr) as (c & _ & Hd & He).
  assert (is_Some (c !! k)) as [w Hw] by (apply elem_of_dom; rewrite Hd; by apply elem_of_dom_2 in Hx).
  eauto.
Qed.

Lemma repr_depth_above x v anc : repr h v x → ancestors x anc → vdepth x + length anc ≤ length h.
Proof.
  revert v anc. induction x as [ | | | | | |l IH|m IH] using value_ind; intros v anc Hr Ha;
    try (by eapply ancestors_count).
  - assert (∃ a, v = HSlice a) as [a ->] by (inversion Hr; eauto).
    assert (∀ x, x ∈ l → vdepth x ≤ length h - S (length anc)) as Hc%vdepth_list_le.
    { intros x Hx. destruct (repr_list_elem _ _ _ Hr Hx) as [w Hw]. rewrite list.Forall_forall in IH.
      specialize (IH x Hx w (a :: anc) Hw). simpl in IH.
      assert (vdepth x + S (length anc) ≤ length h); [apply IH|lia]. apply (ancestors_down (VList l) (HSlice a)); auto using vdepth_list. }
    assert (length (a :: anc) ≤ length h) as H; [|simpl in H; lia].
    apply (ancestors_count VNil). apply (ancestors_down (VList l) (HSlice a)); auto. simpl. lia.
  - assert (∃ a, v = HMap a) as [a ->] by (inversion Hr; eauto).
    assert (∀ k x, m !! k = Some x → vdepth x ≤ length h - S (length anc)) as Hc%vdepth_map_le.
    { intros k x Hx. destruct (repr_map_elem _ _ _ _ Hr Hx) as [w Hw].
      specialize (IH k x Hx w (a :: anc) Hw). simpl in IH.
      assert (vdepth x + S (length anc) ≤ length h); [apply IH|lia]. apply (ancestors_down (VMap m) (HMap a)); eauto using vdepth_map. }
    assert (length (a :: anc) ≤ length h) as H; [|simpl in H; lia].
    apply (ancestors_count VNil). apply (ancestors_down (VMap m) (HMap a)); auto. simpl. lia.
Qed.

(** A tree in memory is no deeper than the number of cells. *)
Lemma repr_depth v x : repr h v x → vdepth x ≤ length h.
Proof.
  intros Hr. assert (ancestors x []) as Ha by (repeat split; constructor).
  pose proof (repr_depth_above x v [] Hr Ha) as H. simpl in H. lia.
Qed.

End Depth.

(** ** Reading back what was written *)

Lemma omap_values_spec {A B} (f : A → option B) (m : gmap string A) (m' : gmap string B) :
  dom m = dom m' → (∀ k a b, m !! k = Some a → m' !! k = Some b → f a = Some b) →
  omap_values f m = Some m'.
Proof.
  unfold omap_values. revert m'.
  apply (map_fold_weak_ind (λ acc m, ∀ m', dom m = dom m' → (∀ k a b, m !! k = Some a → m' !! k = Some b → f a = Some b) → acc = Some m')).
  - intros m' Hd _. f_equal. symmetry. apply dom_empty_inv_L. rewrite <- Hd. apply dom_empty_L.
  - intros i a m1 acc Hi IH m' Hd Hf.
    assert (is_Some (m' !! i)) as [b Hb] by (apply elem_of_dom; rewrite <- Hd; set_solver).
    rewrite (IH (delete i m')).
    + simpl. rewrite (Hf i a b) by (done || apply lookup_insert_eq). simpl. by rewrite insert_delete_id.
    + rewrite dom_delete_L, <- Hd, dom_insert_L. apply not_elem_of_dom in Hi. set_solver.
    + intros k a' b' Ha Hb'. assert (k ≠ i) by congruence.
      apply (Hf k); [by rewrite lookup_insert_ne|by rewrite lookup_delete_ne in Hb'].
Qed.

Lemma reify_repr h x v fuel : repr h v x → vdepth x ≤ fuel → reify fuel h v = Some x.
Proof.
  revert v fuel. induction x as [ | | | | | |l IH|m IH] using value_ind; intros v fuel Hr Hf;
    try (by inversion Hr; subst; destruct fuel).
  - assert (∃ a, v = HSlice a) as [a ->] by (inversion Hr; eauto).
    destruct fuel as [|fuel]; [simpl in Hf; lia|]. cbn [reify].
    destruct (repr_items _ _ _ Hr) as [(vs & -> & HF)|(ss & -> & ->)]; [|done].
    rewrite (proj2 (mapM_Some _ _ l)); [done|]. rewrite list.Forall_forall in IH.
    apply Forall2_same_length_lookup. split; [by eapply Forall2_length|]. intros i w x Hw Hx.
    apply IH; [by eapply list_elem_of_lookup_2|by eapply Forall2_lookup_lr|].
    apply list_elem_of_lookup_2, vdepth_list in Hx. lia.
  - assert (∃ a, v = HMap a) as [a ->] by (inversion Hr; eauto).
    destruct fuel as [|fuel]; [simpl in Hf; lia|]. cbn [reify].
    destruct (repr_entries _ _ _ Hr) as (c & -> & Hd & He).
    rewrite (omap_values_spec _ _ m); [done|done|]. intros k w x Hw Hx.
    apply (IH k x Hx); [eauto|]. apply vdepth_map in Hx. lia.
Qed.

(** ** Allocation *)

Lemma alloc_prefix h c : h `prefix_of` (alloc h c).1.
Proof. by exists [c]. Qed.

Lemma alloc_lookup h c : (alloc h c).1 !! (alloc h c).2 = Some c.
Proof. simpl. by rewrite list_lookup_middle. Qed.

Lemma map_entries_prefix h h' l m : h `prefix_of` h' → map_entries h l = Some m → map_entries h' l = Some m.
Proof.
  intros [k ->]. unfold map_entries. destruct (h !! l) eqn:E; [|done].
  by rewrite (lookup_app_l_Some _ _ _ _ E).
Qed.

(** A map whose entries are in memory. *)
Definition repr_env (h : heap) (c : gmap string hval) (m : gmap string value) : Prop :=
  dom c = dom m ∧ ∀ k v x, c !! k = Some v → m !! k = Some x → repr h v x.

Lemma repr_env_prefix h h' c m : h `prefix_of` h' → repr_env h c m → repr_env h' c m.
Proof. intros Hp [Hd He]. split; [done|]. eauto using repr_prefix. Qed.

Lemma repr_env_empty h : repr_env h ∅ ∅.
Proof. split; [by rewrite !dom_empty_L|]. intros k v x H. by rewrite lookup_empty in H. Qed.

Lemma repr_env_insert h c m k v x : repr_env h c m → repr h v x → repr_env h (<[k := v]> c) (<[k := x]> m).
Proof.
  intros [Hd He] Hr. split; [by rewrite !dom_insert_L, Hd|]. intros k' v' x'.
  destruct (decide (k = k')) as [->|].
  - rewrite !lookup_insert_eq. by intros [= ->] [= ->].
  - rewrite !lookup_insert_ne by done. apply He.
Qed.

(** The entry under a key, nil when there is none. *)
Lemma repr_env_default h c m k :
  repr_env h c m → repr h (default HNil (c !! k)) (default VNil (m !! k)).
Proof.
  intros [Hd He]. destruct (c !! k) as [v|] eqn:Ev.
  - assert (is_Some (m !! k)) as [x Hx] by (apply elem_of_dom; rewrite <- Hd; by apply elem_of_dom_2 in Ev).
    rewrite Hx. simpl. eauto.
  - apply not_elem_of_dom in Ev. rewrite Hd in Ev. apply not_elem_of_dom in Ev as ->. constructor.
Qed.

Lemma repr_alloc_map h c m :
  repr_env h c m → repr (alloc h (CMap c)).1 (HMap (alloc h (CMap c)).2) (VMap m).
Proof.
  intros He. eapply repr_env_prefix in He as [Hd He]; [|apply (alloc_prefix h (CMap c))].
  eapply repr_map; [apply alloc_lookup|done|done].
Qed.

(** A loop over a map that allocates something for every key: what holds of an
    entry when it is made and survives later allocations holds at the end. *)
Lemma fold_alloc {A B} (f : string → A → heap → heap * B) (R : heap → string → A → B → Prop)
    (M : gmap string A) h :
  (∀ h1 h2 k a b, h1 `prefix_of` h2 → R h1 k a b → R h2 k a b) →
  (∀ k a h', M !! k = Some a → h `prefix_of` h' → h' `prefix_of` (f k a h').1 ∧ R (f k a h').1 k a (f k a h').2) →
  let r := map_fold (λ k a '(h, c), let '(h1, b) := f k a h in (h1, <[k := b]> c)) (h, ∅ : gmap string B) M in
  h `prefix_of` r.1 ∧ dom r.2 = dom M ∧ ∀ k a b, M !! k = Some a → r.2 !! k = Some b → R r.1 k a b.
Proof.
  intros HR. apply (map_fold_weak_ind (λ (r : heap * gmap string B) M,
    (∀ k a h', M !! k = Some a → h `prefix_of` h' → h' `prefix_of` (f k a h').1 ∧ R (f k a h').1 k a (f k a h').2) →
    h `prefix_of` r.1 ∧ dom r.2 = dom M ∧ ∀ k a b, M !! k = Some a → r.2 !! k = Some b → R r.1 k a b)).
  - intros _. split_and!; [done|by rewrite !dom_empty_L|]. intros k a b H. by rewrite lookup_empty in H.
  - intros k a M' [h1 c] Hk IH Hf. destruct IH as (H1 & H2 & H3).
    { intros k' a' h' Hk'. apply Hf. rewrite lookup_insert_ne; [done|]. congruence. }
    simpl in *. destruct (Hf k a h1) as [H4 H5]; [apply lookup_insert_eq|done|].
    destruct (f k a h1) as [h2 b]. simpl in *. split_and!; [by etransitivity|by rewrite !dom_insert_L, H2|].
    intros k' a' b'. destruct (decide (k = k')) as [->|].
    + rewrite !lookup_insert_eq. by intros [= <-] [= <-].
    + rewrite !lookup_insert_ne by done. eauto.
Qed.

Lemma fold_entries {A} (f : string → A → heap → heap * hval) (M : gmap string A) (xs : gmap string value) h :
  dom M = dom xs →
  (∀ k a x h', M !! k = Some a → xs !! k = Some x → h `prefix_of` h' →
     h' `prefix_of` (f k a h').1 ∧ repr (f k a h').1 (f k a h').2 x) →
  let r := map_fold (λ k a '(h, c), let '(h1, v) := f k a h in (h1, <[k := v]> c)) (h, ∅) M in
  h `prefix_of` r.1 ∧ repr_env r.1 r.2 xs.
Proof.
  intros Hd Hf r.
  destruct (fold_alloc f (λ h k _ v, ∀ x, xs !! k = Some x → repr h v x) M h) as (H1 & H2 & H3).
  - intros h1 h2 k a v Hp Hr x Hx. eapply repr_prefix; [done|]. by apply Hr.
  - intros k a h' Hk Hp. assert (is_Some (xs !! k)) as [x Hx] by (apply elem_of_dom; rewrite <- Hd; by apply elem_of_dom_2 in Hk).
    destruct (Hf k a x h' Hk Hx Hp) as [H1 H2]. split; [done|]. intros y Hy. congruence.
  - split; [done|]. split; [by rewrite <- Hd|]. intros k v x Hv Hx.
    assert (is_Some (M !! k)) as [a Ha] by (apply elem_of_dom; rewrite Hd; by apply elem_of_dom_2 in Hx).
    by apply (H3 k a v).
Qed.

Lemma inject_spec x h : h `prefix_of` (inject x h).1 ∧ repr (inject x h).1 (inject x h).2 x.
Proof.
  revert h. induction x as [ | | | | | |l IH|m IH] using value_ind; intros h;
    try (by split; [|constructor]).
  - cbn [inject].
    set (go := fix go xs h := match xs with [] => (h, []) | x :: xs' =>
                 let '(h1, v) := inject x h in let '(h2, vs) := go xs' h1 in (h2, v :: vs) end).
    assert (∀ h, h `prefix_of` (go l h).1 ∧ Forall2 (repr (go l h).1) (go l h).2 l) as Hgo.
    { induction IH as [|x l Hx _ IHl]; intros h'; simpl; [by split; [|constructor]|].
      destruct (Hx h') as [H1 H2]. destruct (inject x h') as [h1 v].
      destruct (IHl h1) as [H3 H4]. destruct (go l h1) as [h2 vs]. simpl in *.
      split; [by etransitivity|]. constructor; [by eapply repr_prefix|done]. }
    destruct (Hgo h) as [H1 H2]. destruct (go l h) as [h1 vs]. simpl in *.
    split; [etransitivity; [exact H1|by eexists]|].
    apply Forall2_same_length_lookup in H2 as [HL HR].
    eapply repr_slice; [apply alloc_lookup|done|]. intros i v x Hv Hx.
    eapply repr_prefix; [apply (alloc_prefix h1 (CSlice vs))|eauto].
  - cbn [inject]. destruct (fold_entries (λ _ x h, inject x h) m m h) as [H1 H2]; [done| |].
    { intros k y x h' Hy Hx _. rewrite Hy in Hx. injection Hx as <-. by apply (IH k y). }
    destruct (map_fold _ (h, ∅) m) as [h1 c]. simpl in H1, H2.
    split; [etransitivity; [exact H1|apply alloc_prefix]|by apply repr_alloc_map].
Qed.

Lemma inject_map_spec m h :
  h `prefix_of` (inject_map m h).1 ∧ repr (inject_map m h).1 (HMap (inject_map m h).2) (VMap m).
Proof.
  unfold inject_map. destruct (fold_entries (λ _ x h, inject x h) m m h) as [H1 H2]; [done| |].
  { intros k y x h' Hy Hx _. rewrite Hy in Hx. injection Hx as <-. apply inject_spec. }
  destruct (map_fold _ (h, ∅) m) as [h1 c]. simpl in H1, H2.
  split; [etransitivity; [exact H1|apply alloc_prefix]|by apply repr_alloc_map].
Qed.
