(* ===== verification/YamlNode.v ===== *)
(** * Variables written in YAML: [src/feature/pkg/variable/yaml.go]

    The variables of a play, role or block are kept as a YAML node.  Merging
    them walks the node: a string with template syntax is executed in the
    host's variables and its result replaces the text in the node itself; every
    scalar is also entered into those variables, so that later templates see
    it.  The variables are reached by reference, on the heap of [Memory]. *)

From S2P Require Import Prelude GoStrings Values Tmpl Memory.
From stdpp Require Import gmap strings list sets.

(** ** Nodes: the fields of [yaml.Node] the code reads *)

Inductive Kind := KindZero | DocumentNode | SequenceNode | MappingNode | ScalarNode | AliasNode.

#[export] Instance Kind_eq_dec : EqDecision Kind.
Proof. solve_decision. Defined.

Unset Elimination Schemes.
Inductive Node := MkNode (kind : Kind) (tag val : string) (content : list Node).
Set Elimination Schemes.

Lemma Node_ind (P : Node → Prop) :
  (∀ kind tag val content, Forall P content → P (MkNode kind tag val content)) → ∀ n, P n.
Proof.
  intros H. fix IH 1. intros [kind tag val content]. apply H.
  induction content as [|n content IHc]; constructor; [apply IH|exact IHc].
Qed.

Definition n_kind (n : Node) : Kind := let '(MkNode k _ _ _) := n in k.
Definition n_value (n : Node) : string := let '(MkNode _ _ v _) := n in v.
Definition n_content (n : Node) : list Node := let '(MkNode _ _ _ c) := n in c.

(** [node.IsZero()] *)
Definition IsZero (n : Node) : bool :=
  match n with MkNode KindZero "" "" [] => true | _ => false end.

Definition nullTag : string := "!!null".
Definition boolTag : string := "!!bool".
Definition strTag : string := "!!str".
Definition intTag : string := "!!int".
Definition floatTag : string := "!!float".

(** An element of a path: [mapTag + key] or [seqTag + index]. *)
Inductive path_elem := PMap (key : string) | PSeq (index : nat).

(** ** [reflect] on the heap *)

(** [Value.SetMapIndex]: a typed map takes values of its element type only. *)
Definition SetMapIndex (h : heap) (l : loc) (key : string) (v : hval) : result heap :=
  match h !! l with
  | Some (CMap m) => Ok (store_cell h l (CMap (<[key := v]> m)))
  | Some (CGroups g) =>
      match v with
      | HSlice a =>
          match h !! a with
          | Some (CStrings _) => Ok (store_cell h l (CGroups (<[key := a]> g)))
          | _ => Panic "reflect.Value.SetMapIndex: value is not assignable to type []string"
          end
      | _ => Panic "reflect.Value.SetMapIndex: value is not assignable to type []string"
      end
  | _ => Panic "reflect: call of SetMapIndex on a value that is not a map"
  end.

(** [Value.Index(i).Set(v)] *)
Definition SetIndex (h : heap) (l : loc) (i : nat) (v : hval) : result heap :=
  match h !! l with
  | Some (CSlice vs) =>
      if bool_decide (i < length vs) then Ok (store_cell h l (CSlice (<[i := v]> vs)))
      else Panic "reflect: slice index out of range"
  | Some (CStrings ss) =>
      match v with
      | HStr s => if bool_decide (i < length ss) then Ok (store_cell h l (CStrings (<[i := s]> ss)))
                  else Panic "reflect: slice index out of range"
      | _ => Panic "reflect.Set: value is not assignable to type string"
      end
  | _ => Panic "reflect: call of Index on a value that is not a slice"
  end.

(** [current.Index(i)] *)
Definition Index (h : heap) (l : loc) (i : nat) : hval :=
  match h !! l with
  | Some (CSlice vs) => default HNil (vs !! i)
  | Some (CStrings ss) => HStr (default "" (ss !! i))
  | _ => HNil
  end.

Definition isNil (v : hval) : bool := match v with HNil => true | _ => false end.

(** The name of [current.Kind()]. *)
Definition kind_name (v : hval) : string :=
  match v with
  | HNil => "invalid" | HBool _ => "bool" | HInt _ => "int64" | HFloat _ => "float64"
  | HStr _ => "string" | HBytes _ => "slice" | HSlice _ => "slice" | HMap _ => "map"
  end.

(** ** [setContextValue] *)

(** [parents] and [keys], the innermost first. *)
Notation parents := (list (hval * path_elem)).

Fixpoint updateParents (ps : parents) (h : heap) (v : hval) : result heap :=
  match ps with
  | [] => Ok h
  | (HMap l, PMap key) :: rest =>
      let! h' := SetMapIndex h l key v in updateParents rest h' (HMap l)
  | (HSlice l, PSeq idx) :: rest =>
      let! h' := SetIndex h l idx v in updateParents rest h' (HSlice l)
  | (HSlice _, PMap _) :: _ => Err (Msg "expected int key for slice index, got string")
  | (HMap _, PSeq _) :: _ => Panic "reflect.Value.SetMapIndex: value of type int is not assignable to type string"
  | (v, _) :: _ => Err (Msg ("unexpected parent kind: " +:+ kind_name v))
  end.

(** The empty container the next element of the path asks for. *)
Definition container_for (next : path_elem) (h : heap) : heap * hval :=
  match next with
  | PMap _ => let '(h', l) := alloc h (CMap ∅) in (h', HMap l)
  | PSeq _ => let '(h', l) := alloc h (CSlice []) in (h', HSlice l)
  end.

(** A step changes the heap even when it fails. *)
Definition of_heap {A : Type} (r : result heap) (h : heap) (a : A) : result A * heap :=
  match r with
  | Ok h' => (Ok a, h')
  | Err e => (Err e, h)
  | Panic w => (Panic w, h)
  end.

(** [next] is the following element of the path; none: [isLast]. *)
Definition handleMap (h : heap) (current : hval) (key : string) (next : option path_elem) (value : hval)
    (ps : parents) : result (hval * parents) * heap :=
  match current with
  | HMap l =>
      let existing := default HNil (m ← map_entries h l; m !! key) in
      match next with
      | None =>
          if negb (isNil existing) then (Ok (current, ps), h)
          else of_heap (SetMapIndex h l key value) h (current, ps)
      | Some nx =>
          let ps' := (current, PMap key) :: ps in
          if isNil existing then
            let '(h1, c) := container_for nx h in of_heap (SetMapIndex h1 l key c) h1 (c, ps')
          else (Ok (existing, ps'), h)
      end
  | _ => (Err (Msg ("expected map, got " +:+ kind_name current)), h)
  end.

(** Growing: a longer copy replaces the slice in its parents. *)
Definition grow (h : heap) (l : loc) (index : nat) (ps : parents) : result loc * heap :=
  match h !! l with
  | Some (CSlice vs) =>
      if bool_decide (length vs ≤ index) then
        let '(h1, l1) := alloc h (CSlice (vs ++ replicate (S index - length vs) HNil)) in
        of_heap (updateParents ps h1 (HSlice l1)) h1 l1
      else (Ok l, h)
  | Some (CStrings ss) =>
      if bool_decide (length ss ≤ index) then
        let '(h1, l1) := alloc h (CStrings (ss ++ replicate (S index - length ss) "")) in
        of_heap (updateParents ps h1 (HSlice l1)) h1 l1
      else (Ok l, h)
  | _ => (Ok l, h)
  end.

Definition handleSlice (h : heap) (current : hval) (index : nat) (next : option path_elem) (value : hval)
    (ps : parents) : result (hval * parents) * heap :=
  match current with
  | HSlice l0 =>
      match grow h l0 index ps with
      | (Ok l, h1) =>
          let item := Index h1 l index in
          match next with
          | None =>
              if negb (isNil item) then (Ok (HSlice l, ps), h1)
              else of_heap (SetIndex h1 l index value) h1 (HSlice l, ps)
          | Some nx =>
              let ps' := (HSlice l, PSeq index) :: ps in
              if isNil item then
                let '(h2, c) := container_for nx h1 in of_heap (SetIndex h2 l index c) h2 (c, ps')
              else (Ok (item, ps'), h1)
          end
      | (Err e, h1) => (Err e, h1)
      | (Panic w, h1) => (Panic w, h1)
      end
  | _ => (Err (Msg ("expected slice, got " +:+ kind_name current)), h)
  end.

Definition handle (h : heap) (current : hval) (e : path_elem) (next : option path_elem) (value : hval)
    (ps : parents) : result (hval * parents) * heap :=
  match e with
  | PMap key => handleMap h current key next value ps
  | PSeq idx => handleSlice h current idx next value ps
  end.

Fixpoint set_path (h : heap) (current : hval) (value : hval) (path : list path_elem) (ps : parents)
    : result unit * heap :=
  match path with
  | [] => (Ok tt, h)
  | e :: rest =>
      match handle h current e (head rest) value ps with
      | (Ok (current', ps'), h') =>
          match rest with
          | [] => of_heap (updateParents ps' h' current') h' tt
          | _ => set_path h' current' value rest ps'
          end
      | (Err er, h') => (Err er, h')
      | (Panic w, h') => (Panic w, h')
      end
  end.

Definition setContextValue (h : heap) (ctx : loc) (value : hval) (path : list path_elem) : result unit * heap :=
  set_path h (HMap ctx) value path [].

(** ** [processNode] *)

Definition bool_text (s : string) : option bool :=
  if contains ["1"; "t"; "T"; "TRUE"; "true"; "True"] s then Some true
  else if contains ["0"; "f"; "F"; "FALSE"; "false"; "False"] s then Some false
  else None.

Section Process.

(** The template engine, [strconv.ParseFloat] (to the text of the number) and
    the library's [Node.Decode] into a map. *)
Context (tmpl_execute : gmap string value → string → result string).
Context (ParseFloat : string → option string).
Context (Decode : Node → error + gmap string value).

(** The variables behind the reference, as a template reads them. *)
Definition ctx_value (h : heap) (ctx : loc) : gmap string value :=
  match reify (length h) h (HMap ctx) with Some (VMap m) => m | _ => ∅ end.

(** [parseScalarValue]: the scalar, and the node, whose text a template
    replaces. *)
Definition parseScalarValue (h : heap) (ctx : loc) (n : Node) : result hval * Node :=
  let '(MkNode kind tag val content) := n in
  if bool_decide (tag = nullTag) then (Ok HNil, n)
  else if bool_decide (tag = boolTag) then
    match bool_text val with
    | Some b => (Ok (HBool b), n)
    | None => (Err (Msg ("failed to parse " +:+ val +:+ " to bool")), n)
    end
  else if bool_decide (tag = strTag ∨ tag = "") then
    if IsTmplSyntax val then
      match ParseFunc tmpl_execute (ctx_value h ctx) val (λ s, s) with
      | Ok pv => (Ok (HStr pv), MkNode kind tag pv content)
      | Err e => (Err e, n)
      | Panic w => (Panic w, n)
      end
    else (Ok (HStr val), n)
  else if bool_decide (tag = intTag) then
    match Atoi val with
    | Some z => (Ok (HInt z), n)
    | None => (Err (Msg ("failed to parse " +:+ val +:+ " to int")), n)
    end
  else if bool_decide (tag = floatTag) then
    match ParseFloat val with
    | Some t => (Ok (HFloat t), n)
    | None => (Err (Msg ("failed to parse " +:+ val +:+ " to float")), n)
    end
  else (Ok (HStr val), n).

(** [processNode]: the outcome, and the heap and the node as it leaves them,
    also when it fails half-way. *)
Fixpoint processNode (h : heap) (ctx : loc) (node : Node) (path : list path_elem) {struct node}
    : result unit * heap * Node :=
  let '(MkNode kind tag val content) := node in
  match kind with
  | MappingNode =>
      if Nat.odd (length content) then
        (Err (Msg "mapping node has odd number of content nodes"), h, node)
      else
        let '(r, h', content') :=
          (fix pairs (h : heap) (l : list Node) {struct l} : result unit * heap * list Node :=
             match l with
             | keyNode :: valueNode :: rest =>
                 if bool_decide (n_kind keyNode = ScalarNode) then
                   match processNode h ctx valueNode (path ++ [PMap (n_value keyNode)]) with
                   | (Ok _, h1, v1) =>
                       let '(r, h2, rest') := pairs h1 rest in (r, h2, keyNode :: v1 :: rest')
                   | (r, h1, v1) => (r, h1, keyNode :: v1 :: rest)
                   end
                 else (Err (Msg "map key must be scalar"), h, l)
             | _ => (Ok tt, h, l)
             end) h content in
        (r, h', MkNode kind tag val content')
  | SequenceNode =>
      let '(r, h', content') :=
        (fix items (h : heap) (i : nat) (l : list Node) {struct l} : result unit * heap * list Node :=
           match l with
           | [] => (Ok tt, h, [])
           | item :: rest =>
               match processNode h ctx item (path ++ [PSeq i]) with
               | (Ok _, h1, v1) => let '(r, h2, rest') := items h1 (S i) rest in (r, h2, v1 :: rest')
               | (r, h1, v1) => (r, h1, v1 :: rest)
               end
           end) h 0 content in
      (r, h', MkNode kind tag val content')
  | ScalarNode =>
      match parseScalarValue h ctx node with
      | (Ok v, node') => let '(r, h') := setContextValue h ctx v path in (r, h', node')
      | (Err e, node') => (Err e, h, node')
      | (Panic w, node') => (Panic w, h, node')
      end
  | _ => (Err (Msg "unsupported node kind"), h, node)
  end.

(** The documents of a stream. *)
Fixpoint process_documents (h : heap) (ctx : loc) (l : list Node) : result unit * heap * list Node :=
  match l with
  | [] => (Ok tt, h, [])
  | dn :: rest =>
      match processNode h ctx dn [] with
      | (Ok _, h1, dn1) => let '(r, h2, rest') := process_documents h1 ctx rest in (r, h2, dn1 :: rest')
      | (r, h1, dn1) => (r, h1, dn1 :: rest)
      end
  end.

Definition decode_node (n : Node) : result (gmap string value) :=
  match Decode n with
  | inl e => Err (Wrap "failed to decode node to map" e)
  | inr m => Ok m
  end.

(** [parseYamlNode]: the node is passed by value, its [Content] by reference.
    The third component is the caller's node afterwards. *)
Definition parseYamlNode (h : heap) (ctx : loc) (node : Node) : result (gmap string value) * heap * Node :=
  let '(MkNode kind tag val content) := node in
  match kind with
  | DocumentNode =>
      let '(r, h', content') := process_documents h ctx content in
      let node' := MkNode kind tag val content' in
      (let! _ := r in decode_node node', h', node')
  | _ =>
      let '(r, h', node') := processNode h ctx node [] in
      (let! _ := r in decode_node node', h', MkNode kind tag val (n_content node'))
  end.

End Process.

(** ** Templates are executed once *)

(** A scalar whose text [parseScalarValue] executes. *)
Definition is_template (tag val : string) : bool :=
  bool_decide (tag = strTag ∨ tag = "") && IsTmplSyntax val.

(** No template is left in the node. *)
Fixpoint frozen (n : Node) : bool :=
  let '(MkNode kind tag val content) := n in
  negb (bool_decide (kind = ScalarNode) && is_template tag val) && forallb frozen content.

Lemma list_pair_ind {A} (P : list A → Prop) :
  P [] → (∀ x, P [x]) → (∀ x y l, P l → P (x :: y :: l)) → ∀ l, P l.
Proof. intros H0 H1 H2. fix IH 1. intros [|x [|y l]]; [done|apply H1|apply H2, IH]. Qed.

Section Frozen.
Context (tmpl_execute : gmap string value → string → result string).
Context (ParseFloat : string → option string) (Decode : Node → error + gmap string value).

Lemma parseScalarValue_frozen h ctx kind tag val content :
  is_template tag val = false →
  (parseScalarValue tmpl_execute ParseFloat h ctx (MkNode kind tag val content)).2 = MkNode kind tag val content.
Proof.
  unfold is_template, parseScalarValue. intros H.
  repeat (case_match; try done); simplify_eq/=; try done.
Qed.

Lemma processNode_frozen n h ctx path :
  frozen n = true → (processNode tmpl_execute ParseFloat h ctx n path).2 = n.
Proof.
  revert h path. induction n as [kind tag val content IH] using Node_ind.
  intros h path. cbn [frozen]. intros [Hf Hc]%andb_true_iff.
  destruct kind; cbn [processNode]; try done.
  - set (items := fix items h i l := match l with [] => _ | _ => _ end).
    assert (∀ h i, (items h i content).2 = content) as Hi.
    { clear Hf. induction content as [|n content IHc]; intros h' i; [done|].
      apply Forall_cons in IH as [IH1 IH2]. simpl in Hc. apply andb_true_iff in Hc as [Hc1 Hc2].
      simpl. specialize (IH1 h' (path ++ [PSeq i]) Hc1).
      destruct (processNode _ _ h' ctx n _) as [[[u|e|w] h1] n1]; simpl in IH1; subst n1; [|done..].
      specialize (IHc IH2 Hc2 h1 (S i)). destruct (items h1 (S i) content) as [[r h2] rest]. simpl in *. by subst. }
    specialize (Hi h 0). destruct (items h 0 content) as [[r h'] c]. simpl in *. by subst.
  - destruct (Nat.odd (length content)); [done|].
    set (pairs := fix pairs h l := match l with [] => _ | _ => _ end).
    assert (∀ h, (pairs h content).2 = content) as Hi.
    { clear Hf. induction content as [|k|k n content IHc] using list_pair_ind; intros h'; [done..|].
      apply Forall_cons in IH as [_ [IH1 IH2]%Forall_cons]. simpl in Hc.
      apply andb_true_iff in Hc as [_ [Hc1 Hc2]%andb_true_iff].
      simpl. case_bool_decide; [|done]. specialize (IH1 h' (path ++ [PMap (n_value k)]) Hc1).
      destruct (processNode _ _ h' ctx n _) as [[[u|e|w] h1] n1]; simpl in IH1; subst n1; [|done..].
      specialize (IHc IH2 Hc2 h1). destruct (pairs h1 content) as [[r h2] rest]. simpl in *. by subst. }
    specialize (Hi h). destruct (pairs h content) as [[r h'] c]. simpl in *. by subst.
  - rewrite bool_decide_true in Hf by done. simpl in Hf. apply negb_true_iff in Hf.
    pose proof (parseScalarValue_frozen h ctx ScalarNode tag val content Hf) as HP.
    destruct (parseScalarValue _ _ h ctx _) as [[v|e|w] n']; simpl in HP; subst n'; [|done..].
    by destruct (setContextValue h ctx v path).
Qed.

Lemma process_documents_frozen l h ctx :
  forallb frozen l = true → (process_documents tmpl_execute ParseFloat h ctx l).2 = l.
Proof.
  revert h. induction l as [|n l IH]; intros h Hc; [done|]. simpl in *.
  apply andb_true_iff in Hc as [Hc1 Hc2]. pose proof (processNode_frozen n h ctx [] Hc1) as H1.
  destruct (processNode _ _ h ctx n []) as [[[u|e|w] h1] n1]; simpl in H1; subst n1; [|done..].
  specialize (IH h1 Hc2). destruct (process_documents _ _ h1 ctx l) as [[r h2] rest]. simpl in *. by subst.
Qed.

(** A node without templates is left alone, and what it decodes to does not
    depend on the variables. *)
Lemma parse_frozen h ctx n r h' n' :
  frozen n = true → parseYamlNode tmpl_execute ParseFloat Decode h ctx n = (r, h', n') →
  n' = n ∧ ∀ data, r = Ok data → decode_node Decode n = Ok data.
Proof.
  intros Hf. destruct n as [kind tag val content]. unfold parseYamlNode.
  assert (∀ m : Node, m = MkNode kind tag val content → ∀ (r0 : result unit) r,
            (let! _ := r0 in decode_node Decode m) = r →
            ∀ data, r = Ok data → decode_node Decode (MkNode kind tag val content) = Ok data) as Hdec.
  { by intros m -> [u|e|w] r' <- data; simpl. }
  destruct kind.
  2:{ cbn [frozen] in Hf. apply andb_true_iff in Hf as [_ Hf].
      pose proof (process_documents_frozen content h ctx Hf) as HP.
      destruct (process_documents _ _ h ctx content) as [[r0 h0] c0]. simpl in HP. subst c0.
      intros [= <- <- <-]. split; [done|]. by eapply Hdec. }
  all: pose proof (processNode_frozen _ h ctx [] Hf) as HP;
    destruct (processNode _ _ h ctx _ []) as [[r0 h0] n0]; simpl in HP; subst n0;
    intros [= <- <- <-]; (split; [done|]; by eapply Hdec).
Qed.

End Frozen.

(** ** One level of literals *)

(** [setContextValue] on a key: a value that is there and not nil stays. *)
Definition enter (m : gmap string hval) (kv : string * hval) : gmap string hval :=
  if isNil (default HNil (m !! kv.1)) then <[kv.1 := kv.2]> m else m.

Lemma enter_existing m kv k v : m !! k = Some v → isNil v = false → enter m kv !! k = Some v.
Proof.
  intros Hk Hv. unfold enter. destruct (decide (kv.1 = k)) as [E|Hne].
  - rewrite E, Hk. simpl. by rewrite Hv.
  - destruct (isNil (default HNil (m !! kv.1))); [by rewrite lookup_insert_ne|done].
Qed.

Lemma enters_existing kvs m k v : m !! k = Some v → isNil v = false → fold_left enter kvs m !! k = Some v.
Proof. revert m. induction kvs as [|kv kvs IH]; intros m Hk Hv; [done|]. apply IH; [by apply enter_existing|done]. Qed.

Lemma enters_dom kvs m : dom m ⊆ dom (fold_left enter kvs m).
Proof.
  revert m. induction kvs as [|kv kvs IH]; intros m; [done|]. simpl. etransitivity; [|apply IH].
  unfold enter. destruct (isNil _); [|done]. rewrite dom_insert. set_solver.
Qed.

Lemma setContextValue_key h ctx m k v :
  h !! ctx = Some (CMap m) → setContextValue h ctx v [PMap k] = (Ok tt, store_cell h ctx (CMap (enter m (k, v)))).
Proof.
  intros Hm. unfold setContextValue, set_path, handle, handleMap, map_entries, enter. rewrite Hm. simpl.
  destruct (isNil (default HNil (m !! k))) eqn:E; simpl.
  - unfold SetMapIndex. rewrite Hm. done.
  - unfold store_cell. by rewrite list_insert_id.
Qed.

(** A container that is asked for where something else already is. *)
Definition mismatch (v : hval) (e : path_elem) : Prop :=
  match v, e with
  | HMap _, PMap _ | HSlice _, PSeq _ => False
  | _, _ => True
  end.

Section Flat.
Context (tmpl_execute : gmap string value → string → result string).
Context (ParseFloat : string → option string).

(** A scalar without a template that has a value. *)
Definition literal (n : Node) (v : hval) : Prop :=
  n_kind n = ScalarNode ∧ ∀ h ctx, parseScalarValue tmpl_execute ParseFloat h ctx n = (Ok v, n).

(** The content of a mapping of scalar keys to literals. *)
Inductive literals : list Node → list (string * hval) → Prop :=
| literals_nil : literals [] []
| literals_cons k n v l kvs :
    n_kind k = ScalarNode → literal n v → literals l kvs →
    literals (k :: n :: l) ((n_value k, v) :: kvs).

Lemma literals_even l kvs : literals l kvs → Nat.odd (length l) = false.
Proof. induction 1; simpl; [done|]. by rewrite <- Nat.negb_even in *. Qed.

Lemma processNode_literal h ctx n v path :
  literal n v → processNode tmpl_execute ParseFloat h ctx n path =
    (let '(r, h') := setContextValue h ctx v path in (r, h', n)).
Proof. intros [Hk Hp]. destruct n as [kind tag val content]. simpl in Hk. subst kind. cbn [processNode]. by rewrite Hp. Qed.

Lemma processNode_literals h ctx m tag val content kvs :
  h !! ctx = Some (CMap m) → literals content kvs →
  processNode tmpl_execute ParseFloat h ctx (MkNode MappingNode tag val content) [] =
    (Ok tt, store_cell h ctx (CMap (fold_left enter kvs m)), MkNode MappingNode tag val content).
Proof.
  intros Hm Hl. cbn [processNode]. rewrite (literals_even _ _ Hl).
  set (pairs := fix pairs h l := match l with [] => _ | _ => _ end).
  assert (pairs h content = (Ok tt, store_cell h ctx (CMap (fold_left enter kvs m)), content)) as ->; [|done].
  revert h m Hm. induction Hl as [|k n v l kvs Hk Hn _ IH]; intros h m Hm; simpl.
  - unfold store_cell. by rewrite list_insert_id.
  - rewrite bool_decide_true by done. rewrite (processNode_literal _ _ _ _ _ Hn). cbn [app].
    rewrite (setContextValue_key _ _ m) by done. cbn zeta.
    rewrite (IH _ (enter m (n_value k, v))).
    + unfold store_cell. by rewrite list_insert_insert_eq.
    + unfold store_cell. apply list_lookup_insert_eq. by eapply lookup_lt_Some.
Qed.

End Flat.

(** ** Properties *)

Section Properties.
Context (tmpl_execute : gmap string value → string → result string).
Context (ParseFloat : string → option string) (Decode : Node → error + gmap string value).

(** The caller's node after a successful walk is the node that was decoded,
    unless it still is the original. *)
Lemma parse_ok h ctx n data h1 n1 :
  parseYamlNode tmpl_execute ParseFloat Decode h ctx n = (Ok data, h1, n1) →
  frozen n1 = true → decode_node Decode n1 = Ok data.
Proof.
  destruct n as [kind tag val content]. intros E Hf.
  destruct (frozen (MkNode kind tag val content)) eqn:Hn.
  { destruct (parse_frozen _ _ _ _ _ _ _ _ _ Hn E) as [-> Hd]. by apply Hd. }
  unfold parseYamlNode in E. destruct kind; cbn [processNode] in E; try done.
  - destruct (process_documents _ _ h ctx content) as [[[u|e|w] h0] c0]; simpl in E; by simplify_eq.
  - destruct ((fix items h i l := match l with [] => _ | _ => _ end) h 0 content) as [[[u|e|w] h0] c0];
      simpl in E; by simplify_eq.
  - destruct (Nat.odd (length content)); [done|].
    destruct ((fix pairs h l := match l with [] => _ | _ => _ end) h content) as [[[u|e|w] h0] c0];
      simpl in E; by simplify_eq.
  - assert (n1 = MkNode ScalarNode tag val content) as ->; [|congruence].
    destruct (parseScalarValue tmpl_execute ParseFloat h ctx (MkNode ScalarNode tag val content)) as [[v|e|w] n'] eqn:EP;
      [|by simplify_eq..].
    assert (n_content n' = content) as Hc.
    { unfold parseScalarValue in EP. repeat (case_match; simplify_eq/=; try done). }
    destruct (setContextValue h ctx v []) as [[u|e|w] h']; simpl in E; rewrite ?Hc in E; by simplify_eq.
Qed.

(** Templates in the variables of a play, role or block are executed only
    once.  The first host's results replace the templates in the node, so
    whatever host, batch or run parses the node next gets the first host's
    data, whatever its own variables are. *)
Theorem template_evaluated_once h1 ctx1 n data h1' n1 h2 ctx2 r h2' n2 :
  parseYamlNode tmpl_execute ParseFloat Decode h1 ctx1 n = (Ok data, h1', n1) →
  frozen n1 = true →
  parseYamlNode tmpl_execute ParseFloat Decode h2 ctx2 n1 = (r, h2', n2) →
  n2 = n1 ∧ ∀ data2, r = Ok data2 → data2 = data.
Proof.
  intros E1 Hf E2. pose proof (parse_ok _ _ _ _ _ _ E1 Hf) as HD.
  destruct (parse_frozen _ _ _ _ _ _ _ _ _ Hf E2) as [-> Hd]. split; [done|].
  intros data2 ->. specialize (Hd data2 eq_refl). congruence.
Qed.

Lemma enters_other kvs m k : k ∉ map fst kvs → fold_left enter kvs m !! k = m !! k.
Proof.
  revert m. induction kvs as [|[k' v'] kvs IH]; intros m Hk; [done|]. simpl in *.
  rewrite IH by set_solver. unfold enter. simpl. destruct (isNil _); [|done].
  rewrite lookup_insert_ne; [done|]. set_solver.
Qed.

Lemma enters_new kvs m k v :
  NoDup (map fst kvs) → (k, v) ∈ kvs → isNil (default HNil (m !! k)) = true →
  fold_left enter kvs m !! k = Some v.
Proof.
  revert m. induction kvs as [|[k' v'] kvs IH]; intros m Hn Hin Hm; [by apply not_elem_of_nil in Hin|].
  apply NoDup_cons in Hn as [Hk' Hn]. simpl in *. apply elem_of_cons in Hin as [[= <- <-]|Hin].
  - rewrite enters_other by done. unfold enter. simpl. rewrite Hm. apply lookup_insert_eq.
  - apply IH; [done..|]. assert (k' ≠ k) by (intros ->; apply Hk'; apply (list_elem_of_fmap_2 fst _ (k, v)), Hin).
    unfold enter. simpl. destruct (isNil (default HNil (m !! k'))); [by rewrite lookup_insert_ne|done].
Qed.

(** Entering new variables for the templates never replaces a value that is
    there: after one level of literals every key keeps the value it had, a key
    that was missing or nil has its new value, and no cell but the context's
    own is touched; so a template sees the old value of a key that the same
    variables redefine.  A mapping or a sequence where a value of another shape
    is already set fails, and changes nothing. *)
Theorem context_keeps_existing h ctx m tag val content kvs :
  h !! ctx = Some (CMap m) → literals tmpl_execute ParseFloat content kvs →
  (∃ m', processNode tmpl_execute ParseFloat h ctx (MkNode MappingNode tag val content) [] =
           (Ok tt, store_cell h ctx (CMap m'), MkNode MappingNode tag val content) ∧
         (∀ k v, m !! k = Some v → isNil v = false → m' !! k = Some v) ∧
         (NoDup (map fst kvs) → ∀ k v, (k, v) ∈ kvs → isNil (default HNil (m !! k)) = true →
            m' !! k = Some v)) ∧
  (∀ k old value e rest, m !! k = Some old → isNil old = false → mismatch old e →
     ∃ err, setContextValue h ctx value (PMap k :: e :: rest) = (Err err, h)).
Proof.
  intros Hm Hl. split.
  - exists (fold_left enter kvs m). split; [by apply processNode_literals|].
    split; [intros; by apply enters_existing|]. intros; by apply enters_new.
  - intros k old value e rest Hk Hn He. unfold setContextValue, set_path, handle at 1, handleMap, map_entries.
    rewrite Hm. simpl. rewrite Hk. simpl. rewrite Hn. fold set_path.
    destruct e as [k2|i]; simpl.
    + destruct old; try done; by eexists.
    + destruct old; try done; by eexists.
Qed.

End Properties.

(** ** Concrete nodes *)

Definition str_node (s : string) : Node := MkNode ScalarNode strTag s [].
Definition int_node (s : string) : Node := MkNode ScalarNode intTag s [].
Definition map_node (l : list (string * Node)) : Node :=
  MkNode MappingNode "!!map" "" (concat (map (λ '(k, n), [str_node k; n]) l)).

(** The only template: the host's name. *)
Definition name_template (ctx : gmap string value) (t : string) : result string :=
  match ctx !! "inventory_hostname" with Some (VStr s) => Ok s | _ => Err (Msg "no name") end.

(** Maps of strings are decoded, and nothing else. *)
Definition decode_strings (n : Node) : error + gmap string value :=
  inr (list_to_map ((fix go l := match l with
                                 | k :: v :: l' => (n_value k, VStr (n_value v)) :: go l'
                                 | _ => []
                                 end) (n_content n))).

Definition named (s : string) : heap := [CMap {["inventory_hostname" := HStr s]}].

Lemma template_evaluated_once_witness :
  let n := map_node [("addr", str_node "{{ .inventory_hostname }}")] in
  let first := parseYamlNode name_template (λ _, None) decode_strings (named "node1") 0 n in
  let second := parseYamlNode name_template (λ _, None) decode_strings (named "node2") 0 first.2 in
  first.1.1 = Ok {["addr" := VStr "node1"]} ∧ second.2 = first.2 ∧
  ∀ data, second.1.1 = Ok data → data = {["addr" := VStr "node1"]}.
Proof.
  intros n first second. split; [vm_compute; reflexivity|].
  destruct second as [[r h2] n2] eqn:E2. subst second.
  apply (template_evaluated_once name_template (λ _, None) decode_strings (named "node1") 0 n
           {["addr" := VStr "node1"]} first.1.2 first.2 (named "node2") 0 r h2 n2);
    [vm_compute; reflexivity|vm_compute; reflexivity|exact E2].
Defined.

Lemma context_keeps_existing_witness :
  ∃ err, setContextValue [CMap {["a" := HStr "old"]}] 0 (HInt 1) [PMap "a"; PMap "b"] =
         (Err err, [CMap {["a" := HStr "old"]}]).
Proof.
  apply (context_keeps_existing name_template (λ _, None) [CMap {["a" := HStr "old"]}] 0 {["a" := HStr "old"]}
           "" "" [] [] eq_refl) with (HStr "old"); [constructor|reflexivity|reflexivity|exact I].
Defined.
