(* ===== verification/LiveVars.v ===== *)
(** * The variable store as it lives in memory:
      [src/feature/pkg/variable/variable.go], [variable_get.go],
      [variable_merge.go]

    [Vars] describes the store by the values it holds.  Here the same functions
    work on references: [CombineVariables] copies a map only where it merges
    two, [DeepCopy] clones the top of every map only, and the variables a
    template is given share what is nested in them with the store.  The two
    descriptions agree as long as nothing nested is updated
    ([GetAllVariable_refines], [Merge_runtime_refines]); where something is,
    the update reaches the store behind [Merge]'s back
    ([nested_update_not_written], [add_hostvars_shares]). *)

From S2P Require Import Prelude Values Groups Vars Memory YamlNode.
From stdpp Require Import gmap strings list sets.

(** ** [CombineVariables] *)

(** The inner function [f]; [fuel] bounds the depth of [val2]. *)
Fixpoint combine_any (fuel : nat) (h : heap) (val1 val2 : hval) : heap * hval :=
  match fuel, val1, val2 with
  | S fuel', HMap l1, HMap l2 =>
      match map_entries h l1, map_entries h l2 with
      | Some m1, Some m2 =>
          let '(h1, merged) :=
            map_fold (λ k v '(h, acc),
                        let '(h', v') := combine_any fuel' h (default HNil (acc !! k)) v in
                        (h', <[k := v']> acc)) (h, m1) m2 in
          let '(h2, l) := alloc h1 (CMap merged) in (h2, HMap l)
      | _, _ => (h, val2)
      end
  | _, _, _ => (h, val2)
  end.

(** Ranging over a map, which may be nil. *)
Definition entries_of (h : heap) (o : option loc) : gmap string hval :=
  default ∅ (l ← o; map_entries h l).

(** No tree is deeper than the heap has cells. *)
Definition CombineVariables (h : heap) (m1 m2 : option loc) : heap * loc :=
  let '(h1, mv) :=
    map_fold (λ k v '(h1, mv),
                let '(h2, v') := combine_any (length h) h1 (default HNil (mv !! k)) v in
                (h2, <[k := v']> mv)) (h, entries_of h m1) (entries_of h m2) in
  alloc h1 (CMap mv).

(** ** The store *)

(** [host]: the references to the two maps; nil is [None]. *)
Record HostMem := { RemoteRef : option loc; RuntimeRef : option loc }.

Definition zero_host : HostMem := {| RemoteRef := None; RuntimeRef := None |}.

(** [variable], with the memory it lives in: the heap, the YAML nodes the
    playbook holds, and what has been written to the source. *)
Record Live := {
  lv_heap : heap;
  lv_nodes : list Node;
  lv_config : string;
  lv_inventory : Inventory;
  lv_hosts : gmap string HostMem;
  lv_result : option loc;
  lv_source : gmap string HostVars;
}.

Definition set_heap (lv : Live) (h : heap) : Live :=
  {| lv_heap := h; lv_nodes := lv_nodes lv; lv_config := lv_config lv; lv_inventory := lv_inventory lv;
     lv_hosts := lv_hosts lv; lv_result := lv_result lv; lv_source := lv_source lv |}.
Definition set_nodes (lv : Live) (ns : list Node) : Live :=
  {| lv_heap := lv_heap lv; lv_nodes := ns; lv_config := lv_config lv; lv_inventory := lv_inventory lv;
     lv_hosts := lv_hosts lv; lv_result := lv_result lv; lv_source := lv_source lv |}.
Definition set_live_hosts (lv : Live) (hs : gmap string HostMem) : Live :=
  {| lv_heap := lv_heap lv; lv_nodes := lv_nodes lv; lv_config := lv_config lv; lv_inventory := lv_inventory lv;
     lv_hosts := hs; lv_result := lv_result lv; lv_source := lv_source lv |}.
Definition set_live_result (lv : Live) (r : option loc) : Live :=
  {| lv_heap := lv_heap lv; lv_nodes := lv_nodes lv; lv_config := lv_config lv; lv_inventory := lv_inventory lv;
     lv_hosts := lv_hosts lv; lv_result := r; lv_source := lv_source lv |}.
Definition set_source (lv : Live) (s : gmap string HostVars) : Live :=
  {| lv_heap := lv_heap lv; lv_nodes := lv_nodes lv; lv_config := lv_config lv; lv_inventory := lv_inventory lv;
     lv_hosts := lv_hosts lv; lv_result := lv_result lv; lv_source := s |}.

(** [maps.Clone] *)
Definition Clone (h : heap) (o : option loc) : heap * option loc :=
  match o with
  | None => (h, None)
  | Some l => let '(h', l') := alloc h (CMap (entries_of h (Some l))) in (h', Some l')
  end.

Definition clone_host (_ : string) (hm : HostMem) (h : heap) : heap * HostMem :=
  let '(h1, remote) := Clone h (RemoteRef hm) in
  let '(h2, runtime) := Clone h1 (RuntimeRef hm) in
  (h2, {| RemoteRef := remote; RuntimeRef := runtime |}).

(** [DeepCopy] *)
Definition DeepCopy (lv : Live) : Live :=
  let '(h1, r) := Clone (lv_heap lv) (lv_result lv) in
  let '(h2, hs) :=
    map_fold (λ k hm '(h, c), let '(h', hm') := clone_host k hm h in (h', <[k := hm']> c))
             (h1, ∅) (lv_hosts lv) in
  set_live_result (set_live_hosts (set_heap lv h2) hs) r.

Section Live.

Context (json_unmarshal : string → option (gmap string value)).
Context (getLocalIP : string → string).
Context (tmpl_execute : gmap string value → string → result string).
Context (ParseFloat : string → option string).
Context (Decode : Node → error + gmap string value).
Context (source_write : string → HostVars → option error).

(** ** [GetAllVariable] *)

(** [hostVars = CombineVariables(hostVars, Extension2Variables(raw))] *)
Definition add_raw (raw : string) (st : heap * loc) : heap * loc :=
  let '(h, hostVars) := st in
  let '(h1, data) := inject_map (Extension2Variables json_unmarshal raw) h in
  CombineVariables h1 (Some hostVars) (Some data).

Definition add_ref (o : option loc) (st : heap * loc) : heap * loc :=
  let '(h, hostVars) := st in CombineVariables h (Some hostVars) o.

Definition put_default (k : string) (v : hval) (m : gmap string hval) : gmap string hval :=
  match m !! k with Some _ => m | None => <[k := v]> m end.

(** [defaultHostVariable] updates the map in place.  (The typed map under
    "groups" is added later, so the assertion to [map[string]any] can only fail
    on something that is not a map.) *)
Definition default_entries (h : heap) (hostname : string) (hostVars : gmap string hval) : gmap string hval :=
  let m1 :=
    if bool_decide (hostname = VariableLocalHost) then
      put_default VariableIPv6 (HStr (getLocalIP VariableIPv6))
        (put_default VariableIPv4 (HStr (getLocalIP VariableIPv4)) hostVars)
    else hostVars in
  let m2 :=
    match m1 !! VariableOS with
    | Some (HMap l) =>
        match map_entries h l with
        | Some osd => <[VariableHostName := default HNil (osd !! VariableOSHostName)]> m1
        | None => m1
        end
    | _ => m1
    end in
  put_default VariableHostName (HStr hostname)
    (put_default VariableInventoryName (HStr hostname) m2).

Definition defaultHostVariable (hostname : string) (st : heap * loc) : heap * loc :=
  let '(h, l) := st in
  (store_cell h l (CMap (default_entries h hostname (entries_of h (Some l)))), l).

(** One turn of [getHostsVariable]. *)
Definition hostVariable (lv : Live) (hostname : string) (hm : HostMem) (h : heap) : heap * hval :=
  let st := alloc h (CMap ∅) in
  let st := fold_left (λ st '(_, gv), if contains (group_hosts gv) hostname then add_raw (group_vars gv) st else st)
                      (inv_groups (lv_inventory lv)) st in
  let st := add_ref (RemoteRef hm) st in
  let st := add_ref (RuntimeRef hm) st in
  let st := add_raw (inv_vars (lv_inventory lv)) st in
  let st := add_raw (default "" (alookup hostname (inv_hosts (lv_inventory lv)))) st in
  let st := add_raw (lv_config lv) st in
  let '(h', l) := defaultHostVariable hostname st in (h', HMap l).

(** [getHostsVariable]: the heap and the entries of [globalHosts]. *)
Definition getHostsVariable (lv : Live) : heap * gmap string hval :=
  map_fold (λ k hm '(h, c), let '(h', v) := hostVariable lv k hm h in (h', <[k := v]> c))
           (lv_heap lv, ∅) (lv_hosts lv).

(** The typed map [ConvertGroup] returns. *)
Definition alloc_groups (h : heap) (g : gmap string (list string)) : heap * hval :=
  let '(h1, c) := map_fold (λ k ss '(h, c), let '(h', l) := alloc h (CStrings ss) in (h', <[k := l]> c)) (h, ∅) g in
  let '(h2, l) := alloc h1 (CGroups c) in (h2, HMap l).

(** [New] has already called [ConvertGroup] on the inventory: in a store that
    exists it has returned. *)
Definition groups_of (inv : Inventory) : gmap string (list string) := default ∅ (ConvertGroup inv).

Definition GetAllVariable (hostname : string) (lv : Live) : heap * loc :=
  let '(h1, hosts) := getHostsVariable lv in
  let '(h2, globalHosts) := alloc h1 (CMap hosts) in
  match hosts !! hostname with
  | Some (HMap hostVars) =>
      let '(h3, hv) := alloc h2 (CMap {[VariableGlobalHosts := HMap globalHosts]}) in
      let '(h4, vars) := CombineVariables h3 (Some hostVars) (Some hv) in
      let '(h5, groups) := alloc_groups h4 (groups_of (lv_inventory lv)) in
      let '(h6, gv) := alloc h5 (CMap {[VariableGroups := groups]}) in
      CombineVariables h6 (Some vars) (Some gv)
  | _ => alloc h2 (CMap ∅)
  end.

(** ** The merge functions *)

Definition node_at (lv : Live) (n : nat) : Node := default (MkNode KindZero "" "" []) (lv_nodes lv !! n).

(** Parsing node [n] in the variables of [hostname]. *)
Definition parse_for (n : nat) (hostname : string) (lv : Live) : result (gmap string value) * Live :=
  let '(h1, ctx) := GetAllVariable hostname lv in
  let '(r, h2, node') := parseYamlNode tmpl_execute ParseFloat Decode h1 ctx (node_at lv n) in
  (r, set_nodes (set_heap lv h2) (<[n := node']> (lv_nodes lv))).

(** [hv.RuntimeVars = CombineVariables(hv.RuntimeVars, data)] *)
Definition update_runtime (data : loc) (hostname : string) (lv : Live) : Live :=
  let hv := default zero_host (lv_hosts lv !! hostname) in
  let '(h', l) := CombineVariables (lv_heap lv) (RuntimeRef hv) (Some data) in
  set_live_hosts (set_heap lv h') (<[hostname := {| RemoteRef := RemoteRef hv; RuntimeRef := Some l |}]> (lv_hosts lv)).

Fixpoint runtime_loop (n : nat) (hosts : list string) (lv : Live) : result unit * Live :=
  match hosts with
  | [] => (Ok tt, lv)
  | hostname :: rest =>
      match parse_for n hostname lv with
      | (Ok data, lv1) =>
          let '(h, d) := inject_map data (lv_heap lv1) in
          runtime_loop n rest (update_runtime d hostname (set_heap lv1 h))
      | (Err e, lv1) => (Err e, lv1)
      | (Panic w, lv1) => (Panic w, lv1)
      end
  end.

Definition MergeRuntimeVariable (n : nat) (hosts : list string) (lv : Live) : result unit * Live :=
  if IsZero (node_at lv n) then (Ok tt, lv) else runtime_loop n hosts lv.

(** [MergeHostsRuntimeVariable]: parsed once, the same map merged into every
    host. *)
Definition MergeHostsRuntimeVariable (n : nat) (hostname : string) (hosts : list string) (lv : Live)
    : result unit * Live :=
  if IsZero (node_at lv n) then (Ok tt, lv)
  else
    match parse_for n hostname lv with
    | (Ok data, lv1) =>
        let '(h, d) := inject_map data (lv_heap lv1) in
        (Ok tt, fold_left (λ lv h, update_runtime d h lv) hosts (set_heap lv1 h))
    | (Err e, lv1) => (Err e, lv1)
    | (Panic w, lv1) => (Panic w, lv1)
    end.

(** ** [Merge] *)

(** What a host's references stand for, as [reflect.DeepEqual] and the source
    see it. *)
Definition ref_value (h : heap) (o : option loc) : option (gmap string value) :=
  match o with Some l => Some (ctx_value h l) | None => None end.

Definition host_value (h : heap) (hm : HostMem) : HostVars :=
  {| RemoteVars := ref_value h (RemoteRef hm); RuntimeVars := ref_value h (RuntimeRef hm) |}.

(** [syncSource], over the hosts of the store in the order [order]. *)
Fixpoint sync_hosts (newHosts : gmap string HostMem) (order : list string) (lv : Live) : result unit * Live :=
  match order with
  | [] => (Ok tt, lv)
  | hn :: rest =>
      let nh := default zero_host (newHosts !! hn) in
      if bool_decide (Some (host_value (lv_heap lv) nh) = host_value (lv_heap lv) <$> lv_hosts lv !! hn)
      then sync_hosts newHosts rest lv
      else match source_write hn (host_value (lv_heap lv) nh) with
           | Some e => (Err (Wrap ("failed to write host " +:+ hn +:+ " variable to source") e), lv)
           | None =>
               sync_hosts newHosts rest
                 (set_source (set_live_hosts lv (<[hn := nh]> (lv_hosts lv)))
                             (<[hn := host_value (lv_heap lv) nh]> (lv_source lv)))
           end
  end.

(** The copy lives in the same memory: the store's own references stay, the
    heap and the nodes are what the merge function left. *)
Definition after (lv nv : Live) : Live := set_nodes (set_heap lv (lv_heap nv)) (lv_nodes nv).

Definition Merge (f : Live → result unit * Live) (order : list string) (lv : Live) : result unit * Live :=
  match f (DeepCopy lv) with
  | (Ok _, nv) => sync_hosts (lv_hosts nv) order (set_live_result (after lv nv) (lv_result nv))
  | (Err e, nv) => (Err e, after lv nv)
  | (Panic w, nv) => (Panic w, after lv nv)
  end.

End Live.

(** ** [CombineVariables] on references and on values *)

(** The tree under a reference; nil reads as the empty map. *)
Definition repr_ref (h : heap) (o : option loc) (x : gmap string value) : Prop :=
  match o with Some l => repr h (HMap l) (VMap x) | None => x = ∅ end.

(** A computation that ends by allocating a map that stands for [x], and that
    changes no older cell. *)
Definition yields (h : heap) (r : heap * loc) (x : gmap string value) : Prop :=
  ∃ h' mv, r = alloc h' (CMap mv) ∧ h `prefix_of` h' ∧ repr_env h' mv x.

Lemma yields_repr h r x : yields h r x → h `prefix_of` r.1 ∧ repr r.1 (HMap r.2) (VMap x).
Proof.
  intros (h' & mv & -> & Hp & He). split; [|by apply repr_alloc_map].
  etransitivity; [exact Hp|apply alloc_prefix].
Qed.

Lemma yields_prefix h1 h2 r x : h1 `prefix_of` h2 → yields h2 r x → yields h1 r x.
Proof. intros Hp (h' & mv & -> & Hp' & He). exists h', mv. split_and!; [done|by etransitivity|done]. Qed.

Lemma repr_ref_prefix h h' o x : h `prefix_of` h' → repr_ref h o x → repr_ref h' o x.
Proof. destruct o; [apply repr_prefix|done]. Qed.

Lemma repr_ref_env h o x : repr_ref h o x → repr_env h (entries_of h o) x.
Proof.
  destruct o as [l|]; simpl; [|intros ->; apply repr_env_empty].
  intros (m & Hm & Hd & He)%repr_entries. unfold entries_of. simpl. rewrite Hm. by split.
Qed.

(** One merge loop, whatever the merge of two entries is, as long as it is
    right for the entries at hand. *)
Lemma merge_loop (f : heap → hval → hval → heap * hval) h c1 c2 x1 x2 :
  repr_env h c1 x1 → repr_env h c2 x2 →
  (∀ k x h' v1 v2 y, x2 !! k = Some x → h `prefix_of` h' → repr h' v1 y → repr h' v2 x →
     h' `prefix_of` (f h' v1 v2).1 ∧ repr (f h' v1 v2).1 (f h' v1 v2).2 (combine_value y x)) →
  let r := map_fold (λ k v '(h, acc), let '(h', v') := f h (default HNil (acc !! k)) v in (h', <[k := v']> acc)) (h, c1) c2 in
  h `prefix_of` r.1 ∧ repr_env r.1 r.2 (Vars.CombineVariables x1 x2).
Proof.
  intros H1 H2 Hf. revert x2 H2 Hf.
  apply (map_fold_weak_ind (λ (r : heap * gmap string hval) c2, ∀ x2, repr_env h c2 x2 →
    (∀ k x h' v1 v2 y, x2 !! k = Some x → h `prefix_of` h' → repr h' v1 y → repr h' v2 x →
       h' `prefix_of` (f h' v1 v2).1 ∧ repr (f h' v1 v2).1 (f h' v1 v2).2 (combine_value y x)) →
    h `prefix_of` r.1 ∧ repr_env r.1 r.2 (Vars.CombineVariables x1 x2))).
  - intros x2 [Hd _] _. rewrite dom_empty_L in Hd. symmetry in Hd. apply dom_empty_inv_L in Hd as ->.
    by rewrite CombineVariables_empty_r.
  - intros k v c2' [h1 acc] Hk IH x2 [Hd He] Hf.
    assert (is_Some (x2 !! k)) as [x Hx] by (apply elem_of_dom; rewrite <- Hd; set_solver).
    destruct (IH (delete k x2)) as [Hp Ha].
    { split; [rewrite dom_delete_L, <- Hd, dom_insert_L; apply not_elem_of_dom in Hk; set_solver|].
      intros k' v' x' Hv' Hx'. assert (k' ≠ k) by congruence. apply (He k'); [by rewrite lookup_insert_ne|].
      by rewrite lookup_delete_ne in Hx'. }
    { intros k' x' h' v1 v2 y Hx'. apply (Hf k'). destruct (decide (k = k')) as [->|]; [by rewrite lookup_delete_eq in Hx'|].
      by rewrite lookup_delete_ne in Hx'. }
    simpl in *. pose proof (repr_env_default _ _ _ k Ha) as Hdef.
    assert (Vars.CombineVariables x1 (delete k x2) !! k = x1 !! k) as Hold.
    { by rewrite CombineVariables_lookup, lookup_delete_eq. }
    rewrite Hold in Hdef.
    destruct (Hf k x h1 _ v _ Hx Hp Hdef) as [Hp' Hr'].
    { eapply repr_prefix; [done|]. apply (He k); [apply lookup_insert_eq|done]. }
    destruct (f h1 (default HNil (acc !! k)) v) as [h2 v']. simpl in *. split; [by etransitivity|].
    replace (Vars.CombineVariables x1 x2) with (<[k := combine_value (default VNil (x1 !! k)) x]> (Vars.CombineVariables x1 (delete k x2))).
    { apply repr_env_insert; [by eapply repr_env_prefix|done]. }
    apply map_eq. intros k'. rewrite CombineVariables_lookup. destruct (decide (k = k')) as [->|].
    + by rewrite lookup_insert_eq, Hx.
    + by rewrite lookup_insert_ne, CombineVariables_lookup, lookup_delete_ne by done.
Qed.

Lemma combine_any_refines x2 fuel h v1 v2 x1 :
  vdepth x2 ≤ fuel → repr h v1 x1 → repr h v2 x2 →
  h `prefix_of` (combine_any fuel h v1 v2).1 ∧
  repr (combine_any fuel h v1 v2).1 (combine_any fuel h v1 v2).2 (combine_value x1 x2).
Proof.
  revert fuel h v1 v2 x1. induction x2 as [ | | | | | |l _|m2 IH] using value_ind; intros fuel h v1 v2 x1 Hf H1 H2;
    try (inversion H2; subst; destruct fuel, v1; split; done).
  assert (∃ l2, v2 = HMap l2) as [l2 ->] by (inversion H2; eauto).
  destruct fuel as [|fuel]; [simpl in Hf; lia|].
  assert (scalar x1 ∨ ¬ scalar x1) as [Hs|Hs] by (destruct x1; simpl; tauto).
  { rewrite combine_value_left by done. destruct v1; try done. inversion H1; subst; done. }
  assert (∃ m1, x1 = VMap m1) as [m1 ->] by (destruct x1; try (by destruct Hs); eauto).
  assert (∃ l1, v1 = HMap l1) as [l1 ->] by (inversion H1; eauto).
  destruct (repr_entries _ _ _ H1) as (c1 & E1 & Hc1). destruct (repr_entries _ _ _ H2) as (c2 & E2 & Hc2).
  cbn [combine_any]. rewrite E1, E2, combine_value_maps.
  destruct (merge_loop (combine_any fuel) h c1 c2 m1 m2 Hc1 Hc2) as [Hp He].
  { intros k x h' v1 v2 y Hx _ Hy Hv2. apply (IH k x Hx); [|done..]. apply vdepth_map in Hx. lia. }
  destruct (map_fold _ (h, c1) c2) as [h1 merged]. simpl in Hp, He.
  split; [etransitivity; [exact Hp|apply alloc_prefix]|by apply repr_alloc_map].
Qed.

Lemma CombineVariables_yields h o1 o2 x1 x2 :
  repr_ref h o1 x1 → repr_ref h o2 x2 → yields h (CombineVariables h o1 o2) (Vars.CombineVariables x1 x2).
Proof.
  intros H1 H2. unfold CombineVariables.
  assert (∀ k x, x2 !! k = Some x → vdepth x ≤ length h) as Hd.
  { intros k x Hx. destruct o2 as [l|]; simpl in H2; [|by subst]. apply repr_depth in H2.
    apply vdepth_map in Hx. lia. }
  apply repr_ref_env in H1, H2.
  destruct (merge_loop (combine_any (length h)) h _ _ x1 x2 H1 H2) as [Hp He].
  { intros k x h' v1 v2 y Hx _ Hy Hv2. apply combine_any_refines; [by eapply Hd|done..]. }
  destruct (map_fold _ (h, entries_of h o1) (entries_of h o2)) as [h1 mv]. by exists h1, mv.
Qed.

(** ** The store stands for a value *)

Definition opt_repr (h : heap) (o : option loc) (om : option (gmap string value)) : Prop :=
  match o, om with
  | Some l, Some m => repr h (HMap l) (VMap m)
  | None, None => True
  | _, _ => False
  end.

Definition host_repr (h : heap) (hm : HostMem) (hv : HostVars) : Prop :=
  opt_repr h (RemoteRef hm) (RemoteVars hv) ∧ opt_repr h (RuntimeRef hm) (RuntimeVars hv).

Definition hosts_repr (h : heap) (hs : gmap string HostMem) (vs : gmap string HostVars) : Prop :=
  dom hs = dom vs ∧ ∀ hn hm hv, hs !! hn = Some hm → vs !! hn = Some hv → host_repr h hm hv.

Record abs (lv : Live) (v : VarValue) : Prop := {
  abs_config : lv_config lv = v_config v;
  abs_inventory : lv_inventory lv = v_inventory v;
  abs_hosts : hosts_repr (lv_heap lv) (lv_hosts lv) (v_hosts v);
  abs_result : opt_repr (lv_heap lv) (lv_result lv) (v_result v);
}.

Lemma opt_repr_ref h o om : opt_repr h o om → repr_ref h o (mapof om).
Proof. destruct o, om; done. Qed.

Lemma opt_repr_prefix h h' o om : h `prefix_of` h' → opt_repr h o om → opt_repr h' o om.
Proof. destruct o, om; [apply repr_prefix|done..]. Qed.

Lemma host_repr_prefix h h' hm hv : h `prefix_of` h' → host_repr h hm hv → host_repr h' hm hv.
Proof. intros Hp [? ?]. split; by eapply opt_repr_prefix. Qed.

Lemma hosts_repr_prefix h h' hs vs : h `prefix_of` h' → hosts_repr h hs vs → hosts_repr h' hs vs.
Proof. intros Hp [Hd Hh]. split; [done|]. intros. eapply host_repr_prefix; eauto. Qed.

Lemma abs_extend lv v h : lv_heap lv `prefix_of` h → abs lv v → abs (set_heap lv h) v.
Proof.
  intros Hp [? ? ? ?]. constructor; simpl; [done|done|by eapply hosts_repr_prefix|by eapply opt_repr_prefix].
Qed.

Lemma repr_env_singleton h k v x : repr h v x → repr_env h {[k := v]} {[k := x]}.
Proof. intros Hr. rewrite <- !insert_empty. apply repr_env_insert; [apply repr_env_empty|done]. Qed.

Lemma repr_env_put_default h c m k v x :
  repr_env h c m → repr h v x → repr_env h (put_default k v c) (set_default k x m).
Proof.
  intros He Hr. unfold put_default, set_default. destruct He as [Hd He'] eqn:E. clear E.
  destruct (c !! k) eqn:Ec.
  - assert (is_Some (m !! k)) as [y ->] by (apply elem_of_dom; rewrite <- Hd; by apply elem_of_dom_2 in Ec). by split.
  - apply not_elem_of_dom in Ec. rewrite Hd in Ec. apply not_elem_of_dom in Ec as ->. by apply repr_env_insert.
Qed.

Section Refines.

Context (json_unmarshal : string → option (gmap string value)) (getLocalIP : string → string).

Lemma inject_map_yields m h : yields h (inject_map m h) m.
Proof.
  unfold inject_map. destruct (fold_entries (λ _ x h, inject x h) m m h) as [Hp He]; [done| |].
  { intros k y x h' Hy Hx _. rewrite Hy in Hx. injection Hx as <-. apply inject_spec. }
  destruct (map_fold _ (h, ∅) m) as [h1 c]. by exists h1, c.
Qed.

Lemma add_raw_yields h st x raw :
  yields h st x → yields h (add_raw json_unmarshal raw st) (Vars.CombineVariables x (Extension2Variables json_unmarshal raw)).
Proof.
  intros [Hp Hr]%yields_repr. destruct st as [h1 l]. simpl in *.
  pose proof (inject_map_yields (Extension2Variables json_unmarshal raw) h1) as [Hp' Hr']%yields_repr.
  destruct (inject_map _ h1) as [h2 d]. simpl in *. apply (yields_prefix _ h2); [by etransitivity|].
  apply CombineVariables_yields; [by eapply repr_prefix|done].
Qed.

Lemma add_ref_yields h st x o y :
  yields h st x → repr_ref h o y → yields h (add_ref o st) (Vars.CombineVariables x y).
Proof.
  intros [Hp Hr]%yields_repr Ho. destruct st as [h1 l]. simpl in *. apply (yields_prefix _ h1); [done|].
  apply CombineVariables_yields; [done|by eapply repr_ref_prefix].
Qed.

Lemma store_last (h : heap) c c' : store_cell (h ++ [c]) (length h) c' = h ++ [c'].
Proof. unfold store_cell. rewrite insert_app_r_alt by lia. by rewrite Nat.sub_diag. Qed.

Lemma defaultHostVariable_yields h st x hostname :
  yields h st x → yields h (defaultHostVariable getLocalIP hostname st) (Vars.defaultHostVariable getLocalIP hostname x).
Proof.
  intros (h' & mv & -> & Hp & He). unfold defaultHostVariable, alloc. cbn iota beta.
  rewrite store_last. exists h', (default_entries getLocalIP (h' ++ [CMap mv]) hostname mv).
  assert (entries_of (h' ++ [CMap mv]) (Some (length h')) = mv) as ->.
  { unfold entries_of, map_entries. simpl. by rewrite list_lookup_middle. }
  split_and!; [done|done|]. unfold default_entries, Vars.defaultHostVariable.
  do 2 (apply repr_env_put_default; [|constructor]).
  set (m1 := if bool_decide _ then _ else mv). set (x1 := if bool_decide _ then _ else x).
  assert (repr_env h' m1 x1) as H1.
  { unfold m1, x1. case_bool_decide; [|done]. do 2 (apply repr_env_put_default; [|constructor]). done. }
  clearbody m1 x1. pose proof H1 as [Hd He1]. destruct (m1 !! VariableOS) as [w|] eqn:Ew.
  - assert (is_Some (x1 !! VariableOS)) as [y Hy] by (apply elem_of_dom; rewrite <- Hd; by apply elem_of_dom_2 in Ew).
    rewrite Hy. pose proof (He1 _ _ _ Ew Hy) as Hr. destruct w as [| | | | | | |l]; try (inversion Hr; subst; done).
    assert (∃ osd, y = VMap osd) as [osd ->] by (inversion Hr; eauto).
    destruct (repr_entries _ _ _ Hr) as (c & Hc & Hosd).
    rewrite (map_entries_prefix h' _ l c) by (done || by eexists).
    apply repr_env_insert; [done|]. by apply repr_env_default.
  - apply not_elem_of_dom in Ew. rewrite Hd in Ew. by apply not_elem_of_dom in Ew as ->.
Qed.

Lemma hostVariable_refines lv v hostname hm hv h :
  lv_inventory lv = v_inventory v → lv_config lv = v_config v → host_repr h hm hv →
  let r := hostVariable json_unmarshal getLocalIP lv hostname hm h in
  h `prefix_of` r.1 ∧ repr r.1 r.2 (VMap (Vars.hostVariable json_unmarshal getLocalIP v hostname hv)).
Proof.
  intros Hi Hc [Hrem Hrun] r. unfold r, hostVariable. clear r.
  assert (∀ (gs : list (string * InventoryGroup)) st x, yields h st x →
    yields h (fold_left (λ st '((_, gv) : string * InventoryGroup), if contains (group_hosts gv) hostname then add_raw json_unmarshal (group_vars gv) st else st) gs st)
      (fold_left (λ vars '((_, gv) : string * InventoryGroup), if contains (group_hosts gv) hostname
                    then Vars.CombineVariables vars (Extension2Variables json_unmarshal (group_vars gv)) else vars) gs x)) as HG.
  { induction gs as [|[gn gv] gs IH]; intros st x Hs; [done|]. simpl. apply IH.
    destruct (contains (group_hosts gv) hostname); [by apply add_raw_yields|done]. }
  assert (yields h (alloc h (CMap ∅)) ∅) as H0 by (exists h, ∅; split_and!; [done|done|apply repr_env_empty]).
  apply (HG (inv_groups (lv_inventory lv))) in H0.
  apply (add_ref_yields _ _ _ (RemoteRef hm) (mapof (RemoteVars hv))) in H0; [|by apply opt_repr_ref].
  apply (add_ref_yields _ _ _ (RuntimeRef hm) (mapof (RuntimeVars hv))) in H0; [|by apply opt_repr_ref].
  apply (add_raw_yields _ _ _ (inv_vars (lv_inventory lv))) in H0.
  apply (add_raw_yields _ _ _ (default "" (alookup hostname (inv_hosts (lv_inventory lv))))) in H0.
  apply (add_raw_yields _ _ _ (lv_config lv)), (defaultHostVariable_yields _ _ _ hostname) in H0.
  rewrite Hi, Hc in H0. rewrite Hi, Hc. apply yields_repr in H0.
  destruct (defaultHostVariable _ _ _) as [h' l]. exact H0.
Qed.

Lemma alloc_groups_spec h g :
  h `prefix_of` (alloc_groups h g).1 ∧ repr (alloc_groups h g).1 (alloc_groups h g).2 (groups_value g).
Proof.
  unfold alloc_groups.
  destruct (fold_alloc (λ _ ss h, alloc h (CStrings ss)) (λ h _ ss l, h !! l = Some (CStrings ss)) g h) as (Hp & Hd & He).
  - intros h1 h2 _ ss l [k ->] Hl. by apply lookup_app_l_Some.
  - intros k ss h' _ _. split; [apply alloc_prefix|apply alloc_lookup].
  - destruct (map_fold _ (h, ∅) g) as [h1 c]. simpl in *. split; [by apply prefix_app_r|].
    eapply (repr_groups _ _ c); [apply (alloc_lookup h1)|done|].
    intros k a ss Ha Hss. apply lookup_app_l_Some. by eapply He.
Qed.

Lemma getHostsVariable_refines lv v :
  abs lv v →
  let r := getHostsVariable json_unmarshal getLocalIP lv in
  lv_heap lv `prefix_of` r.1 ∧ repr_env r.1 r.2 (Vars.getHostsVariable json_unmarshal getLocalIP v).
Proof.
  intros [Hc Hi [Hd Hh] _]. apply (fold_entries (λ k hm h, hostVariable json_unmarshal getLocalIP lv k hm h)).
  - rewrite Hd. unfold Vars.getHostsVariable. apply set_eq. intros k.
    rewrite !elem_of_dom, map_lookup_imap. destruct (v_hosts v !! k); simpl; rewrite ?is_Some_alt; done.
  - intros k hm x h' Hk Hx Hp. unfold Vars.getHostsVariable in Hx. rewrite map_lookup_imap in Hx.
    destruct (v_hosts v !! k) as [hv|] eqn:Hv; [|done]. injection Hx as <-.
    apply hostVariable_refines; [done..|]. eapply host_repr_prefix; eauto.
Qed.

(** The variables of a host on the heap stand for the variables [Vars]
    describes, and computing them changes no cell of the store. *)
Lemma GetAllVariable_yields lv v hostname all :
  abs lv v → Vars.GetAllVariable json_unmarshal getLocalIP hostname v = Some all →
  yields (lv_heap lv) (GetAllVariable json_unmarshal getLocalIP hostname lv) all.
Proof.
  intros Ha E. pose proof (getHostsVariable_refines lv v Ha) as HG. unfold GetAllVariable, Vars.GetAllVariable in *.
  destruct (getHostsVariable _ _ lv) as [h1 hosts]. destruct HG as [Hp He]. cbn [fst snd] in Hp, He.
  set (xs := Vars.getHostsVariable json_unmarshal getLocalIP v) in *.
  pose proof (repr_alloc_map _ _ _ He) as Hr2. pose proof (alloc_prefix h1 (CMap hosts)) as Hp2.
  destruct (alloc h1 (CMap hosts)) as [h2 gl]. cbn [fst snd] in Hr2, Hp2.
  assert (∀ l, hosts !! hostname = Some (HMap l) → ∃ m, xs !! hostname = Some (VMap m) ∧ repr h1 (HMap l) (VMap m)) as Hsome.
  { intros l Hl. destruct He as [Hd He]. assert (is_Some (xs !! hostname)) as [y Hy]
      by (apply elem_of_dom; rewrite <- Hd; by apply elem_of_dom_2 in Hl).
    pose proof (He _ _ _ Hl Hy) as Hr. assert (∃ m, y = VMap m) as [m ->] by (inversion Hr; eauto). eauto. }
  assert (∀ y, xs !! hostname = Some y → ∃ m l, y = VMap m ∧ hosts !! hostname = Some (HMap l)) as Hmap.
  { intros y Hy. pose proof Hy as Hy'. unfold xs, Vars.getHostsVariable in Hy'. rewrite map_lookup_imap in Hy'.
    destruct (v_hosts v !! hostname); [|done]. injection Hy' as <-. destruct He as [Hd He].
    assert (is_Some (hosts !! hostname)) as [w Hw] by (apply elem_of_dom; rewrite Hd; by apply elem_of_dom_2 in Hy).
    pose proof (He _ _ _ Hw Hy) as Hr. inversion Hr; subst; eauto. }
  destruct (hosts !! hostname) as [[| | | | | | |l]|] eqn:El.
  8:{ destruct (Hsome l eq_refl) as (hostVars & Hx & Hr). rewrite Hx in E.
      apply bind_Some in E as (g & Eg & E). apply (inj Some) in E. rewrite <- E. clear E.
      assert (groups_of (lv_inventory lv) = g) as -> by (unfold groups_of; rewrite (abs_inventory _ _ Ha), Eg; reflexivity).
      pose proof (repr_alloc_map _ _ _ (repr_env_singleton h2 VariableGlobalHosts _ _ Hr2)) as Hr3.
      pose proof (alloc_prefix h2 (CMap {[VariableGlobalHosts := HMap gl]})) as Hp3.
      destruct (alloc h2 (CMap {[VariableGlobalHosts := HMap gl]})) as [h3 hvl]. cbn [fst snd] in Hr3, Hp3.
      destruct (yields_repr _ _ _ (CombineVariables_yields h3 (Some l) (Some hvl) _ _
                  (repr_prefix _ _ _ _ (transitivity Hp2 Hp3) Hr) Hr3)) as [Hp4 Hr4].
      destruct (CombineVariables h3 (Some l) (Some hvl)) as [h4 vars]. cbn [fst snd] in Hr4, Hp4.
      destruct (alloc_groups_spec h4 g) as [Hp5 Hr5].
      destruct (alloc_groups h4 g) as [h5 gr]. cbn [fst snd] in Hr5, Hp5.
      pose proof (repr_alloc_map _ _ _ (repr_env_singleton h5 VariableGroups _ _ Hr5)) as Hr6.
      pose proof (alloc_prefix h5 (CMap {[VariableGroups := gr]})) as Hp6.
      destruct (alloc h5 (CMap {[VariableGroups := gr]})) as [h6 gvl]. cbn [fst snd] in Hr6, Hp6.
      apply (yields_prefix _ h6); [exact (transitivity Hp (transitivity Hp2 (transitivity Hp3 (transitivity Hp4 (transitivity Hp5 Hp6)))))|].
      apply CombineVariables_yields; [|done]. eapply repr_prefix; [|exact Hr4]. by etransitivity. }
  all: assert (xs !! hostname = None) as Hnone
         by (destruct (xs !! hostname) as [y|] eqn:Ey; [destruct (Hmap _ eq_refl) as (? & ? & _ & [=])|done]);
       rewrite Hnone in E; apply (inj Some) in E; rewrite <- E; exists h2, ∅;
       (split_and!; [done|by etransitivity|apply repr_env_empty]).
Qed.

End Refines.

(** ** [Merge] on references and on values *)

Lemma ref_value_repr h o om : opt_repr h o om → ref_value h o = om.
Proof.
  destruct o as [l|], om as [m|]; try done. simpl. intros Hr. unfold ctx_value.
  by rewrite (reify_repr _ _ _ _ Hr (repr_depth _ _ _ Hr)).
Qed.

Lemma host_value_repr h hm hv : host_repr h hm hv → host_value h hm = hv.
Proof. intros [H1 H2]. unfold host_value. rewrite (ref_value_repr _ _ _ H1), (ref_value_repr _ _ _ H2). by destruct hv. Qed.

Lemma Clone_spec h o om : opt_repr h o om → h `prefix_of` (Clone h o).1 ∧ opt_repr (Clone h o).1 (Clone h o).2 om.
Proof.
  destruct o as [l|], om as [m|]; simpl; try done. intros Hr. split; [apply (alloc_prefix h)|].
  apply (repr_alloc_map h), (repr_ref_env h (Some l)), Hr.
Qed.

Lemma clone_host_spec k hm hv h :
  host_repr h hm hv → h `prefix_of` (clone_host k hm h).1 ∧ host_repr (clone_host k hm h).1 (clone_host k hm h).2 hv.
Proof.
  intros [H1 H2]. unfold clone_host. destruct (Clone_spec _ _ _ H1) as [Hp1 Hr1].
  destruct (Clone h (RemoteRef hm)) as [h1 remote]. simpl in *.
  destruct (Clone_spec h1 _ _ (opt_repr_prefix _ _ _ _ Hp1 H2)) as [Hp2 Hr2].
  destruct (Clone h1 (RuntimeRef hm)) as [h2 runtime]. simpl in *. split; [by etransitivity|].
  split; [by eapply opt_repr_prefix|done].
Qed.

Lemma DeepCopy_spec lv v :
  abs lv v → lv_heap lv `prefix_of` lv_heap (DeepCopy lv) ∧ abs (DeepCopy lv) v ∧
  lv_nodes (DeepCopy lv) = lv_nodes lv ∧ lv_source (DeepCopy lv) = lv_source lv.
Proof.
  intros [Hc Hi [Hd Hh] Hr]. unfold DeepCopy. destruct (Clone_spec _ _ _ Hr) as [Hp1 Hr1].
  destruct (Clone (lv_heap lv) (lv_result lv)) as [h1 r]. cbn [fst snd] in *.
  destruct (fold_alloc clone_host (λ h k _ hm', ∀ hv, v_hosts v !! k = Some hv → host_repr h hm' hv)
              (lv_hosts lv) h1) as (Hp2 & Hd2 & Hh2).
  { intros h2 h3 k _ hm' Hp H hv Hv. eapply host_repr_prefix; [done|]. by apply H. }
  { intros k hm h' Hk Hp. assert (is_Some (v_hosts v !! k)) as [hv Hv]
      by (apply elem_of_dom; rewrite <- Hd; by apply elem_of_dom_2 in Hk).
    destruct (clone_host_spec k hm hv h') as [H1 H2].
    { eapply host_repr_prefix; [|by apply (Hh k)]. by etransitivity. }
    split; [done|]. intros hv' Hv'. congruence. }
  destruct (map_fold _ (h1, ∅) (lv_hosts lv)) as [h2 hs]. cbn [fst snd] in *.
  split; [by etransitivity|]. split; [|done]. constructor; [done|done| |by eapply opt_repr_prefix].
  simpl. split; [by rewrite Hd2|]. intros hn hm' hv Hm' Hv.
  assert (is_Some (lv_hosts lv !! hn)) as [hm Hm] by (apply elem_of_dom; rewrite Hd; by apply elem_of_dom_2 in Hv).
  by apply (Hh2 hn hm hm').
Qed.

(** What merging runtime variables does to the values. *)
Definition runtime_host (data : gmap string value) (v : VarValue) (hn : string) : VarValue :=
  let hv := default nil_host (v_hosts v !! hn) in
  set_hosts v (<[hn := {| RemoteVars := RemoteVars hv;
                          RuntimeVars := Some (Vars.CombineVariables (mapof (RuntimeVars hv)) data) |}]> (v_hosts v)).

Definition runtime_value (data : gmap string value) (hosts : list string) (v : VarValue) : VarValue :=
  fold_left (runtime_host data) hosts v.

Lemma hosts_repr_default h hs vs hn :
  hosts_repr h hs vs → host_repr h (default zero_host (hs !! hn)) (default nil_host (vs !! hn)).
Proof.
  intros [Hd Hh]. destruct (hs !! hn) as [hm|] eqn:Em.
  - assert (is_Some (vs !! hn)) as [hv Hv] by (apply elem_of_dom; rewrite <- Hd; by apply elem_of_dom_2 in Em).
    rewrite Hv. by apply (Hh hn).
  - apply not_elem_of_dom in Em. rewrite Hd in Em. apply not_elem_of_dom in Em as ->. by split.
Qed.

Lemma hosts_repr_insert h hs vs hn hm hv :
  hosts_repr h hs vs → host_repr h hm hv → hosts_repr h (<[hn := hm]> hs) (<[hn := hv]> vs).
Proof.
  intros [Hd Hh] H. split; [by rewrite !dom_insert_L, Hd|]. intros k hm' hv'.
  destruct (decide (hn = k)) as [->|].
  - rewrite !lookup_insert_eq. by intros [= <-] [= <-].
  - rewrite !lookup_insert_ne by done. apply Hh.
Qed.

Lemma update_runtime_spec lv v d data hn :
  abs lv v → repr (lv_heap lv) (HMap d) (VMap data) →
  lv_heap lv `prefix_of` lv_heap (update_runtime d hn lv) ∧ abs (update_runtime d hn lv) (runtime_host data v hn).
Proof.
  intros [Hc Hi Hh Hr] Hd. unfold update_runtime.
  destruct (hosts_repr_default _ _ _ hn Hh) as [H1 H2].
  set (hm := default zero_host (lv_hosts lv !! hn)) in *. set (hv := default nil_host (v_hosts v !! hn)) in *.
  destruct (yields_repr _ _ _ (CombineVariables_yields (lv_heap lv) (RuntimeRef hm) (Some d) _ _ (opt_repr_ref _ _ _ H2) Hd))
    as [Hp HR].
  destruct (CombineVariables (lv_heap lv) (RuntimeRef hm) (Some d)) as [h' l]. cbn [fst snd] in *.
  split; [done|]. constructor; simpl; [done|done| |by eapply opt_repr_prefix].
  apply hosts_repr_insert; [by eapply hosts_repr_prefix|]. split; [by eapply opt_repr_prefix|done].
Qed.

Section MergeRefines.

Context (json_unmarshal : string → option (gmap string value)) (getLocalIP : string → string).
Context (tmpl_execute : gmap string value → string → result string) (ParseFloat : string → option string).
Context (Decode : Node → error + gmap string value) (source_write : string → HostVars → option error).

(** A mapping of one level of literals, or a document of one. *)
Definition literal_mapping (node : Node) : Prop :=
  ∃ tag val content kvs, literals tmpl_execute ParseFloat content kvs ∧
    (node = MkNode MappingNode tag val content ∨
     ∃ tag' val', node = MkNode DocumentNode tag' val' [MkNode MappingNode tag val content]).

(** Node [n] of the store is such a mapping, and decodes to [data]. *)
Definition literal_node (lv : Live) (n : nat) (data : gmap string value) : Prop :=
  ∃ node, lv_nodes lv !! n = Some node ∧ literal_mapping node ∧ Decode node = inr data.

Lemma literal_node_ext lv lv' n data : lv_nodes lv' = lv_nodes lv → literal_node lv n data → literal_node lv' n data.
Proof. unfold literal_node. by intros ->. Qed.

Lemma literal_node_at lv n data : literal_node lv n data → IsZero (node_at lv n) = false.
Proof.
  intros (node & Hn & (tag & val & content & kvs & _ & H) & _). unfold node_at. rewrite Hn.
  by destruct H as [->|(tag' & val' & ->)].
Qed.

(** Such a node fills what the context lacks and stays as it is. *)
Lemma parse_literals h ctx m node data :
  h !! ctx = Some (CMap m) → literal_mapping node → Decode node = inr data →
  ∃ m', parseYamlNode tmpl_execute ParseFloat Decode h ctx node = (Ok data, store_cell h ctx (CMap m'), node).
Proof.
  intros Hm (tag & val & content & kvs & Hl & H) Hd. exists (fold_left enter kvs m).
  pose proof (processNode_literals _ _ h ctx m tag val content kvs Hm Hl) as HP.
  destruct H as [->|(tag' & val' & ->)]; unfold parseYamlNode.
  - rewrite HP. cbn [rbind]. unfold decode_node. by rewrite Hd.
  - cbn [process_documents]. rewrite HP. cbn [rbind]. unfold decode_node. by rewrite Hd.
Qed.

Lemma parse_for_literals lv v n hn data :
  abs lv v → is_Some (ConvertGroup (v_inventory v)) → literal_node lv n data →
  ∃ h, parse_for json_unmarshal getLocalIP tmpl_execute ParseFloat Decode n hn lv = (Ok data, set_heap lv h) ∧
       lv_heap lv `prefix_of` h.
Proof.
  intros Ha [g Hg] (node & Hn & Hl & Hdec).
  assert (∃ all, Vars.GetAllVariable json_unmarshal getLocalIP hn v = Some all) as [all Hall].
  { unfold Vars.GetAllVariable. rewrite Hg. destruct (_ !! hn) as [[]|]; by eexists. }
  destruct (GetAllVariable_yields _ _ _ _ _ _ Ha Hall) as (h' & mv & E & Hp & _).
  unfold parse_for, node_at. rewrite E, Hn. cbn [default from_option id alloc].
  destruct (parse_literals (h' ++ [CMap mv]) (length h') mv node data) as (m' & ->);
    [by rewrite list_lookup_middle|exact Hl|exact Hdec|].
  rewrite store_last. exists (h' ++ [CMap m']). split; [|by apply prefix_app_r].
  f_equal. unfold set_nodes, set_heap. simpl. by rewrite list_insert_id.
Qed.

Lemma runtime_loop_spec n hosts data lv v :
  abs lv v → is_Some (ConvertGroup (v_inventory v)) → literal_node lv n data →
  ∃ lv', runtime_loop json_unmarshal getLocalIP tmpl_execute ParseFloat Decode n hosts lv = (Ok tt, lv') ∧
         lv_heap lv `prefix_of` lv_heap lv' ∧ lv_nodes lv' = lv_nodes lv ∧ lv_source lv' = lv_source lv ∧
         abs lv' (runtime_value data hosts v).
Proof.
  revert lv v. induction hosts as [|hn hosts IH]; intros lv v Ha Hg Hn; [by exists lv|].
  destruct (parse_for_literals lv v n hn data Ha Hg Hn) as (h & E & Hp). cbn [runtime_loop]. rewrite E.
  cbn [lv_heap set_heap]. pose proof (inject_map_yields data h) as [Hp2 Hr2]%yields_repr.
  destruct (inject_map data h) as [h2 d]. cbn [fst snd] in *.
  assert (abs (set_heap lv h2) v) as Ha2 by (apply abs_extend; [by etransitivity|done]).
  destruct (update_runtime_spec (set_heap lv h2) v d data hn Ha2 Hr2) as [Hp3 Ha3].
  change (set_heap (set_heap lv h) h2) with (set_heap lv h2). cbn [lv_heap set_heap] in Hp3.
  assert (lv_nodes (update_runtime d hn (set_heap lv h2)) = lv_nodes lv ∧
          lv_source (update_runtime d hn (set_heap lv h2)) = lv_source lv) as [EN ES].
  { unfold update_runtime. by destruct (CombineVariables _ _ _). }
  destruct (IH _ _ Ha3) as (lv' & E' & Hp' & HN' & HS' & Ha'); [exact Hg| |].
  { by apply (literal_node_ext lv). }
  exists lv'. split_and!; [exact E'| |congruence|congruence|exact Ha'].
  etransitivity; [exact Hp|]. etransitivity; [exact Hp2|]. by etransitivity.
Qed.

Lemma sync_hosts_refines newHosts nv order lv v :
  abs lv v → hosts_repr (lv_heap lv) newHosts (v_hosts nv) →
  let '(r, lv') := sync_hosts source_write newHosts order lv in
  let '(v', src', e) := Vars.sync_hosts source_write nv order v (lv_source lv) in
  abs lv' v' ∧ lv_source lv' = src' ∧ r = match e with None => Ok tt | Some e => Err e end.
Proof.
  revert lv v. induction order as [|hn order IH]; intros lv v Ha Hn; [done|].
  cbn [sync_hosts Vars.sync_hosts].
  pose proof (hosts_repr_default _ _ _ hn Hn) as Hh. rewrite (host_value_repr _ _ _ Hh).
  assert (host_value (lv_heap lv) <$> lv_hosts lv !! hn = v_hosts v !! hn) as ->.
  { destruct (abs_hosts _ _ Ha) as [Hd Hr]. destruct (lv_hosts lv !! hn) as [hm|] eqn:Em; simpl.
    - assert (is_Some (v_hosts v !! hn)) as [hv Hv] by (apply elem_of_dom; rewrite <- Hd; by apply elem_of_dom_2 in Em).
      rewrite Hv. f_equal. apply host_value_repr. by apply (Hr hn).
    - apply not_elem_of_dom in Em. rewrite Hd in Em. by apply not_elem_of_dom in Em as ->. }
  case_bool_decide; [by apply IH|].
  destruct (source_write hn (default nil_host (v_hosts nv !! hn))) as [e|]; [done|].
  apply (IH (set_source (set_live_hosts lv _) _) (set_hosts v _)); [|exact Hn].
  destruct Ha as [? ? ? ?]. constructor; try done. simpl. by apply hosts_repr_insert.
Qed.

Lemma Merge_runtime_abs lv v n hosts order data :
  abs lv v → is_Some (ConvertGroup (v_inventory v)) → literal_node lv n data →
  let '(r, lv') := LiveVars.Merge source_write
                     (MergeRuntimeVariable json_unmarshal getLocalIP tmpl_execute ParseFloat Decode n hosts) order lv in
  let '(v', src', e) := Vars.Merge source_write (λ v, Ok (runtime_value data hosts v)) order v (lv_source lv) in
  abs lv' v' ∧ lv_source lv' = src' ∧ r = match e with None => Ok tt | Some e => Err e end.
Proof.
  intros Ha Hg Hn. destruct (DeepCopy_spec lv v Ha) as (Hp & Hc & HN & HS).
  pose proof (literal_node_ext _ (DeepCopy lv) _ _ HN Hn) as Hn'.
  destruct (runtime_loop_spec n hosts data _ v Hc Hg Hn') as (nv & E & Hp' & HN' & _ & Hnv).
  unfold Merge, MergeRuntimeVariable, Vars.Merge, syncSource.
  rewrite (literal_node_at _ _ _ Hn'), E. destruct Hnv as [Hc' Hi' Hh' Hr'].
  apply (sync_hosts_refines (lv_hosts nv) (runtime_value data hosts v) order
           (set_live_result (after lv nv) (lv_result nv)) (set_result v (v_result (runtime_value data hosts v)))).
  - destruct Ha as [H1 H2 H3 H4]. constructor; simpl; [done|done| |done].
    eapply hosts_repr_prefix; [|done]. by etransitivity.
  - exact Hh'.
Qed.

(** C6: merging runtime variables that are one level of literals does on the
    heap what [Vars.Merge] does on values: every named host's runtime variables
    become the deep merge of the old ones with the new, the hosts that changed
    are written to the source, and the outcome is the same. *)
Theorem Merge_runtime_refines lv v n hosts order data :
  abs lv v → is_Some (ConvertGroup (v_inventory v)) → literal_node lv n data →
  let '(r, lv') := LiveVars.Merge source_write
                     (MergeRuntimeVariable json_unmarshal getLocalIP tmpl_execute ParseFloat Decode n hosts) order lv in
  let '(v', src', e) := Vars.Merge source_write (λ v, Ok (runtime_value data hosts v)) order v (lv_source lv) in
  abs lv' v' ∧ lv_source lv' = src' ∧ r = match e with None => Ok tt | Some e => Err e end.
Proof. apply Merge_runtime_abs. Qed.

End MergeRefines.

Lemma GetAllVariable_abs json_unmarshal getLocalIP lv v hostname all :
  abs lv v → Vars.GetAllVariable json_unmarshal getLocalIP hostname v = Some all →
  let '(h, ctx) := GetAllVariable json_unmarshal getLocalIP hostname lv in
  lv_heap lv `prefix_of` h ∧ repr h (HMap ctx) (VMap all) ∧ ctx_value h ctx = all.
Proof.
  intros Ha E. pose proof (GetAllVariable_yields _ _ _ _ _ _ Ha E) as HY.
  apply yields_repr in HY as [Hp Hr]. destruct (GetAllVariable _ _ _ _) as [h ctx].
  cbn [fst snd] in *. split_and!; [exact Hp|exact Hr|]. unfold ctx_value.
  by rewrite (reify_repr _ _ _ _ Hr (repr_depth _ _ _ Hr)).
Qed.

(** The variables a template is given are, on the heap, the variables
    [Vars.GetAllVariable] describes, and computing them changes no cell of the
    store; but what is nested in them is shared with it. *)
Theorem GetAllVariable_refines json_unmarshal getLocalIP lv v hostname all :
  abs lv v → Vars.GetAllVariable json_unmarshal getLocalIP hostname v = Some all →
  let '(h, ctx) := GetAllVariable json_unmarshal getLocalIP hostname lv in
  lv_heap lv `prefix_of` h ∧ repr h (HMap ctx) (VMap all) ∧ ctx_value h ctx = all.
Proof. apply GetAllVariable_abs. Qed.

(** ** Where sharing shows *)

(** The runtime variables of a host as they are now. *)
Definition runtime_of (lv : Live) (hn : string) : option (gmap string value) :=
  hm ← lv_hosts lv !! hn; RuntimeVars (host_value (lv_heap lv) hm).

(** Nested maps of strings are decoded, and nothing else. *)
Fixpoint decode_value (n : Node) : value :=
  match n with
  | MkNode MappingNode _ _ content =>
      VMap (list_to_map ((fix go l := match l with
                                      | k :: v :: l' => (n_value k, decode_value v) :: go l'
                                      | _ => []
                                      end) content))
  | MkNode _ _ val _ => VStr val
  end.

Definition decode_maps (n : Node) : error + gmap string value :=
  match decode_value n with VMap m => inr m | _ => inl (Msg "not a map") end.

(** An inventory of two hosts, and the nodes of the examples: a nested
    variable, another entry of it, the same with a number that cannot be read. *)
Definition two_hosts : Inventory :=
  {| inv_hosts := [("node1", ""); ("node2", "")]; inv_vars := ""; inv_groups := [] |}.

Definition example_nodes : list Node :=
  [ map_node [("app", map_node [("port", str_node "80")])];
    map_node [("app", map_node [("name", str_node "web")])];
    map_node [("app", map_node [("name", str_node "web")]); ("n", int_node "0x10")];
    map_node [("port", str_node "80")] ].

Definition example_store : Live :=
  {| lv_heap := []; lv_nodes := example_nodes; lv_config := ""; lv_inventory := two_hosts;
     lv_hosts := {["node1" := zero_host; "node2" := zero_host]}; lv_result := None; lv_source := ∅ |}.

Definition example_merge (n : nat) (hosts : list string) (lv : Live) : result unit * Live :=
  Merge (λ _ _, None)
    (MergeRuntimeVariable (λ _, None) (λ _, "") (λ _ _, Err (Msg "no template")) (λ _, None) decode_maps n hosts)
    ["node1"; "node2"] lv.

Definition example_add_hostvars (n : nat) (hostname : string) (hosts : list string) (lv : Live) : result unit * Live :=
  Merge (λ _ _, None)
    (MergeHostsRuntimeVariable (λ _, None) (λ _, "") (λ _ _, Err (Msg "no template")) (λ _, None) decode_maps
       n hostname hosts)
    ["node1"; "node2"] lv.

Definition app (l : list (string * value)) : gmap string value := {["app" := VMap (list_to_map l)]}.

(** An entry added to a nested variable that exists is in memory and is
    never written to the source: the walk over the node has already put it
    into the map the store shares, and the comparison finds no change.  When
    the merge fails, the entry stays in memory all the same. *)
Theorem nested_update_not_written :
  let lv1 := (example_merge 0 ["node1"] example_store).2 in
  let good := example_merge 1 ["node1"] lv1 in
  let bad := example_merge 2 ["node1"] lv1 in
  (runtime_of lv1 "node1" = Some (app [("port", VStr "80")]) ∧
   (lv_source lv1 !! "node1" ≫= RuntimeVars) = Some (app [("port", VStr "80")])) ∧
  (is_ok good.1 = true ∧
   runtime_of good.2 "node1" = Some (app [("port", VStr "80"); ("name", VStr "web")]) ∧
   lv_source good.2 = lv_source lv1) ∧
  (is_ok bad.1 = false ∧
   runtime_of bad.2 "node1" = Some (app [("port", VStr "80"); ("name", VStr "web")]) ∧
   lv_source bad.2 = lv_source lv1).
Proof. split_and!; by_decision. Qed.

(** Variables given to several hosts at once stay shared: an entry that is
    later set for one of them appears on the others, too. *)
Theorem add_hostvars_shares :
  let lv1 := (example_add_hostvars 0 "node1" ["node1"; "node2"] example_store).2 in
  let set_one := example_merge 1 ["node1"] lv1 in
  is_ok set_one.1 = true ∧
  runtime_of lv1 "node2" = Some (app [("port", VStr "80")]) ∧
  runtime_of set_one.2 "node2" = Some (app [("port", VStr "80"); ("name", VStr "web")]).
Proof. split_and!; by_decision. Qed.

Definition example_value : VarValue :=
  {| v_config := ""; v_inventory := two_hosts;
     v_hosts := {["node1" := nil_host; "node2" := nil_host]}; v_result := None |}.

Lemma example_abs : abs example_store example_value.
Proof.
  constructor; [done|done| |done]. split; [done|]. intros hn hm hv. cbn [lv_hosts example_store v_hosts example_value].
  destruct (decide (hn = "node1")) as [->|]; [by intros [= <-] [= <-]|].
  destruct (decide (hn = "node2")) as [->|]; [by intros [= <-] [= <-]|].
  by rewrite lookup_insert_ne, lookup_singleton_ne by done.
Qed.

Lemma is_Some_groups inv : match ConvertGroup inv with Some _ => true | None => false end = true → is_Some (ConvertGroup inv).
Proof. destruct (ConvertGroup inv); [by eexists|done]. Qed.

Lemma GetAllVariable_refines_witness :
  ∃ all, ctx_value (GetAllVariable (λ _, None) (λ _, "") "node1" example_store).1
                   (GetAllVariable (λ _, None) (λ _, "") "node1" example_store).2 = all ∧
         all !! "inventory_hostname" = Some (VStr "node1").
Proof.
  eexists. split; [|shelve].
  pose proof (GetAllVariable_refines (λ _, None) (λ _, "") example_store example_value "node1") as H.
  specialize (H _ example_abs eq_refl).
  destruct (GetAllVariable (λ _, None) (λ _, "") "node1" example_store) as [h ctx]. apply H.
  Unshelve. vm_compute. reflexivity.
Defined.

Lemma Merge_runtime_refines_witness :
  ∃ r lv', example_merge 3 ["node1"] example_store = (r, lv') ∧ r = Ok tt ∧
           abs lv' (runtime_value {["port" := VStr "80"]} ["node1"] example_value).
Proof.
  pose proof (Merge_runtime_refines (λ _, None) (λ _, "") (λ _ _, Err (Msg "no template")) (λ _, None)
                decode_maps (λ _ _, None) example_store example_value 3 ["node1"] ["node1"; "node2"]
                {["port" := VStr "80"]} example_abs) as H.
  unfold example_merge. destruct (Merge _ _ _ example_store) as [r lv'].
  exists r, lv'. split; [reflexivity|].
  destruct H as (Ha & _ & Hr).
  - apply (is_Some_groups two_hosts). reflexivity.
  - exists (map_node [("port", str_node "80")]). split; [reflexivity|]. split; [|reflexivity].
    exists "!!map", "", [str_node "port"; str_node "80"], [("port", HStr "80")].
    split; [|left; reflexivity]. constructor; [reflexivity| |constructor]. split; [reflexivity|].
    intros h ctx. reflexivity.
  - split; [exact Hr|exact Ha].
Defined.
