(* ===== verification/TaskExec.v ===== *)
(** * The task executor: [src/feature/pkg/executor/task_executor.go] and
      [src/feature/api/core/v1alpha1/task_types.go]

    A task runs its module on every host in parallel, decides its phase from
    the host results and is retried while it fails. *)

From S2P Require Import Prelude GoStrings Values Prog Tmpl.
From stdpp Require Import gmap strings list sets.
From Stdlib Require Import String.

(** ** Tasks *)

Inductive TaskPhase :=
| TaskPhaseNone      (* the empty string of a new object *)
| TaskPhasePending
| TaskPhaseRunning
| TaskPhaseSuccess
| TaskPhaseFailed
| TaskPhaseIgnored.

#[export] Instance TaskPhase_eq_dec : EqDecision TaskPhase.
Proof. solve_decision. Defined.

Record TaskSpec := {
  Name : string;
  Hosts : list string;
  DelegateTo : string;
  IgnoreError : option bool;
  Retries : Z;
  When : list string;
  FailedWhen : list string;
  Loop : option string;            (* raw JSON; None: not set *)
  ModuleName : string;
  ModuleArgs : string;             (* raw JSON *)
  Register : string;
  RegisterType : string;
}.

Record TaskHostResult := { Host : string; Stdout : string; StdErr : string }.

Record TaskStatus := {
  RestartCount : Z;
  Phase : TaskPhase;
  HostResults : list TaskHostResult;
}.

Record Task := { Spec : TaskSpec; Status : TaskStatus }.

Definition with_status (t : Task) (s : TaskStatus) : Task := {| Spec := Spec t; Status := s |}.

Definition IsSucceed (t : Task) : bool :=
  bool_decide (Phase (Status t) = TaskPhaseSuccess) || bool_decide (Phase (Status t) = TaskPhaseIgnored).

Definition IsFailed (t : Task) : bool :=
  bool_decide (Phase (Status t) = TaskPhaseFailed) &&
  bool_decide (Retries (Spec t) ≤ RestartCount (Status t))%Z.

Definition IsComplete (t : Task) : bool := IsSucceed t || IsFailed t.

(** [*e.task.Spec.IgnoreError] when it is set. *)
Definition ignores (s : TaskSpec) : bool := default false (IgnoreError s).

(** ** What the executor uses of the other components *)

(** The variable store behind its interface. *)
Class VarStore (V Node : Type) := {
  vs_all : string → V → result value;                            (* Get(GetAllVariable(host)) *)
  vs_merge_runtime : Node → list string → V → V * result unit;   (* Merge(MergeRuntimeVariable(node, hosts...)) *)
  vs_hostnames : list string → V → result (list string);         (* Get(GetHostnames(names)) *)
  vs_max_len : V → nat;                                          (* Get(GetHostMaxLength()) *)
  vs_result : V → value;                                         (* Get(GetResultVariable()) *)
}.

(** The playbook's counters. *)
Record Statistics := { Total : Z; Success : Z; Ignored : Z; Failed : Z }.

(** What an execution changes: the variables, the counters, the tasks that
    were created (with their last status), and how many client calls and host
    pools there have been. *)
Record World (V : Type) := {
  w_vars : V;
  w_stats : Statistics;
  w_tasks : list Task;
  w_calls : nat;
  w_pools : nat;
}.
Arguments w_vars {V} w.
Arguments w_stats {V} w.
Arguments w_tasks {V} w.
Arguments w_calls {V} w.
Arguments w_pools {V} w.

Fixpoint error_text (e : error) : string :=
  match e with
  | Msg t => t
  | Wrap t c => t +:+ ": " +:+ error_text c
  | Joined l => StrJoin (map error_text l) (String (Ascii.Ascii false true false true false false false false) "")
  end.

Definition VariableItem : string := "item".
Definition StdoutSkip : string := "skip".

(** [stdout, stderr] *)
Notation output := (string * string)%type.

(** Libraries: the template engine, the YAML and JSON decoders,
    [strconv.Unquote]. *)
Class Libraries := {
  tmpl_execute : gmap string value → string → result string;
  unmarshal_slice : string → option (list value);
  Unquote : string → option string;
  decode_json : string → option value;
  decode_yaml : string → option value;
}.

(** What a module ends with: its output, or a panic. *)
Notation module_end := (string + output)%type.

(** The rest of the process: the encoder of a map into a YAML node, the
    registry of modules (what a module does with the store is any program of
    atomic steps), the answer of the n-th call of the API server's client, and
    the schedule of the n-th pool of goroutines. *)
Class Engine (V Node : Type) := {
  ConvertMap2Node : gmap string value → error + Node;
  FindModule : string → option (TaskSpec → string → prog V module_end);
  api : nat → option error;
  schedule : nat → list nat;
}.

Section TaskExec.
Context {V Node : Type} {VS : VarStore V Node} {LB : Libraries} {EN : Engine V Node}.

Definition get_all (h : string) : prog V (result value) := atomic (λ v, (v, vs_all h v)).
Definition merge_runtime (n : Node) (hs : list string) : prog V (result unit) :=
  atomic (λ v, vs_merge_runtime n hs v).

(** ** One host *)

(** [dealWhen]: [Some out] when the task is skipped. *)
Definition dealWhen (s : TaskSpec) (had : gmap string value) (out : output) : result (option output) :=
  if nonempty (When s) then
    match ParseBool tmpl_execute had (When s) with
    | Err e => Ok (Some (out.1, "parse when condition error: " +:+ error_text e))
    | Ok false => Ok (Some (StdoutSkip, out.2))
    | Ok true => Ok None
    | Panic w => Panic w
    end
  else Ok None.

Definition dealFailedWhen (s : TaskSpec) (had : gmap string value) (out : output) : result output :=
  if nonempty (FailedWhen s) then
    match ParseBool tmpl_execute had (FailedWhen s) with
    | Err e => Ok (out.1, "parse failed_when condition error: " +:+ error_text e)
    | Ok true => Ok (out.1, "reach failed_when, failed")
    | Ok false => Ok out
    | Panic w => Panic w
    end
  else Ok out.

(** What follows the module; its panic passes. *)
Definition end_module (s : TaskSpec) (had : gmap string value) (o : module_end) : result output :=
  match o with inr out => dealFailedWhen s had out | inl w => Panic w end.

(** [variable.Extension2String] and [variable.Extension2Slice] *)
Definition Extension2String (ctx : gmap string value) (raw : string) : result string :=
  Parse tmpl_execute ctx (default raw (Unquote raw)).

Definition Extension2Slice (ctx : gmap string value) (raw : string) : list value :=
  if bool_decide (raw = "") then []
  else match unmarshal_slice raw with
       | Some data => data
       | None =>
           let val := match Extension2String ctx raw with Ok s => s | _ => "" end in
           match unmarshal_slice val with
           | Some data => data
           | None => [VBytes val]
           end
       end.

(** [dealLoop]: without a loop the module runs once, with the item nil. *)
Definition dealLoop (s : TaskSpec) (had : gmap string value) : list value :=
  match Loop s with
  | None => [VNil]
  | Some raw => Extension2Slice had raw
  end.

(** The merge of [item] into the host's variables; the message is the
    caller's. *)
Definition set_item (item : value) (host : string) (what : string) (out : output)
    : prog V (result (output * bool)) :=
  match ConvertMap2Node {[VariableItem := item]} with
  | inr node =>
      do! r <- merge_runtime node [host] in
      PRet (match r with
            | Ok _ => Ok (out, true)
            | Err e => Ok ((out.1, what +:+ error_text e), false)
            | Panic w => Panic w
            end)
  | inl e => PRet (Ok ((out.1, "convert loop item error: " +:+ error_text e), false))
  end.

(** The part of [executeModule] between setting and cleaning the item. *)
Definition module_body (s : TaskSpec) (host : string) (out : output) : prog V (result output) :=
  do! ha <- get_all host in
  match ha with
  | Err e => PRet (Ok (out.1, "failed to get host " +:+ host +:+ " variable: " +:+ error_text e))
  | Panic w => PRet (Panic w)
  | Ok (VMap had) =>
      match FindModule (ModuleName s) with
      | None => PRet (Panic "invalid memory address or nil pointer dereference")
      | Some exec => do! o <- exec s host in PRet (end_module s had o)
      end
  | Ok _ => PRet (Ok (out.1, "host: " +:+ host +:+ " variable is not a map"))
  end.

Definition executeModule (s : TaskSpec) (item : value) (host : string) (out : output)
    : prog V (result output) :=
  match item with
  | VNil => module_body s host out
  | _ =>
      do! set <- set_item item host "set loop item to variable error: " out in
      match set with
      | Ok (out1, false) => PRet (Ok out1)
      | Ok (out1, true) =>
          do! r <- module_body s host out1 in
          match r with
          | Ok out2 =>
              do! cleaned <- set_item VNil host "clean loop item to variable error: " out2 in
              PRet (rmap fst cleaned)
          | Err e => PRet (Err e)
          | Panic w => PRet (Panic w)
          end
      | Err e => PRet (Err e)
      | Panic w => PRet (Panic w)
      end
  end.

Fixpoint exec_items (s : TaskSpec) (items : list value) (host : string) (out : output)
    : prog V (result output) :=
  match items with
  | [] => PRet (Ok out)
  | item :: rest =>
      do! r <- executeModule s item host out in
      match r with
      | Ok out' => exec_items s rest host out'
      | Err e => PRet (Err e)
      | Panic w => PRet (Panic w)
      end
  end.

(** [dealRegister] *)
Definition dealRegister (s : TaskSpec) (out : output) (host : string) : prog V (result unit) :=
  if bool_decide (Register s = "") then PRet (Ok tt)
  else
    let stdoutResult :=
      if bool_decide (RegisterType s = "json") then default (VStr out.1) (decode_json out.1)
      else if bool_decide (RegisterType s = "yaml" ∨ RegisterType s = "yml")
      then default (VStr out.1) (decode_yaml out.1)
      else VStr out.1 in
    match ConvertMap2Node {[Register s := VMap {["stdout" := stdoutResult; "stderr" := VStr out.2]}]} with
    | inr node => merge_runtime node [host]
    | inl e => PRet (Err e)
    end.

(** The deferred function of [execTaskHost]: register, then fill the slot. *)
Definition host_result (s : TaskSpec) (host : string) (out : output) : prog V (result TaskHostResult) :=
  do! r <- dealRegister s out host in
  PRet (match r with
        | Ok _ => Ok {| Host := host; Stdout := out.1; StdErr := out.2 |}
        | Err e => Ok {| Host := host; Stdout := out.1; StdErr := error_text e |}
        | Panic w => Panic w
        end).

(** [execTaskHost]: [execTaskHostLogs] first pads the host name to the longest
    name of the store with [strings.Repeat], which panics on a negative
    count. *)
Definition execTaskHost (s : TaskSpec) (host : string) : prog V (result TaskHostResult) :=
  do! maxlen <- atomic (λ v, (v, vs_max_len v)) in
  if bool_decide (maxlen < String.length host) then PRet (Panic "strings: negative Repeat count")
  else
    do! ha <- get_all host in
    match ha with
    | Err e => host_result s host ("", "failed to get host " +:+ host +:+ " variable: " +:+ error_text e)
    | Panic w => PRet (Panic w)
    | Ok val =>
        let '(had, stderr0) := match val with
                               | VMap m => (m, "")
                               | _ => (∅, "host: " +:+ host +:+ " variable is not a map")
                               end in
        match dealWhen s had ("", stderr0) with
        | Panic w => PRet (Panic w)
        | Err e => PRet (Err e)
        | Ok (Some out) => host_result s host out
        | Ok None =>
            do! r <- exec_items s (dealLoop s had) host ("", stderr0) in
            match r with
            | Ok out => host_result s host out
            | Err e => PRet (Err e)
            | Panic w => PRet (Panic w)
            end
        end
    end.

(** ** One run on all hosts *)

Fixpoint all_ok {A : Type} (rs : list (result A)) : result (list A) :=
  match rs with
  | [] => Ok []
  | r :: rest => let! a := r in let! l := all_ok rest in Ok (a :: l)
  end.

(** The phase [execTask] derives: the first host with an error decides. *)
Fixpoint phase_of (s : TaskSpec) (rs : list TaskHostResult) : TaskPhase :=
  match rs with
  | [] => TaskPhaseSuccess
  | r :: rest =>
      if bool_decide (StdErr r = "") then phase_of s rest
      else if ignores s then TaskPhaseIgnored else TaskPhaseFailed
  end.

Definition with_vars (w : World V) (v : V) : World V :=
  {| w_vars := v; w_stats := w_stats w; w_tasks := w_tasks w; w_calls := w_calls w; w_pools := w_pools w |}.

Definition execTask (t : Task) (w : World V) : result Task * World V :=
  let '(v', rs) := run_pool (schedule (w_pools w)) (map (execTaskHost (Spec t)) (Hosts (Spec t))) (w_vars w) in
  let w' := {| w_vars := v'; w_stats := w_stats w; w_tasks := w_tasks w;
               w_calls := w_calls w; w_pools := S (w_pools w) |} in
  (let! results := all_ok rs in
   Ok (with_status t {| RestartCount := RestartCount (Status t);
                        Phase := phase_of (Spec t) results;
                        HostResults := results |}), w').

(** ** Retries *)

(** [e.client.Create], [e.client.Status().Patch], [SetControllerReference]: a
    call that may fail. *)
Definition client_call (w : World V) : result unit * World V :=
  (match api (w_calls w) with None => Ok tt | Some e => Err e end,
   {| w_vars := w_vars w; w_stats := w_stats w; w_tasks := w_tasks w;
      w_calls := S (w_calls w); w_pools := w_pools w |}).

(** The status the loop writes before a run. *)
Definition running (t : Task) : Task :=
  with_status t
    {| RestartCount := if bool_decide (Phase (Status t) = TaskPhaseFailed)
                       then RestartCount (Status t) + 1 else RestartCount (Status t);
       Phase := TaskPhaseRunning; HostResults := HostResults (Status t) |}.

(** [runTaskLoop]; [None]: still looping after [fuel] turns. *)
Fixpoint runTaskLoop (fuel : nat) (t : Task) (w : World V) : option (result unit * Task * World V) :=
  match fuel with
  | O => None
  | S fuel' =>
      if IsComplete t then Some (Ok tt, t, w)
      else
        let t1 := running t in
        match client_call w with
        | (Ok _, w1) =>
            match execTask t1 w1 with
            | (Ok t2, w2) =>
                match client_call w2 with
                | (Ok _, w3) => runTaskLoop fuel' t2 w3
                | (Err e, w3) => Some (Err (Wrap "failed to patch task status" e), t2, w3)
                | (Panic p, w3) => Some (Panic p, t2, w3)
                end
            | (Err e, w2) => Some (Err e, t1, w2)
            | (Panic p, w2) => Some (Panic p, t1, w2)
            end
        | (Err e, w1) => Some (Err (Wrap "failed to patch task status" e), t1, w1)
        | (Panic p, w1) => Some (Panic p, t1, w1)
        end
  end.

(** Enough turns: one run per retry and one more, and the last test. *)
Definition loop_fuel (t : Task) : nat := S (S (Z.to_nat (Retries (Spec t) - RestartCount (Status t)))).

(** The deferred update of the playbook's counters. *)
Definition count_task (t : Task) (st : Statistics) : Statistics :=
  {| Total := Total st + 1;
     Success := if bool_decide (Phase (Status t) = TaskPhaseSuccess) then Success st + 1 else Success st;
     Ignored := if bool_decide (Phase (Status t) = TaskPhaseIgnored) then Ignored st + 1 else Ignored st;
     Failed := if bool_decide (Phase (Status t) = TaskPhaseFailed) then Failed st + 1 else Failed st |}%Z.

Definition finish_task (t : Task) (w : World V) : World V :=
  {| w_vars := w_vars w; w_stats := count_task t (w_stats w); w_tasks := w_tasks w ++ [t];
     w_calls := w_calls w; w_pools := w_pools w |}.

(** The message of a failed task; the namespaced name of its object is left
    out. *)
Definition newline : string := String (Ascii.Ascii false true false true false false false false) "".

Definition failed_message (t : Task) : string :=
  "task [" +:+ Name (Spec t) +:+ "] run failed: " +:+
  fold_left (λ msg r, if bool_decide (StdErr r = "") then msg
                      else msg +:+ "[" +:+ Host r +:+ "]: " +:+ StdErr r +:+ newline)
            (HostResults (Status t)) newline.

(** [taskExecutor.Exec] *)
Definition Exec_task (t : Task) (w : World V) : result unit * World V :=
  match client_call w with
  | (Ok _, w1) =>
      match runTaskLoop (loop_fuel t) t w1 with
      | Some (r, t', w2) =>
          (let! _ := r in
           if IsFailed t' then Err (Msg (failed_message t')) else Ok tt,
           finish_task t' w2)
      | None => (Panic "unreachable: the loop has ended by then", w1)
      end
  | (Err e, w1) => (Err (Wrap "failed to create task" e), w1)
  | (Panic p, w1) => (Panic p, w1)
  end.

#[local] Arguments client_call : simpl never.
#[local] Arguments execTask : simpl never.

(** ** Host results *)

(** A goroutine ends with a value or panics: errors are texts of the
    result. *)
Definition no_err {A : Type} (P : A → Prop) (r : result A) : Prop :=
  match r with Ok a => P a | Err _ => False | Panic _ => True end.

Lemma psafe_result_bind {A B} (Q : result A → Prop) (R : result B → Prop)
    (p : prog V (result A)) (k : result A → prog V (result B)) :
  psafe (λ _, True) Q p → (∀ r, Q r → psafe (λ _, True) R (k r)) → psafe (λ _, True) R (pbind p k).
Proof. apply psafe_bind. Qed.

Lemma dealWhen_no_err s had out : no_err (λ _, True) (dealWhen s had out).
Proof. unfold dealWhen. destruct (nonempty _); [|done]. by destruct (ParseBool _ _ _) as [[]|e|w]. Qed.

Lemma dealFailedWhen_no_err s had out : no_err (λ _, True) (dealFailedWhen s had out).
Proof. unfold dealFailedWhen. destruct (nonempty _); [|done]. by destruct (ParseBool _ _ _) as [[]|e|w]. Qed.

Lemma module_body_no_err s host out : psafe (λ _, True) (no_err (λ _, True)) (module_body s host out).
Proof.
  apply psafe_bind_true. intros [[]|e|w]; try done.
  destruct (FindModule _); [|done]. apply psafe_bind_true. intros [w|o]; [done|apply dealFailedWhen_no_err].
Qed.

Lemma set_item_no_err item host what out : psafe (λ _, True) (no_err (λ _, True)) (set_item item host what out).
Proof. unfold set_item. destruct (ConvertMap2Node _); [done|]. apply psafe_bind_true. by intros [[]|e|w]. Qed.

Lemma executeModule_no_err s item host out :
  psafe (λ _, True) (no_err (λ _, True)) (executeModule s item host out).
Proof.
  unfold executeModule. destruct item; [apply module_body_no_err|..];
    (eapply psafe_bind; [apply set_item_no_err|]; intros [[out1 []]|e|w]; [intros _|done..];
     eapply psafe_bind; [apply module_body_no_err|]; intros [out2|e|w]; [|done..]; intros _;
     eapply psafe_bind; [apply set_item_no_err|]; by intros [[]|e|w]).
Qed.

Lemma exec_items_no_err s items host out :
  psafe (λ _, True) (no_err (λ _, True)) (exec_items s items host out).
Proof.
  revert out. induction items as [|item items IH]; intros out; [done|].
  eapply psafe_bind; [apply executeModule_no_err|]. intros [out'|e|w]; [|done..]. intros _. apply IH.
Qed.

Lemma execTaskHost_host s host :
  psafe (λ _, True) (no_err (λ hr, Host hr = host)) (execTaskHost s host).
Proof.
  assert (∀ out, psafe (λ _, True) (no_err (λ hr, Host hr = host)) (host_result s host out)) as HH.
  { intros out. apply psafe_bind_true. by intros [[]|e|w]. }
  apply psafe_bind_true. intros maxlen. case_bool_decide; [done|].
  apply psafe_bind_true. intros [val|e|w]; [|apply HH|done].
  destruct (match val with VMap m => _ | _ => _ end) as [had stderr0].
  pose proof (dealWhen_no_err s had ("", stderr0)) as HW.
  destruct (dealWhen _ _ _) as [[out|]|e|w]; [apply HH| |done|done].
  eapply psafe_bind; [apply exec_items_no_err|]. intros [out|e|w]; [intros _; apply HH|done|done].
Qed.

Lemma all_ok_Forall2 {A B} (R : B → A → Prop) (rs : list (result A)) bs :
  Forall2 (λ b r, no_err (R b) r) bs rs → no_err (Forall2 R bs) (all_ok rs).
Proof.
  intros H. induction H as [|b r bs rs Hb _ IH]; simpl; [done|].
  destruct r as [a|e|w]; simpl in *; [|done..].
  destruct (all_ok rs) as [l|e|w]; simpl in *; [by constructor|done..].
Qed.

(** One pool: the results are the hosts' in their order, the phase is derived
    from them, and nothing else of the task changes. *)
Lemma execTask_no_err t w :
  no_err (λ t', Spec t' = Spec t ∧ RestartCount (Status t') = RestartCount (Status t) ∧
                Phase (Status t') = phase_of (Spec t) (HostResults (Status t')) ∧
                map Host (HostResults (Status t')) = Hosts (Spec t)) (execTask t w).1.
Proof.
  unfold execTask.
  destruct (run_pool_safe (λ _, True) (map (λ h, no_err (λ hr, Host hr = h)) (Hosts (Spec t)))
              (schedule (w_pools w)) (map (execTaskHost (Spec t)) (Hosts (Spec t))) (w_vars w)) as [_ H]; [|done|].
  { apply Forall2_fmap_2, Forall_Forall2_diag, list.Forall_forall. intros h _. apply execTaskHost_host. }
  destruct (run_pool _ _ _) as [v' rs]. simpl in *.
  apply Forall2_fmap_l, (all_ok_Forall2 (λ h hr, Host hr = h)) in H.
  destruct (all_ok rs) as [results|e|q]; simpl in *; [|done..]. repeat split; try done.
  clear -H. revert H. generalize (Hosts (Spec t)). intros l H. induction H; simpl; congruence.
Qed.

Lemma execTask_ok t w t' w' :
  execTask t w = (Ok t', w') →
  Spec t' = Spec t ∧ RestartCount (Status t') = RestartCount (Status t) ∧
  Phase (Status t') = phase_of (Spec t) (HostResults (Status t')) ∧
  map Host (HostResults (Status t')) = Hosts (Spec t).
Proof. intros E. pose proof (execTask_no_err t w) as H. by rewrite E in H. Qed.

Lemma execTask_pools t w r w' :
  execTask t w = (r, w') → w_pools w' = S (w_pools w) ∧ w_stats w' = w_stats w ∧ w_tasks w' = w_tasks w.
Proof. unfold execTask. destruct (run_pool _ _ _). by intros [= _ <-]. Qed.

Lemma phase_of_cases s rs :
  (phase_of s rs = TaskPhaseSuccess ↔ Forall (λ r, StdErr r = "") rs) ∧
  (phase_of s rs = TaskPhaseFailed ↔ ignores s = false ∧ Exists (λ r, StdErr r ≠ "") rs) ∧
  (phase_of s rs = TaskPhaseIgnored ↔ ignores s = true ∧ Exists (λ r, StdErr r ≠ "") rs).
Proof.
  induction rs as [|r rs IH]; simpl.
  - rewrite !Exists_nil. naive_solver.
  - rewrite Forall_cons, !Exists_cons. case_bool_decide; [naive_solver|].
    destruct (ignores s); naive_solver.
Qed.

Lemma complete_unless_failed t w t' w' :
  execTask t w = (Ok t', w') → Phase (Status t') ≠ TaskPhaseFailed → IsComplete t' = true.
Proof.
  intros EX HP. destruct (execTask_ok _ _ _ _ EX) as (_ & _ & EP & _).
  unfold IsComplete, IsSucceed. rewrite EP in *. clear -HP.
  induction (HostResults (Status t')) as [|r l IH]; simpl in *; [done|].
  destruct (bool_decide (StdErr r = "")); [auto|]. destruct (ignores _); [done|by destruct HP].
Qed.

(** ** The retry loop *)

(** The restart counter after the next [running]. *)
Definition next_count (t : Task) : Z :=
  if bool_decide (Phase (Status t) = TaskPhaseFailed)
  then RestartCount (Status t) + 1 else RestartCount (Status t).

Lemma runTaskLoop_terminates fuel t w :
  (if bool_decide (Phase (Status t) = TaskPhaseFailed)
   then S (Z.to_nat (Retries (Spec t) - RestartCount (Status t)))
   else S (S (Z.to_nat (Retries (Spec t) - RestartCount (Status t)))))%nat ≤ fuel →
  is_Some (runTaskLoop fuel t w).
Proof.
  revert t w. induction fuel as [|fuel IH]; intros t w Hf; [by case_bool_decide; lia|].
  cbn [runTaskLoop]. destruct (IsComplete t) eqn:EC; [by eexists|]. cbv zeta.
  destruct (client_call w) as [[[]|e|p] w1]; [|simpl; eauto..].
  destruct (execTask (running t) w1) as [[t2|e|p] w2] eqn:EX; [|simpl; eauto..].
  destruct (client_call w2) as [[[]|e|p] w3]; [|simpl; eauto..].
  destruct (execTask_ok _ _ _ _ EX) as (ES & ER & _ & _). simpl in ES, ER.
  assert (match bool_decide (Phase (Status t) = TaskPhaseFailed) with
          | true => RestartCount (Status t) < Retries (Spec t)
          | false => True
          end)%Z as HR.
  { unfold IsComplete, IsFailed in EC. apply orb_false_iff in EC as [_ EC].
    case_bool_decide; simpl in EC; [|done]. apply bool_decide_eq_false in EC. lia. }
  destruct (bool_decide (Phase (Status t2) = TaskPhaseFailed)) eqn:EP2.
  - apply IH. rewrite EP2, ES, ER. destruct (bool_decide (Phase (Status t) = _)); lia.
  - destruct fuel as [|fuel]; [destruct (bool_decide (Phase (Status t) = _)); lia|].
    cbn [runTaskLoop]. rewrite (complete_unless_failed _ _ _ _ EX); [by eexists|].
    by apply bool_decide_eq_false in EP2.
Qed.

(** What a turn of the loop that runs the task does, whatever the API answers. *)
Lemma runTaskLoop_turn fuel t w o :
  IsComplete t = false → runTaskLoop (S fuel) t w = Some o →
  ∃ t1 w1, Spec t1 = Spec t ∧ w_stats w1 = w_stats w ∧ w_tasks w1 = w_tasks w ∧
    ((w_pools w1 ≤ S (w_pools w) ∧ o.1.1 ≠ Ok tt ∧ o = (o.1.1, t1, w1)) ∨
     (w_pools w1 = S (w_pools w) ∧ RestartCount (Status t1) = next_count t ∧
      Phase (Status t1) = phase_of (Spec t) (HostResults (Status t1)) ∧
      map Host (HostResults (Status t1)) = Hosts (Spec t) ∧
      (Phase (Status t1) ≠ TaskPhaseFailed → IsComplete t1 = true) ∧
      runTaskLoop fuel t1 w1 = Some o)).
Proof.
  assert (∀ w r w', client_call w = (r, w') →
            w_pools w' = w_pools w ∧ w_stats w' = w_stats w ∧ w_tasks w' = w_tasks w) as HC.
  { intros w0 r w0' [= _ <-]. done. }
  intros EC. cbn [runTaskLoop]. rewrite EC. cbv zeta.
  destruct (client_call w) as [r1 w1] eqn:E1. destruct (HC _ _ _ E1) as (H1 & H2 & H3).
  destruct r1 as [[]|e|q];
    [|intros [= <-]; exists (running t), w1; simpl; repeat split; [done..|left; repeat split; solve [done|lia]]..].
  destruct (execTask (running t) w1) as [r2 w2] eqn:E2. destruct (execTask_pools _ _ _ _ E2) as (H4 & H5 & H6).
  destruct r2 as [t2|e|q];
    [|intros [= <-]; exists (running t), w2; simpl; repeat split; [congruence..|left; repeat split; solve [done|lia]]..].
  destruct (client_call w2) as [r3 w3] eqn:E3. destruct (HC _ _ _ E3) as (H7 & H8 & H9).
  destruct (execTask_ok _ _ _ _ E2) as (E4 & E5 & E6 & E7).
  change (Spec (running t)) with (Spec t) in E4, E6, E7.
  destruct r3 as [[]|e|q];
    [|intros [= <-]; exists t2, w3; simpl; repeat split; [congruence..|left; repeat split; solve [done|lia]]..].
  intros Hr. exists t2, w3. repeat split; [congruence..|]. right.
  repeat split; [congruence|done|done|done| |done]. by eapply complete_unless_failed.
Qed.

(** However the loop ends, it has kept the specification and the counters and
    has started at most one pool per retry that was left, and one more. *)
Lemma runTaskLoop_bound fuel t w r t' w' :
  runTaskLoop fuel t w = Some (r, t', w') →
  Spec t' = Spec t ∧ w_stats w' = w_stats w ∧ w_tasks w' = w_tasks w ∧
  (Z.of_nat (w_pools w') ≤ Z.of_nat (w_pools w) + 1 + Z.max 0 (Retries (Spec t) - next_count t))%Z.
Proof.
  revert t w. induction fuel as [|fuel IH]; intros t w H; [done|].
  destruct (IsComplete t) eqn:EC.
  { cbn [runTaskLoop] in H. rewrite EC in H. injection H as <- <- <-. repeat split. lia. }
  destruct (runTaskLoop_turn _ _ _ _ EC H) as (t1 & w1 & H1 & H2 & H3 & [(H4 & _ & [= <- <-])|(H4 & H5 & _ & _ & H6 & H7)]).
  { repeat split; [congruence..|lia]. }
  destruct (IsComplete t1) eqn:EC1.
  { destruct fuel; [done|]. cbn [runTaskLoop] in H7. rewrite EC1 in H7. injection H7 as <- <- <-.
    repeat split; [congruence..|lia]. }
  destruct (IH _ _ H7) as (H8 & H9 & H10 & H11). repeat split; [congruence..|].
  assert (Phase (Status t1) = TaskPhaseFailed) as EP.
  { destruct (decide (Phase (Status t1) = TaskPhaseFailed)) as [|n]; [done|]. apply H6 in n. congruence. }
  unfold next_count in H11 at 1. rewrite EP in H11. simpl in H11.
  unfold IsComplete, IsFailed in EC1. rewrite EP, H1 in EC1. apply orb_false_iff in EC1 as [_ EC1].
  simpl in EC1. apply bool_decide_eq_false in EC1. rewrite H1 in H11. lia.
Qed.

(** When the loop ends without an error after running the task. *)
Lemma runTaskLoop_done fuel t w t' w' :
  IsComplete t = false → runTaskLoop fuel t w = Some (Ok tt, t', w') →
  IsComplete t' = true ∧ Phase (Status t') = phase_of (Spec t) (HostResults (Status t')) ∧
  map Host (HostResults (Status t')) = Hosts (Spec t) ∧
  (Z.of_nat (w_pools w') + next_count t = Z.of_nat (w_pools w) + 1 + RestartCount (Status t'))%Z ∧
  (next_count t ≤ RestartCount (Status t'))%Z.
Proof.
  revert t w. induction fuel as [|fuel IH]; intros t w EC H; [done|].
  destruct (runTaskLoop_turn _ _ _ _ EC H) as (t1 & w1 & H1 & _ & _ & [(_ & H4 & [= <- <-])|(H4 & H5 & HP & HH & H6 & H7)]); [done|].
  destruct (IsComplete t1) eqn:EC1.
  { destruct fuel; [done|]. cbn [runTaskLoop] in H7. rewrite EC1 in H7. injection H7 as <- <-.
    repeat split; [done..|lia|lia]. }
  destruct (IH _ _ EC1 H7) as (H8 & H9 & H10 & H11 & H12). rewrite H1 in *.
  assert (Phase (Status t1) = TaskPhaseFailed) as EP.
  { destruct (decide (Phase (Status t1) = TaskPhaseFailed)) as [|n]; [done|]. apply H6 in n. congruence. }
  unfold next_count in H11 at 1, H12 at 1. rewrite EP in H11, H12. simpl in H11, H12.
  repeat split; [done..|lia|lia].
Qed.

Lemma runTaskLoop_error fuel t w e t' w' :
  runTaskLoop fuel t w = Some (Err e, t', w') → ∃ c, e = Wrap "failed to patch task status" c.
Proof.
  revert t w. induction fuel as [|fuel IH]; intros t w; [done|].
  cbn [runTaskLoop]. destruct (IsComplete t); [done|]. cbv zeta.
  destruct (client_call w) as [[[]|e1|q] w1]; [|intros [= <- _ _]; by eexists|done].
  pose proof (execTask_no_err (running t) w1) as HE.
  destruct (execTask (running t) w1) as [[t2|e2|q] w2]; [|done..].
  destruct (client_call w2) as [[[]|e3|q] w3]; [apply IH|intros [= <- _ _]; by eexists|done].
Qed.

(** A task as the block executor creates it. *)
Definition new_task (s : TaskSpec) : Task :=
  {| Spec := s; Status := {| RestartCount := 0; Phase := TaskPhaseNone; HostResults := [] |} |}.

(** C1: whatever the API server, the modules, the template engine and the
    goroutine scheduler do, executing a new task ends.  Either the object
    could not be created, and nothing is counted; or the task is counted once,
    in the class of its final phase, after at most one run per retry and one
    more.  Without an error its hosts are the specified ones in order and it
    succeeded on all of them or its errors are ignored; the error "run failed"
    is returned exactly after all retries, with a host that failed. *)
Theorem Exec_task_spec (s : TaskSpec) (w : World V) :
  let '(r, w') := Exec_task (new_task s) w in
  (∃ e, r = Err (Wrap "failed to create task" e) ∧ w_stats w' = w_stats w ∧
        w_tasks w' = w_tasks w ∧ w_pools w' = w_pools w) ∨
  ∃ st, let t := {| Spec := s; Status := st |} in
    w_tasks w' = w_tasks w ++ [t] ∧
    w_stats w' = count_task t (w_stats w) ∧
    (Z.of_nat (w_pools w') ≤ Z.of_nat (w_pools w) + 1 + Z.max 0 (Retries s))%Z ∧
    match r with
    | Ok _ =>
        map Host (HostResults st) = Hosts s ∧
        (Phase st = TaskPhaseSuccess ∧ Forall (λ hr, StdErr hr = "") (HostResults st) ∨
         Phase st = TaskPhaseIgnored ∧ ignores s = true)
    | Err (Msg m) =>
        m = failed_message t ∧ Phase st = TaskPhaseFailed ∧ ignores s = false ∧
        map Host (HostResults st) = Hosts s ∧
        Exists (λ hr, StdErr hr ≠ "") (HostResults st) ∧
        (Z.of_nat (w_pools w') = Z.of_nat (w_pools w) + 1 + Z.max 0 (Retries s))%Z
    | Err (Wrap m _) => m = "failed to patch task status"
    | Err (Joined _) => False
    | Panic _ => True
    end.
Proof.
  unfold Exec_task. destruct (client_call w) as [[[]|e|q] w1] eqn:E1.
  2: { left. assert (w1 = (client_call w).2) as -> by (by rewrite E1). exists e. done. }
  2: { unfold client_call in E1. by destruct (api _). }
  assert (w_pools w1 = w_pools w ∧ w_stats w1 = w_stats w ∧ w_tasks w1 = w_tasks w) as (HP & HS & HT)
    by (assert (w1 = (client_call w).2) as -> by (by rewrite E1); done). clear E1.
  destruct (runTaskLoop_terminates (loop_fuel (new_task s)) (new_task s) w1) as [[[r t'] w2] E2]; [done|].
  rewrite E2. right. destruct (runTaskLoop_bound _ _ _ _ _ _ E2) as (H1 & H2 & H3 & H4).
  destruct t' as [s' st]. simpl in H1, H4. subst s'. exists st.
  simpl. rewrite H3, H2, HS, HT. unfold next_count in H4. simpl in H4.
  repeat split; [lia|]. destruct r as [[]|e|q]; simpl; [|by destruct (runTaskLoop_error _ _ _ _ _ _ E2) as [c ->]|done].
  destruct (runTaskLoop_done _ _ _ _ _ (eq_refl : IsComplete (new_task s) = false) E2) as (H5 & H6 & H7 & H8 & H9).
  simpl in H6, H7. unfold next_count in H8, H9. simpl in H8, H9.
  destruct (phase_of_cases s (HostResults st)) as (HC1 & HC2 & HC3). rewrite <- H6 in HC1, HC2, HC3.
  unfold IsComplete, IsSucceed, IsFailed in *. simpl in *.
  destruct (Phase st) eqn:EP; simpl in *; try discriminate H5.
  - split; [done|left]. split; [done|]. by apply HC1.
  - apply bool_decide_eq_true in H5. rewrite bool_decide_eq_true_2 by done. simpl.
    destruct HC2 as [HC2 _]. destruct HC2; [done|]. repeat split; [done..|].
    unfold next_count in H4. simpl in H4. lia.
  - split; [done|right]. split; [done|]. by apply HC3.
Qed.

(** Either nothing is counted or one task with the given specification. *)
Lemma Exec_task_extends (s : TaskSpec) (w : World V) :
  let '(_, w') := Exec_task (new_task s) w in
  (w_tasks w' = w_tasks w ∧ w_stats w' = w_stats w) ∨
  ∃ st, w_tasks w' = w_tasks w ++ [{| Spec := s; Status := st |}] ∧
        w_stats w' = count_task {| Spec := s; Status := st |} (w_stats w).
Proof.
  unfold Exec_task. destruct (client_call w) as [r1 w1] eqn:E1.
  assert (w_tasks w1 = w_tasks w ∧ w_stats w1 = w_stats w) as [HT HS].
  { assert (w1 = (client_call w).2) as -> by (by rewrite E1). done. }
  destruct r1 as [[]|e|p]; [|by left..].
  destruct (runTaskLoop _ _ _) as [[[r t'] w2]|] eqn:E2; [|by left].
  destruct (runTaskLoop_bound _ _ _ _ _ _ E2) as (H1 & H2 & H3 & _).
  right. destruct t' as [s' st]. simpl in H1. subst s'. exists st. simpl. split; congruence.
Qed.

(** ** Invariants of the variable store *)

(** A property of the variables that merging into a host and running a module
    keep; executing anything keeps it then. *)
Class StoreInvariant (I : V → Prop) := {
  merge_keeps n hs v : I v → I (vs_merge_runtime n hs v).1;
  module_keeps name exec s h : FindModule name = Some exec → psafe I (λ _, True) (exec s h);
}.

#[global] Instance no_invariant : StoreInvariant (λ _, True).
Proof. split; [done|]. intros. apply psafe_true. Qed.

Section Keeps.
Context (I : V → Prop) {SI : StoreInvariant I}.

Lemma keeps_bind {A B} (p : prog V A) (k : A → prog V B) :
  psafe I (λ _, True) p → (∀ a, psafe I (λ _, True) (k a)) → psafe I (λ _, True) (pbind p k).
Proof. intros Hp Hk. eapply psafe_bind; [exact Hp|]. by intros a _. Qed.

Lemma keeps_get {A} (f : V → A) : psafe I (λ _, True) (atomic (λ v, (v, f v))).
Proof. by apply psafe_atomic. Qed.

Lemma keeps_merge n hs : psafe I (λ _, True) (merge_runtime n hs).
Proof. apply psafe_atomic. intros v Hv. split; [by apply merge_keeps|done]. Qed.

Lemma keeps_set_item item host what out : psafe I (λ _, True) (set_item item host what out).
Proof. unfold set_item. destruct (ConvertMap2Node _); [done|]. apply keeps_bind; [apply keeps_merge|done]. Qed.

Lemma keeps_module_body s host out : psafe I (λ _, True) (module_body s host out).
Proof.
  apply keeps_bind; [apply keeps_get|]. intros [[]|e|w]; try done.
  destruct (FindModule _) as [exec|] eqn:E; [|done]. apply keeps_bind; [by eapply module_keeps|done].
Qed.

Lemma keeps_executeModule s item host out : psafe I (λ _, True) (executeModule s item host out).
Proof.
  unfold executeModule. destruct item; [apply keeps_module_body|..];
    (apply keeps_bind; [apply keeps_set_item|]; intros [[out1 []]|e|w]; [|done..];
     apply keeps_bind; [apply keeps_module_body|]; intros [out2|e|w]; [|done..];
     apply keeps_bind; [apply keeps_set_item|done]).
Qed.

Lemma keeps_exec_items s items host out : psafe I (λ _, True) (exec_items s items host out).
Proof.
  revert out. induction items as [|item items IH]; intros out; [done|].
  apply keeps_bind; [apply keeps_executeModule|]. intros [out'|e|w]; [apply IH|done..].
Qed.

Lemma keeps_host_result s host out : psafe I (λ _, True) (host_result s host out).
Proof.
  apply keeps_bind; [|by intros]. unfold dealRegister. case_bool_decide; [done|].
  destruct (ConvertMap2Node _); [done|apply keeps_merge].
Qed.

Lemma keeps_execTaskHost s host : psafe I (λ _, True) (execTaskHost s host).
Proof.
  apply keeps_bind; [apply keeps_get|]. intros maxlen. case_bool_decide; [done|].
  apply keeps_bind; [apply keeps_get|]. intros [val|e|w]; [|apply keeps_host_result|done].
  destruct (match val with VMap m => _ | _ => _ end) as [had stderr0].
  destruct (dealWhen _ _ _) as [[out|]|e|w]; [apply keeps_host_result| |done..].
  apply keeps_bind; [apply keeps_exec_items|]. intros [out|e|w]; [apply keeps_host_result|done..].
Qed.

Lemma execTask_keeps t w : I (w_vars w) → I (w_vars (execTask t w).2).
Proof.
  intros Hv. unfold execTask.
  destruct (run_pool_safe I ((λ _ _, True) <$> Hosts (Spec t)) (schedule (w_pools w))
              (map (execTaskHost (Spec t)) (Hosts (Spec t))) (w_vars w)) as [H _]; [|done|].
  { apply Forall2_fmap_2, Forall_Forall2_diag, list.Forall_forall. intros h _. apply keeps_execTaskHost. }
  by destruct (run_pool _ _ _).
Qed.

Lemma runTaskLoop_keeps fuel t w r t' w' :
  runTaskLoop fuel t w = Some (r, t', w') → I (w_vars w) → I (w_vars w').
Proof.
  revert t w. induction fuel as [|fuel IH]; intros t w; [done|]. cbn [runTaskLoop].
  destruct (IsComplete t); [by intros [= _ _ <-]|]. cbv zeta.
  destruct (client_call w) as [r1 w1] eqn:E1.
  assert (w_vars w1 = w_vars w) as Hw1 by (assert (w1 = (client_call w).2) as -> by (by rewrite E1); done).
  destruct r1 as [[]|e|p]; [|intros [= _ _ <-]; by rewrite Hw1..].
  pose proof (execTask_keeps (running t) w1) as HK. rewrite Hw1 in HK.
  destruct (execTask (running t) w1) as [r2 w2]. simpl in HK.
  destruct r2 as [t2|e|p]; [|intros [= _ _ <-]; done..].
  destruct (client_call w2) as [r3 w3] eqn:E3.
  assert (w_vars w3 = w_vars w2) as Hw3 by (assert (w3 = (client_call w2).2) as -> by (by rewrite E3); done).
  destruct r3 as [[]|e|p]; [|intros [= _ _ <-] Hv; rewrite Hw3; by apply HK..].
  intros H Hv. eapply IH; [exact H|]. rewrite Hw3. by apply HK.
Qed.

Lemma Exec_task_keeps t w : I (w_vars w) → I (w_vars (Exec_task t w).2).
Proof.
  intros Hv. unfold Exec_task. destruct (client_call w) as [r1 w1] eqn:E1.
  assert (w_vars w1 = w_vars w) as Hw1 by (assert (w1 = (client_call w).2) as -> by (by rewrite E1); done).
  destruct r1 as [[]|e|p]; [|simpl; by rewrite Hw1..].
  destruct (runTaskLoop _ _ _) as [[[r t'] w2]|] eqn:E2; simpl; [|by rewrite Hw1].
  eapply runTaskLoop_keeps; [exact E2|]. by rewrite Hw1.
Qed.

End Keeps.

(** ** Loops *)

Lemma run_exec_items_app s items1 items2 host out v v1 out1 :
  run (exec_items s items1 host out) v = (v1, Ok out1) →
  run (exec_items s (items1 ++ items2) host out) v = run (exec_items s items2 host out1) v1.
Proof.
  revert out v. induction items1 as [|item items1 IH]; intros out v; simpl; [by intros [= -> ->]|].
  rewrite !run_pbind. destruct (run (executeModule s item host out) v) as [v2 [out2|e|w]]; simpl;
    [apply IH|done..].
Qed.

Lemma run_module_body s host had exec out v :
  vs_all host v = Ok (VMap had) → FindModule (ModuleName s) = Some exec →
  run (module_body s host out) v =
  ((run (exec s host) v).1, end_module s had (run (exec s host) v).2).
Proof.
  intros Hv HF. unfold module_body. rewrite run_pbind. unfold get_all. simpl. rewrite Hv, HF, run_pbind. done.
Qed.

Lemma run_set_item item host what out v node :
  (∀ m, ∃ n, ConvertMap2Node m = inr n) → (∀ n v, (vs_merge_runtime n [host] v).2 = Ok tt) →
  ConvertMap2Node {[VariableItem := item]} = inr node →
  run (set_item item host what out) v = ((vs_merge_runtime node [host] v).1, Ok (out, true)).
Proof.
  intros _ HM HN. unfold set_item. rewrite HN, run_pbind. unfold merge_runtime. simpl.
  specialize (HM node v). destruct (vs_merge_runtime node [host] v) as [v' e]. simpl in *. by subst.
Qed.

(** Stdout and stderr of a loop are those of its last item.  For a host
    the store knows and a registered module, whatever the earlier items
    printed or failed with is overwritten: a loop whose last item succeeds is
    a success. *)
Theorem loop_last_item_decides s items last host out out' v v1 out1 exec :
  (∀ m, ∃ n, ConvertMap2Node m = inr n) →
  (∀ n v, (vs_merge_runtime n [host] v).2 = Ok tt) →
  (∀ v, ∃ had, vs_all host v = Ok (VMap had)) →
  FindModule (ModuleName s) = Some exec →
  run (exec_items s items host out) v = (v1, Ok out1) →
  run (exec_items s (items ++ [last]) host out) v = run (exec_items s [last] host out') v1.
Proof.
  intros HN HM HV HF H. rewrite (run_exec_items_app _ _ _ _ _ _ _ _ H). simpl.
  assert (∀ out v, ∃ had, run (module_body s host out) v =
            ((run (exec s host) v).1, end_module s had (run (exec s host) v).2) ∧
            run (module_body s host out') v = run (module_body s host out) v) as HB.
  { intros o v0. destruct (HV v0) as [had E]. exists had.
    by rewrite !(run_module_body s host had exec _ v0 E HF). }
  rewrite !run_pbind. f_equal; f_equal; unfold executeModule;
    (destruct last; [by destruct (HB out1 v1) as (had & _ & ->)|..]);
    (destruct (HN {[VariableItem := VNil]}) as [n0 E0];
     match goal with |- context [set_item ?item] => destruct (HN {[VariableItem := item]}) as [n1 E1] end;
     rewrite !run_pbind, !(run_set_item _ _ _ _ _ n1 HN HM E1); cbn [fst snd negb];
     rewrite !run_pbind; destruct (HB out1 (vs_merge_runtime n1 [host] v1).1) as (had & _ & ->); done).
Qed.

End TaskExec.

(** ** A small instance *)

(** A store that only counts; a module that succeeds, one that fails, and one
    that fails the first time. *)
Definition counting_store : VarStore nat unit := {|
  vs_all := λ _ _, Ok (VMap ∅);
  vs_merge_runtime := λ _ _ v, (v, Ok tt);
  vs_hostnames := λ names _, Ok (List.filter (contains ["h"; "a"; "b"; "c"]) names);
  vs_max_len := λ _, 10;
  vs_result := λ _, VNil;
|}.

Definition no_templates : Libraries := {|
  tmpl_execute := λ _ _, Err (Msg "no template");
  unmarshal_slice := λ _, None;
  Unquote := λ _, None;
  decode_json := λ _, None;
  decode_yaml := λ _, None;
|}.

Definition small_modules (name : string) : option (TaskSpec → string → prog nat module_end) :=
  if bool_decide (name = "ok") then Some (λ _ _, PRet (inr ("fine", "")))
  else if bool_decide (name = "fail") then Some (λ _ _, PRet (inr ("", "boom")))
  else if bool_decide (name = "flaky")
  then Some (λ _ _, atomic (λ v, (S v, inr (if bool_decide (v = 0) then ("", "boom") else ("fine", "")))))
  else None.

Definition small_engine : Engine nat unit := {|
  ConvertMap2Node := λ _, inr ();
  FindModule := small_modules;
  api := λ _, None;
  schedule := λ _, [];
|}.

Definition empty_world : World nat :=
  {| w_vars := 0; w_stats := {| Total := 0; Success := 0; Ignored := 0; Failed := 0 |};
     w_tasks := []; w_calls := 0; w_pools := 0 |}.

#[local] Existing Instances counting_store no_templates small_engine.

Definition loop_task : TaskSpec :=
  {| Name := "t"; Hosts := ["h"]; DelegateTo := ""; IgnoreError := None; Retries := 0; When := [];
     FailedWhen := []; Loop := Some "[a,b]"; ModuleName := "flaky"; ModuleArgs := ""; Register := "";
     RegisterType := "" |}.

Lemma loop_last_item_decides_witness :
  run (exec_items loop_task [VStr "a"] "h" ("", "")) 0 = (1, Ok ("", "boom")) ∧
  run (exec_items loop_task [VStr "a"; VStr "b"] "h" ("", "")) 0 = (2, Ok ("fine", "")).
Proof.
  split; [vm_compute; reflexivity|].
  rewrite (loop_last_item_decides loop_task [VStr "a"] (VStr "b") "h" ("", "") ("", "") 0 1 ("", "boom")
             (λ _ _, atomic (λ v, (S v, inr (if bool_decide (v = 0) then ("", "boom") else ("fine", ""))))));
    [vm_compute; reflexivity|by eexists|done|by eexists|done|vm_compute; reflexivity].
Defined.
