(* ===== verification/BlockExec.v ===== *)
(** * The block executor: [src/feature/pkg/executor/block_executor.go], with
      [MarshalBlock] of [src/feature/pkg/converter/converter.go]

    A block is a tree: a task, or a section of blocks with rescue and always
    sections.  Hosts, conditions and tags are inherited from the enclosing
    block. *)

From stdpp Require Import gmap strings list sets.
From S2P Require Import Prelude Values Tags Prog TaskExec.

(** ** Blocks *)

(** The fields of [BlockBase] and [Task] the executor reads. *)
Record BlockInfo (Node : Type) := {
  b_name : string;
  b_run_once : bool;
  b_ignore_errors : option bool;
  b_when : list string;
  b_tags : Taggable;
  b_vars : Node;
  b_delegate_to : string;
  b_retries : Z;
  b_failed_when : list string;
  b_loop : option string;                         (* the loop as JSON; empty when it has none *)
  b_register : string;
  b_register_type : string;
  b_unknown : option (list (string * option string)); (* UnknownField in the order of its iteration, None if nil; a field as JSON *)
  b_annotation : option string;                   (* the path in UnknownField["annotations"] *)
  b_include_tasks : string;
}.
Arguments b_name {Node} b.
Arguments b_run_once {Node} b.
Arguments b_ignore_errors {Node} b.
Arguments b_when {Node} b.
Arguments b_tags {Node} b.
Arguments b_vars {Node} b.
Arguments b_delegate_to {Node} b.
Arguments b_retries {Node} b.
Arguments b_failed_when {Node} b.
Arguments b_loop {Node} b.
Arguments b_register {Node} b.
Arguments b_register_type {Node} b.
Arguments b_unknown {Node} b.
Arguments b_annotation {Node} b.
Arguments b_include_tasks {Node} b.

Unset Elimination Schemes.
Inductive Block (Node : Type) :=
| MkBlock (info : BlockInfo Node) (block rescue always : list (Block Node)).
Set Elimination Schemes.
Arguments MkBlock {Node} info block rescue always.

Lemma Block_ind {Node : Type} (P : Block Node → Prop) :
  (∀ info block rescue always,
     Forall P block → Forall P rescue → Forall P always → P (MkBlock info block rescue always)) →
  ∀ b, P b.
Proof.
  intros H. fix IH 1. intros [info block rescue always]. apply H.
  - induction block as [|x l IHl]; constructor; [apply IH|exact IHl].
  - induction rescue as [|x l IHl]; constructor; [apply IH|exact IHl].
  - induction always as [|x l IHl]; constructor; [apply IH|exact IHl].
Qed.

(** [blockExecutor] without its blocks. *)
Record BlockEnv := {
  e_hosts : list string;
  e_ignoreErrors : option bool;
  e_when : list string;
  e_tags : Taggable;
}.

(** [dealWhen]: conditions that are not there yet are appended. *)
Definition dealWhen (e_when : list string) (when : list string) : list string :=
  fold_left (λ w d, if contains w d then w else w ++ [d]) when e_when.

Definition dealIgnoreErrors (outer ie : option bool) : option bool :=
  match ie with None => outer | Some _ => ie end.

(** [hosts[:1]] of an empty slice is out of range. *)
Definition dealRunOnce (e_hosts : list string) (runOnce : bool) : result (list string) :=
  if runOnce then
    match e_hosts with
    | h :: _ => Ok [h]
    | [] => Panic "slice bounds out of range"
    end
  else Ok e_hosts.

Definition dealTags (e_tags taggable : Taggable) : Taggable := JoinTag taggable e_tags.

(** A sequence that returns at the first error. *)
Definition exec_seq {S X : Type} (f : X → S → result unit * S) : list X → S → result unit * S :=
  fix go l w :=
    match l with
    | [] => (Ok tt, w)
    | x :: l' =>
        match f x w with
        | (Ok _, w') => go l' w'
        | (r, w') => (r, w')
        end
    end.

(** [errs = errors.Join(errs, err)] *)
Definition join_err (errs : option error) (err : option error) : option error :=
  match err with None => errs | Some _ => errors_join errs err end.

Definition as_result (e : option error) : result unit :=
  match e with None => Ok tt | Some e => Err e end.

(** The always section, after the errors collected so far. *)
Definition run_always {S : Type} (always : option (S → result unit * S)) (errs : option error) (w : S)
    : result unit * S :=
  match always with
  | None => (as_result errs, w)
  | Some f =>
      match f w with
      | (Ok _, w') => (as_result errs, w')
      | (Err e, w') => (as_result (join_err errs (Some e)), w')
      | (Panic p, w') => (Panic p, w')
      end
  end.

(** The flow of [dealBlock] over what its three sections do. *)
Definition deal_sections {S : Type} (main : S → result unit * S)
    (rescue always : option (S → result unit * S)) (w : S) : result unit * S :=
  match main w with
  | (Ok _, w1) => run_always always None w1
  | (Panic p, w1) => (Panic p, w1)
  | (Err e1, w1) =>
      match rescue with
      | None => run_always always (join_err None (Some e1)) w1
      | Some f =>
          match f w1 with
          | (Ok _, w2) => run_always always None w2
          | (Err e2, w2) => run_always always (join_err None (Some e2)) w2
          | (Panic p, w2) => (Panic p, w2)
          end
      end
  end.

(** [len(l) != 0] guards a section. *)
Definition when_nonempty {A B : Type} (l : list A) (f : B) : option B :=
  match l with [] => None | _ => Some f end.

Section BlockExec.
Context {V Node : Type} {VS : VarStore V Node} {LB : Libraries} {EN : Engine V Node}.

(** The tags of the run, and [ctrl.SetControllerReference]. *)
Context (onlyTags skipTags : list string).
Context (SetControllerReference : TaskSpec → option error).

(** [MarshalBlock] *)
Definition MarshalBlock (hosts when : list string) (info : BlockInfo Node) : TaskSpec :=
  {| Name := b_name info; Hosts := hosts; DelegateTo := b_delegate_to info;
     IgnoreError := b_ignore_errors info; Retries := b_retries info; When := when;
     FailedWhen := b_failed_when info; Loop := b_loop info; ModuleName := ""; ModuleArgs := "";
     Register := b_register info; RegisterType := b_register_type info |}.

Definition set_module (s : TaskSpec) (name args : string) : TaskSpec :=
  {| Name := Name s; Hosts := Hosts s; DelegateTo := DelegateTo s; IgnoreError := IgnoreError s;
     Retries := Retries s; When := When s; FailedWhen := FailedWhen s; Loop := Loop s;
     ModuleName := name; ModuleArgs := args; Register := Register s; RegisterType := RegisterType s |}.

(** The loop over [UnknownField]: the first registered name is the module. *)
Fixpoint complete_module (name : string) (fields : list (string * option string)) (s : TaskSpec)
    : result TaskSpec :=
  match fields with
  | [] => Ok s
  | (n, None) :: _ => Err (Wrap ("failed to marshal block " +:+ name +:+ " unknown filed " +:+ n) (Msg "json"))
  | (n, Some data) :: rest =>
      match FindModule n with
      | Some _ => Ok (set_module s n data)
      | None => complete_module name rest s
      end
  end.

Definition dealTask (hosts when : list string) (info : BlockInfo Node) (w : World V)
    : result unit * World V :=
  match complete_module (b_name info) (default [] (b_unknown info)) (MarshalBlock hosts when info) with
  | Err e => (Err e, w)
  | Panic p => (Panic p, w)
  | Ok s =>
      if bool_decide (ModuleName s = "") then
        (Err (Msg ("no module/action detected in task: [" +:+ default "" (b_annotation info) +:+ "]" +:+ Name s)), w)
      else
        match SetControllerReference s with
        | Some e => (Err (Wrap ("failed to set playbook ownerReferences to " +:+ b_name info) e), w)
        | None => Exec_task (new_task s) w
        end
  end.

(** [e.variable.Merge(variable.MergeRuntimeVariable(node, hosts...))] *)
Definition merge_vars (node : Node) (hosts : list string) (w : World V) : result unit * World V :=
  let '(v', r) := vs_merge_runtime node hosts (w_vars w) in (r, with_vars w v').

(** The environment of a block's sections. *)
Definition child_env (e : BlockEnv) (hosts : list string) (info : BlockInfo Node) : BlockEnv :=
  {| e_hosts := hosts;
     e_ignoreErrors := dealIgnoreErrors (e_ignoreErrors e) (b_ignore_errors info);
     e_when := dealWhen (e_when e) (b_when info);
     e_tags := dealTags (e_tags e) (b_tags info) |}.

(** One turn of the loop of [blockExecutor.Exec]. *)
Fixpoint Exec_block (e : BlockEnv) (b : Block Node) (w : World V) {struct b} : result unit * World V :=
  let '(MkBlock info block rescue always) := b in
  match dealRunOnce (e_hosts e) (b_run_once info) with
  | Err er => (Err er, w)
  | Panic p => (Panic p, w)
  | Ok hosts =>
      let e' := child_env e hosts info in
      if negb (IsEnabled (e_tags e') onlyTags skipTags) then (Ok tt, w)
      else
        match merge_vars (b_vars info) hosts w with
        | (Ok _, w1) =>
            if nonempty block then
              deal_sections (exec_seq (Exec_block e') block)
                (when_nonempty rescue (exec_seq (Exec_block e') rescue))
                (when_nonempty always (exec_seq (Exec_block e') always)) w1
            else if negb (bool_decide (b_include_tasks info = "")) then (Ok tt, w1)
            else dealTask hosts (e_when e') info w1
        | (r, w1) => (r, w1)
        end
  end.

(** [blockExecutor.Exec] *)
Definition Exec_blocks (e : BlockEnv) (blocks : list (Block Node)) (w : World V) : result unit * World V :=
  exec_seq (Exec_block e) blocks w.

End BlockExec.

(** ** What an execution adds to the world *)

Section Extends.
Context {V Node : Type} {VS : VarStore V Node} {LB : Libraries} {EN : Engine V Node}.
Context (I : V → Prop) {SI : StoreInvariant I}.
Implicit Types (w : World V) (P : Task → Prop).

(** [w'] comes from [w] by creating tasks that satisfy [P], each counted once
    with its final phase, and the variables keep [I]. *)
Definition extends P w w' : Prop :=
  ∃ new, w_tasks w' = w_tasks w ++ new ∧
         w_stats w' = fold_left (λ st t, count_task t st) new (w_stats w) ∧ Forall P new ∧ (I (w_vars w) → I (w_vars w')).

Lemma extends_nil P w w' :
  w_tasks w' = w_tasks w → w_stats w' = w_stats w → (I (w_vars w) → I (w_vars w')) → extends P w w'.
Proof. intros H1 H2 HI. exists []. by rewrite app_nil_r. Qed.

Lemma extends_refl P w : extends P w w.
Proof. by apply extends_nil. Qed.

Lemma extends_trans P w1 w2 w3 : extends P w1 w2 → extends P w2 w3 → extends P w1 w3.
Proof.
  intros (n1 & H1 & H2 & H3 & HI) (n2 & H4 & H5 & H6 & HJ). exists (n1 ++ n2).
  rewrite H4, H1, H5, H2, app_assoc, fold_left_app. split_and!; [done..| |auto]. by apply Forall_app.
Qed.

Lemma extends_weaken P Q w w' : (∀ t, P t → Q t) → extends P w w' → extends Q w w'.
Proof. intros HPQ (n & H1 & H2 & H3 & HI). exists n. split_and!; [done..| |done]. by eapply Forall_impl. Qed.

Lemma extends_Exec_task P s w :
  (∀ st, P {| Spec := s; Status := st |}) → extends P w (Exec_task (new_task s) w).2.
Proof.
  intros HP. pose proof (Exec_task_extends s w) as H. pose proof (Exec_task_keeps I (new_task s) w) as HI.
  destruct (Exec_task (new_task s) w) as [r w']. destruct H as [(H1 & H2)|(st & H1 & H2)].
  - by apply extends_nil.
  - exists [{| Spec := s; Status := st |}]. split_and!; [done..| |done]. by constructor.
Qed.

Lemma extends_seq {X : Type} P (f : X → World V → result unit * World V) l w :
  Forall (λ x, ∀ w, extends P w (f x w).2) l → extends P w (exec_seq f l w).2.
Proof.
  intros H. revert w. induction H as [|x l Hx _ IH]; intros w; simpl; [apply extends_refl|].
  specialize (Hx w). destruct (f x w) as [[[]|e|p] w']; simpl in *; [|done..].
  eapply extends_trans; [exact Hx|apply IH].
Qed.

Lemma extends_sections P (main : World V → result unit * World V) rescue always w :
  (∀ w, extends P w (main w).2) →
  (∀ f, rescue = Some f → ∀ w, extends P w (f w).2) →
  (∀ f, always = Some f → ∀ w, extends P w (f w).2) →
  extends P w (deal_sections main rescue always w).2.
Proof.
  intros Hm Hr Ha.
  assert (∀ errs w2, extends P w w2 → extends P w (run_always always errs w2).2) as HA.
  { intros errs w2 H. unfold run_always. destruct always as [f|]; [|done].
    specialize (Ha f eq_refl w2). destruct (f w2) as [[]]; simpl in *; by eapply extends_trans. }
  unfold deal_sections. specialize (Hm w). destruct (main w) as [[] w1]; simpl in Hm; [by apply HA| |done].
  destruct rescue as [f|]; [|by apply HA].
  specialize (Hr f eq_refl w1). destruct (f w1) as [[] w2]; simpl in *;
    [apply HA|apply HA|]; by eapply extends_trans.
Qed.

Lemma extends_merge P node hosts w : extends P w (merge_vars node hosts w).2.
Proof.
  unfold merge_vars. pose proof (merge_keeps node hosts (w_vars w)) as HI. destruct (vs_merge_runtime _ _ _). by apply extends_nil.
Qed.

End Extends.

(** ** Properties *)

Lemma dealWhen_prefix w when : w `prefix_of` dealWhen w when.
Proof.
  apply fold_left_prefix. intros acc d. destruct (contains acc d); [done|by apply prefix_app_r].
Qed.

Lemma dealWhen_elem w when c : c ∈ dealWhen w when ↔ c ∈ w ∨ c ∈ when.
Proof.
  unfold dealWhen. revert w. induction when as [|d when IH]; intros w; simpl; [set_solver|].
  rewrite IH. destruct (contains_spec w d); set_solver.
Qed.

Lemma exec_seq_app {S X} (f : X → S → result unit * S) l1 l2 w :
  exec_seq f (l1 ++ l2) w =
  match exec_seq f l1 w with
  | (Ok _, w') => exec_seq f l2 w'
  | (r, w') => (r, w')
  end.
Proof.
  revert w. induction l1 as [|x l1 IH]; intros w; simpl; [done|].
  destruct (f x w) as [[[]|e|p] w']; [apply IH|done..].
Qed.

Lemma exec_seq_ext {S X} (f g : X → S → result unit * S) l w :
  Forall (λ x, ∀ w, f x w = g x w) l → exec_seq f l w = exec_seq g l w.
Proof.
  intros H. revert w. induction H as [|x l Hx _ IH]; intros w; simpl; [done|].
  rewrite Hx. destruct (g x w) as [[[]|e|p] w']; [apply IH|done..].
Qed.

Lemma when_nonempty_Some {A B} (l : list A) (f g : B) : when_nonempty l f = Some g → l ≠ [] ∧ f = g.
Proof. destruct l; simpl; naive_solver. Qed.

Section Properties.
Context {V Node : Type} {VS : VarStore V Node} {LB : Libraries} {EN : Engine V Node}.
Context (onlyTags skipTags : list string) (SetControllerReference : TaskSpec → option error).
Implicit Types (w : World V) (e : BlockEnv) (b : Block Node).
#[local] Notation Exec_block := (Exec_block onlyTags skipTags SetControllerReference).
#[local] Notation Exec_blocks := (Exec_blocks onlyTags skipTags SetControllerReference).

(** The hosts a block hands down: its own, or the first of them. *)
Definition narrowed (outer inner : list string) : Prop :=
  inner = outer ∨ ∃ h rest, outer = h :: rest ∧ inner = [h].

(** A task created under [e]. *)
Definition created_in e (t : Task) : Prop :=
  narrowed (e_hosts e) (Hosts (Spec t)) ∧ e_when e `prefix_of` When (Spec t).

Lemma dealRunOnce_narrowed hosts once inner : dealRunOnce hosts once = Ok inner → narrowed hosts inner.
Proof.
  unfold dealRunOnce, narrowed. destruct once; [|naive_solver]. destruct hosts as [|h rest]; naive_solver.
Qed.

Lemma narrowed_trans h1 h2 h3 : narrowed h1 h2 → narrowed h2 h3 → narrowed h1 h3.
Proof. unfold narrowed. naive_solver. Qed.

Lemma created_in_child e hosts (info : BlockInfo Node) t :
  dealRunOnce (e_hosts e) (b_run_once info) = Ok hosts →
  created_in (child_env e hosts info) t → created_in e t.
Proof.
  intros H%dealRunOnce_narrowed [H1 H2]. split; [by eapply narrowed_trans|].
  etrans; [|exact H2]. apply dealWhen_prefix.
Qed.

Lemma complete_module_spec name fields s s' :
  complete_module (V:=V) name fields s = Ok s' → Hosts s' = Hosts s ∧ When s' = When s ∧ IgnoreError s' = IgnoreError s.
Proof.
  induction fields as [|[n [data|]] fields IH]; simpl; [by intros [= <-]| |done].
  destruct (FindModule n); [by intros [= <-]|apply IH].
Qed.

Lemma dealTask_extends (I : V → Prop) {SI : StoreInvariant I} hosts when (info : BlockInfo Node) w :
  extends I (λ t, Hosts (Spec t) = hosts ∧ When (Spec t) = when ∧ IgnoreError (Spec t) = b_ignore_errors info)
    w (dealTask SetControllerReference hosts when info w).2.
Proof.
  unfold dealTask. destruct (complete_module _ _ _) as [s|er|p] eqn:E; [|apply extends_refl..].
  case_bool_decide; [apply extends_refl|].
  destruct (SetControllerReference s); [apply extends_refl|].
  apply (extends_Exec_task I). intros st. simpl. by apply complete_module_spec in E.
Qed.

Lemma Exec_block_extends (I : V → Prop) {SI : StoreInvariant I} b : ∀ e w, extends I (created_in e) w (Exec_block e b w).2.
Proof.
  induction b as [info block rescue always IHb IHr IHa]. intros e w. cbn [BlockExec.Exec_block].
  destruct (dealRunOnce _ _) as [hosts|er|p] eqn:EH; [|apply extends_refl..]. cbv zeta.
  destruct (negb (IsEnabled _ _ _)); [apply extends_refl|].
  pose proof (extends_merge I (created_in e) (b_vars info) hosts w) as HM.
  destruct (merge_vars _ _ _) as [[[]|er|p] w1]; simpl in HM; [|done..].
  eapply extends_trans; [exact HM|].
  eapply extends_weaken; [intros t; by apply created_in_child|].
  assert (∀ l, Forall (λ b, ∀ e w, extends I (created_in e) w (Exec_block e b w).2) l →
            ∀ w, extends I (created_in (child_env e hosts info)) w
                   (exec_seq (Exec_block (child_env e hosts info)) l w).2) as HS.
  { intros l Hl w2. apply extends_seq. eapply Forall_impl; [exact Hl|]. intros b0 H. apply H. }
  destruct (nonempty block).
  - apply extends_sections; [by apply HS|..]; intros f [_ <-]%when_nonempty_Some; by apply HS.
  - case_bool_decide; simpl; [|apply extends_refl].
    eapply extends_weaken; [|apply (dealTask_extends I)].
    intros t (H1 & H2 & _). split; [by left|]. by rewrite H2.
Qed.

Lemma Exec_blocks_extends (I : V → Prop) {SI : StoreInvariant I} e blocks w : extends I (created_in e) w (Exec_blocks e blocks w).2.
Proof. apply extends_seq, list.Forall_forall. intros b _. apply (Exec_block_extends I). Qed.

(** How many of the tasks have the phase. *)
Definition count_phase (p : TaskPhase) (l : list Task) : Z :=
  Z.of_nat (length (filter (λ t, Phase (Status t) = p) l)).

Lemma count_tasks_spec new st :
  let st' := fold_left (λ st t, count_task t st) new st in
  (Total st' = Total st + Z.of_nat (length new) ∧
   Success st' = Success st + count_phase TaskPhaseSuccess new ∧
   Ignored st' = Ignored st + count_phase TaskPhaseIgnored new ∧
   Failed st' = Failed st + count_phase TaskPhaseFailed new)%Z.
Proof.
  unfold count_phase. revert st. induction new as [|t new IH]; intros st; simpl; [lia|].
  destruct (IH (count_task t st)) as (-> & -> & -> & ->). rewrite !filter_cons.
  unfold count_task. simpl. destruct (Phase (Status t)); simpl; lia.
Qed.

(** Running a list of blocks only appends tasks, whatever fails on the way.
    Each task it creates is for the hosts of the enclosing block, or for the
    first of them (run_once), and carries every condition of the enclosing
    block in front of its own; the counters grow by exactly these tasks. *)
Theorem Exec_blocks_tasks e blocks w :
  let w' := (Exec_blocks e blocks w).2 in
  ∃ new,
    w_tasks w' = w_tasks w ++ new ∧
    Forall (λ t, (Hosts (Spec t) = e_hosts e ∨ ∃ h rest, e_hosts e = h :: rest ∧ Hosts (Spec t) = [h]) ∧
                 e_when e `prefix_of` When (Spec t)) new ∧
    (Total (w_stats w') = Total (w_stats w) + Z.of_nat (length new) ∧
     Success (w_stats w') = Success (w_stats w) + count_phase TaskPhaseSuccess new ∧
     Ignored (w_stats w') = Ignored (w_stats w) + count_phase TaskPhaseIgnored new ∧
     Failed (w_stats w') = Failed (w_stats w) + count_phase TaskPhaseFailed new)%Z.
Proof.
  destruct (Exec_blocks_extends (λ _, True) e blocks w) as (new & H1 & H2 & H3 & _).
  exists new. split; [done|]. split; [exact H3|]. rewrite H2. apply count_tasks_spec.
Qed.

(** The list stops at the first block that fails: what follows it is not
    run, and what precedes it is. *)
Theorem Exec_blocks_fail_fast e before b after w w1 w2 er :
  Exec_blocks e before w = (Ok tt, w1) → Exec_block e b w1 = (Err er, w2) →
  Exec_blocks e (before ++ b :: after) w = (Err er, w2).
Proof. intros H1 H2. unfold BlockExec.Exec_blocks in *. rewrite exec_seq_app, H1. simpl. by rewrite H2. Qed.

(** C2: a block with sections.  The rescue section runs exactly when the main
    one fails, the always section runs whatever happened before it; the block
    succeeds exactly when the main section or an existing rescue section does,
    and so does the always section. *)
Theorem Exec_block_sections e info block rescue always hosts w w1 rm wm rr wr ra wa :
  let e' := child_env e hosts info in
  dealRunOnce (e_hosts e) (b_run_once info) = Ok hosts → block ≠ [] →
  IsEnabled (e_tags e') onlyTags skipTags = true →
  merge_vars (b_vars info) hosts w = (Ok tt, w1) →
  Exec_blocks e' block w1 = (rm, wm) → is_panic rm = false →
  (if is_ok rm then (Ok tt, wm) else Exec_blocks e' rescue wm) = (rr, wr) → is_panic rr = false →
  Exec_blocks e' always wr = (ra, wa) → is_panic ra = false →
  ∃ r, Exec_block e (MkBlock info block rescue always) w = (r, wa) ∧ is_panic r = false ∧
       is_ok r = (is_ok rm || nonempty rescue && is_ok rr) && is_ok ra.
Proof.
  intros e' HH HB HE HM Em Pm Er Pr Ea Pa. cbn [BlockExec.Exec_block].
  rewrite HH. fold e'. cbv zeta. rewrite HE, HM. cbn [negb].
  destruct (nonempty_spec block); [|done]. unfold deal_sections.
  change (exec_seq (Exec_block e') block w1) with (Exec_blocks e' block w1). rewrite Em.
  assert (∀ errs, (always = [] → wa = wr ∧ ra = Ok tt) →
            ∃ r, run_always (when_nonempty always (Exec_blocks e' always)) errs wr = (r, wa) ∧
                 is_panic r = false ∧
                 is_ok r = (match errs with None => true | _ => false end) && is_ok ra) as HA.
  { intros errs H0. destruct always as [|a always]; cbn [run_always when_nonempty].
    - destruct H0 as [-> ->]; [done|]. destruct errs; by eexists.
    - rewrite Ea. destruct ra as [[]|ea|p]; [destruct errs; by eexists..|done]. }
  assert (always = [] → wa = wr ∧ ra = Ok tt) as H0 by (intros ->; by injection Ea as <- <-).
  destruct rm as [[]|em|p]; [|clear Pm|done].
  - injection Er as <- <-. destruct (HA None H0) as (r & E1 & E2 & E3). by exists r.
  - cbn [is_ok] in *. destruct rescue as [|b0 rescue]; cbn [when_nonempty].
    + injection Er as <- <-. destruct (HA (join_err None (Some em)) H0) as (r & E1 & E2 & E3). by exists r.
    + change (exec_seq (Exec_block e') (b0 :: rescue) wm) with (Exec_blocks e' (b0 :: rescue) wm).
      rewrite Er. destruct rr as [[]|err|p]; [| |done].
      * destruct (HA None H0) as (r & E1 & E2 & E3). by exists r.
      * destruct (HA (join_err None (Some err)) H0) as (r & E1 & E2 & E3). by exists r.
Qed.

Lemma Exec_block_ignore b : ∀ e e' w,
  e_hosts e = e_hosts e' → e_when e = e_when e' → e_tags e = e_tags e' →
  Exec_block e b w = Exec_block e' b w.
Proof.
  induction b as [info block rescue always IHb IHr IHa]. intros e e' w H1 H2 H3.
  cbn [BlockExec.Exec_block]. rewrite <- H1.
  destruct (dealRunOnce _ _) as [hosts|er|p]; [|done..]. cbv zeta.
  change (e_tags (child_env e' hosts info)) with (dealTags (e_tags e') (b_tags info)).
  change (e_when (child_env e' hosts info)) with (dealWhen (e_when e') (b_when info)).
  rewrite <- H2, <- H3.
  change (e_tags (child_env e hosts info)) with (dealTags (e_tags e) (b_tags info)).
  destruct (negb (IsEnabled _ _ _)); [done|].
  destruct (merge_vars _ _ _) as [[[]|er|p] w1]; [|done..].
  assert (∀ l, Forall (λ b, ∀ e e' w, e_hosts e = e_hosts e' → e_when e = e_when e' →
                 e_tags e = e_tags e' → Exec_block e b w = Exec_block e' b w) l →
            ∀ w, exec_seq (Exec_block (child_env e hosts info)) l w =
                 exec_seq (Exec_block (child_env e' hosts info)) l w) as HS.
  { intros l Hl w2. apply exec_seq_ext. eapply Forall_impl; [exact Hl|].
    intros b0 H w3. apply H; simpl; congruence. }
  destruct (nonempty block); [|done].
  unfold deal_sections, run_always. rewrite (HS _ IHb).
  destruct rescue as [|b1 rescue], always as [|b2 always]; cbn [when_nonempty];
    repeat (case_match; try congruence); rewrite ?(HS _ IHr), ?(HS _ IHa) in *; congruence.
Qed.

(** The ignore_errors of an enclosing block, role or play reaches no task:
    execution does not depend on it, whatever the blocks are. *)
Theorem ignore_errors_not_inherited e ie blocks w :
  Exec_blocks e blocks w =
  Exec_blocks {| e_hosts := e_hosts e; e_ignoreErrors := ie; e_when := e_when e; e_tags := e_tags e |} blocks w.
Proof.
  apply exec_seq_ext, list.Forall_forall. intros b _ w1. by apply Exec_block_ignore.
Qed.

End Properties.

(** ** Small instances *)

#[local] Existing Instances counting_store no_templates small_engine.

Definition small_block (name : string) : Block unit :=
  MkBlock {| b_name := name; b_run_once := false; b_ignore_errors := None; b_when := [];
             b_tags := {| Tags := [] |}; b_vars := (); b_delegate_to := ""; b_retries := 0;
             b_failed_when := []; b_loop := None; b_register := ""; b_register_type := "";
             b_unknown := Some [(name, Some "{}")]; b_annotation := None; b_include_tasks := "" |} [] [] [].

Definition small_env : BlockEnv :=
  {| e_hosts := ["h"]; e_ignoreErrors := None; e_when := []; e_tags := {| Tags := [] |} |}.

Definition small_info : BlockInfo unit := match small_block "s" with MkBlock info _ _ _ => info end.

Definition no_owner_error (_ : TaskSpec) : option error := None.

Lemma Exec_blocks_fail_fast_witness :
  ∃ er w2, Exec_blocks [] [] no_owner_error small_env
             [small_block "ok"; small_block "fail"; small_block "ok"] empty_world = (Err er, w2) ∧
           length (w_tasks w2) = 2.
Proof.
  eexists _, _. split.
  - eapply (Exec_blocks_fail_fast [] [] no_owner_error small_env [small_block "ok"] (small_block "fail")
              [small_block "ok"]); vm_compute; reflexivity.
  - vm_compute. reflexivity.
Defined.

Lemma Exec_block_sections_witness :
  ∃ r w', Exec_block [] [] no_owner_error small_env
            (MkBlock small_info [small_block "fail"] [small_block "ok"] [small_block "ok"]) empty_world = (r, w') ∧
          is_ok r = true ∧ length (w_tasks w') = 3.
Proof.
  edestruct (Exec_block_sections [] [] no_owner_error small_env small_info [small_block "fail"]
               [small_block "ok"] [small_block "ok"] ["h"] empty_world) as (r & E & _ & Hr);
    [vm_compute; reflexivity|done|vm_compute; reflexivity..|].
  eexists r, _. split; [exact E|]. split; [rewrite Hr|]; vm_compute; reflexivity.
Defined.
