(* ===== verification/PlayExec.v ===== *)
(** * Roles, plays and playbooks:
      [src/feature/pkg/executor/role_executor.go], [playbook_executor.go] and
      [src/feature/api/project/v1/playbook.go]

    A play runs its blocks and roles on batches of hosts; the playbook's
    status records how it ended. *)

From stdpp Require Import gmap strings list sets.
From S2P Require Import Prelude Values Tags Serial Prog TaskExec BlockExec.
From Stdlib Require Import SpecFloat.

(** ** Data *)

Record RoleInfo (Node : Type) := {
  r_role : string;
  r_vars : Node;
  r_when : list string;
  r_tags : Taggable;
  r_ignore_errors : option bool;
}.
Arguments r_role {Node} r.
Arguments r_vars {Node} r.
Arguments r_when {Node} r.
Arguments r_tags {Node} r.
Arguments r_ignore_errors {Node} r.

Unset Elimination Schemes.
Inductive Role (Node : Type) :=
| MkRole (info : RoleInfo Node) (dependencies : list (Role Node)) (block : list (Block Node)).
Set Elimination Schemes.
Arguments MkRole {Node} info dependencies block.

Lemma Role_ind {Node : Type} (P : Role Node → Prop) :
  (∀ info deps block, Forall P deps → P (MkRole info deps block)) → ∀ r, P r.
Proof.
  intros H. fix IH 1. intros [info deps block]. apply H.
  induction deps as [|x l IHl]; constructor; [apply IH|exact IHl].
Qed.

Definition role_info {Node : Type} (r : Role Node) : RoleInfo Node :=
  match r with MkRole info _ _ => info end.

Record Play (Node : Type) := {
  p_import_playbook : string;
  p_hosts : list string;
  p_gather_facts : bool;
  p_vars : Node;
  p_run_once : bool;
  p_ignore_errors : option bool;
  p_tags : Taggable;
  p_serial : list SerialItem;
  p_vars_files : list string;
  p_pre_tasks : list (Block Node);
  p_roles : list (Role Node);
  p_tasks : list (Block Node);
  p_post_tasks : list (Block Node);
}.
Arguments p_import_playbook {Node} p.
Arguments p_hosts {Node} p.
Arguments p_gather_facts {Node} p.
Arguments p_vars {Node} p.
Arguments p_run_once {Node} p.
Arguments p_ignore_errors {Node} p.
Arguments p_tags {Node} p.
Arguments p_serial {Node} p.
Arguments p_vars_files {Node} p.
Arguments p_pre_tasks {Node} p.
Arguments p_roles {Node} p.
Arguments p_tasks {Node} p.
Arguments p_post_tasks {Node} p.

(** [Playbook.Validate]: links to other playbooks are dropped. *)
Fixpoint Validate {Node : Type} (plays : list (Play Node)) : result (list (Play Node)) :=
  match plays with
  | [] => Ok []
  | play :: rest =>
      if negb (bool_decide (p_import_playbook play = "")) then Validate rest
      else if negb (nonempty (p_hosts play)) then Err (Msg "playbook's hosts must not be empty")
      else let! newPlay := Validate rest in Ok (play :: newPlay)
  end.

(** [roleExecutor] without its role. *)
Record RoleEnv := {
  re_hosts : list string;
  re_ignoreErrors : option bool;
  re_when : list string;
  re_tags : Taggable;
}.

(** How an execution ends: it returns, or the goroutine of the playbook
    itself panics, or a goroutine of a task panics, which stops the process
    at once. *)
Inductive outcome :=
| Returned (r : option error)
| OwnPanic (why : string)
| Crash (why : string).

Definition of_tasks (r : result unit) : outcome :=
  match r with Ok _ => Returned None | Err e => Returned (Some e) | Panic p => Crash p end.

Inductive PlaybookPhase :=
| PlaybookPhaseNone        (* the empty string of a new object *)
| PlaybookPhasePending
| PlaybookPhaseRunning
| PlaybookPhaseFailed
| PlaybookPhaseSucceeded.
#[export] Instance PlaybookPhase_eq_dec : EqDecision PlaybookPhase.
Proof. solve_decision. Defined.

Record PlaybookStatus := {
  ps_phase : PlaybookPhase;
  ps_failure_reason : string;
  ps_failure_message : string;
  ps_statistics : Statistics;
  ps_result : value;
}.

Definition PlaybookFailedReasonTaskFailed : string := "task executor failed".

Section PlayExec.
Context {V Node : Type} {VS : VarStore V Node} {LB : Libraries} {EN : Engine V Node}.
Context (onlyTags skipTags : list string).
Context (SetControllerReference : TaskSpec → option error).
Context (ParseFloat : string → option spec_float).

#[local] Notation Exec_blocks := (Exec_blocks onlyTags skipTags SetControllerReference).

(** ** Roles *)

Definition role_child (e : RoleEnv) (dep : RoleInfo Node) : RoleEnv :=
  {| re_hosts := re_hosts e;
     re_ignoreErrors := dealIgnoreErrors (re_ignoreErrors e) (r_ignore_errors dep);
     re_when := dealWhen (re_when e) (r_when dep);
     re_tags := dealTags (re_tags e) (r_tags dep) |}.

(** The environment of the blocks of a role: the conditions are the role's
    own. *)
Definition role_block_env (e : RoleEnv) (info : RoleInfo Node) : BlockEnv :=
  {| e_hosts := re_hosts e; e_ignoreErrors := re_ignoreErrors e; e_when := r_when info; e_tags := re_tags e |}.

(** [roleExecutor.Exec] *)
Fixpoint Exec_role (e : RoleEnv) (r : Role Node) (w : World V) {struct r} : result unit * World V :=
  let '(MkRole info deps block) := r in
  if negb (IsEnabled (re_tags e) onlyTags skipTags) then (Ok tt, w)
  else
    match merge_vars (r_vars info) (re_hosts e) w with
    | (Ok _, w1) =>
        match exec_seq (λ dep, Exec_role (role_child e (role_info dep)) dep) deps w1 with
        | (Ok _, w2) => Exec_blocks (role_block_env e info) block w2
        | (r, w2) => (r, w2)
        end
    | (r, w1) => (r, w1)
    end.

(** ** Plays *)

Definition play_env (play : Play Node) (serials : list string) : BlockEnv :=
  {| e_hosts := serials; e_ignoreErrors := p_ignore_errors play; e_when := []; e_tags := p_tags play |}.

Definition play_role_env (play : Play Node) (serials : list string) (info : RoleInfo Node) : RoleEnv :=
  {| re_hosts := serials;
     re_ignoreErrors := match r_ignore_errors info with None => p_ignore_errors play | ie => ie end;
     re_when := r_when info;
     re_tags := JoinTag (r_tags info) (p_tags play) |}.

(** The steps of a batch, in the order of [execBatchHosts]. *)
Definition batch_steps (play : Play Node) (serials : list string)
    : list (World V → result unit * World V) :=
  [ merge_vars (p_vars play) serials;
    Exec_blocks (play_env play serials) (p_pre_tasks play);
    exec_seq (λ role, Exec_role (play_role_env play serials (role_info role)) role) (p_roles play);
    Exec_blocks (play_env play serials) (p_tasks play);
    Exec_blocks (play_env play serials) (p_post_tasks play) ].

Definition exec_batch (play : Play Node) (serials : list string) (w : World V) : result unit * World V :=
  if negb (nonempty serials) then (Err (Msg "host is empty"), w)
  else exec_seq (λ step, step) (batch_steps play serials) w.

(** [execBatchHosts] *)
Definition execBatchHosts (play : Play Node) (batches : list (list string)) (w : World V)
    : result unit * World V :=
  exec_seq (exec_batch play) batches w.

(** [dealHosts] *)
Definition dealHosts (names : list string) (v : V) : result (list string) :=
  let! hosts := vs_hostnames names v in
  if nonempty hosts then Ok hosts else Err (Msg "hosts is empty").

Definition gather_facts_task (hosts : list string) : TaskSpec :=
  {| Name := "gather_facts"; Hosts := hosts; DelegateTo := ""; IgnoreError := None; Retries := 0;
     When := []; FailedWhen := []; Loop := None; ModuleName := "setup"; ModuleArgs := "";
     Register := ""; RegisterType := "" |}.

(** [dealGatherFacts] *)
Definition dealGatherFacts (gather : bool) (hosts : list string) (w : World V) : result unit * World V :=
  if gather then Exec_task (new_task (gather_facts_task hosts)) w else (Ok tt, w).

(** [dealRunOnce] of a play; the hosts are not empty. *)
Definition play_run_once (runOnce : bool) (hosts : list string) (batches : list (list string))
    : list (list string) :=
  if runOnce then [take 1 hosts] else batches.

(** One turn of the loop of [playbookExecutor.Exec]. *)
Definition Exec_play (play : Play Node) (w : World V) : outcome * World V :=
  if negb (IsEnabled (p_tags play) onlyTags skipTags) then (Returned None, w)
  else
    match dealHosts (p_hosts play) (w_vars w) with
    | Err _ => (Returned None, w)
    | Panic p => (OwnPanic p, w)
    | Ok hosts =>
        match dealGatherFacts (p_gather_facts play) hosts w with
        | (Ok _, w1) =>
            match GroupHostBySerial ParseFloat hosts (p_serial play) with
            | Err e => (Returned (Some e), w1)
            | Panic p => (OwnPanic p, w1)
            | Ok batches =>
                let '(r, w2) := execBatchHosts play (play_run_once (p_run_once play) hosts batches) w1 in
                (of_tasks r, w2)
            end
        | (r, w1) => (of_tasks r, w1)
        end
    end.

Fixpoint Exec_plays (plays : list (Play Node)) (w : World V) : outcome * World V :=
  match plays with
  | [] => (Returned None, w)
  | play :: rest =>
      match Exec_play play w with
      | (Returned None, w') => Exec_plays rest w'
      | (o, w') => (o, w')
      end
  end.

(** [syncStatus]: deferred, so a panic of the own goroutine finds [retErr]
    nil; a crash of the process records nothing. *)
Definition syncStatus (o : outcome) (w : World V) (old : PlaybookStatus) : PlaybookStatus :=
  match o with
  | Returned (Some e) =>
      {| ps_phase := PlaybookPhaseFailed; ps_failure_reason := PlaybookFailedReasonTaskFailed;
         ps_failure_message := error_text e; ps_statistics := w_stats w; ps_result := vs_result (w_vars w) |}
  | Returned None | OwnPanic _ =>
      {| ps_phase := PlaybookPhaseSucceeded; ps_failure_reason := ps_failure_reason old;
         ps_failure_message := ps_failure_message old; ps_statistics := w_stats w;
         ps_result := vs_result (w_vars w) |}
  | Crash _ => old
  end.

(** [playbookExecutor.Exec]; [project] is what [project.New] and
    [MarshalPlaybook] gave, on the executor's own goroutine. *)
Definition Exec_playbook (project : result (list (Play Node))) (w : World V) (old : PlaybookStatus)
    : outcome * World V * PlaybookStatus :=
  let '(o, w') := match project with
                  | Err e => (Returned (Some e), w)
                  | Panic why => (OwnPanic why, w)
                  | Ok plays => Exec_plays plays w
                  end in
  (o, w', syncStatus o w' old).

End PlayExec.

(** ** Properties *)

Lemma GroupHostBySerial_sub ParseFloat hosts serial batches :
  GroupHostBySerial ParseFloat hosts serial = Ok batches → Forall (λ b, b ⊆ hosts) batches.
Proof.
  assert (∀ sis b e l, cut hosts sis b e = Ok l → Forall (λ x, x ⊆ hosts) l) as HC.
  { induction sis as [|si sis IH]; intros b e l; cbn [cut]; [by intros [= <-]|].
    cbv zeta. intros H. apply rbind_ok in H as (x & H1 & H). apply rbind_ok in H as (l' & H2 & [= <-]).
    constructor; [|by eapply IH]. unfold go_slice in H1. destruct (_ && _); [|done].
    injection H1 as <-. intros h (i & Hi & _)%elem_of_take.
    rewrite lookup_drop in Hi. by apply list_elem_of_lookup_2 in Hi. }
  unfold GroupHostBySerial. destruct serial; [intros [= <-]; by repeat constructor|].
  intros H. apply rbind_ok in H as (sis & _ & H). by eapply HC.
Qed.

Section Properties.
Context {V Node : Type} {VS : VarStore V Node} {LB : Libraries} {EN : Engine V Node}.
Context (onlyTags skipTags : list string).
Context (SetControllerReference : TaskSpec → option error).
Context (ParseFloat : string → option spec_float).
Implicit Types (w : World V).

#[local] Notation Exec_blocks := (Exec_blocks onlyTags skipTags SetControllerReference).
#[local] Notation Exec_role := (Exec_role onlyTags skipTags SetControllerReference).
#[local] Notation Exec_plays := (Exec_plays onlyTags skipTags SetControllerReference ParseFloat).
#[local] Notation Exec_play := (Exec_play onlyTags skipTags SetControllerReference ParseFloat).
#[local] Notation Exec_playbook := (Exec_playbook onlyTags skipTags SetControllerReference ParseFloat).

(** Tasks for the given hosts only. *)
Definition within (hosts : list string) (t : Task) : Prop := Hosts (Spec t) ⊆ hosts.

Lemma Exec_blocks_within (I : V → Prop) {SI : StoreInvariant I} e blocks w : extends I (within (e_hosts e)) w (Exec_blocks e blocks w).2.
Proof.
  eapply extends_weaken; [|apply (Exec_blocks_extends _ _ _ I)].
  intros t [[H|(h & l & H1 & H2)] _]; unfold within; [by rewrite H|]. rewrite H1, H2. set_solver.
Qed.

Lemma Exec_role_within (I : V → Prop) {SI : StoreInvariant I} r : ∀ e w, extends I (within (re_hosts e)) w (Exec_role e r w).2.
Proof.
  induction r as [info deps block IH]. intros e w. cbn [PlayExec.Exec_role].
  destruct (negb _); [apply extends_refl|].
  pose proof (extends_merge I (within (re_hosts e)) (r_vars info) (re_hosts e) w) as HM.
  destruct (merge_vars _ _ _) as [[[]|er|p] w1]; simpl in HM; [|done..].
  eapply extends_trans; [exact HM|].
  pose proof (extends_seq I (within (re_hosts e))
                (λ dep, Exec_role (role_child e (role_info dep)) dep) deps w1) as HS.
  destruct (exec_seq _ deps w1) as [[[]|er|p] w2]; simpl in *.
  - eapply extends_trans; [apply HS|apply (Exec_blocks_within I (role_block_env e info))].
    eapply Forall_impl; [exact IH|]. intros dep H w3. apply (H (role_child e (role_info dep))).
  - apply HS. eapply Forall_impl; [exact IH|]. intros dep H w3. apply (H (role_child e (role_info dep))).
  - apply HS. eapply Forall_impl; [exact IH|]. intros dep H w3. apply (H (role_child e (role_info dep))).
Qed.

Lemma within_weaken hosts hosts' t : hosts ⊆ hosts' → within hosts t → within hosts' t.
Proof. unfold within. set_solver. Qed.

Lemma exec_batch_within (I : V → Prop) {SI : StoreInvariant I} play serials w :
  extends I (within serials) w
    (exec_batch onlyTags skipTags SetControllerReference play serials w).2.
Proof.
  unfold exec_batch. destruct (negb _); [apply extends_refl|].
  apply extends_seq. unfold batch_steps. repeat constructor; intros w1.
  - apply (extends_merge I).
  - apply (Exec_blocks_within I (play_env play serials)).
  - apply extends_seq, list.Forall_forall. intros role _ w2.
    apply (Exec_role_within I role (play_role_env play serials (role_info role))).
  - apply (Exec_blocks_within I (play_env play serials)).
  - apply (Exec_blocks_within I (play_env play serials)).
Qed.

Lemma Exec_play_within (I : V → Prop) {SI : StoreInvariant I} known play w :
  (∀ names v l, I v → vs_hostnames names v = Ok l → l ⊆ known) → I (w_vars w) →
  extends I (within known) w (Exec_play play w).2.
Proof.
  intros HK Hw0. unfold PlayExec.Exec_play. destruct (negb _); [apply extends_refl|].
  destruct (dealHosts _ _) as [hosts|er|p] eqn:EH; [|apply extends_refl..].
  assert (hosts ⊆ known) as Hh.
  { unfold dealHosts in EH. apply rbind_ok in EH as (hs & E & EH). destruct (nonempty hs); [|done].
    injection EH as <-. by eapply HK. }
  assert (∀ w', extends I (within hosts) w w' → extends I (within known) w w') as Hw.
  { intros w'. apply extends_weaken. intros t. by apply within_weaken. }
  assert (extends I (within hosts) w (dealGatherFacts (p_gather_facts play) hosts w).2) as HG.
  { unfold dealGatherFacts. destruct (p_gather_facts play); [|apply extends_refl].
    apply (extends_Exec_task I). intros st h Hin. exact Hin. }
  destruct (dealGatherFacts _ _ _) as [[[]|er|p] w1]; simpl in HG; [|by apply Hw..].
  destruct (GroupHostBySerial _ _ _) as [batches|er|p] eqn:EB; [|by apply Hw..].
  pose proof (extends_seq I (within hosts) (exec_batch onlyTags skipTags SetControllerReference play)
                (play_run_once (p_run_once play) hosts batches) w1) as HS.
  unfold execBatchHosts. destruct (exec_seq _ _ _) as [r w2]. simpl in *. apply Hw.
  eapply extends_trans; [exact HG|]. apply HS.
  assert (Forall (λ b, b ⊆ hosts) (play_run_once (p_run_once play) hosts batches)) as HF.
  { unfold play_run_once. destruct (p_run_once play); [|by eapply GroupHostBySerial_sub].
    repeat constructor. intros h (i & Hi & _)%elem_of_take. by apply list_elem_of_lookup_2 in Hi. }
  eapply Forall_impl; [exact HF|]. intros b Hb w3.
  apply (extends_weaken I (within b)); [intros t; by apply within_weaken|apply (exec_batch_within I)].
Qed.

Lemma Exec_plays_within (I : V → Prop) {SI : StoreInvariant I} known plays w :
  (∀ names v l, I v → vs_hostnames names v = Ok l → l ⊆ known) → I (w_vars w) →
  extends I (within known) w (Exec_plays plays w).2.
Proof.
  intros HK. revert w. induction plays as [|play plays IH]; intros w Hw; simpl; [apply extends_refl|].
  pose proof (Exec_play_within I known play w HK Hw) as HP.
  destruct (Exec_play play w) as [[[er|]|p|p] w1]; simpl in *; [done| |done..].
  eapply extends_trans; [exact HP|apply IH]. by destruct HP as (new & _ & _ & _ & HI); apply HI.
Qed.

Lemma Exec_playbook_within (I : V → Prop) {SI : StoreInvariant I} known project w old :
  (∀ names v l, I v → vs_hostnames names v = Ok l → l ⊆ known) → I (w_vars w) →
  extends I (within known) w (Exec_playbook project w old).1.2.
Proof.
  intros HK Hw. unfold PlayExec.Exec_playbook. destruct project as [plays|e|why]; [|apply extends_refl..].
  pose proof (Exec_plays_within I known plays w HK Hw) as H. by destruct (Exec_plays plays w).
Qed.

(** C3: a playbook only ever creates tasks for hosts the store resolves
    (GetHostnames), each created task is counted once under its final phase,
    and when the executor returns the recorded phase is Failed exactly when it
    returned an error.  Whatever every merge and every module keep of the
    variables, it keeps. *)
Theorem Exec_playbook_spec (I : V → Prop) {SI : StoreInvariant I} known project w old :
  (∀ names v l, I v → vs_hostnames names v = Ok l → l ⊆ known) → I (w_vars w) →
  let '(o, w', st) := Exec_playbook project w old in
  I (w_vars w') ∧
  (∃ new, w_tasks w' = w_tasks w ++ new ∧ Forall (λ t, Hosts (Spec t) ⊆ known) new ∧
     (Total (w_stats w') = Total (w_stats w) + Z.of_nat (length new) ∧
      Success (w_stats w') = Success (w_stats w) + count_phase TaskPhaseSuccess new ∧
      Ignored (w_stats w') = Ignored (w_stats w) + count_phase TaskPhaseIgnored new ∧
      Failed (w_stats w') = Failed (w_stats w) + count_phase TaskPhaseFailed new)%Z) ∧
  (∀ r, o = Returned r →
     ps_statistics st = w_stats w' ∧
     (ps_phase st = PlaybookPhaseFailed ↔ r ≠ None) ∧ (ps_phase st = PlaybookPhaseSucceeded ↔ r = None) ∧
     (∀ e, r = Some e → ps_failure_message st = error_text e)).
Proof.
  intros HK Hw. pose proof (Exec_playbook_within I known project w old HK Hw) as HE.
  unfold PlayExec.Exec_playbook in *.
  destruct (match project with Err e => _ | Panic why => _ | Ok plays => _ end) as [o w']. cbn [fst snd] in HE.
  split; [destruct HE as (? & _ & _ & _ & HI); by apply HI|]. split.
  - destruct HE as (new & H1 & H2 & H3 & _). exists new. split; [done|]. split; [exact H3|].
    rewrite H2. apply count_tasks_spec.
  - intros [e|] ->; simpl; naive_solver.
Qed.

(** The conditions a role executor is given are never used: a role's
    [when] does not reach the roles it depends on. *)
Theorem role_when_not_inherited r w e when :
  Exec_role e r w =
  Exec_role {| re_hosts := re_hosts e; re_ignoreErrors := re_ignoreErrors e; re_when := when;
               re_tags := re_tags e |} r w.
Proof.
  revert e when w. induction r as [info deps block IH]. intros e when w. cbn [PlayExec.Exec_role re_tags].
  destruct (negb _); [done|]. cbn [re_hosts].
  destruct (merge_vars _ _ _) as [[[]|er|p] w1]; [|done..].
  rewrite (exec_seq_ext _ (λ dep, Exec_role (role_child {| re_hosts := re_hosts e;
             re_ignoreErrors := re_ignoreErrors e; re_when := when; re_tags := re_tags e |} (role_info dep)) dep)).
  2: { eapply Forall_impl; [exact IH|]. intros dep H w2. cbn [role_child re_hosts re_ignoreErrors re_tags].
       rewrite (H _ (dealWhen when (r_when (role_info dep)))). done. }
  destruct (exec_seq _ deps w1) as [[[]|er|p] w2]; done.
Qed.

(** A play whose hosts cannot be resolved, or resolve to nothing, is
    skipped without an error: a playbook of such plays succeeds and runs
    nothing. *)
Theorem unresolved_plays_succeed plays w old :
  Forall (λ play, ∀ hosts, vs_hostnames (p_hosts play) (w_vars w) = Ok hosts → hosts = []) plays →
  Forall (λ play, is_panic (vs_hostnames (p_hosts play) (w_vars w)) = false) plays →
  Exec_playbook (Ok plays) w old =
  (Returned None, w,
   {| ps_phase := PlaybookPhaseSucceeded; ps_failure_reason := ps_failure_reason old;
      ps_failure_message := ps_failure_message old; ps_statistics := w_stats w;
      ps_result := vs_result (w_vars w) |}).
Proof.
  intros H1 H2. unfold PlayExec.Exec_playbook.
  assert (Exec_plays plays w = (Returned None, w)) as ->; [|done].
  induction H1 as [|play plays Hp H1 IH]; [done|]. apply Forall_cons in H2 as [Hq H2].
  cbn [PlayExec.Exec_plays]. unfold PlayExec.Exec_play. destruct (negb _); [by apply IH|].
  unfold dealHosts. destruct (vs_hostnames _ _) as [hosts|er|p]; simpl in *; [|by apply IH|done].
  rewrite (Hp hosts eq_refl). by apply IH.
Qed.

(** A panic on the playbook's own goroutine (serial batches that cover
    more than the hosts) is recorded as success: the deferred update of the
    status runs while the error to return is still nil. *)
Theorem panic_recorded_as_success play plays w old hosts why :
  IsEnabled (p_tags play) onlyTags skipTags = true →
  vs_hostnames (p_hosts play) (w_vars w) = Ok hosts → hosts ≠ [] → p_gather_facts play = false →
  GroupHostBySerial ParseFloat hosts (p_serial play) = Panic why →
  ∃ st, Exec_playbook (Ok (play :: plays)) w old = (OwnPanic why, w, st) ∧
        ps_phase st = PlaybookPhaseSucceeded.
Proof.
  intros HT HH Hne HG HS. unfold PlayExec.Exec_playbook. cbn [PlayExec.Exec_plays]. unfold PlayExec.Exec_play.
  rewrite HT. unfold dealHosts. rewrite HH. cbn [negb rbind].
  destruct (nonempty_spec hosts); [|done]. rewrite HG. cbn [dealGatherFacts]. rewrite HS. by eexists.
Qed.

End Properties.

(** ** Small instances *)

#[local] Existing Instances counting_store no_templates small_engine.

Definition small_play (hosts : list string) (serial : list SerialItem) (tasks : list (Block unit)) : Play unit :=
  {| p_import_playbook := ""; p_hosts := hosts; p_gather_facts := false; p_vars := (); p_run_once := false;
     p_ignore_errors := None; p_tags := {| Tags := [] |}; p_serial := serial; p_vars_files := []; p_pre_tasks := [];
     p_roles := []; p_tasks := tasks; p_post_tasks := [] |}.

Definition new_status : PlaybookStatus :=
  {| ps_phase := PlaybookPhaseNone; ps_failure_reason := ""; ps_failure_message := "";
     ps_statistics := w_stats empty_world; ps_result := VNil |}.

Definition no_floats (_ : string) : option spec_float := None.

Lemma Exec_playbook_spec_witness :
  let '(o, w', st) := Exec_playbook [] [] no_owner_error no_floats
                        (Ok [small_play ["a"; "x"; "b"] [] [small_block "ok"; small_block "fail"; small_block "ok"]])
                        empty_world new_status in
  Total (w_stats w') = 2%Z ∧ ps_phase st = PlaybookPhaseFailed.
Proof.
  pose proof (Exec_playbook_spec [] [] no_owner_error no_floats (λ _, True) ["h"; "a"; "b"; "c"]
    (Ok [small_play ["a"; "x"; "b"] [] [small_block "ok"; small_block "fail"; small_block "ok"]])
    empty_world new_status) as H.
  assert (∀ names (v : nat) l, True → vs_hostnames names v = Ok l → l ⊆ ["h"; "a"; "b"; "c"]) as HK.
  { intros names v l _ [= <-] h Hh%list_elem_of_In%List.filter_In. apply contains_true, Hh. }
  specialize (H HK Logic.I). remember (Exec_playbook _ _ _ _ _ _ _) as o eqn:E.
  vm_compute in E. subst o. destruct H as (_ & (new & Hn & _ & HT & _) & H).
  split; [reflexivity|]. destruct (H _ eq_refl) as (_ & HF & _). by apply HF.
Defined.

Lemma unresolved_plays_succeed_witness :
  (Exec_playbook [] [] no_owner_error no_floats (Ok [small_play ["x"] [] [small_block "fail"]])
     empty_world new_status).1 = (Returned None, empty_world).
Proof.
  rewrite (unresolved_plays_succeed [] [] no_owner_error no_floats); [done|repeat constructor..].
  intros hosts [= <-]. done.
Defined.

Lemma panic_recorded_as_success_witness :
  ∃ st, Exec_playbook [] [] no_owner_error no_floats
          (Ok [small_play ["a"; "b"; "c"] [SInt 2; SInt 2; SInt 2] [small_block "ok"]]) empty_world new_status
        = (OwnPanic "slice bounds out of range", empty_world, st) ∧
        ps_phase st = PlaybookPhaseSucceeded.
Proof.
  eapply (panic_recorded_as_success [] [] no_owner_error no_floats _ [] empty_world new_status ["a"; "b"; "c"]);
    [vm_compute; reflexivity|vm_compute; reflexivity|done|done|vm_compute; reflexivity].
Defined.
