(* ===== verification/Modules.v ===== *)
(** * Modules: [src/feature/pkg/modules]

    The modules that work on the variables alone: assert, debug, set_fact,
    add_hostvars, result and setup (with the connection to the host as a
    parameter), the argument helpers of [variable/helper.go] and the registry.
    A module is a program over the variable store; it is written against the
    store's interface. *)

From S2P Require Import Prelude GoStrings Values Vars Prog Tmpl YamlNode TaskExec.
From stdpp Require Import gmap strings list sets.
From Stdlib Require Import Ascii String.

#[local] Open Scope nat_scope.

(** ** What the modules use *)

(** The rest of the variable store: the merge functions only modules use, and
    the node a module has decoded as the store takes it. *)
Class ModuleStore (V Node : Type) {VS : VarStore V Node} := {
  ms_node : YamlNode.Node → Node;
  ms_merge_hosts : Node → string → list string → V → V * result unit;    (* Merge(MergeHostsRuntimeVariable) *)
  ms_merge_remote : gmap string value → list string → V → V * result unit;   (* Merge(MergeRemoteVariable) *)
  ms_merge_result : value → V → V * result unit;                             (* Merge(MergeResultVariable) *)
}.

(** Libraries: the YAML and JSON decoders, [unstructured.NestedFieldNoCopy] and
    [NestedString], [json.Marshal] and [json.MarshalIndent]. *)
Class ModuleLibraries := {
  json_unmarshal : string → option (gmap string value);
  json_strings : string → option (list string);
  yaml_node : string → error + YamlNode.Node;
  yaml_value : string → error + value;
  decode_any : YamlNode.Node → error + value;
  NestedFieldNoCopy : gmap string value → list string → error + option value;
  NestedString : gmap string value → list string → error + option string;
  json_marshal : value → error + string;
  json_indent : value → option string;
}.

(** Connecting to a host of the store and asking for its facts: an error, no
    facts from this kind of connector, or what the host answered. *)
Class Connectors (V : Type) := {
  connect : string → V → error + option (error + gmap string value);
}.

Definition StdoutSuccess : string := "success".
Definition StdoutFailed : string := "failed".
Definition StdoutTrue : string := "True".
Definition StdoutFalse : string := "False".

(** ** Arguments: [variable/helper.go] *)

Section Arguments.
Context {LB : Libraries} {ML : ModuleLibraries}.

Definition cannot_find (keys : list string) : error := Msg ("cannot find variable " +:+ StrJoin keys ".").

Definition PrintVar (ctx : gmap string value) (keys : list string) : result value :=
  match NestedFieldNoCopy ctx keys with
  | inl e => Err e
  | inr None => Err (cannot_find keys)
  | inr (Some sv) => Ok sv
  end.

Definition StringVar (ctx args : gmap string value) (keys : list string) : result string :=
  match NestedString args keys with
  | inl e => Err e
  | inr None => Err (cannot_find keys)
  | inr (Some sv) => Parse tmpl_execute ctx sv
  end.

(** The loop over a list: an item that is no string ends it without an error. *)
Fixpoint parse_items (ctx : gmap string value) (l : list value) (ss : list string) : result (list string) :=
  match l with
  | [] => Ok ss
  | VStr av :: rest => let! as_ := Parse tmpl_execute ctx av in parse_items ctx rest (ss ++ [as_])%list
  | _ :: _ => Ok []
  end.

(** Decoded arguments hold no [[]string]. *)
Definition StringSliceVar (ctx args : gmap string value) (keys : list string) : result (list string) :=
  match NestedFieldNoCopy args keys with
  | inl e => Err e
  | inr None => Err (cannot_find keys)
  | inr (Some (VList l)) => parse_items ctx l []
  | inr (Some (VStr valv)) =>
      let! as_ := Parse tmpl_execute ctx valv in
      Ok (match json_strings as_ with Some ss => ss | None => [as_] end)
  | inr (Some _) => Err (Msg ("unsupported variable " +:+ StrJoin keys "." +:+ " type"))
  end.

(** ** assert *)

Record assertArgs := { that : list string; successMsg : string; failMsg : string; msg : string }.

(** [aa.m, _ = StringVar(...)], and the default for the empty string. *)
Definition message (vars args : gmap string value) (key dflt : string) : result string :=
  match StringVar vars args [key] with
  | Ok m => Ok (if bool_decide (m = "") then dflt else m)
  | Err _ => Ok dflt
  | Panic w => Panic w
  end.

Definition newAssertArgs (raw : string) (vars : gmap string value) : result assertArgs :=
  let args := Extension2Variables json_unmarshal raw in
  match StringSliceVar vars args ["that"] with
  | Err _ => Err (Msg "that should be []string or string")
  | Panic w => Panic w
  | Ok l =>
      let that := map (λ s, if IsTmplSyntax s then s else ParseTmplSyntax s) l in
      let! successMsg := message vars args "success_msg" StdoutTrue in
      let! failMsg := message vars args "fail_msg" StdoutFalse in
      let! msg := message vars args "msg" StdoutFalse in
      Ok {| that := that; successMsg := successMsg; failMsg := failMsg; msg := msg |}
  end.

(** What [ModuleAssert] returns in the variables [ha]. *)
Definition assert_in (raw : string) (ha : gmap string value) : result output :=
  let! aa := newAssertArgs raw ha in
  match ParseBool tmpl_execute ha (that aa) with
  | Err e => Err (Wrap "parse that error" e)
  | Panic w => Panic w
  | Ok true => Ok (successMsg aa, "")
  | Ok false =>
      if negb (bool_decide (failMsg aa = "")) then Ok ("", failMsg aa)
      else if negb (bool_decide (msg aa = "")) then Ok ("", msg aa)
      else Ok (StdoutFalse, "False")
  end.

(** ** debug *)

Definition TrimTmplSyntax (s : string) : string := TrimSpace (TrimSuffix (TrimPrefix s "{{") "}}").

(** [formatOutput]; the log is left out. *)
Definition formatOutput (data : value) : string := default "" (json_indent data).

Definition debug_in (raw : string) (ha : gmap string value) : result output :=
  let args := Extension2Variables json_unmarshal raw in
  match default VNil (args !! "msg") with
  | VNil => Ok ("", "msg is not found")
  | VStr v =>
      if negb (IsTmplSyntax v) then Ok (formatOutput (VBytes v), "")
      else
        let val := TrimTmplSyntax v in
        if negb (HasPrefix val ".") then Ok ("", "error tmpl value syntax")
        else let! data := PrintVar ha (drop 1 (Split val ".")) in Ok (formatOutput data, "")
  | v =>
      match json_marshal v with
      | inl e => Err e
      | inr data => Ok (formatOutput (VBytes data), "")
      end
  end.

(** ** add_hostvars *)

Record addHostvarsArgs := { hosts : list string; vars : YamlNode.Node }.

(** The loop over the pairs of the root's content. *)
Fixpoint hostvars_pairs (ctx : gmap string value) (content : list YamlNode.Node) (args : addHostvarsArgs)
    : result addHostvarsArgs :=
  match content with
  | keyNode :: valueNode :: rest =>
      if bool_decide (n_value keyNode = "hosts") then
        match decode_any valueNode with
        | inl _ => Err (Msg "cannot decode hosts")
        | inr val =>
            match StringSliceVar ctx {["hosts" := val]} ["hosts"] with
            | Panic w => Panic w
            | r => hostvars_pairs ctx rest {| hosts := match r with Ok l => l | _ => [] end; vars := vars args |}
            end
        end
      else if bool_decide (n_value keyNode = "vars")
      then hostvars_pairs ctx rest {| hosts := hosts args; vars := valueNode |}
      else hostvars_pairs ctx rest args
  | [_] => Panic "index out of range"
  | [] => Ok args
  end.

Definition newAddHostvarsArgs (raw : string) (ctx : gmap string value) : result addHostvarsArgs :=
  match yaml_node raw with
  | inl e => Err e
  | inr node =>
      match n_content node with
      | [] => Panic "index out of range"
      | root :: others =>
          if nonempty others && negb (bool_decide (n_kind root = MappingNode))
          then Err (Msg "module argument format error")
          else
            let! args := hostvars_pairs ctx (n_content root) {| hosts := []; vars := MkNode KindZero "" "" [] |} in
            if negb (nonempty (hosts args)) then Err (Msg "hosts should be string or string array")
            else if IsZero (vars args) then Err (Msg "vars should not be empty")
            else Ok args
      end
  end.

(** ** result *)

(** The text a result is decoded from: the error of the template is dropped. *)
Definition result_arg (raw : string) (ha : gmap string value) : result string :=
  match Extension2String ha raw with
  | Ok arg => Ok arg
  | Err _ => Ok ""
  | Panic w => Panic w
  end.

End Arguments.

(** ** The modules *)

Section Modules.
Context {V Node : Type} {VS : VarStore V Node} {MS : ModuleStore V Node} {LB : Libraries} {ML : ModuleLibraries}
        {CN : Connectors V}.

Notation module := (TaskSpec → string → prog V module_end).

(** How a module ends: an error is its standard error. *)
Definition finish (r : result output) : module_end :=
  match r with
  | Ok out => inr out
  | Err e => inr ("", error_text e)
  | Panic w => inl w
  end.

(** [getAllVariables] *)
Definition getAllVariables (host : string) : prog V (result (gmap string value)) :=
  do! ha <- get_all host in
  PRet (match ha with
        | Ok (VMap vd) => Ok vd
        | Ok _ => Err (Msg ("host: " +:+ host +:+ " variable is not a map"))
        | Err e => Err e
        | Panic w => Panic w
        end).

Definition ModuleAssert : module := λ s host,
  do! ha <- getAllVariables host in PRet (finish (rbind ha (assert_in (ModuleArgs s)))).

Definition ModuleDebug : module := λ s host,
  do! ha <- getAllVariables host in PRet (finish (rbind ha (debug_in (ModuleArgs s)))).

(** A merge that ends the module. *)
Definition merging (what : string) (out : output) (r : result unit) : result output :=
  match r with
  | Ok _ => Ok out
  | Err e => Err (Wrap what e)
  | Panic w => Panic w
  end.

Definition ModuleSetFact : module := λ s host,
  match yaml_node (ModuleArgs s) with
  | inl e => PRet (finish (Err (Wrap "failed to unmarshal YAML error" e)))
  | inr node =>
      do! r <- merge_runtime (ms_node node) [host] in PRet (finish (merging "set_fact error" (StdoutSuccess, "") r))
  end.

Definition ModuleAddHostvars : module := λ s host,
  do! ha <- getAllVariables host in
  match rbind ha (newAddHostvarsArgs (ModuleArgs s)) with
  | Ok args =>
      do! ahn <- atomic (λ v, (v, vs_hostnames (hosts args) v)) in
      match ahn with
      | Ok hs =>
          do! r <- atomic (ms_merge_hosts (ms_node (vars args)) host hs) in
          PRet (finish (merging "add_hostvars error" ("", "") r))
      | Err e => PRet (finish (Err e))
      | Panic w => PRet (inl w)
      end
  | Err e => PRet (finish (Err e))
  | Panic w => PRet (inl w)
  end.

Definition ModuleResult : module := λ s host,
  do! ha <- getAllVariables host in
  match rbind ha (result_arg (ModuleArgs s)) with
  | Ok arg =>
      match yaml_value arg with
      | inl e => PRet (finish (Err (Wrap "failed to unmarshal YAML error" e)))
      | inr res =>
          do! r <- atomic (ms_merge_result res) in PRet (finish (merging "result error" (StdoutSuccess, "") r))
      end
  | Err e => PRet (finish (Err e))
  | Panic w => PRet (inl w)
  end.

(** The host [getConnector] connects to. *)
Definition delegated (s : TaskSpec) (host : string) (ha : gmap string value) : result string :=
  if bool_decide (DelegateTo s = "") then Ok host
  else match Parse tmpl_execute ha (DelegateTo s) with
       | Ok h => Ok h
       | Err _ => Err (Msg ("failed to delegate " +:+ host +:+ " to " +:+ DelegateTo s))
       | Panic w => Panic w
       end.

(** [getConnector]; its connection is asked for facts at once. *)
Definition getConnector (s : TaskSpec) (host : string) : prog V (result (option (error + gmap string value))) :=
  do! ha <- getAllVariables host in
  match rbind ha (delegated s host) with
  | Ok h => atomic (λ v, (v, match connect h v with inl e => Err e | inr facts => Ok facts end))
  | Err e => PRet (Err e)
  | Panic w => PRet (Panic w)
  end.

Definition ModuleSetup : module := λ s host,
  do! conn <- getConnector s host in
  match conn with
  | Err e => PRet (inr (StdoutFailed, "failed to connector of " +:+ host +:+ " error: " +:+ error_text e))
  | Panic w => PRet (inl w)
  | Ok None => PRet (inr (StdoutSuccess, ""))
  | Ok (Some (inl e)) => PRet (inr (StdoutFailed, error_text e))
  | Ok (Some (inr remoteInfo)) =>
      do! r <- atomic (ms_merge_remote remoteInfo [host]) in
      PRet (match r with
            | Ok _ => inr (StdoutSuccess, "")
            | Err e => inr (StdoutFailed, error_text e)
            | Panic w => inl w
            end)
  end.

(** ** The registry: [module.go] *)

Definition RegisterModule (name : string) (exec : module) (registry : gmap string module) : result (gmap string module) :=
  match registry !! name with
  | Some _ => Err (Msg ("module " +:+ name +:+ " is exist"))
  | None => Ok (<[name := exec]> registry)
  end.

(** [utilruntime.Must] of each [init] function, in the order of the files. *)
Fixpoint register_all (l : list (string * module)) (registry : gmap string module) : result (gmap string module) :=
  match l with
  | [] => Ok registry
  | (name, exec) :: rest =>
      match RegisterModule name exec registry with
      | Ok registry' => register_all rest registry'
      | Err e => Panic (error_text e)
      | Panic w => Panic w
      end
  end.

Definition variable_modules : list (string * module) :=
  [("add_hostvars", ModuleAddHostvars); ("assert", ModuleAssert); ("debug", ModuleDebug);
   ("result", ModuleResult); ("set_fact", ModuleSetFact); ("setup", ModuleSetup)].

End Modules.

(** ** What the modules keep *)

Section Keeps.
Context {V Node : Type} {VS : VarStore V Node} {MS : ModuleStore V Node} {LB : Libraries} {ML : ModuleLibraries}
        {CN : Connectors V}.

(** A property of the variables that every merge keeps. *)
Class MergesKeep (I : V → Prop) := {
  keeps_merge_runtime n hs v : I v → I (vs_merge_runtime n hs v).1;
  keeps_merge_hosts n h hs v : I v → I (ms_merge_hosts n h hs v).1;
  keeps_merge_remote data hs v : I v → I (ms_merge_remote data hs v).1;
  keeps_merge_result r v : I v → I (ms_merge_result r v).1;
}.

Context (I : V → Prop) {MK : MergesKeep I}.

#[local] Notation safe := (psafe I (λ _, True)).

Lemma safe_bind {A B} (p : prog V A) (k : A → prog V B) : safe p → (∀ a, safe (k a)) → safe (pbind p k).
Proof. intros Hp Hk. eapply psafe_bind; [exact Hp|]. by intros a _. Qed.

Lemma safe_get {A} (f : V → A) : safe (atomic (λ v, (v, f v))).
Proof. by apply psafe_atomic. Qed.

Lemma safe_step {A} (f : V → V * A) : (∀ v, I v → I (f v).1) → safe (atomic f).
Proof. intros H. apply psafe_atomic. intros v Hv. split; [by apply H|done]. Qed.

Lemma safe_getAllVariables host : safe (getAllVariables host).
Proof. apply safe_bind; [apply safe_get|done]. Qed.

Ltac module_step :=
  match goal with
  | |- safe (getAllVariables _) => apply safe_getAllVariables
  | |- safe (atomic (λ v, (v, _))) => apply safe_get
  | |- safe (merge_runtime _ _) => apply safe_step; intros; by apply keeps_merge_runtime
  | |- safe (atomic _) =>
      apply safe_step; intros; first [by apply keeps_merge_hosts|by apply keeps_merge_remote|by apply keeps_merge_result]
  | |- safe (pbind _ _) => apply safe_bind
  | |- safe (PRet _) => exact Logic.I
  | |- ∀ _, _ => intros ?
  | |- context [match ?x with _ => _ end] => destruct x
  end.

Lemma variable_modules_keep name exec s host : (name, exec) ∈ variable_modules → safe (exec s host).
Proof.
  unfold variable_modules. rewrite !elem_of_cons.
  intros [[= _ ->]|[[= _ ->]|[[= _ ->]|[[= _ ->]|[[= _ ->]|[[= _ ->]|H]]]]]]; [..|by apply not_elem_of_nil in H].
  - unfold ModuleAddHostvars. repeat module_step.
  - unfold ModuleAssert. repeat module_step.
  - unfold ModuleDebug. repeat module_step.
  - unfold ModuleResult. repeat module_step.
  - unfold ModuleSetFact. repeat module_step.
  - unfold ModuleSetup, getConnector. repeat module_step.
Qed.

Lemma register_all_lookup l (others registry : gmap string (TaskSpec → string → prog V module_end)) name exec :
  register_all l others = Ok registry → registry !! name = Some exec → (name, exec) ∈ l ∨ others !! name = Some exec.
Proof.
  revert others. induction l as [|[k x] l IH]; intros others H Hn; simpl in H; [injection H as <-; by right|].
  unfold RegisterModule in H. destruct (others !! k) eqn:E; [done|].
  destruct (IH _ H Hn) as [?|Hi]; [left; by right|]. apply lookup_insert_Some in Hi as [[<- <-]|[_ ?]]; [left; by left|by right].
Qed.

(** What the merges keep, the registered modules keep, when the others do. *)
Lemma registry_keeps (others registry : gmap string (TaskSpec → string → prog V module_end)) name exec s host :
  register_all variable_modules others = Ok registry →
  (∀ name exec s host, others !! name = Some exec → safe (exec s host)) →
  registry !! name = Some exec → safe (exec s host).
Proof.
  intros HR HO Hn. destruct (register_all_lookup _ _ _ _ _ HR Hn); [by eapply variable_modules_keep|by eapply HO].
Qed.

End Keeps.

(** ** Properties *)

(** What [NestedFieldNoCopy] and [NestedString] document for one key: the
    field, or that there is none. *)
Class NestedLaws {ML : ModuleLibraries} := {
  nested_found m k v : m !! k = Some v → NestedFieldNoCopy m [k] = inr (Some v);
  nested_string_found m k s : m !! k = Some (VStr s) → NestedString m [k] = inr (Some s);
  nested_string_missing m k : m !! k = None → NestedString m [k] = inr None;
}.

Section Assert.
Context {V Node : Type} {VS : VarStore V Node} {MS : ModuleStore V Node} {LB : Libraries} {ML : ModuleLibraries}
        {NL : NestedLaws}.

Lemma run_getAllVariables host v ha :
  vs_all host v = Ok (VMap ha) → run (getAllVariables host) v = (v, Ok ha).
Proof. intros H. unfold getAllVariables, get_all. rewrite run_pbind. simpl. by rewrite H. Qed.

Lemma parse_items_strings ha l outs ss :
  Forall2 (λ c o, Parse tmpl_execute ha c = Ok o) l outs →
  parse_items ha (map VStr l) ss = Ok (ss ++ outs)%list.
Proof.
  intros H. revert ss. induction H as [|c o l outs Hc _ IH]; intros ss; simpl; [by rewrite app_nil_r|].
  rewrite Hc. simpl. rewrite IH. by rewrite <- app_assoc.
Qed.

Definition is_string (v : value) : bool := match v with VStr _ => true | _ => false end.

Lemma parse_items_other ha l x rest ss :
  is_string x = false → Forall (λ c, ∃ o, Parse tmpl_execute ha c = Ok o) l →
  parse_items ha (map VStr l ++ x :: rest) ss = Ok [].
Proof.
  intros Hx H. revert ss. induction H as [|c l [o Hc] _ IH]; intros ss; simpl; [by destruct x|].
  rewrite Hc. simpl. apply IH.
Qed.

(** A message that is missing or no template. *)
Definition literal_text (args : gmap string value) (key : string) : Prop :=
  match args !! key with
  | None => True
  | Some (VStr t) => IsTmplSyntax t = false
  | Some _ => False
  end.

Definition text_or (args : gmap string value) (key dflt : string) : string :=
  match args !! key with
  | Some (VStr t) => if bool_decide (t = "") then dflt else t
  | _ => dflt
  end.

Lemma message_literal ha args key dflt :
  literal_text args key → message ha args key dflt = Ok (text_or args key dflt).
Proof.
  unfold literal_text, text_or, message, StringVar. destruct (args !! key) as [[]|] eqn:E; try done.
  - intros H. rewrite (nested_string_found _ _ _ E). unfold Parse, ParseFunc. by rewrite H.
  - intros _. by rewrite (nested_string_missing _ _ E).
Qed.

Lemma newAssertArgs_ok raw ha items l :
  let args := Extension2Variables json_unmarshal raw in
  args !! "that" = Some (VList items) → parse_items ha items [] = Ok l →
  (∀ key, key ∈ ["success_msg"; "fail_msg"; "msg"] → literal_text args key) →
  newAssertArgs raw ha =
  Ok {| that := map (λ s, if IsTmplSyntax s then s else ParseTmplSyntax s) l;
        successMsg := text_or args "success_msg" StdoutTrue; failMsg := text_or args "fail_msg" StdoutFalse;
        msg := text_or args "msg" StdoutFalse |}.
Proof.
  intros args Ht Hp HL. unfold newAssertArgs, StringSliceVar. fold args. rewrite (nested_found _ _ _ Ht), Hp.
  rewrite !message_literal by (apply HL; set_solver). done.
Qed.

Lemma text_or_nonempty args key dflt : dflt ≠ "" → text_or args key dflt ≠ "".
Proof. unfold text_or. destruct (args !! key) as [[]|]; try done. by case_bool_decide. Qed.

(** Assert prints its success message exactly when every condition, the
    text its own template gives taken as a condition again, is true, and
    otherwise its failure message or "False": the text of "msg" is never used
    (the default of "fail_msg" precedes it).  A condition that is no string,
    even the boolean false, makes the whole assertion succeed. *)
Theorem assert_spec s host v ha items :
  let args := Extension2Variables json_unmarshal (ModuleArgs s) in
  vs_all host v = Ok (VMap ha) → args !! "that" = Some (VList items) →
  (∀ key, key ∈ ["success_msg"; "fail_msg"; "msg"] → literal_text args key) →
  let success := text_or args "success_msg" StdoutTrue in
  let failure := text_or args "fail_msg" StdoutFalse in
  (∀ l outs, items = map VStr l → Forall2 (λ c o, Parse tmpl_execute ha c = Ok o) l outs →
   let conditions := map (λ o, if IsTmplSyntax o then o else ParseTmplSyntax o) outs in
   run (ModuleAssert s host) v =
   (v, match ParseBool tmpl_execute ha conditions with
       | Ok true => inr (success, "")
       | Ok false => inr ("", failure)
       | Err e => inr ("", "parse that error: " +:+ error_text e)
       | Panic w => inl w
       end)) ∧
  (∀ l x rest, items = (map VStr l ++ x :: rest)%list → is_string x = false →
   Forall (λ c, ∃ o, Parse tmpl_execute ha c = Ok o) l →
   run (ModuleAssert s host) v = (v, inr (success, ""))).
Proof.
  intros args Hv Ht HL success failure.
  assert (∀ l, parse_items ha items [] = Ok l →
            run (ModuleAssert s host) v =
            (v, match ParseBool tmpl_execute ha (map (λ o, if IsTmplSyntax o then o else ParseTmplSyntax o) l) with
                | Ok true => inr (success, "")
                | Ok false => inr ("", failure)
                | Err e => inr ("", "parse that error: " +:+ error_text e)
                | Panic w => inl w
                end)) as HR.
  { intros l Hl. unfold ModuleAssert. rewrite run_pbind, (run_getAllVariables _ _ _ Hv). simpl. unfold assert_in.
    rewrite (newAssertArgs_ok _ _ _ _ Ht Hl HL). simpl. f_equal.
    destruct (ParseBool _ _ _) as [[]|e|w]; [done| |done..].
    rewrite bool_decide_false by (by apply text_or_nonempty). done. }
  split.
  - intros l outs -> H. by apply HR, (parse_items_strings ha l outs []).
  - intros l x rest -> Hx H. by rewrite (HR [] (parse_items_other _ _ _ _ _ Hx H)).
Qed.

End Assert.

Section Departures.
Context {V Node : Type} {VS : VarStore V Node} {MS : ModuleStore V Node} {LB : Libraries} {ML : ModuleLibraries}.

(** A result whose template fails is recorded as nil, and the module
    succeeds. *)
Lemma result_swallows_template_error s host v ha e :
  vs_all host v = Ok (VMap ha) → Extension2String ha (ModuleArgs s) = Err e → yaml_value "" = inr VNil →
  (ms_merge_result VNil v).2 = Ok tt →
  run (ModuleResult s host) v = ((ms_merge_result VNil v).1, inr (StdoutSuccess, "")).
Proof.
  intros Hv He Hy Hm. unfold ModuleResult. rewrite run_pbind, (run_getAllVariables _ _ _ Hv). simpl.
  unfold result_arg. rewrite He. simpl. rewrite Hy. simpl.
  destruct (ms_merge_result VNil v) as [v' r]. simpl in *. by subst r.
Qed.

(** A list with one item as arguments crashes add_hostvars. *)
Lemma add_hostvars_panics s host v ha item t t' w w' :
  vs_all host v = Ok (VMap ha) →
  yaml_node (ModuleArgs s) = inr (MkNode DocumentNode t w [MkNode SequenceNode t' w' [item]]) →
  run (ModuleAddHostvars s host) v = (v, inl "index out of range").
Proof.
  intros Hv Hn. unfold ModuleAddHostvars. rewrite run_pbind, (run_getAllVariables _ _ _ Hv). simpl.
  unfold newAddHostvarsArgs. by rewrite Hn.
Qed.

(** The documented message, with text before its template, is an error. *)
Lemma debug_text_before_template s host v ha :
  vs_all host v = Ok (VMap ha) →
  Extension2Variables json_unmarshal (ModuleArgs s) !! "msg" = Some (VStr "I'm {{ .name }}") →
  run (ModuleDebug s host) v = (v, inr ("", "error tmpl value syntax")).
Proof.
  intros Hv Hm. unfold ModuleDebug. rewrite run_pbind, (run_getAllVariables _ _ _ Hv). simpl.
  unfold debug_in. rewrite Hm. reflexivity.
Qed.

End Departures.

(** ** A small instance *)

#[local] Existing Instances counting_store.

Definition counting_modules : ModuleStore nat unit := {|
  ms_node := λ _, ();
  ms_merge_hosts := λ _ _ _ v, (v, Ok tt);
  ms_merge_remote := λ _ _ v, (v, Ok tt);
  ms_merge_result := λ _ v, (S v, Ok tt);
|}.

(** Two documents: an assertion of the boolean false, and one of a text, with
    a message. *)
Definition small_json (raw : string) : option (gmap string value) :=
  if bool_decide (raw = "that: [false]") then Some {["that" := VList [VBool false]]}
  else Some {["that" := VList [VStr "no"]; "msg" := VStr "never"]}.

Definition small_libraries : ModuleLibraries := {|
  json_unmarshal := small_json;
  json_strings := λ _, None;
  yaml_node := λ _, inl (Msg "no yaml");
  yaml_value := λ _, inr VNil;
  decode_any := λ _, inr VNil;
  NestedFieldNoCopy := λ m keys, match keys with [k] => inr (m !! k) | _ => inr None end;
  NestedString := λ m keys,
    match keys with
    | [k] => match m !! k with Some (VStr s) => inr (Some s) | None => inr None | _ => inl (Msg "not a string") end
    | _ => inr None
    end;
  json_marshal := λ _, inr "";
  json_indent := λ _, None;
|}.

(** Every template gives the text "no". *)
Definition no_engine : Libraries := {|
  tmpl_execute := λ _ _, Ok "no";
  unmarshal_slice := λ _, None;
  Unquote := λ _, None;
  decode_json := λ _, None;
  decode_yaml := λ _, None;
|}.

#[local] Existing Instances counting_modules small_libraries no_engine.

#[local] Instance small_laws : NestedLaws.
Proof. split; intros m k; simpl; [by intros v ->|by intros s ->|by intros ->]. Qed.

Definition assert_task (raw : string) : TaskSpec :=
  {| Name := "t"; Hosts := ["h"]; DelegateTo := ""; IgnoreError := None; Retries := 0; When := [];
     FailedWhen := []; Loop := None; ModuleName := "assert"; ModuleArgs := raw; Register := "";
     RegisterType := "" |}.

Lemma small_json_literal raw key :
  key ∈ ["success_msg"; "fail_msg"; "msg"] → literal_text (Extension2Variables json_unmarshal raw) key.
Proof.
  unfold Extension2Variables. case_bool_decide; [unfold literal_text; by rewrite lookup_empty|].
  cbn [json_unmarshal small_libraries]. unfold small_json. rewrite !elem_of_cons.
  case_bool_decide; intros [->|[->|[->|H1]]]; try reflexivity; by apply not_elem_of_nil in H1.
Qed.

Lemma assert_spec_witness :
  run (ModuleAssert (assert_task "that: [false]") "h") 0 = (0, inr ("True", "")) ∧
  run (ModuleAssert (assert_task "that: no") "h") 0 = (0, inr ("", "False")).
Proof.
  split.
  - destruct (assert_spec (VS := counting_store) (assert_task "that: [false]") "h" 0 ∅ [VBool false]) as [_ H];
      [reflexivity|reflexivity|apply small_json_literal|].
    apply (H [] (VBool false) []); [reflexivity|reflexivity|constructor].
  - destruct (assert_spec (VS := counting_store) (assert_task "that: no") "h" 0 ∅ [VStr "no"]) as [H _];
      [reflexivity|reflexivity|apply small_json_literal|].
    rewrite (H ["no"] ["no"]); [reflexivity|reflexivity|]. constructor; [reflexivity|constructor].
Defined.
