(* ===== verification/Store.v ===== *)
(** * The variable store of a playbook, put together

    [New] of [src/feature/pkg/variable/variable.go] builds the store from an
    inventory and the source of [src/feature/pkg/variable/source]; the merge
    functions of [variable_merge.go] that replace maps complete [LiveVars].  The
    store implements the interface the executors are written against
    ([VarStore]), so what is proved of them holds on it. *)

From S2P Require Import Prelude GoStrings Values Tags Groups Vars Prog Tmpl Hostnames Memory YamlNode LiveVars TaskExec BlockExec PlayExec Modules.
From stdpp Require Import gmap strings list sets.
From Stdlib Require Import SpecFloat.

#[local] Open Scope nat_scope.

(** ** The source: [file.go], [memory.go]

    The directory can be read and written and holds no directory of its own. *)

Definition prefixYAML : string := "# Generate by variable" +:+ newline.

(** The directory of a file source: names and contents. *)
Notation Dir := (gmap string string).

Inductive Source := MemorySource | FileSource (dir : Dir).

Section Source.

(** [yaml.Marshal] of a host's two maps, and how [yaml.Unmarshal] of a text into
    a nil map ends; whatever it does, the caller's map stays nil. *)
Context (yaml_marshal : HostVars → error + string).
Context (yaml_unmarshal_nil : string → result unit).

(** [fileSource.Write] on a directory that can be written. *)
Definition WriteFile (hv : HostVars) (host : string) (dir : Dir) : option error * Dir :=
  let filename := host +:+ ".yaml" in
  match yaml_marshal hv with
  | inl e => (Some (Wrap ("failed to marshal file " +:+ filename) e), <[filename := ""]> dir)
  | inr fdata => (None, <[filename := prefixYAML +:+ fdata]> dir)
  end.

(** [fileSource.Read]: a nil map for every generated file. *)
Fixpoint ReadFiles (entries : list (string * string)) : result (list (string * gmap string value)) :=
  match entries with
  | [] => Ok []
  | (name, fdata) :: rest =>
      if HasSuffix name ".yaml" && HasPrefix fdata prefixYAML then
        match yaml_unmarshal_nil fdata with
        | Ok _ => let! data := ReadFiles rest in Ok ((TrimSuffix name ".yaml", ∅) :: data)
        | Err e => Err (Wrap ("failed to unmarshal file " +:+ name) e)
        | Panic w => Panic w
        end
      else ReadFiles rest
  end.

(** [Read]; a memory source is made anew with every store. *)
Definition Read (s : Source) : result (list (string * gmap string value)) :=
  match s with
  | MemorySource => Ok []
  | FileSource dir => ReadFiles (map_to_list dir)
  end.

(** ** [New] *)

(** A host of the group "all": two empty maps. *)
Definition add_host (st : heap * gmap string HostMem) (hostname : string) : heap * gmap string HostMem :=
  let '(h, hosts) := st in
  let '(h1, remote) := alloc h (CMap ∅) in
  let '(h2, runtime) := alloc h1 (CMap ∅) in
  (h2, <[hostname := {| RemoteRef := Some remote; RuntimeRef := Some runtime |}]> hosts).

(** One of the two maps of a stored host. *)
Definition stored (what : string) (d : gmap string value) (h : heap) : result (heap * option loc) :=
  match d !! what with
  | None => Ok (h, None)
  | Some (VMap m) => let '(h', l) := inject_map m h in Ok (h', Some l)
  | Some _ => Err (Msg ("type assertion failed. expected map[string]any for " +:+ what +:+ " vars"))
  end.

(** The loop over what the source has stored. *)
Fixpoint read_hosts (data : list (string * gmap string value)) (st : heap * gmap string HostMem)
    : result (heap * gmap string HostMem) :=
  match data with
  | [] => Ok st
  | (k, d) :: rest =>
      let! (h1, remote) := stored "remote" d st.1 in
      let! (h2, runtime) := stored "runtime" d h1 in
      read_hosts rest (h2, <[k := {| RemoteRef := remote; RuntimeRef := runtime |}]> st.2)
  end.

(** [New] for a playbook with configuration [config] and the YAML nodes
    [nodes]; [None]: [ConvertGroup] does not return. *)
Definition New (config : string) (nodes : list Node) (getInventory : error + Inventory) (s : Source) : option (result Live) :=
  match getInventory with
  | inl e => Some (Err (Wrap "failed to get inventory" e))
  | inr inventory =>
      groups ← ConvertGroup inventory;
      let st := fold_left add_host (default [] (groups !! "all")) ([], ∅) in
      Some (match Read s with
            | Ok data =>
                let! (h, hosts) := read_hosts data st in
                Ok {| lv_heap := h; lv_nodes := nodes; lv_config := config; lv_inventory := inventory;
                      lv_hosts := hosts; lv_result := None; lv_source := ∅ |}
            | Err e => Err (Wrap "failed to read data from source" e)
            | Panic w => Panic w
            end)
  end.

End Source.

(** ** The merge functions that replace maps *)

(** [MergeRemoteVariable]: the hosts share the map they are given. *)
Fixpoint merge_remote (data : loc) (hostnames : list string) (lv : Live) : result unit * Live :=
  match hostnames with
  | [] => (Ok tt, lv)
  | hostname :: rest =>
      match lv_hosts lv !! hostname with
      | None => (Err (Msg ("when merge source is remote. HostName " +:+ hostname +:+ " not exist")), lv)
      | Some hm =>
          if bool_decide (size (entries_of (lv_heap lv) (RemoteRef hm)) = 0)
          then merge_remote data rest
                 (set_live_hosts lv (<[hostname := {| RemoteRef := Some data; RuntimeRef := RuntimeRef hm |}]> (lv_hosts lv)))
          else merge_remote data rest lv
      end
  end.

Definition MergeRemoteVariable (data : gmap string value) (hostnames : list string) (lv : Live) : result unit * Live :=
  let '(h, l) := inject_map data (lv_heap lv) in merge_remote l hostnames (set_heap lv h).

(** [MergeResultVariable] *)
Definition MergeResultVariable (r : value) (lv : Live) : result unit * Live :=
  let '(h1, v) := inject r (lv_heap lv) in
  let '(h2, d) := alloc h1 (CMap {[resultKey := v]}) in
  let '(h3, l) := CombineVariables h2 (lv_result lv) (Some d) in
  (Ok tt, set_live_result (set_heap lv h3) (Some l)).

(** ** The store behind the executors' interface *)

(** The nodes a merge is given: those of the playbook, which are kept, and those
    made for it ([ConvertMap2Node]). *)
Inductive NodeRef := Held (n : nat) | Fresh (node : Node).

Definition resolve (n : NodeRef) (lv : Live) : nat * Live :=
  match n with
  | Held n => (n, lv)
  | Fresh node => (length (lv_nodes lv), set_nodes lv (lv_nodes lv ++ [node]))
  end.

(** The values the store holds at the moment. *)
Definition snapshot (lv : Live) : VarValue :=
  {| v_config := lv_config lv; v_inventory := lv_inventory lv;
     v_hosts := host_value (lv_heap lv) <$> lv_hosts lv; v_result := ref_value (lv_heap lv) (lv_result lv) |}.

Section Store.

Context (json_unmarshal : string → option (gmap string value)).
Context (getLocalIP : string → string).
Context (tmpl_execute : gmap string value → string → result string).
Context (ParseFloat : string → option string).
Context (Decode : Node → error + gmap string value).
Context (source_write : string → HostVars → option error).
Context (Intn : nat → nat).

(** The order in which a map of hosts is ranged over. *)
Context (range : gmap string HostMem → list string).

(** [v.Merge(f)] *)
Definition merge (f : Live → result unit * Live) (lv : Live) : Live * result unit :=
  let '(r, lv') := LiveVars.Merge source_write f (range (lv_hosts lv)) lv in (lv', r).

Definition store_merge_runtime (n : NodeRef) (hosts : list string) (lv : Live) : Live * result unit :=
  let '(i, lv1) := resolve n lv in
  merge (MergeRuntimeVariable json_unmarshal getLocalIP tmpl_execute ParseFloat Decode i hosts) lv1.

Definition LiveStore : VarStore Live NodeRef := {|
  vs_all h lv := let '(hp, l) := LiveVars.GetAllVariable json_unmarshal getLocalIP h lv in Ok (VMap (ctx_value hp l));
  vs_merge_runtime := store_merge_runtime;
  vs_hostnames names lv := GetHostnames json_unmarshal tmpl_execute Intn names (snapshot lv);
  vs_max_len lv := GetHostMaxLength (snapshot lv);
  vs_result lv := GetResultVariable (snapshot lv);
|}.

Definition store_merge_hosts (n : NodeRef) (host : string) (hosts : list string) (lv : Live) : Live * result unit :=
  let '(i, lv1) := resolve n lv in
  merge (MergeHostsRuntimeVariable json_unmarshal getLocalIP tmpl_execute ParseFloat Decode i host hosts) lv1.

Definition LiveModules : ModuleStore (VS := LiveStore) Live NodeRef := {|
  ms_node := Fresh;
  ms_merge_hosts := store_merge_hosts;
  ms_merge_remote data hosts := merge (MergeRemoteVariable data hosts);
  ms_merge_result r := merge (MergeResultVariable r);
|}.

(** A program that reaches the store through [Get], whose result shares the
    store's memory, and [Merge], with nodes of its own, only. *)
Fixpoint uses_store {A : Type} (p : prog Live A) : Prop :=
  match p with
  | PRet _ => True
  | PStep f => ∀ lv, ((∃ h ns, (f lv).1 = set_nodes (set_heap lv h) ns) ∨
                      ∃ g ns, (f lv).1 = (merge g (set_nodes lv ns)).1) ∧ uses_store (f lv).2
  end.

(** ** What every merge keeps *)

(** [Merge] ranges over the hosts of the store. *)
Definition ranges_hosts : Prop := ∀ hs h, h ∈ range hs → h ∈ dom hs.

(** The inventory and the set of hosts of a store. *)
Definition of_inventory (inv : Inventory) (D : gset string) (lv : Live) : Prop :=
  lv_inventory lv = inv ∧ dom (lv_hosts lv) = D.

Lemma sync_hosts_keeps inv D newHosts order lv :
  (∀ h, h ∈ order → h ∈ D) → of_inventory inv D lv →
  of_inventory inv D (LiveVars.sync_hosts source_write newHosts order lv).2.
Proof.
  revert lv. induction order as [|hn order IH]; intros lv Ho Hlv; simpl; [done|].
  assert (∀ h, h ∈ order → h ∈ D) as Ho' by (intros; apply Ho; by right).
  case_bool_decide; [by apply IH|]. destruct (source_write _ _); [done|]. apply IH; [done|].
  destruct Hlv as [H1 H2]. split; [done|]. simpl. rewrite dom_insert_L, H2.
  assert (hn ∈ D) by (apply Ho; by left). set_solver.
Qed.

Lemma merge_keeps_inventory inv D f lv :
  ranges_hosts → of_inventory inv D lv → of_inventory inv D (merge f lv).1.
Proof.
  intros HR [H1 H2]. unfold merge, LiveVars.Merge. destruct (f (DeepCopy lv)) as [[u|e|w] nv]; [|done..].
  pose proof (sync_hosts_keeps inv D (lv_hosts nv) (range (lv_hosts lv))
                (set_live_result (after lv nv) (lv_result nv))) as HS.
  destruct (LiveVars.sync_hosts _ _ _ _). apply HS; [|done]. intros h Hh. rewrite <- H2. by apply HR.
Qed.

Lemma uses_store_keeps {A} (p : prog Live A) inv D :
  ranges_hosts → uses_store p → psafe (of_inventory inv D) (λ _, True) p.
Proof.
  intros HR. induction p as [a|f IH] using prog_ind; [done|]. intros Hp lv Hlv.
  destruct (Hp lv) as [H Hn]. split; [|by apply IH]. destruct H as [(h & ns & ->)|(g & ns & ->)]; [done|by apply merge_keeps_inventory].
Qed.

(** Every merge of the store does. *)
Lemma merges_keep inv D : ranges_hosts → MergesKeep (MS := LiveModules) (of_inventory inv D).
Proof.
  intros HR. split; intros; cbn; [| |by apply merge_keeps_inventory..].
  - unfold store_merge_runtime. destruct n; by apply merge_keeps_inventory.
  - unfold store_merge_hosts. destruct n; by apply merge_keeps_inventory.
Qed.

(** The store and the modules of [Modules] meet what the executors ask of them,
    whatever the other modules are, as long as they go through the store. *)
Lemma store_invariant {LB : Libraries} {ML : ModuleLibraries} {CN : Connectors Live} {EN : Engine Live NodeRef}
    (others registry : gmap string (TaskSpec → string → prog Live module_end)) inv D :
  ranges_hosts → register_all (variable_modules (MS := LiveModules)) others = Ok registry →
  (∀ name, FindModule name = registry !! name) →
  (∀ name exec s h, others !! name = Some exec → uses_store (exec s h)) →
  StoreInvariant (VS := LiveStore) (of_inventory inv D).
Proof.
  intros HR Hreg HF HO. pose proof (merges_keep inv D HR) as MK. split; [exact (keeps_merge_runtime (MS := LiveModules))|].
  intros name exec s h E. rewrite HF in E. eapply (registry_keeps (MS := LiveModules) (of_inventory inv D)); [exact Hreg| |exact E].
  intros name' exec' s' h' E'. apply uses_store_keeps; [done|by eapply HO].
Qed.

(** The hosts a play can name: those of the store and the members of the groups. *)
Definition known (inv : Inventory) (D : gset string) : list string :=
  elements D ++ concat (map snd (map_to_list (groups_of inv))).

Lemma elem_of_known inv D h :
  h ∈ known inv D ↔ h ∈ D ∨ ∃ g group, groups_of inv !! g = Some group ∧ h ∈ group.
Proof.
  unfold known. rewrite elem_of_app, elem_of_elements, list_elem_of_In, in_concat. f_equiv. split.
  - intros (group & Hg & Hh). apply in_map_iff in Hg as ([g x] & <- & Hg).
    exists g, x. rewrite <- elem_of_map_to_list, !list_elem_of_In. done.
  - intros (g & group & Hg & Hh). exists group. split; [|by apply list_elem_of_In].
    apply in_map_iff. exists (g, group). split; [done|]. by apply list_elem_of_In, elem_of_map_to_list.
Qed.

Lemma hostnames_known inv D names lv l :
  of_inventory inv D lv → vs_hostnames (VarStore := LiveStore) names lv = Ok l → l ⊆ known inv D.
Proof.
  intros [H1 H2] E h Hh. cbn in E. unfold GetHostnames in E. destruct names as [|n names]; [done|].
  pose proof (add_names_known _ _ _ _ _ _ _ E (List.Forall_nil _)) as HF.
  eapply list.Forall_forall in HF as [Hk|(g & group & Hg & Hin)]; [| |exact Hh]; apply elem_of_known.
  - left. rewrite <- H2. apply elem_of_dom. cbn in Hk. rewrite lookup_fmap in Hk. by apply fmap_is_Some in Hk.
  - right. exists g, group. split; [|done]. unfold store_groups in Hg. cbn in Hg. by rewrite H1 in Hg.
Qed.

End Store.

(** ** A store made by [New] *)

Section New.

Context (yaml_marshal : HostVars → error + string).
Context (yaml_unmarshal_nil : string → result unit).

#[local] Notation New := (New yaml_unmarshal_nil).
#[local] Notation Read := (Read yaml_unmarshal_nil).

Definition empty_host : HostVars := {| RemoteVars := Some ∅; RuntimeVars := Some ∅ |}.

(** The values a new store holds: two empty maps for a host of the group
    "all", none for a host that has been read from the source. *)
Definition initial_hosts (all read : list string) : gmap string HostVars :=
  gset_to_gmap nil_host (list_to_set read) ∪ gset_to_gmap empty_host (list_to_set all).

Definition initial_value (config : string) (inventory : Inventory) (all read : list string) : VarValue :=
  {| v_config := config; v_inventory := inventory; v_hosts := initial_hosts all read; v_result := None |}.

Lemma gset_to_gmap_cons {A} (x : A) (k : string) l (m : gmap string A) :
  gset_to_gmap x (list_to_set (k :: l)) ∪ m = gset_to_gmap x (list_to_set l) ∪ <[k := x]> m.
Proof.
  apply map_eq. intros i. cbn [list_to_set]. rewrite gset_to_gmap_union_singleton, !lookup_union, !lookup_gset_to_gmap.
  destruct (decide (k = i)) as [->|].
  - rewrite !lookup_insert_eq. destruct (guard _), (m !! i); done.
  - by rewrite !lookup_insert_ne, lookup_gset_to_gmap by done.
Qed.

Lemma add_hosts_repr l h hs vs :
  hosts_repr h hs vs →
  let st := fold_left add_host l (h, hs) in
  hosts_repr st.1 st.2 (gset_to_gmap empty_host (list_to_set l) ∪ vs).
Proof.
  revert h hs vs. induction l as [|k l IH]; intros h hs vs H; cbv zeta in *.
  { simpl. by rewrite gset_to_gmap_empty, (left_id_L ∅ (∪)). }
  rewrite gset_to_gmap_cons. cbn [fold_left].
  destruct (add_host (h, hs) k) as [h2 hs2] eqn:E. apply IH. unfold add_host in E.
  pose proof (alloc_prefix h (CMap ∅)) as P1. pose proof (repr_alloc_map h ∅ ∅ (repr_env_empty h)) as R1.
  destruct (alloc h (CMap ∅)) as [h1 remote].
  pose proof (alloc_prefix h1 (CMap ∅)) as P2. pose proof (repr_alloc_map h1 ∅ ∅ (repr_env_empty h1)) as R2.
  destruct (alloc h1 (CMap ∅)) as [h3 runtime]. injection E as <- <-. cbn [fst snd] in *.
  apply hosts_repr_insert; [exact (hosts_repr_prefix _ _ _ _ (transitivity P1 P2) H)|].
  split; [exact (repr_prefix _ _ _ _ P2 R1)|exact R2].
Qed.

(** What is read carries no entries: the maps of its hosts are nil. *)
Lemma read_hosts_repr data h hs vs :
  Forall (λ x, x.2 = ∅) data → hosts_repr h hs vs →
  ∃ hs', read_hosts data (h, hs) = Ok (h, hs') ∧
         hosts_repr h hs' (gset_to_gmap nil_host (list_to_set (map fst data)) ∪ vs).
Proof.
  intros HF. revert hs vs. induction HF as [|[k d] data Hd _ IH]; intros hs vs H.
  { exists hs. cbn. by rewrite gset_to_gmap_empty, (left_id_L ∅ (∪)). }
  cbn [snd] in Hd. subst d. cbn [map fst]. rewrite gset_to_gmap_cons. apply (IH (<[k := zero_host]> hs)).
  by apply hosts_repr_insert.
Qed.

(** The files a store has written, as [Read] finds them: exactly those, and
    nothing of what is in them. *)
Lemma ReadFiles_spec entries data :
  ReadFiles yaml_unmarshal_nil entries = Ok data →
  Forall (λ x, x.2 = ∅) data ∧
  ∀ host, host ∈ map fst data ↔ ∃ text, (host +:+ ".yaml", text) ∈ entries ∧ HasPrefix text prefixYAML = true.
Proof.
  revert data. induction entries as [|[name fdata] entries IH]; intros data H; cbn [ReadFiles] in H.
  { injection H as <-. split; [constructor|]. intros host. split; [by intros ?%not_elem_of_nil|].
    by intros (t & ?%not_elem_of_nil & _). }
  destruct (HasSuffix name ".yaml" && HasPrefix fdata prefixYAML) eqn:E.
  - apply andb_true_iff in E as [[base ->]%HasSuffix_spec Ep]. destruct (yaml_unmarshal_nil fdata) as [u|e|w]; [|done..].
    apply rbind_ok in H as (data' & H & [= <-]). destruct (IH _ H) as [H1 H2]. split; [by constructor|].
    intros host. cbn [map fst]. rewrite TrimSuffix_app, elem_of_cons, H2. setoid_rewrite elem_of_cons. split.
    + intros [->|(text & ? & ?)]; [|by eauto]. exists fdata. auto.
    + intros (text & [[= Hn ->]|?] & ?); [left|by eauto]. by rewrite <- (TrimSuffix_app host ".yaml"), Hn, TrimSuffix_app.
  - destruct (IH _ H) as [H1 H2]. split; [done|]. intros host. rewrite H2. setoid_rewrite elem_of_cons. split.
    + intros (text & ? & ?). eauto.
    + intros (text & [[= <- <-]|?] & Hp); [|by eauto]. by rewrite HasSuffix_app, Hp in E.
Qed.

(** The hosts a source has something of. *)
Definition generated (s : Source) (host : string) : Prop :=
  match s with
  | MemorySource => False
  | FileSource dir => ∃ text, dir !! (host +:+ ".yaml") = Some text ∧ HasPrefix text prefixYAML = true
  end.

Lemma Read_spec s data :
  Read s = Ok data → Forall (λ x, x.2 = ∅) data ∧ ∀ host, host ∈ map fst data ↔ generated s host.
Proof.
  destruct s as [|dir]; simpl.
  - intros [= <-]. split; [constructor|]. intros host. split; [by intros ?%not_elem_of_nil|done].
  - intros [H1 H2]%ReadFiles_spec. split; [done|]. intros host. rewrite H2. by setoid_rewrite elem_of_map_to_list.
Qed.

Lemma New_abs config nodes inv groups s data :
  ConvertGroup inv = Some groups → Read s = Ok data →
  ∃ lv, New config nodes (inr inv) s = Some (Ok lv) ∧ lv_nodes lv = nodes ∧
        abs lv (initial_value config inv (default [] (groups !! "all")) (map fst data)).
Proof.
  intros HG HR. unfold Store.New. rewrite HG. cbn [mbind option_bind]. rewrite HR.
  destruct (Read_spec _ _ HR) as [HF _].
  assert (hosts_repr [] ∅ ∅) as HA.
  { split; [by rewrite !dom_empty_L|]. intros ??? E. by rewrite lookup_empty in E. }
  apply (add_hosts_repr (default [] (groups !! "all"))) in HA. cbv zeta in HA.
  destruct (fold_left add_host _ _) as [h hs]. destruct (read_hosts_repr data h hs _ HF HA) as (hs' & -> & H).
  cbn [rbind]. eexists. split; [reflexivity|]. split; [reflexivity|].
  constructor; [reflexivity|reflexivity| |exact I]. unfold initial_value, initial_hosts. simpl.
  by rewrite (right_id_L ∅ (∪)) in H.
Qed.

End New.

(** ** Properties *)

Section Properties.

Context (yaml_marshal : HostVars → error + string).
Context (yaml_unmarshal_nil : string → result unit).

#[local] Notation New := (New yaml_unmarshal_nil).

Lemma abs_snapshot lv v : abs lv v → snapshot lv = v.
Proof.
  intros [Hc Hi [Hd Hh] Hr]. destruct v as [config inventory hosts res]. simpl in *. unfold snapshot.
  rewrite (ref_value_repr _ _ _ Hr), Hc, Hi. f_equal. apply map_eq. intros h. rewrite lookup_fmap.
  destruct (lv_hosts lv !! h) as [hm|] eqn:Em, (hosts !! h) as [hv|] eqn:Ev; simpl.
  - f_equal. apply host_value_repr. by eapply Hh.
  - apply elem_of_dom_2 in Em. rewrite Hd in Em. by apply not_elem_of_dom in Ev.
  - apply elem_of_dom_2 in Ev. rewrite <- Hd in Ev. by apply not_elem_of_dom in Em.
  - done.
Qed.

Lemma New_Ok config nodes inv groups s lv :
  ConvertGroup inv = Some groups → New config nodes (inr inv) s = Some (Ok lv) →
  ∃ read, (∀ host, host ∈ read ↔ generated s host) ∧ lv_nodes lv = nodes ∧
          snapshot lv = initial_value config inv (default [] (groups !! "all")) read.
Proof.
  intros HG E. destruct (Read yaml_unmarshal_nil s) as [data|e|w] eqn:HR.
  - destruct (New_abs _ config nodes inv groups s data HG HR) as (lv' & E' & Hn & Ha).
    rewrite E in E'. injection E' as <-. exists (map fst data). split; [apply (Read_spec _ _ _ HR)|].
    split; [done|]. by apply abs_snapshot.
  - unfold Store.New in E. by rewrite HG in E; simpl in E; rewrite HR in E.
  - unfold Store.New in E. by rewrite HG in E; simpl in E; rewrite HR in E.
Qed.

Lemma initial_hosts_lookup all read host :
  initial_hosts all read !! host =
  if decide (host ∈ read) then Some nil_host else if decide (host ∈ all) then Some empty_host else None.
Proof.
  unfold initial_hosts. rewrite lookup_union, !lookup_gset_to_gmap.
  destruct (decide (host ∈ read)) as [H|H].
  - rewrite option_guard_True by (by apply elem_of_list_to_set). by destruct (guard _).
  - rewrite option_guard_False by (by rewrite elem_of_list_to_set). rewrite (left_id_L None _).
    destruct (decide (host ∈ all)) as [H'|H'].
    + by rewrite option_guard_True by (by apply elem_of_list_to_set).
    + by rewrite option_guard_False by (by rewrite elem_of_list_to_set).
Qed.

(** A new store is made of the inventory.  Over a memory source it always
    is, with two empty maps for exactly the hosts of the group "all"; over a
    file source every host with a generated file is in it as well, and both its
    maps are nil.  It fails only when the source cannot be read. *)
Theorem New_spec config nodes inv groups s :
  ConvertGroup inv = Some groups →
  (s = MemorySource → ∃ lv, New config nodes (inr inv) s = Some (Ok lv)) ∧
  (∀ e, New config nodes (inr inv) s = Some (Err e) → ∃ e', Read yaml_unmarshal_nil s = Err e') ∧
  (∀ lv, New config nodes (inr inv) s = Some (Ok lv) →
   lv_inventory lv = inv ∧ lv_config lv = config ∧ lv_nodes lv = nodes ∧ lv_result lv = None ∧
   ∀ host,
     let vars := v_hosts (snapshot lv) !! host in
     (generated s host → vars = Some nil_host) ∧
     (¬ generated s host → host ∈ default [] (groups !! "all") → vars = Some empty_host) ∧
     (¬ generated s host → host ∉ default [] (groups !! "all") → vars = None)).
Proof.
  intros HG. split_and!.
  - intros ->. destruct (New_abs yaml_unmarshal_nil config nodes inv groups MemorySource [] HG eq_refl) as (lv & E & _).
    by exists lv.
  - intros e E. destruct (Read yaml_unmarshal_nil s) as [data|e'|w] eqn:HR; [|by exists e'|].
    + destruct (New_abs _ config nodes inv groups s data HG HR) as (lv & E' & _). by rewrite E in E'.
    + unfold Store.New in E. by rewrite HG in E; simpl in E; rewrite HR in E.
  - intros lv E. destruct (New_Ok _ _ _ _ _ _ HG E) as (read & Hread & Hn & Hs). pose proof Hs as Hv.
    apply (f_equal v_hosts) in Hs. unfold snapshot in Hv. injection Hv as Hc Hi _ Hr.
    split_and!; [done..| |].
    + by destruct (lv_result lv).
    + intros host vars. unfold vars. rewrite Hs. cbn [v_hosts initial_value]. rewrite initial_hosts_lookup, <- Hread.
      repeat case_decide; split_and!; tauto.
Qed.

(** What [Write] leaves in a directory after a sequence of calls. *)
Definition write_all (writes : list (string * HostVars)) (dir : Dir) : Dir :=
  fold_left (λ dir '(host, hv), (WriteFile yaml_marshal hv host dir).2) writes dir.

Lemma write_all_generated writes host :
  Forall (λ x, ∃ text, yaml_marshal x.2 = inr text) writes →
  generated (FileSource (write_all writes ∅)) host ↔ host ∈ map fst writes.
Proof.
  induction writes as [|[k hv] writes IH] using rev_ind; intros H.
  { simpl. split; [|by intros ?%not_elem_of_nil]. intros (text & E & _). by rewrite lookup_empty in E. }
  apply Forall_app in H as [H [text Ht]%Forall_singleton]. cbn [snd] in Ht. specialize (IH H).
  unfold write_all in *. rewrite fold_left_app, map_app, elem_of_app, <- IH. cbn [fold_left map fst].
  rewrite list_elem_of_singleton. unfold WriteFile at 1. rewrite Ht. cbn [snd generated].
  destruct (decide (host = k)) as [->|Hne].
  - rewrite lookup_insert_eq. split; [auto|]. intros _. eexists. split; [reflexivity|]. apply HasPrefix_app.
  - rewrite lookup_insert_ne; [|intros E; apply Hne; by rewrite <- (TrimSuffix_app host ".yaml"), <- E, TrimSuffix_app].
    split; [by left|]. by intros [?|?].
Qed.

(** Whatever has been written to a file source, a store made over it later
    holds none of it: it is the store of the inventory in which the hosts that
    were written have nil maps, whichever values those were ([Read] hands
    [yaml.Unmarshal] the nil map and not its address). *)
Theorem stored_variables_lost config nodes inv groups writes lv :
  ConvertGroup inv = Some groups →
  Forall (λ x, ∃ text, yaml_marshal x.2 = inr text) writes →
  New config nodes (inr inv) (FileSource (write_all writes ∅)) = Some (Ok lv) →
  snapshot lv = initial_value config inv (default [] (groups !! "all")) (map fst writes).
Proof.
  intros HG HW E. destruct (New_Ok _ _ _ _ _ _ HG E) as (read & Hread & _ & ->).
  unfold initial_value. f_equal. apply map_eq. intros host. rewrite !initial_hosts_lookup.
  pose proof (write_all_generated writes host HW) as Hw. specialize (Hread host).
  repeat case_decide; tauto.
Qed.

Section Playbook.

Context {LB : Libraries} {ML : ModuleLibraries} {CN : Connectors Live} {EN : Engine Live NodeRef}.
Context (getLocalIP : string → string).
Context (ParseFloat : string → option string) (Decode : Node → error + gmap string value).
Context (source_write : string → HostVars → option error) (Intn : nat → nat).
Context (range : gmap string HostMem → list string).
Context (onlyTags skipTags : list string) (SetControllerReference : TaskSpec → option error).
Context (ParseFloat64 : string → option spec_float).

(** C19: a playbook executed on a store made by [New], with the modules of this
    development registered beside others that reach the store as modules do,
    whatever the templates, the hosts, the API server, the schedules and failing
    writes do: each task it creates is for hosts that the groups of the
    inventory contain or the source has a file of, and the store ends with the
    hosts and the inventory it began with. *)
Theorem playbook_on_store config nodes inv groups s lv project (w : World Live) old others registry :
  ConvertGroup inv = Some groups → New config nodes (inr inv) s = Some (Ok lv) → w_vars w = lv →
  ranges_hosts range →
  let VS := LiveStore json_unmarshal getLocalIP tmpl_execute ParseFloat Decode source_write Intn range in
  let MS := LiveModules json_unmarshal getLocalIP tmpl_execute ParseFloat Decode source_write Intn range in
  register_all (variable_modules (VS := VS) (MS := MS)) others = Ok registry →
  (∀ name, FindModule name = registry !! name) →
  (∀ name exec t h, others !! name = Some exec → uses_store source_write range (exec t h)) →
  let '(o, w', st) := Exec_playbook (VS := VS) onlyTags skipTags SetControllerReference ParseFloat64 project w old in
  (lv_inventory (w_vars w') = inv ∧ dom (lv_hosts (w_vars w')) = dom (lv_hosts lv)) ∧
  ∃ new, w_tasks w' = w_tasks w ++ new ∧
         Forall (λ t, ∀ h, h ∈ Hosts (Spec t) →
                   generated s h ∨ ∃ g group, groups !! g = Some group ∧ h ∈ group) new.
Proof.
  intros HG HN Hw HR VS MS Hreg HF0 HO. destruct (New_Ok _ _ _ _ _ _ HG HN) as (read & Hread & _ & Hs).
  assert (of_inventory inv (dom (lv_hosts lv)) lv) as Hlv by (split; [by injection Hs|done]).
  pose proof (store_invariant json_unmarshal getLocalIP tmpl_execute ParseFloat Decode source_write Intn range
                others registry inv (dom (lv_hosts lv)) HR Hreg HF0 HO) as SI.
  pose proof (Exec_playbook_within (VS := VS) onlyTags skipTags SetControllerReference ParseFloat64
                (of_inventory inv (dom (lv_hosts lv))) (known inv (dom (lv_hosts lv))) project w old) as HE.
  destruct (Exec_playbook _ _ _ _ project w old) as [[o w'] st]. cbn [fst snd] in HE. subst lv.
  destruct HE as (new & Ht & _ & HF & HI); [|done|].
  { intros names v l. by apply hostnames_known. }
  split; [by apply HI|]. exists new. split; [done|]. eapply Forall_impl; [exact HF|].
  intros t Hin h Hh. apply Hin, elem_of_known in Hh as [Hh|Hh].
  - assert (is_Some (v_hosts (snapshot (w_vars w)) !! h)) as Hv.
    { cbn. rewrite lookup_fmap. by apply fmap_is_Some, elem_of_dom. }
    rewrite Hs in Hv. cbn [v_hosts initial_value] in Hv. rewrite initial_hosts_lookup in Hv.
    case_decide; [left; by apply Hread|]. case_decide; [|by destruct Hv]. right.
    destruct (groups !! "all") as [group|] eqn:Eg; [by exists "all", group|by apply not_elem_of_nil in H0].
  - right. unfold groups_of in Hh. by rewrite HG in Hh.
Qed.

End Playbook.

End Properties.

(** ** A fact that is set *)

Section Facts.

Context {LB : Libraries} {ML : ModuleLibraries} (getLocalIP : string → string).
Context (ParseFloat : string → option string) (Decode : Node → error + gmap string value).
Context (source_write : string → HostVars → option error) (Intn : nat → nat).
Context (range : gmap string HostMem → list string).

(** The layers above the runtime variables: what the playbook is given. *)
Definition static_layers (v : VarValue) (host : string) : list (gmap string value) :=
  [ Extension2Variables json_unmarshal (inv_vars (v_inventory v));
    Extension2Variables json_unmarshal (default "" (alookup host (inv_hosts (v_inventory v))));
    Extension2Variables json_unmarshal (v_config v) ].

(** The runtime variables of one host after a merge. *)
Definition with_runtime (data : gmap string value) (host : string) (hv : HostVars) (v : VarValue) : VarValue :=
  set_hosts v (<[host := {| RemoteVars := RemoteVars hv;
                            RuntimeVars := Some (Vars.CombineVariables (mapof (RuntimeVars hv)) data) |}]> (v_hosts v)).

Lemma Merge_runtime_value data host hv order v src :
  (∀ hn hv, source_write hn hv = None) → (∀ hn, hn ∈ order ↔ hn ∈ dom (v_hosts v)) → v_hosts v !! host = Some hv →
  ∃ src', Vars.Merge source_write (λ v, Ok (runtime_value data [host] v)) order v src =
          (with_runtime data host hv v, src', None).
Proof.
  intros HW Ho Hv. unfold Vars.Merge, syncSource. cbn [runtime_value fold_left].
  set (nv := runtime_host data v host).
  destruct (sync_hosts_written source_write nv order (set_result v (v_result nv)) src HW) as (hs & src' & -> & Hhs).
  exists src'. f_equal. f_equal. unfold nv, runtime_host, with_runtime, set_hosts, set_result. simpl. f_equal.
  apply map_eq. intros hn. rewrite Hhs. unfold nv, runtime_host. rewrite Hv. cbn [default v_hosts set_hosts from_option id].
  case_decide as Hin.
  - apply Ho in Hin. destruct (decide (hn = host)) as [->|]; [by rewrite !lookup_insert_eq|].
    rewrite !lookup_insert_ne by done. apply elem_of_dom in Hin as [x ->]. done.
  - rewrite lookup_insert_ne; [done|]. intros <-. apply Hin, Ho, elem_of_dom. by eexists.
Qed.

Lemma with_runtime_layers data host hv v hv' :
  v_hosts (with_runtime data host hv v) !! host = Some hv' →
  layers json_unmarshal (with_runtime data host hv v) host hv' =
  [group_layer json_unmarshal (v_inventory v) host; mapof (RemoteVars hv);
   Vars.CombineVariables (mapof (RuntimeVars hv)) data] ++ static_layers v host.
Proof. unfold with_runtime. cbn. rewrite lookup_insert_eq. by intros [= <-]. Qed.

(** Set_fact with literal values succeeds and is seen by what runs on the
    host next, and only there, when the inventory, the host's own variables and
    the configuration say nothing of the name; when one of them does, it stays
    what it was: a fact that is set cannot replace a variable that is given. *)
Theorem set_fact_visible s host lv v hv groups node data k x :
  let VS := LiveStore json_unmarshal getLocalIP tmpl_execute ParseFloat Decode source_write Intn range in
  let MS := LiveModules json_unmarshal getLocalIP tmpl_execute ParseFloat Decode source_write Intn range in
  abs lv v → ConvertGroup (v_inventory v) = Some groups → v_hosts v !! host = Some hv →
  (∀ hs h, h ∈ range hs ↔ h ∈ dom hs) → (∀ hn hv, source_write hn hv = None) →
  yaml_node (ModuleArgs s) = inr node → literal_mapping tmpl_execute ParseFloat node → Decode node = inr data →
  data !! k = Some x → scalar x → k ∉ [VariableHostName; VariableGlobalHosts; VariableGroups] →
  let '(lv', out) := run (ModuleSetFact (MS := MS) s host) lv in
  out = inr (StdoutSuccess, "") ∧
  (∀ h, h ≠ host → v_hosts (snapshot lv') !! h = v_hosts (snapshot lv) !! h) ∧
  ∃ all, vs_all host lv' = Ok (VMap all) ∧
    (Forall (λ L : gmap string value, L !! k = None) (static_layers v host) → all !! k = Some x) ∧
    (∀ pre L post y, static_layers v host = pre ++ L :: post → L !! k = Some y → scalar y →
       Forall (λ L : gmap string value, L !! k = None) post → all !! k = Some y).
Proof.
  intros VS MS Ha HG Hv HR HW HY HL HD Hk Hx Hn.
  unfold ModuleSetFact. rewrite HY. cbn [pbind merge_runtime atomic run].
  set (lv1 := set_nodes lv (lv_nodes lv ++ [node])).
  assert (abs lv1 v) as Ha1 by (by destruct Ha).
  assert (literal_node tmpl_execute ParseFloat Decode lv1 (length (lv_nodes lv)) data) as Hl1.
  { exists node. split; [|done]. unfold lv1. cbn. by rewrite list_lookup_middle. }
  pose proof (Merge_runtime_abs json_unmarshal getLocalIP tmpl_execute ParseFloat Decode source_write lv1 v
                (length (lv_nodes lv)) [host] (range (lv_hosts lv)) data Ha1 (mk_is_Some _ _ HG) Hl1) as HM.
  destruct (Merge_runtime_value data host hv (range (lv_hosts lv)) v (lv_source lv1) HW) as (src' & E);
    [intros h; rewrite HR; by destruct (abs_hosts _ _ Ha) as [-> _]|done|].
  rewrite E in HM. change (vs_merge_runtime (ms_node node) [host] lv) with
    (merge source_write range (MergeRuntimeVariable json_unmarshal getLocalIP tmpl_execute ParseFloat Decode
       (length (lv_nodes lv)) [host]) lv1).
  unfold merge. change (range (lv_hosts lv1)) with (range (lv_hosts lv)).
  destruct (LiveVars.Merge _ _ _ lv1) as [r lv2]. destruct HM as (Ha2 & _ & ->). cbn [run pbind].
  split; [done|]. split.
  { intros h Hne. rewrite (abs_snapshot _ _ Ha2), (abs_snapshot _ _ Ha). cbn. by rewrite lookup_insert_ne. }
  set (v2 := with_runtime data host hv v) in *.
  assert (is_Some (v_hosts v2 !! host)) as [hv2 Hv2] by (unfold v2; cbn; rewrite lookup_insert_eq; by eexists).
  pose proof (with_runtime_layers data host hv v hv2 Hv2) as Hlay. fold v2 in Hlay. rewrite !not_elem_of_cons in Hn.
  destruct (GetAllVariable_host json_unmarshal getLocalIP v2 host hv2 groups Hv2 HG) as (all & Hall & _).
  exists all. split.
  { cbn. pose proof (GetAllVariable_abs json_unmarshal getLocalIP lv2 v2 host all Ha2 Hall) as HA.
    destruct (LiveVars.GetAllVariable _ _ _ _) as [h l]. by destruct HA as (_ & _ & ->). }
  assert (∀ pre L post y, layers json_unmarshal v2 host hv2 = pre ++ L :: post → L !! k = Some y → scalar y →
            Forall (λ L : gmap string value, L !! k = None) post → all !! k = Some y) as HP.
  { intros pre L post y H1 H2 H3 H4.
    destruct (GetAllVariable_decided json_unmarshal getLocalIP v2 host hv2 groups pre L post k y) as (all' & E1 & E2);
      [done..|tauto|tauto|tauto|]. rewrite Hall in E1. by injection E1 as ->. }
  split.
  - intros Hs. apply (HP [group_layer json_unmarshal (v_inventory v) host; mapof (RemoteVars hv)]
      (Vars.CombineVariables (mapof (RuntimeVars hv)) data) (static_layers v host)); [exact Hlay| |done|done].
    by rewrite CombineVariables_lookup, Hk, combine_value_scalar.
  - intros pre L post y H1 H2 H3 H4. eapply (HP (_ ++ pre) L post); [|done..]. rewrite Hlay, H1. by rewrite app_assoc.
Qed.

End Facts.

(** ** A small playbook on a store *)

Definition web_inventory : Inventory :=
  {| inv_hosts := [("node1", ""); ("node2", "")]; inv_vars := "";
     inv_groups := [("web", {| group_groups := []; group_hosts := ["node1"; "node2"]; group_vars := "" |})] |}.

Definition yaml_fails (_ : string) : result unit := Err (Msg "not addressable").
Definition yaml_skips (_ : string) : result unit := Ok tt.

Lemma web_groups :
  ∃ groups, ConvertGroup web_inventory = Some groups ∧ groups !! "all" = Some ["node1"; "node2"; "localhost"].
Proof. eexists. split; vm_compute; reflexivity. Qed.

Definition node2_dir : Dir := {["node2.yaml" := prefixYAML]}.

Lemma web_store_read dir : is_ok (ReadFiles yaml_skips (map_to_list dir)) = true →
  ∃ lv, New yaml_skips "" [] (inr web_inventory) (FileSource dir) = Some (Ok lv).
Proof.
  destruct web_groups as (groups & HG & _). intros H. destruct (ReadFiles _ _) as [data|e|w] eqn:E; [|done..].
  destruct (New_abs yaml_skips "" [] web_inventory groups (FileSource dir) data HG E) as (lv & E' & _). by exists lv.
Qed.

Lemma New_spec_witness :
  ∃ lv, New yaml_skips "" [] (inr web_inventory) (FileSource node2_dir) = Some (Ok lv) ∧
        v_hosts (snapshot lv) !! "node1" = Some empty_host ∧ v_hosts (snapshot lv) !! "node2" = Some nil_host.
Proof.
  destruct web_groups as (groups & HG & Ha). destruct (web_store_read node2_dir) as [lv E]; [reflexivity|].
  destruct (New_spec yaml_skips "" [] web_inventory groups (FileSource node2_dir) HG) as (_ & _ & H).
  destruct (H lv E) as (_ & _ & _ & _ & Hv). exists lv. split; [exact E|]. split.
  - destruct (Hv "node1") as (_ & H1 & _). apply H1; [|rewrite Ha; left].
    intros (text & Ht & _). discriminate Ht.
  - destruct (Hv "node2") as (H1 & _ & _). apply H1. exists prefixYAML. split; reflexivity.
Defined.

(** Whatever is written becomes one line. *)
Definition one_line (_ : HostVars) : error + string := inr "remote: {}".

Definition node2_facts : list (string * HostVars) :=
  [("node2", {| RemoteVars := Some {["os" := VStr "linux"]}; RuntimeVars := None |})].

Lemma stored_variables_lost_witness :
  ∃ lv, New yaml_skips "" [] (inr web_inventory) (FileSource (write_all one_line node2_facts ∅)) = Some (Ok lv) ∧
        v_hosts (snapshot lv) !! "node2" = Some nil_host.
Proof.
  destruct web_groups as (groups & HG & _). destruct (web_store_read (write_all one_line node2_facts ∅)) as [lv E]; [reflexivity|].
  exists lv. split; [exact E|].
  rewrite (stored_variables_lost one_line yaml_skips "" [] web_inventory groups node2_facts lv HG); [|repeat constructor; by eexists|exact E].
  cbn [v_hosts initial_value]. rewrite initial_hosts_lookup. rewrite decide_True by left. reflexivity.
Defined.

Definition all_hosts (hs : gmap string HostMem) : list string := elements (dom hs).

Lemma all_hosts_range : ranges_hosts all_hosts.
Proof. intros hs h. unfold all_hosts. by rewrite elem_of_elements. Qed.

Definition writes_all (_ : string) (_ : HostVars) : option error := None.

(** A module outside this development: it publishes the host's name. *)
Definition publish (_ : TaskSpec) (host : string) : prog Live module_end :=
  do! r <- atomic (merge writes_all all_hosts (MergeResultVariable (VStr host))) in PRet (inr ("success", "")).

(** Every document is one mapping. *)
Definition port_node : YamlNode.Node := MkNode DocumentNode "" "" [map_node [("port", str_node "80")]].

Definition decode_document (n : YamlNode.Node) : error + gmap string value :=
  match n with MkNode DocumentNode _ _ [m] => decode_maps m | _ => decode_maps n end.

Definition web_libraries : ModuleLibraries := {|
  json_unmarshal := λ _, None;
  json_strings := λ _, None;
  yaml_node := λ _, inr port_node;
  yaml_value := λ _, inr VNil;
  decode_any := λ _, inr VNil;
  NestedFieldNoCopy := λ _ _, inr None;
  NestedString := λ _ _, inr None;
  json_marshal := λ _, inr "";
  json_indent := λ _, None;
|}.

Definition no_connectors : Connectors Live := {| connect := λ _ _, inr None |}.

#[local] Existing Instances no_templates web_libraries no_connectors.

Definition web_vars : VarStore Live NodeRef :=
  LiveStore json_unmarshal (λ _, "") tmpl_execute (λ _, None) decode_document writes_all (λ _, 0) all_hosts.
Definition web_modules : ModuleStore (VS := web_vars) Live NodeRef :=
  LiveModules json_unmarshal (λ _, "") tmpl_execute (λ _, None) decode_document writes_all (λ _, 0) all_hosts.

Definition web_registry : gmap string (TaskSpec → string → prog Live module_end) :=
  match register_all (variable_modules (MS := web_modules)) {["publish" := publish]} with Ok r => r | _ => ∅ end.

Lemma web_registry_ok : register_all (variable_modules (MS := web_modules)) {["publish" := publish]} = Ok web_registry.
Proof. reflexivity. Qed.

Definition store_engine : Engine Live NodeRef := {|
  ConvertMap2Node := λ _, inr (Fresh (MkNode KindZero "" "" []));
  FindModule := λ name, web_registry !! name;
  api := λ _, None;
  schedule := λ _, [1; 0];
|}.

Definition module_block (name : string) : Block NodeRef :=
  MkBlock {| b_name := name; b_run_once := false; b_ignore_errors := None; b_when := [];
             b_tags := {| Tags := [] |}; b_vars := Held 0; b_delegate_to := ""; b_retries := 0;
             b_failed_when := []; b_loop := None; b_register := ""; b_register_type := "";
             b_unknown := Some [(name, Some "{}")]; b_annotation := None; b_include_tasks := "" |} [] [] [].

Definition publish_play : Play NodeRef :=
  {| p_import_playbook := ""; p_hosts := ["web"]; p_gather_facts := false; p_vars := Held 0; p_run_once := false;
     p_ignore_errors := None; p_tags := {| Tags := [] |}; p_serial := []; p_vars_files := []; p_pre_tasks := [];
     p_roles := []; p_tasks := [module_block "set_fact"; module_block "publish"]; p_post_tasks := [] |}.

#[local] Existing Instances store_engine.

Definition store_world (lv : Live) : World Live :=
  {| w_vars := lv; w_stats := w_stats empty_world; w_tasks := []; w_calls := 0; w_pools := 0 |}.

Definition publish_run (lv : Live) : outcome * World Live * PlaybookStatus :=
  Exec_playbook (VS := web_vars) [] [] no_owner_error no_floats (Ok [publish_play]) (store_world lv) new_status.

Lemma publish_uses_store name exec (t : TaskSpec) h :
  ({["publish" := publish]} : gmap string (TaskSpec → string → prog Live module_end)) !! name = Some exec →
  uses_store writes_all all_hosts (exec t h).
Proof.
  intros [<- <-]%lookup_singleton_Some lv. split; [|unfold publish, atomic; simpl; by destruct (merge _ _ _ lv)].
  right. exists (MergeResultVariable (VStr h)), (lv_nodes lv). unfold publish, atomic. simpl.
  destruct lv. by destruct (merge _ _ _ _).
Qed.

Definition web_store : Live :=
  match New yaml_skips "" example_nodes (inr web_inventory) MemorySource with
  | Some (Ok lv) => lv
  | _ => example_store
  end.

Lemma web_store_new : New yaml_skips "" example_nodes (inr web_inventory) MemorySource = Some (Ok web_store).
Proof. vm_compute. reflexivity. Qed.

Lemma publish_ran :
  let '(o, w', _) := publish_run web_store in
  o = Returned None ∧ map (λ t, Hosts (Spec t)) (w_tasks w') = [["node1"; "node2"]; ["node1"; "node2"]].
Proof. vm_compute. split; reflexivity. Qed.

Lemma playbook_on_store_witness :
  let '(o, w', _) := publish_run web_store in
  o = Returned None ∧ map (λ t, Hosts (Spec t)) (w_tasks w') = [["node1"; "node2"]; ["node1"; "node2"]] ∧
  dom (lv_hosts (w_vars w')) = dom (lv_hosts web_store).
Proof.
  destruct web_groups as (groups & HG & _). pose proof publish_ran as HP.
  pose proof (playbook_on_store yaml_skips (λ _, "") (λ _, None) decode_document writes_all (λ _, 0) all_hosts
                [] [] no_owner_error no_floats "" example_nodes web_inventory groups MemorySource web_store
                (Ok [publish_play]) (store_world web_store) new_status {["publish" := publish]} web_registry
                HG web_store_new eq_refl all_hosts_range web_registry_ok (λ _, eq_refl) publish_uses_store) as H.
  unfold publish_run in *. cbv zeta in H. destruct (Exec_playbook _ _ _ _ _ _ _) as [[o w'] st].
  destruct HP as [H1 H2]. split; [exact H1|]. split; [exact H2|]. apply H.
Defined.

Definition set_port : TaskSpec :=
  {| Name := "t"; Hosts := ["node1"]; DelegateTo := ""; IgnoreError := None; Retries := 0; When := [];
     FailedWhen := []; Loop := None; ModuleName := "set_fact"; ModuleArgs := "port: 80"; Register := "";
     RegisterType := "" |}.

Lemma port_node_literal : literal_mapping tmpl_execute (λ _, None) port_node.
Proof.
  exists "!!map", "", [str_node "port"; str_node "80"], [("port", HStr "80")].
  split; [|right; by exists "", ""]. constructor; [reflexivity| |constructor]. split; [reflexivity|].
  intros h ctx. reflexivity.
Qed.

Lemma set_fact_visible_witness :
  let '(lv', out) := run (ModuleSetFact (MS := web_modules) set_port "node1") web_store in
  out = inr ("success", "") ∧
  ∃ all, vs_all (VarStore := web_vars) "node1" lv' = Ok (VMap all) ∧ all !! "port" = Some (VStr "80").
Proof.
  destruct web_groups as (groups & HG & Ha).
  destruct (New_abs yaml_skips "" example_nodes web_inventory groups MemorySource [] HG eq_refl) as (lv & E & _ & Habs).
  rewrite web_store_new in E. injection E as <-. rewrite Ha in Habs.
  pose proof (set_fact_visible (λ _, "") (λ _, None) decode_document writes_all (λ _, 0) all_hosts set_port "node1"
                web_store _ empty_host groups port_node {["port" := VStr "80"]} "port" (VStr "80") Habs HG) as H.
  cbv zeta in H. unfold web_modules, web_vars.
  destruct (run _ web_store) as [lv' out]. destruct H as (H1 & _ & all & H2 & H3 & _).
  - cbn [v_hosts initial_value default from_option id]. rewrite initial_hosts_lookup, decide_False, decide_True;
      [reflexivity|left|apply not_elem_of_nil].
  - intros hs h. unfold all_hosts. by rewrite elem_of_elements.
  - reflexivity.
  - reflexivity.
  - exact port_node_literal.
  - reflexivity.
  - reflexivity.
  - exact Logic.I.
  - rewrite !not_elem_of_cons. split_and!; [discriminate..|apply not_elem_of_nil].
  - split; [exact H1|]. exists all. split; [exact H2|]. apply H3. repeat constructor.
Defined.
