(* ===== verification/Project.v ===== *)
(** * Loading a project: [src/feature/pkg/project/project.go], [path.go],
      [local.go], [git.go], [src/feature/api/project/v1/block.go] and
      [CombineMappingNode] of [src/feature/pkg/variable/helper.go]

    [MarshalPlaybook] reads a playbook and everything it refers to: imported
    playbooks, files of variables, roles with the roles they depend on, included
    task files.  What it returns is what [PlayExec.Exec_playbook] runs.  Files
    may refer to each other in cycles, so the loader takes fuel: the number of
    nested files. *)

From stdpp Require Import gmap strings list sets relations.
From S2P Require Import Prelude Fuel GoStrings Paths Values Tags Serial Memory YamlNode TaskExec BlockExec PlayExec.

(** ** Decoding a block *)

Record BlockBase := {
  bb_name : string;
  bb_run_once : bool;
  bb_ignore_errors : option bool;
  bb_when : list string;
  bb_tags : Taggable;
  bb_vars : Node;
  bb_delegate_to : string;
}.

Record BlockTask := {
  bt_retries : Z;
  bt_failed_when : list string;
  bt_loop : option string;
  bt_register : string;
  bt_register_type : string;
}.

Definition zero_task : BlockTask :=
  {| bt_retries := 0; bt_failed_when := []; bt_loop := None; bt_register := ""; bt_register_type := "" |}.

Definition zero_base : BlockBase :=
  {| bb_name := ""; bb_run_once := false; bb_ignore_errors := None; bb_when := [];
     bb_tags := {| Tags := [] |}; bb_vars := MkNode KindZero "" "" []; bb_delegate_to := "" |}.

Definition block_info (b : BlockBase) (t : BlockTask) (unknown : option (list (string * option string)))
    (include : string) : BlockInfo Node :=
  {| b_name := bb_name b; b_run_once := bb_run_once b; b_ignore_errors := bb_ignore_errors b;
     b_when := bb_when b; b_tags := bb_tags b; b_vars := bb_vars b; b_delegate_to := bb_delegate_to b;
     b_retries := bt_retries t; b_failed_when := bt_failed_when t; b_loop := bt_loop t;
     b_register := bt_register t; b_register_type := bt_register_type t; b_unknown := unknown;
     b_annotation := None; b_include_tasks := include |}.

(** The zero [Block]: what the library leaves for an item that is null. *)
Definition zero_block : Block Node := MkBlock (block_info zero_base zero_task None "") [] [] [].

(** The keys with a field of their own in [BlockBase] or [Task]. *)
Definition base_fields : list string :=
  ["name"; "connection"; "port"; "remote_user"; "vars"; "environment"; "no_log"; "run_once"; "ignore_errors";
   "check_mode"; "diff"; "any_errors_fatal"; "throttle"; "timeout"; "debugger"; "become"; "become_method";
   "become_user"; "become_flags"; "become_exe"; "when"; "collections"; "tags"; "notify"; "delegate_to";
   "delegate_facts"].
Definition task_fields : list string :=
  ["async"; "changed_when"; "delay"; "failed_when"; "loop"; "loop_control"; "poll"; "register"; "register_type";
   "retries"; "until"].

Section Unmarshal.

(** The library's decoding of a node into the parts of a [Block]; [field_json]
    is the decoding of one value into [any] and what it becomes as JSON. *)
Context (decode_base : Node → error + BlockBase) (decode_task : Node → error + BlockTask).
Context (decode_info : Node → error + (list (Block Node) * list (Block Node) * list (Block Node))).
Context (field_json : Node → option string).

(** [unknown[key] = value] *)
Fixpoint set_field (k : string) (v : option string) (l : list (string * option string)) : list (string * option string) :=
  match l with
  | [] => [(k, v)]
  | (k', v') :: l' => if bool_decide (k = k') then (k, v) :: l' else (k', v') :: set_field k v l'
  end.

Fixpoint collectUnknownFields (content : list Node) (exclude : list string) (unknown : list (string * option string))
    : result (list (string * option string)) :=
  match content with
  | [] => Ok unknown
  | [_] => Panic "index out of range"
  | key :: v :: rest =>
      if contains exclude (n_value key) then collectUnknownFields rest exclude unknown
      else collectUnknownFields rest exclude (set_field (n_value key) (field_json v) unknown)
  end.

(** The loop over the keys: the first of [include_tasks] and [block] decides. *)
Inductive BlockForm := IncludeForm (file : string) | SectionsForm | TaskForm.

Fixpoint block_form (content : list Node) : result BlockForm :=
  match content with
  | [] => Ok TaskForm
  | [_] => Panic "index out of range"
  | key :: v :: rest =>
      if bool_decide (n_value key = "include_tasks") then Ok (IncludeForm (n_value v))
      else if bool_decide (n_value key = "block") then Ok SectionsForm
      else block_form rest
  end.

(** [Block.UnmarshalYAML] on a new block. *)
Definition UnmarshalYAML (node : Node) : result (Block Node) :=
  match decode_base node with
  | inl e => Err (Wrap "failed to decode block" e)
  | inr base =>
      let! form := block_form (n_content node) in
      match form with
      | IncludeForm file => Ok (MkBlock (block_info base zero_task None file) [] [] [])
      | SectionsForm =>
          match decode_info node with
          | inl e => Err e
          | inr (block, rescue, always) => Ok (MkBlock (block_info base zero_task None "") block rescue always)
          end
      | TaskForm =>
          match decode_task node with
          | inl e => Err (Wrap "failed to decode task" e)
          | inr t =>
              let! unknown := collectUnknownFields (n_content node) (base_fields ++ task_fields) [] in
              Ok (MkBlock (block_info base t (Some unknown) "") [] [] [])
          end
      end
  end.

End Unmarshal.

(** ** Where things are looked for: [path.go] *)

Definition ProjectPlaybooksDir : string := "playbooks".
Definition ProjectRolesDir : string := "roles".
Definition ProjectRolesMetaDir : string := "meta".
Definition ProjectRolesTasksDir : string := "tasks".
Definition ProjectRolesDefaultsDir : string := "defaults".

Definition GetProjectPath (basePlaybook : string) : string :=
  if bool_decide (Base (Dir basePlaybook) = ProjectPlaybooksDir) then Dir (Dir basePlaybook) else Dir basePlaybook.

Definition GetImportPlaybookRelPath (basePlaybook includePlaybook : string) : list string :=
  [Join [Dir basePlaybook; includePlaybook]; Join [Dir basePlaybook; ProjectPlaybooksDir; includePlaybook];
   Join [ProjectPlaybooksDir; includePlaybook]].

Definition GetVarsFilesRelPath (basePlaybook varsFile : string) : list string :=
  [Join [Dir basePlaybook; varsFile]].

Definition GetRoleRelPath (basePlaybook role : string) : list string :=
  [Join [Dir (Dir basePlaybook); ProjectRolesDir; role]; Join [Dir basePlaybook; ProjectRolesDir; role];
   Join [ProjectRolesDir; role]].

Definition main_files (baseRole dir : string) : list string :=
  [Join [baseRole; dir; "main.yaml"]; Join [baseRole; dir; "main.yml"]].
Definition GetRoleMetaRelPath (baseRole : string) : list string := main_files baseRole ProjectRolesMetaDir.
Definition GetRoleTaskRelPath (baseRole : string) : list string := main_files baseRole ProjectRolesTasksDir.
Definition GetRoleDefaultsRelPath (baseRole : string) : list string := main_files baseRole ProjectRolesDefaultsDir.

Definition GetIncludeTaskRelPath (top source includeTask : string) : list string :=
  [Join [source; includeTask]; Join [source; ProjectRolesTasksDir; includeTask];
   Join [top; includeTask]; Join [top; ProjectRolesTasksDir; includeTask]].

(** [variable.CombineMappingNode]: the content is appended, keys that are
    already there included. *)
Definition CombineMappingNode (a b : Node) : Node :=
  if IsZero a then b
  else match a, b with
       | MkNode MappingNode tag val content, MkNode MappingNode _ _ content' => MkNode MappingNode tag val (content ++ content')
       | _, _ => a
       end.

(** ** The loader *)

(** The file system of the project ([fs.Stat], [fs.ReadFile]), the YAML library
    on the types the loader reads, and [json.Marshal] of the annotations. *)
Class Files := {
  Stat : string → bool;
  ReadFile : string → error + string;
}.

Class Yaml := {
  plays_of_yaml : string → error + list (Play Node);
  blocks_of_yaml : string → error + list (Block Node);
  role_of_yaml : string → error + Role Node;
  node_of_yaml : string → error + Node;
  annotations_json : string → string;
}.

Section Loader.
Context `{FI : !Files, YA : !Yaml}.

(** [getPath]: the empty string when nothing exists. *)
Fixpoint getPath (paths : list string) : string :=
  match paths with
  | [] => ""
  | p :: rest => if Stat p then p else getPath rest
  end.

(** [fs.ReadFile] and [yaml.Unmarshal] of what it read. *)
Definition read_as {A} (what : string) (parse : string → error + A) (path : string) : load A :=
  match ReadFile path with
  | inl e => lfail (Wrap ("failed to read " +:+ what +:+ path) e)
  | inr data =>
      match parse data with
      | inl e => lfail (Wrap ("failed to unmarshal " +:+ what +:+ path) e)
      | inr a => lret a
      end
  end.

Definition with_unknown (info : BlockInfo Node) (unknown : list (string * option string)) (rel : string) : BlockInfo Node :=
  {| b_name := b_name info; b_run_once := b_run_once info; b_ignore_errors := b_ignore_errors info;
     b_when := b_when info; b_tags := b_tags info; b_vars := b_vars info; b_delegate_to := b_delegate_to info;
     b_retries := b_retries info; b_failed_when := b_failed_when info; b_loop := b_loop info;
     b_register := b_register info; b_register_type := b_register_type info;
     b_unknown := Some unknown; b_annotation := Some rel; b_include_tasks := b_include_tasks info |}.

(** [UnknownField["annotations"] = {relative path: top}]: a write to a nil map
    panics. *)
Definition annotate (top : string) (info : BlockInfo Node) : result (BlockInfo Node) :=
  match b_unknown info with
  | None => Panic "assignment to entry in nil map"
  | Some unknown => Ok (with_unknown info (set_field "annotations" (Some (annotations_json top)) unknown) top)
  end.

(** One turn of the loop of [dealBlock]; [include] loads the file of an
    [include_tasks]. *)
Fixpoint deal_block (include : string → load (list (Block Node))) (top : string) (b : Block Node) : load (Block Node) :=
  let '(MkBlock info block rescue always) := b in
  if nonempty block then
    let? block' := lmap (deal_block include top) block in
    let? rescue' := lmap (deal_block include top) rescue in
    let? always' := lmap (deal_block include top) always in
    lret (MkBlock info block' rescue' always')
  else if negb (bool_decide (b_include_tasks info = "")) then
    let? included := include (b_include_tasks info) in
    lret (MkBlock info included rescue always)
  else
    let? info' := Some (annotate top info) in
    lret (MkBlock info' block rescue always).

Fixpoint dealBlock (fuel : nat) (top source : string) (blocks : list (Block Node)) : load (list (Block Node)) :=
  match fuel with
  | O => None
  | S fuel' =>
      lmap (deal_block (λ name,
        let includeTask := getPath (GetIncludeTaskRelPath top source name) in
        if bool_decide (includeTask = "") then lfail (Msg ("failed to find include_task " +:+ name +:+ " base on " +:+ source))
        else
          let? includeBlocks := read_as "includeTask file " blocks_of_yaml includeTask in
          dealBlock fuel' top (Dir includeTask) includeBlocks) top) blocks
  end.

(** A file of variables: it must be one document; a document that is not a
    mapping adds nothing. *)
Definition combine_vars (what : string) (vars : Node) (file : string) : load Node :=
  let? node := read_as what node_of_yaml file in
  match node with
  | MkNode DocumentNode _ _ [n] =>
      lret (if bool_decide (n_kind n = MappingNode) then CombineMappingNode vars n else vars)
  | _ => lfail (Msg "unsupport vars_files format. it should be single map file")
  end.

(** [dealVarsFiles]: the variables of the play afterwards. *)
Fixpoint dealVarsFiles (vars : Node) (basePlaybook : string) (files : list string) : load Node :=
  match files with
  | [] => lret vars
  | varsFile :: rest =>
      let file := getPath (GetVarsFilesRelPath basePlaybook varsFile) in
      if bool_decide (file = "") then lfail (Msg ("failed to find vars_files " +:+ varsFile +:+ " base on " +:+ basePlaybook))
      else
        let? vars' := combine_vars "file " vars file in
        dealVarsFiles vars' basePlaybook rest
  end.

Definition with_role_vars (info : RoleInfo Node) (vars : Node) : RoleInfo Node :=
  {| r_role := r_role info; r_vars := vars; r_when := r_when info; r_tags := r_tags info;
     r_ignore_errors := r_ignore_errors info |}.

Definition role_dependencies (r : Role Node) : list (Role Node) := let '(MkRole _ deps _) := r in deps.

(** [dealRole]: the role with its dependencies, blocks and variables. *)
Fixpoint dealRole (fuel : nat) (basePlaybook : string) (role : Role Node) : load (Role Node) :=
  match fuel with
  | O => None
  | S fuel' =>
      let '(MkRole info deps block) := role in
      let baseRole := getPath (GetRoleRelPath basePlaybook (r_role info)) in
      if bool_decide (baseRole = "") then lfail (Msg ("failed to find role " +:+ r_role info +:+ " base on " +:+ basePlaybook))
      else
        let meta := getPath (GetRoleMetaRelPath baseRole) in
        let? metaDeps :=
          (if bool_decide (meta = "") then lret []
           else
             let? roleMeta := read_as "role meta file " role_of_yaml meta in
             lmap (λ dep, lwrap ("failed to deal dependency role base " +:+ r_role info) (dealRole fuel' basePlaybook dep))
               (role_dependencies roleMeta)) in
        let task := getPath (GetRoleTaskRelPath baseRole) in
        let? block' := (if bool_decide (task = "") then lret block else read_as "yaml file " blocks_of_yaml task) in
        let defaults := getPath (GetRoleDefaultsRelPath baseRole) in
        let? vars := (if bool_decide (defaults = "") then lret (r_vars info)
                      else combine_vars "defaults variable file " (r_vars info) defaults) in
        lret (MkRole (with_role_vars info vars) (deps ++ metaDeps) block')
  end.

(** [dealRoleTask]: dependencies first. *)
Fixpoint dealRoleTask (fuel : nat) (basePlaybook : string) (role : Role Node) : load (Role Node) :=
  let '(MkRole info deps block) := role in
  let? deps' := lmap (dealRoleTask fuel basePlaybook) deps in
  let baseRole := getPath (GetRoleRelPath basePlaybook (r_role info)) in
  let? block' := dealBlock fuel baseRole (Join [baseRole; ProjectRolesTasksDir]) block in
  lret (MkRole info deps' block').

Definition with_parts (p : Play Node) (vars : Node) (pre tasks post : list (Block Node)) (roles : list (Role Node)) : Play Node :=
  {| p_import_playbook := p_import_playbook p; p_hosts := p_hosts p; p_gather_facts := p_gather_facts p;
     p_vars := vars; p_run_once := p_run_once p; p_ignore_errors := p_ignore_errors p; p_tags := p_tags p;
     p_serial := p_serial p; p_vars_files := p_vars_files p; p_pre_tasks := pre; p_roles := roles;
     p_tasks := tasks; p_post_tasks := post |}.

(** What one turn of the loop of [loadPlaybook] does after the import. *)
Definition load_play (fuel : nat) (basePlaybook : string) (p : Play Node) : load (Play Node) :=
  let dir := Dir basePlaybook in
  let? vars := dealVarsFiles (p_vars p) basePlaybook (p_vars_files p) in
  let? pre := dealBlock fuel dir dir (p_pre_tasks p) in
  let? tasks := dealBlock fuel dir dir (p_tasks p) in
  let? post := dealBlock fuel dir dir (p_post_tasks p) in
  let? roles := lmap (λ r, let? r' := dealRole fuel basePlaybook r in dealRoleTask fuel basePlaybook r') (p_roles p) in
  lret (with_parts p vars pre tasks post roles).

(** [dealImportPlaybook]: the plays of the imported playbook; [loadPlaybook] is
    the recursive call. *)
Definition dealImportPlaybook (loadPlaybook : string → load (list (Play Node))) (p : Play Node) (basePlaybook : string)
    : load (list (Play Node)) :=
  if bool_decide (p_import_playbook p = "") then lret []
  else
    let importPlaybook := getPath (GetImportPlaybookRelPath basePlaybook (p_import_playbook p)) in
    if bool_decide (importPlaybook = "") then
      lfail (Msg ("failed to find import_playbook " +:+ p_import_playbook p +:+ " base on " +:+ basePlaybook))
    else loadPlaybook importPlaybook.

(** [loadPlaybook]: the plays it appends to [f.Playbook.Play]. *)
Fixpoint loadPlaybook (fuel : nat) (basePlaybook : string) : load (list (Play Node)) :=
  match fuel with
  | O => None
  | S fuel' =>
      let? plays := read_as "playbook " plays_of_yaml basePlaybook in
      let? loaded := lmap (λ p,
        let? imported := dealImportPlaybook (loadPlaybook fuel') p basePlaybook in
        let? p' := load_play fuel basePlaybook p in
        lret (imported ++ [p'])) plays in
      lret (concat loaded)
  end.

Definition MarshalPlaybook (fuel : nat) (basePlaybook : string) : load (list (Play Node)) :=
  let? plays := loadPlaybook fuel basePlaybook in Some (Validate plays).

End Loader.

(** ** More fuel changes nothing *)

(** ** Which project: [New] *)

(** A file system and the playbook in it; the builtin one has no directory. *)
Record ProjectRoot := { pr_dir : option string; pr_base : string }.

Record PlaybookSpec := {
  sp_addr : string;
  sp_name : string;
  sp_playbook : string;
  sp_builtin : bool;                  (* has the annotation of builtin projects *)
}.

(** [s[strings.LastIndex(s, "/")+1:]] and [strings.TrimSuffix(s, suffix)] *)
Definition after_last_slash (s : string) : string := List.last (Split s slash) "".
Definition TrimSuffix (s suffix : string) : string := str_rev (TrimPrefix (str_rev s) (str_rev suffix)).

(** What [os.Stat] answers. *)
Inductive stat_reply := Exists | NotExist | StatError (e : error).

Section New.

(** The disk, the working directory, the directory of projects that the
    configuration names, and what cloning and pulling do. *)
Context (os_stat : string → stat_reply) (Getwd : error + string).
Context (projects_dir : error + string).
Context (gitClone gitPull : string → option error).
(** [builtinProjectFunc] is nil unless the program is built with the tag
    [builtin]. *)
Context (has_builtin : bool).

Definition newLocalProject (p : PlaybookSpec) : result ProjectRoot :=
  let! playbook :=
    (if IsAbs (sp_playbook p) then Ok (sp_playbook p)
     else if bool_decide (sp_addr p = "") then
       match Getwd with inl e => Err e | inr wd => Ok (Join [wd; sp_playbook p]) end
     else Ok (Join [sp_addr p; sp_playbook p])) in
  match os_stat playbook with
  | NotExist => Err (Wrap ("cannot find playbook " +:+ playbook) (Msg "file does not exist"))
  | StatError e => Err (Wrap ("cannot find playbook " +:+ playbook) e)
  | Exists =>
      let projectPath := GetProjectPath playbook in
      match Rel projectPath playbook with
      | Ok relPath => Ok {| pr_dir := Some projectPath; pr_base := relPath |}
      | Err e => Err (Wrap ("failed to get relative path for playbook " +:+ playbook) e)
      | Panic w => Panic w
      end
  end.

Definition newBuiltinProject (p : PlaybookSpec) : result ProjectRoot :=
  if bool_decide (sp_playbook p = "") then Err (Msg "playbook should not be empty")
  else if IsAbs (sp_playbook p) then Err (Msg "playbook should be relative path base on project.addr")
  else Ok {| pr_dir := None; pr_base := sp_playbook p |}.

Definition git_name (p : PlaybookSpec) : string :=
  if bool_decide (sp_name p = "") then TrimSuffix (after_last_slash (sp_addr p)) ".git" else sp_name p.

(** [newGitProject]; the clone and the pull get the directory. *)
Definition newGitProject (p : PlaybookSpec) (update : bool) : result ProjectRoot :=
  if bool_decide (sp_playbook p = "" ∨ sp_addr p = "") then Err (Msg "playbook and project.addr should not be empty")
  else if IsAbs (sp_playbook p) then Err (Msg "playbook should be relative path base on project.addr")
  else
    match projects_dir with
    | inl e => Err (Wrap "failed to get projects_dir in config" e)
    | inr dir =>
        let projectDir := Join [dir; git_name p] in
        let failed := match os_stat projectDir with
                      | NotExist => gitClone projectDir
                      | _ => if update then gitPull projectDir else None
                      end in
        match failed with
        | Some e => Err e
        | None => Ok {| pr_dir := Some (Join [projectDir; git_name p]); pr_base := sp_playbook p |}
        end
    end.

Definition New (p : PlaybookSpec) (update : bool) : result ProjectRoot :=
  if HasPrefix (sp_addr p) "https://" || HasPrefix (sp_addr p) "http://" || HasPrefix (sp_addr p) "git@" then
    newGitProject p update
  else if sp_builtin p then
    if has_builtin then newBuiltinProject p else Panic "invalid memory address or nil pointer dereference"
  else newLocalProject p.

End New.

Arguments getPath : simpl never.
Arguments GetRoleRelPath : simpl never.
Arguments main_files : simpl never.
Arguments GetIncludeTaskRelPath : simpl never.
Arguments GetImportPlaybookRelPath : simpl never.
Arguments GetVarsFilesRelPath : simpl never.
Arguments read_as : simpl never.
Arguments combine_vars : simpl never.

Section Properties.
Context `{FI : !Files, YA : !Yaml}.

Lemma lle_deal_block include include' top b :
  (∀ name, lle (include name) (include' name)) → lle (deal_block include top b) (deal_block include' top b).
Proof.
  intros Hi. induction b as [info block rescue always IH1 IH2 IH3] using Block_ind. cbn [deal_block].
  assert (∀ l, Forall (λ b, lle (deal_block include top b) (deal_block include' top b)) l →
    lle (lmap (deal_block include top) l) (lmap (deal_block include' top) l)) as HL.
  { intros l Hl. apply lle_map. by apply list.Forall_forall. }
  destruct (nonempty block).
  - apply lle_bind; [by apply HL|]. intros b'. apply lle_bind; [by apply HL|].
    intros r'. apply lle_bind; [by apply HL|]. intros. apply lle_refl.
  - destruct (negb _); [|apply lle_refl]. apply lle_bind; [apply Hi|]. intros. apply lle_refl.
Qed.

Lemma dealBlock_mono top source blocks : mono (λ n, dealBlock n top source blocks).
Proof.
  intros n. revert source blocks. induction n as [|n IH]; intros source blocks m Hm; [by left|].
  destruct m as [|m]; [lia|]. simpl. apply lle_map. intros b _. apply lle_deal_block. intros name. cbv zeta.
  case_bool_decide; [apply lle_refl|]. apply lle_bind; [apply lle_refl|]. intros bs. apply IH. lia.
Qed.
#[local] Hint Resolve dealBlock_mono : kk.

Lemma dealRole_mono base role : mono (λ n, dealRole n base role).
Proof.
  intros n. revert role. induction n as [|n IH]; intros role m Hm; [by left|].
  destruct m as [|m]; [lia|]. destruct role as [info deps block]. simpl.
  case_bool_decide; [apply lle_refl|]. apply lle_bind; [|intros; apply lle_refl].
  case_bool_decide; [apply lle_refl|]. apply lle_bind; [apply lle_refl|]. intros r.
  apply lle_map. intros dep _. apply lle_wrap, IH. lia.
Qed.

Lemma dealRoleTask_mono base role : mono (λ n, dealRoleTask n base role).
Proof.
  induction role as [info deps block IH] using Role_ind. cbn [dealRoleTask].
  apply (mono_bind (λ n, lmap (dealRoleTask n base) deps)).
  - apply mono_map. by apply list.Forall_forall.
  - intros deps'. apply (mono_bind (λ n, dealBlock n _ _ block)); auto with kk.
Qed.

Lemma load_play_mono base p : mono (λ n, load_play n base p).
Proof.
  unfold load_play. apply (mono_bind (λ _, _)); [apply mono_const|]. intros vars.
  apply (mono_bind (λ n, dealBlock n _ _ (p_pre_tasks p))); [auto with kk|]. intros pre.
  apply (mono_bind (λ n, dealBlock n _ _ (p_tasks p))); [auto with kk|]. intros tasks.
  apply (mono_bind (λ n, dealBlock n _ _ (p_post_tasks p))); [auto with kk|]. intros post.
  eapply (mono_bind (λ n, lmap _ (p_roles p))); [|intros; apply mono_const].
  apply mono_map. intros r _. apply (mono_bind (λ n, dealRole n base r)); [apply dealRole_mono|].
  intros r'. apply dealRoleTask_mono.
Qed.

Lemma lle_import (load load' : string → load (list (Play Node))) p base :
  (∀ f, lle (load f) (load' f)) → lle (dealImportPlaybook load p base) (dealImportPlaybook load' p base).
Proof.
  intros H. unfold dealImportPlaybook. case_bool_decide; [apply lle_refl|]. cbv zeta.
  case_bool_decide; [apply lle_refl|apply H].
Qed.

Lemma loadPlaybook_mono base : mono (λ n, loadPlaybook n base).
Proof.
  intros n. revert base. induction n as [|n IH]; intros base m Hm; [by left|].
  destruct m as [|m]; [lia|]. cbn [loadPlaybook]. apply lle_bind; [apply lle_refl|]. intros plays.
  apply lle_bind; [|intros; apply lle_refl]. apply lle_map. intros p _. apply lle_bind.
  - apply lle_import. intros f. apply IH. lia.
  - intros imported. apply lle_bind; [|intros; apply lle_refl]. by apply load_play_mono.
Qed.

Lemma MarshalPlaybook_mono base : mono (λ n, MarshalPlaybook n base).
Proof.
  unfold MarshalPlaybook. apply (mono_bind (λ n, loadPlaybook n base)); [apply loadPlaybook_mono|].
  intros. apply mono_const.
Qed.

(** ** What refers to what *)

(** The file exists, is read and is what the library made of it. *)
Definition parsed {A} (parse : string → error + A) (path : string) (a : A) : Prop :=
  ∃ data, ReadFile path = inr data ∧ parse data = inr a.

Lemma read_as_ok {A} what (parse : string → error + A) path a :
  read_as what parse path = Some (Ok a) ↔ parsed parse path a.
Proof.
  unfold read_as, parsed, lfail, lret. destruct (ReadFile path) as [e|data]; [naive_solver|].
  destruct (parse data) as [e|b] eqn:E; split.
  - done.
  - intros (? & [= <-] & H). congruence.
  - intros [= <-]. eauto.
  - intros (? & [= <-] & H). congruence.
Qed.

Lemma read_as_returns {A} what (parse : string → error + A) path : ∃ r, read_as what parse path = Some r.
Proof. unfold read_as. destruct (ReadFile path) as [e|data]; [by eexists|]. destruct (parse data); by eexists. Qed.

Lemma combine_vars_returns what vars file : ∃ r, combine_vars what vars file = Some r.
Proof.
  unfold combine_vars. destruct (read_as_returns what node_of_yaml file) as [[n|e|w] ->]; [|by eexists..].
  destruct n as [[] ? ? [|? []]]; by eexists.
Qed.

Lemma dealVarsFiles_returns vars base files : ∃ r, dealVarsFiles vars base files = Some r.
Proof.
  revert vars. induction files as [|f files IH]; intros vars; [by eexists|]. cbn [dealVarsFiles]. cbv zeta.
  case_bool_decide; [by eexists|].
  destruct (combine_vars_returns "file " vars (getPath (GetVarsFilesRelPath base f))) as [[n|e|w] ->]; [apply IH|by eexists..].
Qed.

(** The [include_tasks] of a block and of the blocks nested in it. *)
Fixpoint block_includes (b : Block Node) : list string :=
  let '(MkBlock info block rescue always) := b in
  if nonempty block then
    flat_map block_includes block ++ flat_map block_includes rescue ++ flat_map block_includes always
  else if negb (bool_decide (b_include_tasks info = "")) then [b_include_tasks info] else [].

Definition found (paths : list string) (file : string) : Prop := getPath paths = file ∧ file ≠ "".

Definition includes (top file file' : string) : Prop :=
  ∃ blocks name, parsed blocks_of_yaml file blocks ∧ name ∈ flat_map block_includes blocks ∧
                 found (GetIncludeTaskRelPath top (Dir file) name) file'.

Definition depends (base name name' : string) : Prop :=
  ∃ baseRole meta r dep, found (GetRoleRelPath base name) baseRole ∧ found (GetRoleMetaRelPath baseRole) meta ∧
    parsed role_of_yaml meta r ∧ dep ∈ role_dependencies r ∧ r_role (role_info dep) = name'.

Definition imports (file file' : string) : Prop :=
  ∃ plays p, parsed plays_of_yaml file plays ∧ p ∈ plays ∧ p_import_playbook p ≠ "" ∧
             found (GetImportPlaybookRelPath file (p_import_playbook p)) file'.

Lemma elem_of_flat_map {A B} (f : A → list B) l y : y ∈ flat_map f l ↔ ∃ x, x ∈ l ∧ y ∈ f x.
Proof. rewrite list_elem_of_In, in_flat_map. by setoid_rewrite list_elem_of_In. Qed.

(** ** The loader returns unless files refer to each other in a cycle *)

Lemma deal_block_total (inc : nat → string → load (list (Block Node))) top b :
  (∀ name, mono (λ n, inc n name)) → (∀ name, name ∈ block_includes b → total (λ n, inc n name)) →
  total (λ n, deal_block (inc n) top b).
Proof.
  intros HM. induction b as [info block rescue always IH1 IH2 IH3] using Block_ind. cbn [deal_block block_includes].
  assert (∀ l, mono (λ n, lmap (deal_block (inc n) top) l)) as HMl.
  { intros l. apply mono_map. intros b _ n m Hn. apply lle_deal_block. intros name. by apply HM. }
  assert (∀ l, Forall (λ b, (∀ name, name ∈ block_includes b → total (λ n, inc n name)) → total (λ n, deal_block (inc n) top b)) l →
    (∀ name, name ∈ flat_map block_includes l → total (λ n, inc n name)) → total (λ n, lmap (deal_block (inc n) top) l)) as HTl.
  { intros l Hl HT. apply total_map.
    - intros b _ n m Hn. apply lle_deal_block. intros name. by apply HM.
    - intros b Hb. apply (proj1 (list.Forall_forall _ _) Hl b Hb). intros name Hname. apply HT, elem_of_flat_map. eauto. }
  destruct (nonempty block).
  - intros HT. apply (total_bind (λ n, lmap (deal_block (inc n) top) block)); [done| |apply HTl; [done|set_solver]|].
    { intros b'. apply (mono_bind (λ n, lmap (deal_block (inc n) top) rescue)); [done|]. intros r'.
      apply (mono_bind (λ n, lmap (deal_block (inc n) top) always)); [done|]. intros. apply mono_const. }
    intros b' _ _. apply (total_bind (λ n, lmap (deal_block (inc n) top) rescue)); [done| |apply HTl; [done|set_solver]|].
    { intros r'. apply (mono_bind (λ n, lmap (deal_block (inc n) top) always)); [done|]. intros. apply mono_const. }
    intros r' _ _. apply (total_bind (λ n, lmap (deal_block (inc n) top) always)); [done| |apply HTl; [done|set_solver]|].
    { intros. apply mono_const. }
    intros. apply total_const.
  - destruct (negb _); intros HT.
    + apply (total_bind (λ n, inc n (b_include_tasks info))); [done|intros; apply mono_const| |intros; apply total_const].
      apply HT. set_solver.
    + exists 0%nat. by destruct (annotate top info).
Qed.

Lemma dealBlock_total_step top source blocks :
  (∀ name file blocks', name ∈ flat_map block_includes blocks → found (GetIncludeTaskRelPath top source name) file →
     parsed blocks_of_yaml file blocks' → total (λ n, dealBlock n top (Dir file) blocks')) →
  total (λ n, dealBlock n top source blocks).
Proof.
  intros HT. apply total_S. simpl. apply total_map.
  - intros b _ n m Hn. apply lle_deal_block. intros name. cbv zeta. case_bool_decide; [apply lle_refl|].
    apply lle_bind; [apply lle_refl|]. intros bs. by apply dealBlock_mono.
  - intros b Hb. apply deal_block_total.
    + intros name n m Hn. cbv zeta. case_bool_decide; [apply lle_refl|].
      apply lle_bind; [apply lle_refl|]. intros bs. by apply dealBlock_mono.
    + intros name Hname. cbv zeta. case_bool_decide as Hf; [apply total_const|].
      destruct (read_as "includeTask file " blocks_of_yaml (getPath (GetIncludeTaskRelPath top source name))) as [[bs|e|w]|] eqn:E;
        [|apply total_const..|].
      * apply read_as_ok in E. simpl. eapply HT; [|split; [reflexivity|exact Hf]|exact E]. apply elem_of_flat_map. eauto.
      * unfold read_as in E. by repeat case_match.
Qed.

Lemma dealBlock_total top source blocks :
  well_founded (flip (includes top)) → total (λ n, dealBlock n top source blocks).
Proof.
  intros Hwf. assert (∀ file blocks, parsed blocks_of_yaml file blocks → total (λ n, dealBlock n top (Dir file) blocks)) as HF.
  { intros file. induction file as [file IH] using (well_founded_ind Hwf). intros bs Hbs.
    apply dealBlock_total_step. intros name file' bs' Hname Hfound Hbs'. apply IH; [|done]. exists bs, name. by split_and!. }
  apply dealBlock_total_step. eauto.
Qed.

Lemma dealRole_total base role :
  well_founded (flip (depends base)) → total (λ n, dealRole n base role).
Proof.
  intros Hwf. remember (r_role (role_info role)) as name eqn:En. revert role En.
  induction name as [name IH] using (well_founded_ind Hwf). intros [info deps block] En. simpl in En.
  apply total_S. cbn [dealRole]. case_bool_decide as Hb; [apply total_const|].
  eapply (total_bind (λ n, if bool_decide (getPath (GetRoleMetaRelPath (getPath (GetRoleRelPath base (r_role info)))) = "") then _ else _)).
  - case_bool_decide; [apply mono_const|]. apply (mono_bind (λ _, _)); [apply mono_const|]. intros r.
    apply mono_map. intros dep _. apply mono_wrap, dealRole_mono.
  - intros. apply mono_const.
  - case_bool_decide as Hm; [apply total_const|].
    destruct (read_as "role meta file " role_of_yaml (getPath (GetRoleMetaRelPath (getPath (GetRoleRelPath base (r_role info))))))
      as [[r|e|w]|] eqn:E; [|apply total_const..|].
    + apply read_as_ok in E. simpl. apply total_map; [intros dep _; apply mono_wrap, dealRole_mono|].
      intros dep Hdep. apply total_wrap. apply (IH (r_role (role_info dep))); [|done].
      subst name. eexists _, _, r, dep. split; [by split|]. split; [by split|]. by split_and!.
    + unfold read_as in E. by repeat case_match.
  - intros metaDeps _ _. exists 0%nat. set (base' := getPath (GetRoleRelPath base (r_role info))).
    assert (∃ r, (if bool_decide (getPath (GetRoleTaskRelPath base') = "") then lret block
                  else read_as "yaml file " blocks_of_yaml (getPath (GetRoleTaskRelPath base'))) = Some r) as [r1 ->].
    { case_bool_decide; [by eexists|apply read_as_returns]. }
    assert (∃ r, (if bool_decide (getPath (GetRoleDefaultsRelPath base') = "") then lret (r_vars info)
                  else combine_vars "defaults variable file " (r_vars info) (getPath (GetRoleDefaultsRelPath base'))) = Some r) as [r2 ->].
    { case_bool_decide; [by eexists|apply combine_vars_returns]. }
    by destruct r1, r2.
Qed.

Lemma dealRoleTask_total base role :
  (∀ top, well_founded (flip (includes top))) → total (λ n, dealRoleTask n base role).
Proof.
  intros Hwf. induction role as [info deps block IH] using Role_ind. cbn [dealRoleTask]. cbv zeta.
  apply (total_bind (λ n, lmap (dealRoleTask n base) deps)).
  - apply mono_map. intros r _. apply dealRoleTask_mono.
  - intros deps'. apply (mono_bind (λ n, dealBlock n _ _ block)); [auto with kk|]. intros. apply mono_const.
  - apply total_map; [intros r _; apply dealRoleTask_mono|]. by apply list.Forall_forall.
  - intros deps' _ _. apply (total_bind (λ n, dealBlock n _ _ block)); [auto with kk|intros; apply mono_const| |].
    + by apply dealBlock_total.
    + intros. apply total_const.
Qed.

Lemma load_play_total base p :
  (∀ top, well_founded (flip (includes top))) → well_founded (flip (depends base)) → total (λ n, load_play n base p).
Proof.
  intros HI HD. unfold load_play. cbv zeta.
  destruct (dealVarsFiles_returns (p_vars p) base (p_vars_files p)) as [[vars|e|w] ->]; [|apply total_const..]. cbn [lbind].
  assert (mono (λ n, lmap (λ r, let? r' := dealRole n base r in dealRoleTask n base r') (p_roles p))) as HM.
  { apply mono_map. intros r _. apply (mono_bind (λ n, dealRole n base r)); [apply dealRole_mono|].
    intros r'. apply dealRoleTask_mono. }
  apply (total_bind (λ n, dealBlock n _ _ (p_pre_tasks p))); [auto with kk| |by apply dealBlock_total|].
  { intros pre. apply (mono_bind (λ n, dealBlock n _ _ (p_tasks p))); [auto with kk|]. intros tasks.
    apply (mono_bind (λ n, dealBlock n _ _ (p_post_tasks p))); [auto with kk|]. intros post.
    by apply (mono_bind (λ n, lmap _ (p_roles p))); [|intros; apply mono_const]. }
  intros pre _ _. apply (total_bind (λ n, dealBlock n _ _ (p_tasks p))); [auto with kk| |by apply dealBlock_total|].
  { intros tasks. apply (mono_bind (λ n, dealBlock n _ _ (p_post_tasks p))); [auto with kk|]. intros post.
    by apply (mono_bind (λ n, lmap _ (p_roles p))); [|intros; apply mono_const]. }
  intros tasks _ _. apply (total_bind (λ n, dealBlock n _ _ (p_post_tasks p))); [auto with kk| |by apply dealBlock_total|].
  { intros post. by apply (mono_bind (λ n, lmap _ (p_roles p))); [|intros; apply mono_const]. }
  intros post _ _. apply (total_bind (λ n, lmap _ (p_roles p))); [done|intros; apply mono_const| |intros; apply total_const].
  apply total_map.
  - intros r _. apply (mono_bind (λ n, dealRole n base r)); [apply dealRole_mono|]. intros r'. apply dealRoleTask_mono.
  - intros r _. apply (total_bind (λ n, dealRole n base r)); [apply dealRole_mono| |by apply dealRole_total|].
    + intros r'. apply dealRoleTask_mono.
    + intros r' _ _. by apply dealRoleTask_total.
Qed.

(** C4: When no file includes itself, no role depends on itself and no playbook
    imports itself, directly or through others, loading returns: some fuel
    gives a result and all larger fuel the same. *)
Theorem MarshalPlaybook_total base :
  (∀ top, well_founded (flip (includes top))) → (∀ playbook, well_founded (flip (depends playbook))) →
  well_founded (flip imports) →
  ∃ n r, ∀ m, (n ≤ m)%nat → MarshalPlaybook m base = Some r.
Proof.
  intros HI HD HP. cut (total (λ n, loadPlaybook n base)).
  { intros [n Hn]. destruct (loadPlaybook n base) as [r|] eqn:E; [|done].
    eexists n, _. intros m Hm. unfold MarshalPlaybook.
    rewrite (mono_Some (λ n, loadPlaybook n base) n m r (loadPlaybook_mono base) Hm E).
    instantiate (1 := match r with Ok plays => Validate plays | Err e => Err e | Panic w => Panic w end). by destruct r. }
  induction base as [base IH] using (well_founded_ind HP). apply total_S. cbn [loadPlaybook].
  destruct (read_as_returns "playbook " plays_of_yaml base) as [[plays|e|w] E]; rewrite E; [|apply total_const..]. cbn [lbind].
  assert (∀ p, mono (λ n, dealImportPlaybook (loadPlaybook n) p base)) as HM1.
  { intros p n m Hn. apply lle_import. intros f. by apply loadPlaybook_mono. }
  assert (∀ p imported, mono (λ n, let? p' := load_play (S n) base p in lret (imported ++ [p']))) as HM2.
  { intros p imported n m Hn. apply lle_bind; [apply load_play_mono; lia|]. intros. apply lle_refl. }
  apply (total_bind (λ n, lmap _ plays)); [| |apply total_map|intros; apply total_const].
  - apply mono_map. intros p _. by apply (mono_bind (λ n, dealImportPlaybook (loadPlaybook n) p base)).
  - intros. apply mono_const.
  - intros p _. by apply (mono_bind (λ n, dealImportPlaybook (loadPlaybook n) p base)).
  - intros p Hp. apply (total_bind (λ n, dealImportPlaybook (loadPlaybook n) p base)); [done|done| |].
    + unfold dealImportPlaybook. case_bool_decide as Hi; [apply total_const|]. cbv zeta. case_bool_decide as Hf; [apply total_const|].
      apply IH. exists plays, p. apply read_as_ok in E. split_and!; done.
    + intros imported _ _. destruct (load_play_total base p HI (HD base)) as [n Hn]. exists n.
      destruct (load_play n base p) as [r|] eqn:El; [|done].
      rewrite (mono_Some _ n (S n) r (load_play_mono base p) (Nat.le_succ_diag_r n) El). by destruct r.
Qed.

End Properties.
