(* ===== verification/ProjectSpec.v ===== *)
(** * What a loaded project is

    The theorems on [Project]: every include of a loaded playbook is resolved
    and every task carries the directory its files are looked up in; plays come
    in the order the imports give them; cycles never return; the places where
    loading fails, panics or produces variables that cannot be decoded; and how
    the project of a local playbook is found. *)

From stdpp Require Import gmap strings list sets relations.
From S2P Require Import Prelude Fuel GoStrings Paths Values Tags Serial Memory YamlNode TaskExec BlockExec PlayExec Project.

Section Loaded.
Context `{FI : !Files, YA : !Yaml}.

(** ** Loaded blocks, roles and plays *)

(** A task carries the path [top]; an include has the blocks of its file; the
    sections of a block are resolved themselves. *)
Inductive resolved (top : string) : Block Node → Prop :=
| resolved_task info rescue always :
    b_include_tasks info = "" → b_annotation info = Some top → is_Some (b_unknown info) →
    resolved top (MkBlock info [] rescue always)
| resolved_include info block rescue always :
    b_include_tasks info ≠ "" → Forall (resolved top) block → resolved top (MkBlock info block rescue always)
| resolved_sections info block rescue always :
    block ≠ [] → Forall (resolved top) block → Forall (resolved top) rescue → Forall (resolved top) always →
    resolved top (MkBlock info block rescue always).

Inductive role_resolved (base : string) : Role Node → Prop :=
| role_resolved_intro info deps block :
    Forall (role_resolved base) deps →
    Forall (resolved (getPath (GetRoleRelPath base (r_role info)))) block →
    role_resolved base (MkRole info deps block).

(** [p'] is the play [p] of the file [base], loaded. *)
Definition loaded_play (base : string) (p p' : Play Node) : Prop :=
  (∃ vars pre tasks post roles, p' = with_parts p vars pre tasks post roles ∧
     length pre = length (p_pre_tasks p) ∧ length tasks = length (p_tasks p) ∧ length post = length (p_post_tasks p) ∧
     map (λ r, r_role (role_info r)) roles = map (λ r, r_role (role_info r)) (p_roles p)) ∧
  Forall (resolved (Dir base)) (p_pre_tasks p' ++ p_tasks p' ++ p_post_tasks p') ∧
  Forall (role_resolved base) (p_roles p').

(** The plays of a playbook: those of an imported playbook stand before the
    play that imports it. *)
Inductive Loaded (base : string) : list (Play Node) → Prop :=
| Loaded_intro plays parts :
    parsed plays_of_yaml base plays → Forall2 (Part base) plays parts → Loaded base (concat parts)
with Part (base : string) : Play Node → list (Play Node) → Prop :=
| Part_own p p' : p_import_playbook p = "" → loaded_play base p p' → Part base p [p']
| Part_import p p' file imported :
    p_import_playbook p ≠ "" → found (GetImportPlaybookRelPath base (p_import_playbook p)) file →
    Loaded file imported → loaded_play base p p' → Part base p (imported ++ [p']).

Lemma deal_block_resolved inc top b b' :
  (∀ name bs, inc name = Some (Ok bs) → Forall (resolved top) bs) →
  deal_block inc top b = Some (Ok b') → resolved top b'.
Proof.
  intros Hi. revert b'. induction b as [info block rescue always IH1 IH2 IH3] using Block_ind. intros b'. cbn [deal_block].
  assert (∀ l l', Forall (λ b, ∀ b', deal_block inc top b = Some (Ok b') → resolved top b') l →
    lmap (deal_block inc top) l = Some (Ok l') → Forall (resolved top) l' ∧ length l' = length l) as HL.
  { intros l l' Hl H. pose proof (lmap_Forall (λ _ b, resolved top b) _ _ _ H Hl) as HF.
    split; [|symmetry; by eapply Forall2_length]. by eapply Forall2_Forall_r; [exact HF|apply list.Forall_forall]. }
  destruct (nonempty_spec block) as [Hne|Hemp].
  - rewrite lbind_ok. intros (l1 & H1 & H). apply lbind_ok in H as (l2 & H2 & H). apply lbind_ok in H as (l3 & H3 & H).
    apply lret_ok in H as <-. destruct (HL _ _ IH1 H1) as [HF1 HN]. apply HL in H2 as [? _], H3 as [? _]; [|done..].
    apply resolved_sections; [|done..]. intros ->. by destruct block.
  - subst block. case_bool_decide as Hinc; cbn [negb].
    + intros H. apply lbind_ok in H as (info' & H1 & H). apply lret_ok in H as <-.
      unfold annotate in H1. destruct (b_unknown info) as [u|]; [|done]. injection H1 as <-. by apply resolved_task; eauto.
    + rewrite lbind_ok. intros (bs & H1 & H). apply lret_ok in H as <-. apply resolved_include; [done|by eapply Hi].
Qed.

Lemma dealBlock_resolved n top source blocks bs :
  dealBlock n top source blocks = Some (Ok bs) → Forall (resolved top) bs ∧ length bs = length blocks.
Proof.
  revert source blocks bs. induction n as [|n IH]; intros source blocks bs; [done|]. cbn [dealBlock]. intros H.
  split; [|apply lmap_ok in H; symmetry; by eapply Forall2_length].
  assert (Forall2 (λ _ b, resolved top b) blocks bs) as HF.
  { eapply lmap_Forall; [exact H|]. apply list.Forall_forall. intros b _ b' Hb.
    eapply deal_block_resolved; [|exact Hb]. intros name bs' Hbs. cbv beta zeta in Hbs. case_bool_decide; [done|].
    apply lbind_ok in Hbs as (bs0 & _ & Hbs). by eapply IH. }
  by eapply Forall2_Forall_r; [exact HF|apply list.Forall_forall].
Qed.

Lemma dealRoleTask_resolved n base r r' :
  dealRoleTask n base r = Some (Ok r') → role_resolved base r' ∧ r_role (role_info r') = r_role (role_info r).
Proof.
  revert r'. induction r as [info deps block IH] using Role_ind. intros r'. cbn [dealRoleTask]. cbv zeta.
  rewrite lbind_ok. intros (deps' & H1 & H). apply lbind_ok in H as (block' & H2 & H). apply lret_ok in H as <-.
  split; [|done]. constructor; [|by apply dealBlock_resolved in H2 as [? _]].
  assert (Forall2 (λ _ r, role_resolved base r) deps deps') as HF.
  { eapply lmap_Forall; [exact H1|]. eapply list.Forall_impl; [exact IH|]. intros r HR b Hb. by apply HR. }
  by eapply Forall2_Forall_r; [exact HF|apply list.Forall_forall].
Qed.

Lemma dealRole_name n base r r' :
  dealRole n base r = Some (Ok r') → r_role (role_info r') = r_role (role_info r).
Proof.
  destruct n as [|n]; [done|]. destruct r as [info deps block]. cbn [dealRole]. cbv zeta. case_bool_decide as Hb; [done|].
  rewrite lbind_ok. intros (x & _ & H). apply lbind_ok in H as (y & _ & H). apply lbind_ok in H as (z & _ & H).
  by apply lret_ok in H as <-.
Qed.

Lemma load_play_loaded n base p p' : load_play n base p = Some (Ok p') → loaded_play base p p'.
Proof.
  unfold load_play. cbv zeta. rewrite lbind_ok. intros (vars & _ & H). apply lbind_ok in H as (pre & H1 & H).
  apply lbind_ok in H as (tasks & H2 & H). apply lbind_ok in H as (post & H3 & H).
  apply lbind_ok in H as (roles & H4 & H). apply lret_ok in H as <-.
  apply dealBlock_resolved in H1 as [? ?], H2 as [? ?], H3 as [? ?].
  assert (Forall2 (λ r r', role_resolved base r' ∧ r_role (role_info r') = r_role (role_info r)) (p_roles p) roles) as HF.
  { eapply lmap_Forall; [exact H4|]. apply list.Forall_forall. intros r _ r' Hr.
    apply lbind_ok in Hr as (r0 & Hr0 & Hr). apply dealRole_name in Hr0. apply dealRoleTask_resolved in Hr as [? Hn].
    split; [done|]. congruence. }
  split; [|split].
  - exists vars, pre, tasks, post, roles. split_and!; [done..|]. clear -HF. induction HF as [|r r' l l' [_ Hn] _ IH]; [done|].
    simpl. by f_equal.
  - simpl. rewrite !Forall_app. done.
  - simpl. eapply Forall2_Forall_r; [exact HF|]. apply list.Forall_forall. by intros r _ r' [? _].
Qed.

Lemma loadPlaybook_Loaded n base plays : loadPlaybook n base = Some (Ok plays) → Loaded base plays.
Proof.
  revert base plays. induction n as [|n IH]; intros base plays; [done|]. cbn [loadPlaybook].
  rewrite lbind_ok. intros (ps & Hps & H). apply read_as_ok in Hps. apply lbind_ok in H as (parts & H & Hr).
  apply lret_ok in Hr as <-. eapply Loaded_intro; [exact Hps|].
  eapply lmap_Forall; [exact H|]. apply list.Forall_forall. intros p _ part Hp.
  apply lbind_ok in Hp as (imported & Hi & Hp). apply lbind_ok in Hp as (p' & Hp' & Hp). apply lret_ok in Hp as <-.
  apply load_play_loaded in Hp'. unfold dealImportPlaybook in Hi. case_bool_decide as Hne.
  - apply lret_ok in Hi as <-. by apply Part_own.
  - cbv zeta in Hi. case_bool_decide as Hf; [done|]. eapply Part_import; [done|by split|by apply IH|done].
Qed.

Lemma Validate_ok (plays l : list (Play Node)) :
  Validate plays = Ok l → l = filter (λ p, p_import_playbook p = "") plays ∧ Forall (λ p, p_hosts p ≠ []) l.
Proof.
  revert l. induction plays as [|p plays IH]; intros l; cbn [Validate]; [by intros [= <-]|].
  rewrite filter_cons. case_bool_decide as Hi; cbn [negb].
  - rewrite decide_True by done. destruct (nonempty_spec (p_hosts p)) as [Hh|Hh]; cbn [negb]; [|done].
    intros H. apply rbind_ok in H as (l' & Hl & H). injection H as <-. destruct (IH l' Hl) as [-> HF].
    split; [done|]. by constructor.
  - rewrite decide_False by done. apply IH.
Qed.


(** ** Cycles *)

(** The first thing a file refers to, before anything can fail. *)
Definition first_import (file file' : string) : Prop :=
  ∃ p plays, parsed plays_of_yaml file (p :: plays) ∧ p_import_playbook p ≠ "" ∧
             found (GetImportPlaybookRelPath file (p_import_playbook p)) file'.

Definition first_include (top file file' : string) : Prop :=
  ∃ info rescue always blocks, parsed blocks_of_yaml file (MkBlock info [] rescue always :: blocks) ∧
    b_include_tasks info ≠ "" ∧ found (GetIncludeTaskRelPath top (Dir file) (b_include_tasks info)) file'.

Definition first_dependency (base name name' : string) : Prop :=
  ∃ baseRole meta info deps block dep rest, found (GetRoleRelPath base name) baseRole ∧ found (GetRoleMetaRelPath baseRole) meta ∧
    parsed role_of_yaml meta (MkRole info deps block) ∧ deps = dep :: rest ∧ r_role (role_info dep) = name'.

(** Nothing guards against cycles: a playbook whose first play imports a
    playbook on a cycle, a task file whose first block includes a file on a
    cycle, and a role whose first dependency is on a cycle are never loaded,
    whatever the fuel. *)
Theorem cycles_never_return :
  (∀ P : string → Prop, (∀ f, P f → ∃ f', first_import f f' ∧ P f') →
     ∀ n base, P base → MarshalPlaybook n base = None) ∧
  (∀ top (P : string → Prop), (∀ f, P f → ∃ f', first_include top f f' ∧ P f') →
     ∀ n file blocks, P file → parsed blocks_of_yaml file blocks → dealBlock n top (Dir file) blocks = None) ∧
  (∀ base (P : string → Prop), (∀ name, P name → ∃ name', first_dependency base name name' ∧ P name') →
     ∀ n role, P (r_role (role_info role)) → dealRole n base role = None).
Proof.
  split_and!.
  - intros P HP n base Hb. cut (loadPlaybook n base = None); [by unfold MarshalPlaybook; intros ->|].
    revert base Hb. induction n as [|n IH]; intros base Hb; [done|].
    destruct (HP base Hb) as (f' & (p & plays & Hp & Hi & Hf & Hne) & Hf'). cbn [loadPlaybook].
    apply (read_as_ok "playbook ") in Hp. rewrite Hp. cbn [lbind]. rewrite lmap_None_head; [done|].
    unfold dealImportPlaybook. rewrite bool_decide_eq_false_2 by done. cbv zeta. rewrite Hf, bool_decide_eq_false_2 by done.
    by rewrite IH.
  - intros top P HP n. induction n as [|n IH]; intros file blocks Hfile Hbs; [done|].
    destruct (HP file Hfile) as (f' & (info & rescue & always & rest & Hp & Hi & Hf & Hne) & Hf').
    assert (blocks = MkBlock info [] rescue always :: rest) as ->.
    { destruct Hbs as (d & Hd & Hb), Hp as (d' & Hd' & Hp). congruence. }
    cbn [dealBlock]. rewrite lmap_None_head; [done|]. cbn [deal_block nonempty].
    rewrite bool_decide_eq_false_2 by done. cbn [negb]. cbv zeta. rewrite Hf, bool_decide_eq_false_2 by done.
    destruct (HP f' Hf') as (f2 & (info2 & resc2 & alw2 & bs2 & Hp2 & _) & _).
    rewrite (proj2 (read_as_ok "includeTask file " _ f' _) Hp2). cbn [lbind]. by rewrite IH.
  - intros base P HP n. induction n as [|n IH]; intros [info deps block] Hr; [done|]. simpl in Hr.
    destruct (HP _ Hr) as (name' & (baseRole & meta & info' & deps' & block' & dep & rest & [Hb1 Hb2] & [Hm1 Hm2] & Hp & -> & Hd) & Hn).
    cbn [dealRole]. cbv zeta. rewrite Hb1, bool_decide_eq_false_2, Hm1, bool_decide_eq_false_2 by done.
    rewrite (proj2 (read_as_ok "role meta file " _ meta _) Hp). cbn [lbind role_dependencies].
    rewrite lmap_None_head; [done|]. apply lwrap_None, IH. by rewrite Hd.
Qed.

(** ** What panics *)

(** Annotating a task writes to the map of its unknown fields, which only a
    task decoded from a mapping without [block] and [include_tasks] has: a list
    item that is null, or a block whose list is empty, panics when it is loaded.
    The panic is on the executor's own goroutine: the playbook is recorded as
    succeeded without having run anything. *)
Theorem nil_fields_panic {V} {VS : VarStore V Node} {LB : Libraries} {EN : Engine V Node}
    onlyTags skipTags owner pf n base info b p plays w (old : PlaybookStatus) :
  b = MkBlock info [] [] [] → b_include_tasks info = "" → b_unknown info = None →
  parsed plays_of_yaml base (p :: plays) → p_import_playbook p = "" → p_vars_files p = [] →
  p_pre_tasks p = [] → p_tasks p = [b] →
  (∃ why, MarshalPlaybook (S n) base = Some (Panic why)) ∧
  ∀ project, MarshalPlaybook (S n) base = Some project →
    let '(o, w', st) := Exec_playbook onlyTags skipTags owner pf project w old in
    w' = w ∧ ps_phase st = PlaybookPhaseSucceeded.
Proof.
  intros -> Hi Hu Hp Himp Hvf Hpre Ht.
  assert (MarshalPlaybook (S n) base = Some (Panic "assignment to entry in nil map")) as E.
  { unfold MarshalPlaybook. cbn [loadPlaybook]. rewrite (proj2 (read_as_ok "playbook " _ base _) Hp). cbn [lbind lmap].
    unfold dealImportPlaybook. rewrite bool_decide_eq_true_2 by done. cbn [lbind lret]. unfold load_play. cbv zeta.
    rewrite Hvf, Hpre, Ht. simpl. rewrite bool_decide_eq_true_2 by done. unfold annotate. by rewrite Hu. }
  rewrite E. split; [by eexists|]. intros project [= <-]. done.
Qed.

(** ** Where files are looked for *)

Lemma getPath_spec paths file : file ≠ "" →
  getPath paths = file ↔
  ∃ before after, paths = before ++ file :: after ∧ Stat file = true ∧ Forall (λ p, Stat p = false) before.
Proof.
  intros Hne. induction paths as [|p paths IH]; unfold getPath; fold getPath.
  - split; [congruence|]. intros ([|? ?] & after & E & _); done.
  - destruct (Stat p) eqn:Ep.
    + split; [intros ->; by exists [], paths|]. intros ([|q before] & after & [= -> E] & _ & HF); [done|].
      apply Forall_cons in HF as [? _]. congruence.
    + rewrite IH. split.
      * intros (before & after & -> & Hs & HF). exists (p :: before), after. split_and!; [done..|by constructor].
      * intros ([|q before] & after & [= -> E] & Hs & HF); [congruence|]. apply Forall_cons in HF as [_ HF].
        by exists before, after.
Qed.

Lemma Join_dir l (dir : string) l' :
  Forall normal l → normal dir → Forall normal l' → l' ≠ [] →
  Join [path_of false l; dir; path_of false l'] = path_of false (l ++ dir :: l').
Proof.
  intros H Hd H' Hne. transitivity (Join [path_of false l; path_of false (dir :: l')]).
  - destruct l' as [|x l']; [done|]. unfold Join. by rewrite !bool_decide_eq_false_2 by (by apply path_of_nonempty).
  - apply Join_under; [done|by constructor].
Qed.

Lemma Join_top (dir : string) l' :
  normal dir → Forall normal l' → l' ≠ [] → Join [dir; path_of false l'] = path_of false (dir :: l').
Proof.
  intros Hd H' Hne. change dir with (path_of false [dir]) at 1. apply (Join_under false [dir]); [constructor; [done|constructor]|done].
Qed.

Lemma Dir_Dir d f :
  Forall normal d → normal f → Dir (Dir (path_of false (d ++ [f]))) = path_of false (removelast d).
Proof.
  intros Hd Hf. rewrite Dir_path_of by done. destruct d as [|x d _] using rev_ind; [done|].
  rewrite removelast_last. apply Forall_app in Hd as [Hd Hx]. apply Forall_cons in Hx as [Hx _]. by apply Dir_path_of.
Qed.

(** For paths below the project's root, the first of these that exists is
    used: an import next to the playbook, in its [playbooks] directory, in the
    root's; a role in the [roles] directory of the playbook's parent directory,
    of its own, of the root; an included file next to the including one, in a
    [tasks] directory there, and the same two places of the role or playbook. *)
Theorem search_order (d src top i : list string) (f : string) :
  Forall normal d → normal f → Forall normal src → Forall normal top → Forall normal i → i ≠ [] →
  let path := path_of false in
  GetImportPlaybookRelPath (path (d ++ [f])) (path i) = map path [d ++ i; d ++ "playbooks" :: i; "playbooks" :: i] ∧
  GetRoleRelPath (path (d ++ [f])) (path i) = map path [removelast d ++ "roles" :: i; d ++ "roles" :: i; "roles" :: i] ∧
  GetIncludeTaskRelPath (path top) (path src) (path i) =
    map path [src ++ i; src ++ "tasks" :: i; top ++ i; top ++ "tasks" :: i] ∧
  ∀ paths file, file ≠ "" →
    getPath paths = file ↔
    ∃ before after, paths = before ++ file :: after ∧ Stat file = true ∧ Forall (λ p, Stat p = false) before.
Proof.
  intros Hd Hf Hs Ht Hi Hne path. subst path.
  assert (Forall normal (removelast d)) as Hr.
  { destruct d as [|x d _] using rev_ind; [done|]. rewrite removelast_last. by apply Forall_app in Hd as [? _]. }
  assert (normal "playbooks" ∧ normal "roles" ∧ normal "tasks") as (H1 & H2 & H3) by by_decision.
  unfold GetImportPlaybookRelPath, GetRoleRelPath, GetIncludeTaskRelPath,
    ProjectPlaybooksDir, ProjectRolesDir, ProjectRolesTasksDir. cbn [map].
  rewrite Dir_Dir, !Dir_path_of, !Join_dir, !Join_under, !Join_top by done.
  split_and!; try done. intros paths file. apply getPath_spec.
Qed.

End Loaded.

(** ** Variables given twice *)

(** The text of the keys of a mapping. *)
Fixpoint node_keys (content : list Node) : list string :=
  match content with
  | key :: _ :: rest => n_value key :: node_keys rest
  | _ => []
  end.

Fixpoint scalar_keys (content : list Node) : Prop :=
  match content with
  | key :: _ :: rest => n_kind key = ScalarNode ∧ scalar_keys rest
  | _ => True
  end.

Lemma pairs_ind (P : list Node → Prop) :
  P [] → (∀ k, P [k]) → (∀ k v l, P l → P (k :: v :: l)) → ∀ l, P l.
Proof. intros H0 H1 H2. fix IH 1. intros [|k [|v l]]; [done|done|]. apply H2, IH. Qed.

Lemma node_keys_app l l' : Nat.Even (length l) → node_keys (l ++ l') = node_keys l ++ node_keys l'.
Proof.
  induction l as [|k|k v l IH] using pairs_ind; simpl; [done| |].
  - intros [x Hx]. lia.
  - intros [x Hx]. rewrite IH; [done|]. exists (x - 1)%nat. lia.
Qed.

(** ** Decoded blocks *)

Section Decoded.
Context (decode_base : Node → error + BlockBase) (decode_task : Node → error + BlockTask).
Context (decode_info : Node → error + (list (Block Node) * list (Block Node) * list (Block Node))).
Context (field_json : Node → option string).

Lemma set_field_keys k v l k' : k' ∈ map fst (set_field k v l) ↔ k' = k ∨ k' ∈ map fst l.
Proof.
  induction l as [|[k0 v0] l IH]; simpl; [set_solver|].
  case_bool_decide; simpl; [subst; set_solver|]. rewrite !elem_of_cons, IH. tauto.
Qed.

Lemma set_field_NoDup k v l : NoDup (map fst l) → NoDup (map fst (set_field k v l)).
Proof.
  induction l as [|[k0 v0] l IH]; simpl; [intros _; constructor; [set_solver|constructor]|].
  case_bool_decide; simpl; [by subst|]. rewrite !NoDup_cons, set_field_keys. intros [H1 H2]. split; [|by apply IH].
  intros [->|]; auto.
Qed.

Lemma collect_spec content exclude unknown l :
  collectUnknownFields field_json content exclude unknown = Ok l → NoDup (map fst unknown) →
  NoDup (map fst l) ∧ ∀ k, k ∈ map fst l ↔ k ∈ map fst unknown ∨ (k ∈ node_keys content ∧ k ∉ exclude).
Proof.
  revert unknown. induction content as [|k|k v rest IH] using pairs_ind; intros unknown; cbn [collectUnknownFields node_keys]; [|done|].
  - intros [= <-] HN. split; [done|]. set_solver.
  - destruct (contains_spec exclude (n_value k)) as [Hk|Hk]; intros H HN.
    + destruct (IH _ H HN) as [H1 H2]. split; [done|]. intros k'. rewrite H2, elem_of_cons. split; [tauto|].
      intros [?|[[->|?] ?]]; tauto.
    + destruct (IH _ H (set_field_NoDup _ _ _ HN)) as [H1 H2]. split; [done|]. intros k'.
      rewrite H2, set_field_keys, elem_of_cons. split; [|tauto]. intros [[->|?]|[? ?]]; tauto.
Qed.

(** C39: A block is decoded as exactly one of three forms, by the first of the keys
    [include_tasks] and [block]: an include without blocks of its own, sections
    as the library decodes them, or a task; only a task has a map of unknown
    fields, and it holds every key once that is not a known field of a task. *)
Theorem UnmarshalYAML_form node info block rescue always :
  UnmarshalYAML decode_base decode_task decode_info field_json node = Ok (MkBlock info block rescue always) →
  match block_form (n_content node) with
  | Ok (IncludeForm file) => b_include_tasks info = file ∧ b_unknown info = None ∧ block = [] ∧ rescue = [] ∧ always = []
  | Ok SectionsForm => b_include_tasks info = "" ∧ b_unknown info = None ∧ decode_info node = inr (block, rescue, always)
  | Ok TaskForm =>
      b_include_tasks info = "" ∧ block = [] ∧ rescue = [] ∧ always = [] ∧
      "block" ∉ node_keys (n_content node) ∧ "include_tasks" ∉ node_keys (n_content node) ∧
      ∃ unknown, b_unknown info = Some unknown ∧ NoDup (map fst unknown) ∧
        ∀ k, k ∈ map fst unknown ↔ k ∈ node_keys (n_content node) ∧ k ∉ base_fields ++ task_fields
  | _ => False
  end.
Proof.
  unfold UnmarshalYAML. destruct (decode_base node) as [|base]; [done|].
  assert (∀ l, block_form l = Ok TaskForm → "block" ∉ node_keys l ∧ "include_tasks" ∉ node_keys l) as HK.
  { intros l. induction l as [|k|k v l IH] using pairs_ind; cbn [block_form node_keys]; [set_solver|done|].
    case_bool_decide; [done|]. case_bool_decide; [done|]. intros Hl. destruct (IH Hl). rewrite !not_elem_of_cons. auto. }
  destruct (block_form (n_content node)) as [[file| |]| |] eqn:E; cbn [rbind]; [| | |done..].
  - by intros [= <- <- <- <-].
  - destruct (decode_info node) as [|[[b r] a]]; [done|]. by intros [= <- <- <- <-].
  - destruct (decode_task node) as [|t]; [done|]. intros (u & Hu & H)%rbind_ok. injection H as <- <- <- <-.
    destruct (HK _ E). destruct (collect_spec _ _ _ _ Hu) as [H1 H2]; [constructor|]. split_and!; try done.
    exists u. split; [done|]. split; [done|]. intros k. rewrite H2.
    split; [|by right]. intros [Hn|?]; [by apply not_elem_of_nil in Hn|done].
Qed.

End Decoded.

Section Twice.
Context `{FI : !Files, YA : !Yaml}.
Context (tmpl_execute : gmap string value → string → result string).
Context (ParseFloat : string → option string) (Decode : Node → error + gmap string value).

(** Processing changes values, not keys, and accepts scalar keys only. *)
Lemma processNode_keys h ctx tag val content r h' n' :
  processNode tmpl_execute ParseFloat h ctx (MkNode MappingNode tag val content) [] = (r, h', n') →
  r = Ok tt → ∃ content', n' = MkNode MappingNode tag val content' ∧ node_keys content' = node_keys content ∧ scalar_keys content'.
Proof.
  cbn [processNode]. destruct (Nat.odd (length content)); [by intros [= <- _ _]|].
  match goal with |- context [(?F) h content] => set (pairs := F) end.
  assert (∀ l h r h' l', pairs h l = (r, h', l') → r = Ok tt → node_keys l' = node_keys l ∧ scalar_keys l') as HP.
  { intros l. induction l as [|k|k v l IH] using pairs_ind; intros h0 r0 h0' l'; simpl; [by intros [= _ _ <-]|by intros [= _ _ <-]|].
    case_bool_decide as Hk; [|by intros [= <- _ _]].
    destruct (processNode _ _ h0 ctx v _) as [[r1 h1] v1]. destruct r1 as [[]|e|w]; [|by intros [= <- _ _]..].
    destruct (pairs h1 l) as [[r2 h2] l2] eqn:E2. intros [= -> _ <-] Hr.
    destruct (IH _ _ _ _ E2 Hr) as [IH1 IH2]. simpl. split; [by f_equal|done]. }
  destruct (pairs h content) as [[r1 h1] c1] eqn:E. intros [= -> _ <-] Hr. destruct (HP _ _ _ _ _ E Hr). eauto.
Qed.

(** A variable that is given both by a play or role itself and by one of
    its files of variables or defaults is kept twice, and the library rejects a
    mapping with a repeated key: the file loads, but the variables can then
    never be merged into the store, with either value. *)
Theorem variables_given_twice what file tag val c tag2 val2 c2 dtag dval key h ctx :
  (∀ t v content, scalar_keys content → ¬ NoDup (node_keys content) → ∃ e, Decode (MkNode MappingNode t v content) = inl e) →
  Nat.Even (length c) → key ∈ node_keys c → key ∈ node_keys c2 →
  parsed node_of_yaml file (MkNode DocumentNode dtag dval [MkNode MappingNode tag2 val2 c2]) →
  ∃ vars, combine_vars what (MkNode MappingNode tag val c) file = Some (Ok vars) ∧
    ∀ data, (parseYamlNode tmpl_execute ParseFloat Decode h ctx vars).1.1 ≠ Ok data.
Proof.
  intros HD Hc Hk Hk2 Hp. exists (MkNode MappingNode tag val (c ++ c2)). split.
  { unfold combine_vars. rewrite (proj2 (read_as_ok what _ file _) Hp). cbn [lbind n_kind].
    by rewrite bool_decide_eq_true_2. }
  intros data. unfold parseYamlNode.
  destruct (processNode _ _ h ctx _ []) as [[r h'] n'] eqn:E. cbn [fst]. destruct r as [[]|e|w]; [|done..].
  destruct (processNode_keys _ _ _ _ _ _ _ _ E eq_refl) as (content' & -> & Hkeys & Hs). cbn [rbind].
  unfold decode_node. destruct (HD tag val content' Hs) as [e ->]; [|done].
  rewrite Hkeys, node_keys_app, NoDup_app by done. intros (_ & HN & _). by destruct (HN key Hk).
Qed.

End Twice.

(** ** Where the project of a playbook is *)

(** The playbook of a local project is found again below the directory that
    becomes the root of the project: the directory of the playbook, or the one
    above it when the playbook is in a directory named [playbooks]; and a git
    project is looked for in a directory below the clone that has the name of
    the project once more. *)
Theorem New_root os_stat Getwd projects_dir gitClone gitPull has_builtin p update r l f :
  New os_stat Getwd projects_dir gitClone gitPull has_builtin p update = Ok r →
  (HasPrefix (sp_addr p) "https://" || HasPrefix (sp_addr p) "http://" || HasPrefix (sp_addr p) "git@" = false →
   sp_builtin p = false → Forall normal (l ++ [f]) → sp_playbook p = path_of true (l ++ [f]) →
   ∃ dir, pr_dir r = Some dir ∧ Join [dir; pr_base r] = sp_playbook p ∧
     (if bool_decide (List.last l "" = "playbooks") then dir = path_of true (removelast l) ∧ pr_base r = path_of false ["playbooks"; f]
      else dir = path_of true l ∧ pr_base r = f)) ∧
  (HasPrefix (sp_addr p) "https://" || HasPrefix (sp_addr p) "http://" || HasPrefix (sp_addr p) "git@" = true →
   ∃ dir, projects_dir = inr dir ∧ pr_dir r = Some (Join [Join [dir; git_name p]; git_name p]) ∧
     (os_stat (Join [dir; git_name p]) = NotExist → gitClone (Join [dir; git_name p]) = None)).
Proof.
  unfold New. intros H. split.
  - intros Hu Hb HF Hp. rewrite Hu, Hb in H. unfold newLocalProject in H.
    pose proof HF as [Hl Hfs]%Forall_app. pose proof Hfs as [Hf _]%Forall_cons.
    assert (Forall normal ["playbooks"; f]) as Hpf by (constructor; [by_decision|done]).
    rewrite Hp, IsAbs_path_of in H by done. cbn [rbind] in H. destruct (os_stat _); [|done..].
    unfold GetProjectPath in H. rewrite Dir_path_of in H by done. destruct l as [|x l _] using rev_ind.
    + change (Base (path_of true [])) with "/" in H. rewrite bool_decide_eq_false_2 in H by done.
      rewrite (Rel_under [] [f] (Forall_nil_2 _) Hfs) in H by done. injection H as <-. exists (path_of true []). cbn [pr_dir pr_base].
      rewrite Hp. split_and!; [done|by apply (Join_under true [] [f])|done].
    + apply Forall_app in Hl as [Hl Hx]. pose proof Hx as [Hx' _]%Forall_cons.
      rewrite Base_snoc in H by done. rewrite last_last, removelast_last. case_bool_decide as Hpl.
      * subst x. rewrite Dir_path_of in H by done. rewrite <- app_assoc in H. cbn [app] in H. rewrite (Rel_under l [ProjectPlaybooksDir; f]) in H by done.
        injection H as <-. exists (path_of true l). cbn [pr_dir pr_base]. rewrite Hp, <- app_assoc. split_and!; [done| |done..].
        by apply (Join_under true l [ProjectPlaybooksDir; f]).
      * rewrite (Rel_under (l ++ [x]) [f]) in H by (done || by apply Forall_app). injection H as <-.
        exists (path_of true (l ++ [x])). cbn [pr_dir pr_base]. rewrite Hp. rewrite bool_decide_eq_false_2 by done. split_and!; [done| |done..].
        apply (Join_under true (l ++ [x]) [f]); [by apply Forall_app|done].
  - intros Hu. rewrite Hu in H. unfold newGitProject in H. case_bool_decide; [done|]. destruct (IsAbs _); [done|].
    destruct projects_dir as [e|dir]; [done|]. exists dir. split; [done|].
    destruct (os_stat (Join [dir; git_name p])) eqn:Es.
    + destruct (if update then _ else _); [done|]. by injection H as <-.
    + destruct (gitClone _) eqn:Eg; [done|]. by injection H as <-.
    + destruct (if update then _ else _); [done|]. by injection H as <-.
Qed.

(** ** A small project *)

Lemma wf_rank (R : string → string → Prop) (rank : string → nat) :
  (∀ x y, R x y → (rank y < rank x)%nat) → well_founded (flip R).
Proof. intros H. apply (Wf_nat.well_founded_lt_compat _ rank). intros x y. apply H. Qed.

Definition demo_block (name include : string) (unknown : option (list (string * option string))) : Block Node :=
  MkBlock (block_info {| bb_name := name; bb_run_once := false; bb_ignore_errors := None; bb_when := [];
                         bb_tags := {| Tags := [] |}; bb_vars := MkNode KindZero "" "" []; bb_delegate_to := "" |}
             zero_task unknown include) [] [] [].

Definition demo_play (import : string) (hosts : list string) (tasks : list (Block Node)) : Play Node :=
  {| p_import_playbook := import; p_hosts := hosts; p_gather_facts := false; p_vars := MkNode KindZero "" "" [];
     p_run_once := false; p_ignore_errors := None; p_tags := {| Tags := [] |}; p_serial := []; p_vars_files := [];
     p_pre_tasks := []; p_roles := []; p_tasks := tasks; p_post_tasks := [] |}.

(** The content of a file is its name, which tells what it decodes to. *)
#[local] Instance demo_files : Files :=
  {| Stat p := contains ["site.yaml"; "playbooks/b.yaml"; "i.yaml"; "t.yaml"; "null.yaml"; "loop.yaml"; "vars.yaml"] p;
     ReadFile p := if contains ["site.yaml"; "playbooks/b.yaml"; "i.yaml"; "t.yaml"; "null.yaml"; "loop.yaml"; "vars.yaml"] p
                   then inr p else inl (Msg "file does not exist") |}.

Definition no_parse {A} (what : string) : error + A := inl (Msg what).

Definition demo_plays (loops : bool) (f : string) : error + list (Play Node) :=
  if bool_decide (f = "site.yaml") then
    inr [demo_play "b.yaml" [] []; demo_play "" ["a"] [demo_block "x" "" (Some [("ok", Some "{}")]); demo_block "" "i.yaml" None]]
  else if bool_decide (f = "playbooks/b.yaml") then inr [demo_play "" ["b"] []]
  else if bool_decide (f = "null.yaml") then inr [demo_play "" ["a"] [zero_block]]
  else if loops && bool_decide (f = "loop.yaml") then inr [demo_play "loop.yaml" [] []]
  else no_parse f.

Definition demo_blocks (f : string) : error + list (Block Node) :=
  if bool_decide (f = "i.yaml") then inr [demo_block "" "t.yaml" None]
  else if bool_decide (f = "t.yaml") then inr [demo_block "y" "" (Some [("ok", Some "{}")])]
  else no_parse f.

Definition demo_yaml (loops : bool) : Yaml :=
  {| plays_of_yaml := demo_plays loops; blocks_of_yaml := demo_blocks; role_of_yaml := no_parse;
     node_of_yaml := λ _, inr (MkNode DocumentNode "" "" [map_node [("b", str_node "2"); ("a", str_node "3")]]);
     annotations_json := λ top, top |}.

#[local] Existing Instances demo_yaml.

Lemma demo_parsed {A} (parse : string → error + A) f a : parsed parse f a → parse f = inr a.
Proof. intros (d & Hd & Hp). simpl in Hd. destruct (contains _ f); [|done]. by injection Hd as <-. Qed.

Definition demo_loaded : list (Play Node) :=
  match MarshalPlaybook (YA := demo_yaml false) 3 "site.yaml" with Some (Ok l) => l | _ => [] end.

Lemma MarshalPlaybook_total_witness :
  ∃ n r, ∀ m, (n ≤ m)%nat → MarshalPlaybook (YA := demo_yaml false) m "site.yaml" = Some r.
Proof.
  apply (MarshalPlaybook_total (YA := demo_yaml false)).
  - intros top. apply (wf_rank _ (λ f, if bool_decide (f = "i.yaml") then 1 else 0)%nat).
    intros f f' (blocks & name & Hp%demo_parsed & Hn & [Hf _]). cbn [blocks_of_yaml demo_yaml] in Hp. unfold demo_blocks in Hp.
    case_bool_decide as E1; [|case_bool_decide as E2; [|done]]; injection Hp as <-; cbn in Hn.
    + apply list_elem_of_singleton in Hn as ->. subst f. cbv in Hf. subst f'. cbv. lia.
    + by apply not_elem_of_nil in Hn.
  - intros p. apply (wf_rank _ (λ _, 0%nat)). intros ? ? (? & ? & ? & ? & _ & _ & Hp%demo_parsed & _). done.
  - apply (wf_rank _ (λ f, if bool_decide (f = "site.yaml") then 1 else 0)%nat).
    intros f f' (plays & p & Hp%demo_parsed & Hin & Hi & [Hf _]). cbn [plays_of_yaml demo_yaml] in Hp. unfold demo_plays in Hp.
    repeat (case_bool_decide; [injection Hp as <-|]); [..|done].
    + apply elem_of_cons in Hin as [->|[->|?%not_elem_of_nil]%elem_of_cons]; [|done..].
      subst f. vm_compute in Hf. subst f'. vm_compute. lia.
    + by apply list_elem_of_singleton in Hin as ->.
    + by apply list_elem_of_singleton in Hin as ->.
Defined.


Lemma cycles_never_return_witness :
  MarshalPlaybook (YA := demo_yaml true) 100 "loop.yaml" = None.
Proof.
  destruct (cycles_never_return (YA := demo_yaml true)) as [H _].
  apply (H (λ f, f = "loop.yaml")); [|reflexivity]. intros f ->. exists "loop.yaml". split; [|reflexivity].
  eexists _, []. split; [by exists "loop.yaml"|]. split; [done|]. split; [reflexivity|done].
Defined.

Definition demo_store : VarStore nat Node := {|
  vs_all := λ _ _, Ok (VMap ∅);
  vs_merge_runtime := λ _ _ v, (v, Ok tt);
  vs_hostnames := λ names _, Ok names;
  vs_max_len := λ _, 10%nat;
  vs_result := λ _, VNil;
|}.

Definition demo_engine : Engine nat Node := {|
  ConvertMap2Node := λ _, inl (Msg "no node");
  FindModule := small_modules;
  api := λ _, None;
  schedule := λ _, [];
|}.

Lemma nil_fields_panic_witness :
  let project := MarshalPlaybook (YA := demo_yaml false) 1 "null.yaml" in
  (∃ why, project = Some (Panic why)) ∧
  ∀ pj, project = Some pj →
    let '(o, w', st) := Exec_playbook (VS := demo_store) (LB := no_templates) (EN := demo_engine) [] [] no_owner_error no_floats
                          pj empty_world new_status in
    w' = empty_world ∧ ps_phase st = PlaybookPhaseSucceeded.
Proof.
  intros project. subst project.
  apply (nil_fields_panic (YA := demo_yaml false) (VS := demo_store) (LB := no_templates) (EN := demo_engine) [] []
    no_owner_error no_floats 0 "null.yaml" (block_info zero_base zero_task None "") zero_block
    (demo_play "" ["a"] [zero_block]) []); try reflexivity.
  by exists "null.yaml".
Defined.

Lemma search_order_witness :
  let path := path_of false in
  GetRoleRelPath "playbooks/site.yaml" "docker" = ["roles/docker"; "playbooks/roles/docker"; "roles/docker"] ∧
  GetImportPlaybookRelPath "playbooks/site.yaml" "docker" =
    ["playbooks/docker"; "playbooks/playbooks/docker"; "playbooks/docker"].
Proof.
  destruct (search_order (FI := demo_files) ["playbooks"] ["roles"; "docker"; "tasks"] ["roles"; "docker"] ["docker"] "site.yaml")
    as (H1 & H2 & _); [by_decision..|].
  split; [exact H2|exact H1].
Defined.

(** The library's check of the keys. *)
Definition decode_unique (n : Node) : error + gmap string value :=
  if bool_decide (NoDup (node_keys (n_content n))) then decode_strings n else inl (Msg "mapping key already defined").

Lemma variables_given_twice_witness :
  ∃ vars, combine_vars (YA := demo_yaml false) "file " (map_node [("a", str_node "1")]) "vars.yaml" = Some (Ok vars) ∧
    ∀ data, (parseYamlNode name_template (λ _, None) decode_unique (named "node1") 0 vars).1.1 ≠ Ok data.
Proof.
  eapply (variables_given_twice (YA := demo_yaml false) name_template (λ _, None) decode_unique "file " "vars.yaml" _ _ _ _ _ _ _ _ "a").
  - intros t v content _ HN. unfold decode_unique. cbn [n_content]. rewrite bool_decide_eq_false_2 by done. by eexists.
  - by exists 1%nat.
  - by_decision.
  - instantiate (1 := [str_node "b"; str_node "2"; str_node "a"; str_node "3"]). by_decision.
  - by exists "vars.yaml".
Defined.

Lemma New_root_witness :
  ∃ r, New (λ _, Exists) (inl (Msg "no directory")) (inl (Msg "")) (λ _, None) (λ _, None) false
         {| sp_addr := ""; sp_name := ""; sp_playbook := "/kk/playbooks/site.yaml"; sp_builtin := false |} false = Ok r ∧
       ∃ dir, pr_dir r = Some dir ∧ Join [dir; pr_base r] = "/kk/playbooks/site.yaml" ∧
              dir = "/kk" ∧ pr_base r = "playbooks/site.yaml".
Proof.
  eexists. split; [vm_compute; reflexivity|].
  destruct (New_root (λ _, Exists) (inl (Msg "no directory")) (inl (Msg "")) (λ _, None) (λ _, None) false
    {| sp_addr := ""; sp_name := ""; sp_playbook := "/kk/playbooks/site.yaml"; sp_builtin := false |} false
    {| pr_dir := Some "/kk"; pr_base := "playbooks/site.yaml" |} ["kk"; "playbooks"] "site.yaml") as [H _];
    [vm_compute; reflexivity|].
  apply H; [reflexivity|reflexivity|by_decision|reflexivity].
Defined.

Lemma UnmarshalYAML_form_witness :
  let node := map_node [("name", str_node "t"); ("debug", str_node "x")] in
  let block := UnmarshalYAML (λ _, inr zero_base) (λ _, inr zero_task) (λ _, inl (Msg "")) (λ n, Some (n_value n)) node in
  block = Ok (demo_block "" "" (Some [("debug", Some "x")])) ∧
  ∃ unknown, Some [("debug", Some "x")] = Some unknown ∧ NoDup (map fst unknown) ∧
    ∀ k, k ∈ map fst unknown ↔ k ∈ node_keys (n_content node) ∧ k ∉ base_fields ++ task_fields.
Proof.
  intros node block. split; [vm_compute; reflexivity|].
  apply (UnmarshalYAML_form (λ _, inr zero_base) (λ _, inr zero_task) (λ _, inl (Msg "")) (λ n, Some (n_value n)) node
    (block_info zero_base zero_task (Some [("debug", Some "x")]) "") [] [] []).
  vm_compute. reflexivity.
Defined.
