(* ===== verification/LegacyTask.v ===== *)
(** * Tasks of the installer's pipeline engine:
      [src/cmd/kk/pkg/core/task/remote_task.go], [local_task.go] and
      [src/cmd/kk/pkg/core/ending]

    A remote task runs on every live host, one goroutine per host, and
    collects one result per host under a mutex; the pre-check and the action
    are retried. *)

From stdpp Require Import gmap strings list sets.
From S2P Require Import Prelude Prog.

(** ** [ending] *)

Inductive ResultStatus := NULL | SKIPPED | SUCCESS | FAILED.

#[export] Instance ResultStatus_eq_dec : EqDecision ResultStatus.
Proof. solve_decision. Defined.

Definition status_code (s : ResultStatus) : Z :=
  match s with NULL => -99 | SKIPPED => -1 | SUCCESS => 0 | FAILED => 1 end.

Definition status_String (s : ResultStatus) : string :=
  match s with SUCCESS => "success" | FAILED => "failed" | SKIPPED => "skipped" | NULL => "null" end.

Definition GetByCode (code : Z) : ResultStatus :=
  if bool_decide (code = -99)%Z then NULL
  else if bool_decide (code = -1)%Z then SKIPPED
  else if bool_decide (code = 0)%Z then SUCCESS
  else FAILED.

(** The host of a result is nil only in [LocalTask.Default]. *)
Record ActionResult := { ar_host : option string; ar_status : ResultStatus; ar_error : option string }.

Record TaskResult := { tr_results : list ActionResult; tr_status : ResultStatus }.

Definition NewTaskResult : TaskResult := {| tr_results := []; tr_status := NULL |}.

(** [ErrResult], [NormalResult], [SkippedResult] only leave the state NULL. *)
Definition settle (s : ResultStatus) (t : TaskResult) : TaskResult :=
  if bool_decide (tr_status t = NULL) then {| tr_results := tr_results t; tr_status := s |} else t.
Definition ErrResult := settle FAILED.
Definition NormalResult := settle SUCCESS.
Definition SkippedResult := settle SKIPPED.

Definition AppendSkip (host : option string) (t : TaskResult) : TaskResult :=
  {| tr_results := tr_results t ++ [{| ar_host := host; ar_status := SKIPPED; ar_error := None |}];
     tr_status := tr_status t |}.
Definition AppendSuccess (host : option string) (t : TaskResult) : TaskResult :=
  {| tr_results := tr_results t ++ [{| ar_host := host; ar_status := SUCCESS; ar_error := None |}];
     tr_status := tr_status t |}.
Definition AppendErr (host : option string) (err : string) (t : TaskResult) : TaskResult :=
  {| tr_results := tr_results t ++ [{| ar_host := host; ar_status := FAILED; ar_error := Some err |}];
     tr_status := FAILED |}.

Definition IsFailed (t : TaskResult) : bool := bool_decide (tr_status t = FAILED).

Definition newline : string := String (Ascii.Ascii false true false true false false false false) "".

(** [CombineErr]: the name of a nil host is a nil dereference. *)
Fixpoint combine_text (l : list ActionResult) (acc : string) : result string :=
  match l with
  | [] => Ok acc
  | a :: rest =>
      if negb (bool_decide (ar_status a = FAILED)) then combine_text rest acc
      else match ar_host a, ar_error a with
           | Some h, Some e => combine_text rest (acc +:+ newline +:+ "failed: [" +:+ h +:+ "] " +:+ e)
           | _, _ => Panic "invalid memory address or nil pointer dereference"
           end
  end.

Definition CombineErr (t : TaskResult) : result (option string) :=
  if nonempty (tr_results t) then let! s := combine_text (tr_results t) "" in Ok (Some s) else Ok None.

(** ** Programs over the state and the results *)

Section LegacyTask.
(** Everything actions touch. *)
Context {S : Type}.

(** The shared state of the goroutines of a task. *)
Notation shared := (S * TaskResult)%type.

Fixpoint lift {A : Type} (p : prog S A) : prog shared A :=
  match p with
  | PRet a => PRet a
  | PStep f => PStep (λ v, let '(s', p') := f v.1 in ((s', v.2), lift p'))
  end.

Definition append (f : TaskResult → TaskResult) : prog shared unit :=
  atomic (λ v, ((v.1, f v.2), tt)).

(** A task: its pre-check and action for a host, as the interfaces [Prepare],
    [Action] and [Rollback] give them. *)
Record RemoteTask := {
  rt_name : string;
  rt_precheck : string → prog S (string + bool);
  rt_action : string → prog S (option string);
  rt_rollback : option (string → ActionResult → prog S (option string));
  rt_parallel : bool;
  rt_retry : Z;
}.

(** [Default]: the number of attempts. *)
Definition retries (t : RemoteTask) : nat :=
  if bool_decide (rt_retry t ≤ 0)%Z then 3 else Z.to_nat (rt_retry t).

(** The loop [for i := 0; i < Retry; i++] that returns at the first attempt
    without an error and otherwise adds the last error to [msg]. *)
Fixpoint with_retry {A : Type} (attempt : prog S (string + A)) (n : nat) (msg : string)
    : prog S (string + A) :=
  match n with
  | O => PRet (inl msg)
  | Datatypes.S n' =>
      do! r <- attempt in
      match r with
      | inr a => PRet (inr a)
      | inl e => if bool_decide (n' = 0) then PRet (inl (msg +:+ e)) else with_retry attempt n' msg
      end
  end.

Definition pretty_nat (n : nat) : string := pretty.pretty (N.of_nat n).

Definition WhenWithRetry (t : RemoteTask) (host : string) : prog S (string + bool) :=
  with_retry (rt_precheck t host) (retries t)
    ("pre-check exec failed after " +:+ pretty_nat (retries t) +:+ " retries").

Definition ExecuteWithRetry (t : RemoteTask) (host : string) : prog S (string + unit) :=
  with_retry (do! e <- rt_action t host in PRet (match e with Some e => inl e | None => inr tt end))
    (retries t)
    ("[" +:+ rt_name t +:+ "] exec failed after " +:+ pretty_nat (retries t) +:+ " retries: ").

(** Connecting to a host. *)
Context (Connect : string → prog S (option string)).

(** [Run] and the receiving end of its channel in [RunWithTimeout], for a task
    whose timeout does not expire. *)
Definition run_host (t : RemoteTask) (host : string) : prog shared unit :=
  do! c <- lift (Connect host) in
  match c with
  | Some e => append (AppendErr (Some host) ("failed to connect to " +:+ host +:+ ": " +:+ e))
  | None =>
      do! w <- lift (WhenWithRetry t host) in
      match w with
      | inl e => append (AppendErr (Some host) e)
      | inr false => append (AppendSkip (Some host))
      | inr true =>
          do! r <- lift (ExecuteWithRetry t host) in
          match r with
          | inl e => append (AppendErr (Some host) e)
          | inr _ => append (AppendSuccess (Some host))
          end
      end
  end.

(** The hosts of a task that are neither nil nor deprecated. *)
Definition live (deprecated : gset string) (hosts : list (option string)) : list string :=
  omap (λ h, match h with
             | Some h => if bool_decide (h ∈ deprecated) then None else Some h
             | None => None
             end) hosts.

(** [RemoteTask.Execute]: at most [DefaultCon] goroutines run at a time, which
    is one of the schedules. *)
Definition Execute (schedule : list nat) (t : RemoteTask) (deprecated : gset string)
    (hosts : list (option string)) (s : S) : S * TaskResult :=
  let '((s', res), _) :=
    run_pool (if rt_parallel t then schedule else [])
      (map (run_host t) (live deprecated hosts)) (s, NewTaskResult) in
  (s', if IsFailed res then ErrResult res else NormalResult res).

(** [ExecuteRollback]: [rwg.Add(1)] comes after the goroutine, or the call,
    whose end is [wg.Done()].  [race]: a goroutine is done before it is
    counted. *)
Definition rollback_host (t : RemoteTask) (f : string → ActionResult → prog S (option string))
    (ar : ActionResult) (host : string) : prog S unit :=
  do! c <- Connect host in
  match c with
  | Some _ => PRet tt
  | None => do! _ <- f host ar in PRet tt
  end.

Definition rollback_list (t : RemoteTask) (f : string → ActionResult → prog S (option string))
    (deprecated : gset string) (res : TaskResult) : list (prog S unit) :=
  omap (λ ar, match ar_host ar with
              | Some h => if bool_decide (h ∈ deprecated) then None else Some (rollback_host t f ar h)
              | None => None
              end) (tr_results res).

Definition ExecuteRollback (race : bool) (schedule : list nat) (t : RemoteTask)
    (deprecated : gset string) (res : TaskResult) (s : S) : result S :=
  match rt_rollback t with
  | None => Ok s
  | Some f =>
      if negb (IsFailed res) then Ok s
      else
        match rollback_list t f deprecated res with
        | [] => Ok s
        | p :: _ =>
            if rt_parallel t && negb race
            then Ok (run_pool schedule (rollback_list t f deprecated res) s).1
            else Panic "sync: negative WaitGroup counter"
        end
  end.

(** ** Local tasks *)

Record LocalTask := {
  lt_name : string;
  lt_precheck : prog S (string + bool);
  lt_action : option (prog S (option string));
  lt_retry : Z;
}.

Definition LocalHost : string := "LocalHost".

(** [LocalTask.Default] and [Execute], for a task whose timeout does not
    expire: a nil action is recorded as an error without a host. *)
Definition ExecuteLocal (t : LocalTask) (s : S) : S * TaskResult :=
  match lt_action t with
  | None => (s, AppendErr None "the action is nil" NewTaskResult)
  | Some action =>
      let t' := {| rt_name := lt_name t; rt_precheck := λ _, lt_precheck t; rt_action := λ _, action;
                   rt_rollback := None; rt_parallel := false;
                   rt_retry := if bool_decide (lt_retry t ≤ 0)%Z then 1 else lt_retry t |} in
      let '((s', res), _) :=
        run (do! w <- lift (WhenWithRetry t' LocalHost) in
             match w with
             | inl e => append (AppendErr (Some LocalHost) e)
             | inr false => append (AppendSkip (Some LocalHost))
             | inr true =>
                 do! r <- lift (ExecuteWithRetry t' LocalHost) in
                 match r with
                 | inl e => append (AppendErr (Some LocalHost) e)
                 | inr _ => append (AppendSuccess (Some LocalHost))
                 end
             end) (s, NewTaskResult) in
      (s', if IsFailed res then ErrResult res else NormalResult res)
  end.

End LegacyTask.

(** ** Results of a task *)

Section Results.
Context {S : Type} (Connect : string → prog S (option string)).
Notation shared := (S * TaskResult)%type.

Definition results_of (v : shared) : list ActionResult := tr_results v.2.

(** A result of [host], with an error exactly when it failed. *)
Definition result_for (host : string) (a : ActionResult) : Prop :=
  ar_host a = Some host ∧ ar_status a ≠ NULL ∧ (ar_status a = FAILED ↔ is_Some (ar_error a)).

Lemma emits_lift {A B} (Q : ActionResult → Prop) done (p : prog S A) (k : A → prog shared B) :
  (∀ a, emits results_of Q done (k a)) → emits results_of Q done (pbind (lift p) k).
Proof.
  intros Hk. induction p as [a|f IH] using prog_ind; simpl; [apply Hk|].
  intros v. left. specialize (IH v.1). by destruct (f v.1) as [s' p'].
Qed.

Lemma emits_append (Q : ActionResult → Prop) f r :
  (∀ t, tr_results (f t) = tr_results t ++ [r]) → Q r → emits results_of Q false (append (S:=S) f).
Proof. intros Hf Hr v. right. split; [done|]. exists r. split; [done|]. split; [apply Hf|done]. Qed.

Lemma run_host_emits t host : emits results_of (result_for host) false (run_host Connect t host).
Proof.
  assert (∀ e, emits results_of (result_for host) false (append (S:=S) (AppendErr (Some host) e))) as HE.
  { intros e. eapply emits_append; [done|]. split; [done|]. split; [done|]. simpl. by split. }
  assert (∀ st, st = SKIPPED ∨ st = SUCCESS →
            result_for host {| ar_host := Some host; ar_status := st; ar_error := None |}) as HS.
  { intros st Hst. split; [done|]. simpl. split; [naive_solver|]. split; [naive_solver|]. by intros []. }
  apply emits_lift. intros [c|]; [apply HE|].
  apply emits_lift. intros [e|[|]]; [apply HE| |].
  - apply emits_lift. intros [e|[]]; [apply HE|]. eapply emits_append; [done|]. apply HS. by right.
  - eapply emits_append; [done|]. apply HS. by left.
Qed.

(** The status fails with the first failed result. *)
Definition status_inv (v : shared) : Prop :=
  (tr_status v.2 = FAILED ↔ Exists (λ a, ar_status a = FAILED) (tr_results v.2)) ∧
  (tr_status v.2 = NULL ∨ tr_status v.2 = FAILED).

Lemma psafe_lift {A B} (Q : B → Prop) (p : prog S A) (k : A → prog shared B) :
  (∀ a, psafe status_inv Q (k a)) → psafe status_inv Q (pbind (lift p) k).
Proof.
  intros Hk. induction p as [a|f IH] using prog_ind; simpl; [apply Hk|].
  intros v Hv. specialize (IH v.1). destruct (f v.1) as [s' p']. by split.
Qed.

Lemma psafe_append f :
  (∀ s t, status_inv (s, t) → status_inv (s, f t)) → psafe status_inv (λ _, True) (append (S:=S) f).
Proof. intros Hf. apply psafe_atomic. intros [s t] Hv. by split; [apply Hf|]. Qed.

Lemma status_inv_ok s t host st err :
  st ≠ FAILED → status_inv (s, t) →
  status_inv (s, {| tr_results := tr_results t ++ [{| ar_host := host; ar_status := st; ar_error := err |}];
                    tr_status := tr_status t |}).
Proof.
  intros Hst [H1 H2]. split; [|done]. simpl in *. rewrite H1, Exists_app, Exists_cons, Exists_nil. naive_solver.
Qed.

Lemma status_inv_err s t host err : status_inv (s, t) → status_inv (s, AppendErr host err t).
Proof.
  intros _. split; simpl; [|by right]. rewrite Exists_app, Exists_cons. split; [|done].
  intros _. right. by left.
Qed.

Lemma run_host_safe t host : psafe status_inv (λ _, True) (run_host Connect t host).
Proof.
  assert (∀ e, psafe status_inv (λ _, True) (append (S:=S) (AppendErr (Some host) e))) as HE.
  { intros e. apply psafe_append. intros s r. apply status_inv_err. }
  apply psafe_lift. intros [c|]; [apply HE|].
  apply psafe_lift. intros [e|[|]]; [apply HE| |].
  - apply psafe_lift. intros [e|[]]; [apply HE|]. apply psafe_append. intros s r. by apply status_inv_ok.
  - apply psafe_append. intros s r. by apply status_inv_ok.
Qed.

(** The results of a remote task. *)
Lemma Execute_spec sched t deprecated hosts s :
  let '(_, res) := Execute Connect sched t deprecated hosts s in
  map ar_host (tr_results res) ≡ₚ map Some (live deprecated hosts) ∧
  Forall (λ a, ar_status a ≠ NULL ∧ (ar_status a = FAILED ↔ is_Some (ar_error a))) (tr_results res) ∧
  tr_status res = (if decide (Exists (λ a, ar_status a = FAILED) (tr_results res)) then FAILED else SUCCESS).
Proof.
  unfold Execute. set (sch := if rt_parallel t then sched else []).
  set (ts := map (run_host Connect t) (live deprecated hosts)).
  destruct (run_pool_logged results_of (map result_for (live deprecated hosts)) sch ts (s, NewTaskResult))
    as (rs & new & H1 & H2 & H3).
  { apply Forall2_fmap_2, Forall_Forall2_diag, list.Forall_forall. intros h _. apply run_host_emits. }
  destruct (run_pool_safe status_inv (map (λ _ _, True) (live deprecated hosts)) sch ts (s, NewTaskResult))
    as [[HI1 HI2] _].
  { apply Forall2_fmap_2, Forall_Forall2_diag, list.Forall_forall. intros h _. apply run_host_safe. }
  { split; simpl; [|by left]. by rewrite Exists_nil. }
  destruct (run_pool sch ts (s, NewTaskResult)) as [[s' res] us]. simpl in *.
  unfold results_of in H1. simpl in H1.
  assert (tr_results (if IsFailed res then ErrResult res else NormalResult res) = tr_results res) as ER.
  { unfold ErrResult, NormalResult, settle. by destruct (IsFailed res), (bool_decide _). }
  rewrite ER, H1. split_and!.
  - rewrite H3. apply Forall2_fmap_l in H2. clear -H2. induction H2 as [|h a hs l (E & _) _ IH]; [done|].
    cbn [map]. by rewrite E, IH.
  - rewrite H3. clear -H2. apply Forall2_fmap_l in H2.
    induction H2 as [|h a hs l (_ & E) _ IH]; by constructor.
  - rewrite H1 in HI1. unfold IsFailed. destruct HI2 as [E|E]; rewrite E.
    + rewrite E in HI1. simpl. unfold NormalResult, settle. rewrite E. simpl.
      destruct (decide _) as [HX|]; [|done]. by apply HI1 in HX.
    + simpl. unfold ErrResult, settle. rewrite E. simpl. rewrite E.
      destruct (decide _) as [|HX]; [done|]. destruct HX. by apply HI1.
Qed.

(** Under every schedule of the goroutines a remote task ends with exactly
    one result per live host (neither nil nor deprecated), each with an error
    exactly when it failed; the task fails exactly when one of them does and
    otherwise succeeds. *)
Theorem Execute_results sched t deprecated hosts s :
  let '(_, res) := Execute Connect sched t deprecated hosts s in
  map ar_host (tr_results res) ≡ₚ map Some (live deprecated hosts) ∧
  Forall (λ a, ar_status a ≠ NULL ∧ (ar_status a = FAILED ↔ is_Some (ar_error a))) (tr_results res) ∧
  tr_status res = (if decide (Exists (λ a, ar_status a = FAILED) (tr_results res)) then FAILED else SUCCESS).
Proof. exact (Execute_spec sched t deprecated hosts s). Qed.

(** ** Retries *)

(** Attempts that fail one after the other, with their errors. *)
Inductive fails {A} (attempt : prog S (string + A)) : S → list string → S → Prop :=
| fails_nil s : fails attempt s [] s
| fails_cons s s1 s2 e errs :
    run attempt s = (s1, inl e) → fails attempt s1 errs s2 → fails attempt s (e :: errs) s2.

(** A retried step makes at most the configured number of attempts, each
    in the state the one before it left; it returns the value of the first
    that has no error, and only when all of them fail the message with the
    error of the last. *)
Theorem with_retry_spec {A} (attempt : prog S (string + A)) n msg s :
  let '(s', r) := run (with_retry attempt n msg) s in
  match r with
  | inr a => ∃ errs s1, length errs < n ∧ fails attempt s errs s1 ∧ run attempt s1 = (s', inr a)
  | inl e => ∃ errs, length errs = n ∧ fails attempt s errs s' ∧ e = msg +:+ default "" (last errs)
  end.
Proof.
  revert s. induction n as [|n IH]; intros s; cbn [with_retry].
  { simpl. exists []. split; [done|]. split; [constructor|]. simpl. induction msg; simpl in *; [done|].
    change (String a msg +:+ "") with (String a (msg +:+ "")). by f_equal. }
  rewrite run_pbind. destruct (run attempt s) as [s1 [e|a]] eqn:E; cbn [fst snd].
  - case_bool_decide as Hn.
    + subst n. simpl. exists [e]. split; [done|]. split; [|done]. econstructor; [exact E|constructor].
    + specialize (IH s1). destruct (run (with_retry attempt n msg) s1) as [s' [e'|a]].
      * destruct IH as (errs & H1 & H2 & ->). exists (e :: errs). simpl. split; [lia|].
        split; [by econstructor|]. destruct errs as [|e2 errs]; [simpl in H1; lia|done].
      * destruct IH as (errs & s2 & H1 & H2 & H3). exists (e :: errs), s2. simpl. split; [lia|].
        split; [by econstructor|done].
  - simpl. exists [], s. split; [simpl; lia|]. split; [constructor|done].
Qed.

(** A failed remote task that is not parallel and has a rollback and a live
    host with a result panics when it is rolled back: the wait group is
    decremented before it is incremented. *)
Theorem sequential_rollback_panics race sched t f deprecated res s host ar :
  rt_rollback t = Some f → rt_parallel t = false → IsFailed res = true →
  ar ∈ tr_results res → ar_host ar = Some host → host ∉ deprecated →
  ExecuteRollback Connect race sched t deprecated res s = Panic "sync: negative WaitGroup counter".
Proof.
  intros HR HP HF Ha Hh Hd. unfold ExecuteRollback. rewrite HR, HF. simpl.
  assert (rollback_list Connect t f deprecated res ≠ []) as Hne.
  { intros E. assert (rollback_host Connect t f ar host ∈ rollback_list Connect t f deprecated res) as Hin.
    { apply list_elem_of_omap. exists ar. split; [done|]. rewrite Hh. by rewrite bool_decide_eq_false_2. }
    rewrite E in Hin. by apply not_elem_of_nil in Hin. }
  destruct (rollback_list _ _ _ _ _); [done|]. by rewrite HP.
Qed.

(** The status of a local task fails exactly with one of its results. *)
Lemma ExecuteLocal_status (t : LocalTask (S:=S)) (s : S) :
  let res := (ExecuteLocal t s).2 in
  tr_status res = FAILED ↔ Exists (λ a, ar_status a = FAILED) (tr_results res).
Proof.
  unfold ExecuteLocal. destruct (lt_action t) as [action|]; simpl.
  2: { split; [|done]. intros _. by left. }
  set (t' := {| rt_name := _ |}). set (body := pbind _ _).
  assert (psafe status_inv (λ _, True) body) as HB.
  { assert (∀ e, psafe status_inv (λ _, True) (append (S:=S) (AppendErr (Some LocalHost) e))) as HE.
    { intros e. apply psafe_append. intros s0 r. apply status_inv_err. }
    apply psafe_lift. intros [e|[|]]; [apply HE| |].
    - apply psafe_lift. intros [e|[]]; [apply HE|]. apply psafe_append. intros s0 r. by apply status_inv_ok.
    - apply psafe_append. intros s0 r. by apply status_inv_ok. }
  destruct (psafe_run status_inv (λ _, True) body (s, NewTaskResult) HB) as [[H1 H2] _].
  { split; simpl; [|by left]. by rewrite Exists_nil. }
  destruct (run body _) as [[s' res] u]. simpl in *. unfold IsFailed.
  destruct H2 as [E|E]; rewrite E in *; simpl; unfold ErrResult, NormalResult, settle; rewrite E; simpl.
  - by rewrite <- H1.
  - by rewrite E.
Qed.

(** A local task without an action fails with a result that has no host;
    the error it should report cannot be built, because its text asks for the
    host's name. *)
Theorem local_nil_action_panics (t : LocalTask (S:=S)) (s : S) :
  lt_action t = None →
  IsFailed (ExecuteLocal t s).2 = true ∧
  CombineErr (ExecuteLocal t s).2 = Panic "invalid memory address or nil pointer dereference".
Proof. intros H. unfold ExecuteLocal. by rewrite H. Qed.

End Results.

Lemma sequential_rollback_panics_witness :
  let t := {| rt_name := "t"; rt_precheck := λ _, PRet (inr true); rt_action := λ _, PRet (Some "boom");
              rt_rollback := Some (λ _ _, PRet None); rt_parallel := false; rt_retry := 1 |} in
  let '(s, res) := Execute (λ _, PRet None) [] t ∅ [Some "a"] tt in
  ExecuteRollback (λ _, PRet None) false [] t ∅ res s = Panic "sync: negative WaitGroup counter".
Proof.
  apply (sequential_rollback_panics (λ _, PRet None) false [] _ (λ _ _, PRet None) ∅ _ tt "a"
           {| ar_host := Some "a"; ar_status := FAILED; ar_error := Some "[t] exec failed after 1 retries: boom" |});
    [done|done|vm_compute; reflexivity| |done|apply not_elem_of_empty].
  vm_compute. left.
Defined.

Lemma local_nil_action_panics_witness :
  let t := {| lt_name := "t"; lt_precheck := PRet (inr true); lt_action := None; lt_retry := 0 |} in
  CombineErr (ExecuteLocal t tt).2 = Panic "invalid memory address or nil pointer dereference".
Proof.
  apply (local_nil_action_panics
    {| lt_name := "t"; lt_precheck := PRet (inr true); lt_action := None; lt_retry := 0 |} tt). done.
Defined.
