(* ===== verification/LegacyPipeline.v ===== *)
(** * Modules and pipelines of the installer:
      [src/cmd/kk/pkg/core/module/task_module.go],
      [src/cmd/kk/pkg/core/pipeline/pipeline.go],
      [src/cmd/kk/pkg/core/ending/module_result.go] and
      [src/cmd/kk/pkg/core/connector/runtime.go]

    A pipeline runs its modules in order, a module its tasks; with the
    ignore-error option a host that fails is deleted and the others go on. *)

From stdpp Require Import gmap strings list sets.
From S2P Require Import Prelude Prog LegacyTask.

(** ** The runtime *)

(** [roleHosts] maps a role to a slice: its backing array and its length.  The
    array is shared with every slice [GetHostsByRole] returned before. *)
Record Runtime := {
  r_allHosts : list string;
  r_roleArray : gmap string (list string);
  r_roleLen : gmap string nat;
  r_deprecated : gset string;
  r_ignoreErr : bool;
}.

Definition HostIsDeprecated (rt : Runtime) (h : string) : bool := bool_decide (h ∈ r_deprecated rt).

Definition GetAllHosts (rt : Runtime) : list string :=
  List.filter (λ h, negb (HostIsDeprecated rt h)) (r_allHosts rt).

(** The hosts field of a task: a slice of a role's array, or a list of its
    own (what [GetAllHosts] returns). *)
Inductive HostRef := HRole (role : string) (len : nat) | HList (hosts : list (option string)).

(** [GetHostsByRole] *)
Definition GetHostsByRole (rt : Runtime) (role : string) : HostRef :=
  match r_roleLen rt !! role with Some n => HRole role n | None => HList [] end.

Definition resolve (rt : Runtime) (ref : HostRef) : list (option string) :=
  match ref with
  | HRole role n => map Some (take n (default [] (r_roleArray rt !! role)))
  | HList l => l
  end.

(** The loop that moves the elements that stay to the front of their array,
    and leaves the rest of the array as it was. *)
Definition keep (h : string) (l : list string) : list string :=
  List.filter (λ x, negb (bool_decide (x = h))) l.
Definition compact (h : string) (arr : list string) (len : nat) : list string :=
  let kept := keep h (take len arr) in kept ++ drop (length kept) arr.

(** [RoleMapDelete] *)
Definition RoleMapDelete (rt : Runtime) (h : string) : gmap string (list string) * gmap string nat :=
  (map_imap (λ role arr, Some (compact h arr (default 0 (r_roleLen rt !! role)))) (r_roleArray rt),
   map_imap (λ role n, Some (length (keep h (take n (default [] (r_roleArray rt !! role)))))) (r_roleLen rt)).

(** [DeleteHost]: [b.allHosts[i] = nil] is out of range when nothing was
    removed. *)
Definition DeleteHost (rt : Runtime) (h : string) : result Runtime :=
  if bool_decide (length (keep h (r_allHosts rt)) < length (r_allHosts rt)) then
    let '(arr, len) := RoleMapDelete rt h in
    Ok {| r_allHosts := keep h (r_allHosts rt); r_roleArray := arr; r_roleLen := len;
          r_deprecated := {[h]} ∪ r_deprecated rt; r_ignoreErr := r_ignoreErr rt |}
  else Panic "index out of range".

(** ** Module results *)

Record ModuleResult := {
  mr_hosts : gmap string ActionResult;
  mr_combine : option string;
  mr_status : ResultStatus;
}.

Definition NewModuleResult : ModuleResult := {| mr_hosts := ∅; mr_combine := None; mr_status := NULL |}.

Definition mr_failed (m : ModuleResult) : bool := bool_decide (mr_status m = FAILED).

Definition AppendHostResult (a : ActionResult) (m : ModuleResult) : result ModuleResult :=
  match ar_host a with
  | Some h => Ok {| mr_hosts := <[h := a]> (mr_hosts m); mr_combine := mr_combine m; mr_status := mr_status m |}
  | None => Panic "invalid memory address or nil pointer dereference"
  end.

Definition LocalErrResult (err : string) (m : ModuleResult) : ModuleResult :=
  {| mr_hosts := <[LocalHost := {| ar_host := Some LocalHost; ar_status := FAILED; ar_error := Some err |}]> (mr_hosts m);
     mr_combine := Some err; mr_status := FAILED |}.

Definition mr_ErrResult (err : option string) (m : ModuleResult) : ModuleResult :=
  {| mr_hosts := mr_hosts m; mr_combine := err; mr_status := FAILED |}.

Definition mr_NormalResult (m : ModuleResult) : ModuleResult :=
  {| mr_hosts := mr_hosts m; mr_combine := mr_combine m; mr_status := SUCCESS |}.

(** ** Tasks of a module *)

Section Pipeline.
Context {S : Type} (Connect : string → prog S (option string)).

(** The schedules of the goroutines and the races of the rollbacks, by the
    number of the task that is run. *)
Context (schedule : nat → list nat) (race : nat → bool).

Inductive Task :=
| Remote (t : RemoteTask (S:=S)) (hosts : HostRef)
| Local (t : LocalTask (S:=S)).

(** The process: the state of the actions, the runtime, the number of tasks
    run, and the lines [status: [host]] of the log. *)
Record Process := {
  p_state : S;
  p_runtime : Runtime;
  p_runs : nat;
  p_log : list (ResultStatus * string);
}.

Definition with_runtime (p : Process) (rt : Runtime) : Process :=
  {| p_state := p_state p; p_runtime := rt; p_runs := p_runs p; p_log := p_log p |}.
Definition with_state (p : Process) (s : S) : Process :=
  {| p_state := s; p_runtime := p_runtime p; p_runs := p_runs p; p_log := p_log p |}.
Definition log_line (p : Process) (a : ActionResult) : Process :=
  {| p_state := p_state p; p_runtime := p_runtime p; p_runs := p_runs p;
     p_log := p_log p ++ [(ar_status a, default "" (ar_host a))] |}.

Definition execute_task (t : Task) (p : Process) : TaskResult * Process :=
  let '(s', res) := match t with
                    | Remote t hosts =>
                        Execute Connect (schedule (p_runs p)) t (r_deprecated (p_runtime p))
                          (resolve (p_runtime p) hosts) (p_state p)
                    | Local t => ExecuteLocal t (p_state p)
                    end in
  (res, {| p_state := s'; p_runtime := p_runtime p; p_runs := Datatypes.S (p_runs p); p_log := p_log p |}).

Definition wrap_failed (name : string) (e : option string) : option string :=
  match e with Some e => Some ("Module[" +:+ name +:+ "] exec failed: " +:+ e) | None => None end.

(** The loop over the action results.  [inl]: the module returns. *)
Fixpoint process_results (name : string) (remote : bool) (acs : list ActionResult) (res : TaskResult)
    (m : ModuleResult) (p : Process) : result (ModuleResult * Process + TaskResult * ModuleResult * Process) :=
  match acs with
  | [] => Ok (inr (res, m, p))
  | ac :: rest =>
      let! m1 := AppendHostResult ac m in
      let p1 := log_line p ac in
      if remote && r_ignoreErr (p_runtime p1) then
        if bool_decide (0 < length (GetAllHosts (p_runtime p1))) then
          match ar_status ac, ar_host ac with
          | FAILED, Some h =>
              let! rt := DeleteHost (p_runtime p1) h in
              process_results name remote rest {| tr_results := tr_results res; tr_status := SUCCESS |} m1
                (with_runtime p1 rt)
          | _, _ => process_results name remote rest res m1 p1
          end
        else
          let! ce := CombineErr res in Ok (inl (mr_ErrResult (wrap_failed name ce) m1, p1))
      else process_results name remote rest res m1 p1
  end.

Definition rollback_task (t : Task) (res : TaskResult) (p : Process) : result Process :=
  match t with
  | Remote t _ =>
      let! s := ExecuteRollback Connect (race (p_runs p)) (schedule (p_runs p)) t
                  (r_deprecated (p_runtime p)) res (p_state p) in
      Ok (with_state p s)
  | Local _ => Ok p
  end.

Definition is_remote (t : Task) : bool := match t with Remote _ _ => true | Local _ => false end.

(** [BaseTaskModule.Run] *)
Fixpoint run_tasks (name : string) (tasks : list Task) (m : ModuleResult) (p : Process)
    : result (ModuleResult * Process) :=
  match tasks with
  | [] => Ok (mr_NormalResult m, p)
  | t :: rest =>
      let '(res, p1) := execute_task t p in
      let! o := process_results name (is_remote t) (tr_results res) res m p1 in
      match o with
      | inl done => Ok done
      | inr (res', m2, p2) =>
          if IsFailed res' then
            let! p3 := rollback_task t res' p2 in
            let! ce := CombineErr res' in
            Ok (mr_ErrResult (wrap_failed name ce) m2, p3)
          else run_tasks name rest m2 p2
      end
  end.

(** ** Modules and pipelines *)

(** A module: the tasks its [Init] sets up from the runtime, the end of its
    loop, its post hooks ([Catch] after [Try]). *)
Record Module := {
  m_name : string;
  m_skip : Process → bool;
  m_tasks : Process → list Task;
  m_until : S → (string + option bool) * S;
  m_hooks : list (ModuleResult → S → option string * S);
}.

(** [RunModule]; [None]: still looping after [fuel] turns. *)
Fixpoint RunModule (fuel : nat) (m : Module) (tasks : list Task) (r : ModuleResult) (p : Process)
    : option (result (ModuleResult * Process)) :=
  match fuel with
  | O => None
  | Datatypes.S fuel' =>
      match run_tasks (m_name m) tasks r p with
      | Ok (r1, p1) =>
          if mr_failed r1 then Some (Ok (r1, p1))
          else
            let '(u, s2) := m_until m (p_state p1) in
            let p2 := with_state p1 s2 in
            match u with
            | inl e => Some (Ok (LocalErrResult e r1, p2))
            | inr None | inr (Some true) => Some (Ok (r1, p2))
            | inr (Some false) => RunModule fuel' m tasks r1 p2
            end
      | Err e => Some (Err e)
      | Panic w => Some (Panic w)
      end
  end.

(** [CallPostHook]: the first error ends it. *)
Fixpoint CallPostHook (hooks : list (ModuleResult → S → option string * S)) (r : ModuleResult) (p : Process)
    : option string * Process :=
  match hooks with
  | [] => (None, p)
  | h :: rest =>
      match h r (p_state p) with
      | (Some e, s) => (Some e, with_state p s)
      | (None, s) => CallPostHook rest r (with_state p s)
      end
  end.

(** The loop of [Pipeline.Start]; [hooks] are the pipeline's.  [Ok false]: the
    function returns the nil that wrapping a nil error gives. *)
Fixpoint run_modules (fuel : nat) (hooks : list (ModuleResult → S → option string * S)) (ms : list Module)
    (p : Process) : option (result bool * Process) :=
  match ms with
  | [] => Some (Ok true, p)
  | m :: rest =>
      if m_skip m p then run_modules fuel hooks rest p
      else
        match RunModule fuel m (m_tasks m p) NewModuleResult p with
        | None => None
        | Some (Ok (r, p1)) =>
            let '(he, p2) := CallPostHook (m_hooks m ++ hooks) r p1 in
            if mr_failed r then
              match mr_combine r with
              | Some e => Some (Err (Wrap "execute failed" (Msg e)), p2)
              | None => Some (Ok false, p2)
              end
            else match he with
                 | Some e => Some (Err (Wrap "execute failed" (Msg e)), p2)
                 | None => run_modules fuel hooks rest p2
                 end
        | Some (Err e) => Some (Err e, p)
        | Some (Panic w) => Some (Panic w, p)
        end
  end.

(** [Pipeline.Start] *)
Definition Start (fuel : nat) (hooks : list (ModuleResult → S → option string * S)) (ms : list Module)
    (p : Process) : option (result unit * Process) :=
  let SpecHosts := length (GetAllHosts (p_runtime p)) in
  match run_modules fuel hooks ms p with
  | Some (Ok true, p') =>
      if bool_decide (SpecHosts = length (GetAllHosts (p_runtime p'))) then Some (Ok tt, p')
      else Some (Err (Msg "execute failed: there are some error in your spec hosts"), p')
  | Some (Ok false, p') => Some (Ok tt, p')
  | Some (Err e, p') => Some (Err e, p')
  | Some (Panic w, p') => Some (Panic w, p')
  | None => None
  end.

End Pipeline.

(** ** Hosts *)

(** No host is both listed and deprecated. *)
Definition separate (rt : Runtime) : Prop := ∀ h, h ∈ r_allHosts rt → h ∉ r_deprecated rt.

Lemma GetAllHosts_separate rt : separate rt → GetAllHosts rt = r_allHosts rt.
Proof.
  unfold separate, GetAllHosts. induction (r_allHosts rt) as [|h l IH]; intros H; simpl; [done|].
  unfold HostIsDeprecated at 1. rewrite bool_decide_eq_false_2 by (apply H; left). simpl.
  f_equal. apply IH. intros x Hx. apply H. by right.
Qed.

Lemma keep_elem h l x : x ∈ keep h l ↔ x ∈ l ∧ x ≠ h.
Proof.
  unfold keep. rewrite list_elem_of_In, List.filter_In, <- list_elem_of_In, negb_true_iff, bool_decide_eq_false.
  done.
Qed.

Lemma keep_id h l : h ∉ l → keep h l = l.
Proof.
  induction l as [|x l IH]; intros H; simpl; [done|]. apply not_elem_of_cons in H as [H1 H2].
  rewrite bool_decide_eq_false_2 by done. simpl. by rewrite IH.
Qed.

Lemma keep_app h l1 l2 : keep h (l1 ++ l2) = keep h l1 ++ keep h l2.
Proof. apply List.filter_app. Qed.

Lemma keep_cons_same h l : keep h (h :: l) = keep h l.
Proof. unfold keep. simpl. by rewrite bool_decide_eq_true_2. Qed.

Lemma DeleteHost_ok rt h rt' :
  DeleteHost rt h = Ok rt' →
  r_allHosts rt' = keep h (r_allHosts rt) ∧ r_deprecated rt' = {[h]} ∪ r_deprecated rt ∧
  r_ignoreErr rt' = r_ignoreErr rt ∧ length (r_allHosts rt') < length (r_allHosts rt).
Proof. unfold DeleteHost. case_bool_decide; [|done]. intros [= <-]. done. Qed.

Lemma DeleteHost_separate rt h rt' : separate rt → DeleteHost rt h = Ok rt' → separate rt'.
Proof.
  intros H (E1 & E2 & _)%DeleteHost_ok x. rewrite E1, E2, keep_elem. intros [Hx Hne].
  specialize (H x Hx). set_solver.
Qed.

(** Deleting a host does not only shorten the hosts of its role.  A task
    set up before the deletion keeps its slice of the role's array, in which
    the hosts after the deleted one have moved to the front: it will run on
    the others and once more on the last. *)
Theorem DeleteHost_duplicates rt rt' role h l1 l2 z :
  r_roleArray rt !! role = Some (l1 ++ h :: l2 ++ [z]) →
  r_roleLen rt !! role = Some (length (l1 ++ h :: l2 ++ [z])) →
  h ∉ l1 → h ∉ l2 → h ≠ z → separate rt →
  DeleteHost rt h = Ok rt' →
  resolve rt (GetHostsByRole rt role) = map Some (l1 ++ h :: l2 ++ [z]) ∧
  resolve rt' (GetHostsByRole rt' role) = map Some (l1 ++ l2 ++ [z]) ∧
  resolve rt' (GetHostsByRole rt role) = map Some (l1 ++ l2 ++ [z] ++ [z]) ∧
  (z ∉ r_deprecated rt →
   ∃ before, live (r_deprecated rt') (resolve rt' (GetHostsByRole rt role)) = before ++ [z] ++ [z]).
Proof.
  intros HA HL H1 H2 Hz Hsep HD.
  set (arr := l1 ++ h :: l2 ++ [z]) in *.
  assert (keep h arr = l1 ++ l2 ++ [z]) as HK.
  { unfold arr. rewrite keep_app, keep_cons_same, keep_app, !keep_id by done. f_equal. f_equal.
    unfold keep. simpl. by rewrite bool_decide_eq_false_2. }
  assert (r_roleArray rt' !! role = Some (l1 ++ l2 ++ [z] ++ [z]) ∧
          r_roleLen rt' !! role = Some (length (l1 ++ l2 ++ [z]))) as [HA' HL'].
  { unfold DeleteHost in HD. case_bool_decide; [|done]. injection HD as <-. cbn [r_roleArray r_roleLen].
    rewrite !map_lookup_imap, HA, HL. simpl.
    assert (drop (length (l1 ++ l2 ++ [z])) arr = [z]) as HDr.
    { unfold arr. replace (l1 ++ h :: l2 ++ [z]) with ((l1 ++ h :: l2) ++ [z]) by by rewrite <- app_assoc.
      apply drop_app_length'. rewrite !length_app. simpl. lia. }
    unfold compact. rewrite firstn_all, HK, HDr. split; [|done]. by rewrite <- !app_assoc. }
  assert (resolve rt' (GetHostsByRole rt role) = map Some (l1 ++ l2 ++ [z] ++ [z])) as HR.
  { unfold GetHostsByRole. rewrite HL. simpl. rewrite HA'. simpl. f_equal.
    apply take_ge. unfold arr. rewrite !length_app. simpl. rewrite !length_app. simpl. lia. }
  split_and!.
  - unfold GetHostsByRole. rewrite HL. simpl. rewrite HA. simpl. by rewrite firstn_all.
  - unfold GetHostsByRole. rewrite HL'. simpl. rewrite HA'. simpl.
    replace (l1 ++ l2 ++ [z; z]) with ((l1 ++ l2 ++ [z]) ++ [z]) by by rewrite <- !app_assoc.
    by rewrite take_app_length.
  - done.
  - intros Hnd. rewrite HR. destruct (DeleteHost_ok _ _ _ HD) as (_ & E2 & _).
    exists (live (r_deprecated rt') (map Some (l1 ++ l2))).
    unfold live. rewrite app_assoc, map_app, omap_app. f_equal. simpl.
    rewrite bool_decide_eq_false_2; [done|]. rewrite E2. set_solver.
Qed.

(** ** What a pipeline does to its hosts *)

Section Invariant.
Context {S : Type} (Connect : string → prog S (option string)).
Context (schedule : nat → list nat) (race : nat → bool).
Notation Process := (Process (S:=S)).

Definition hosts_of (p : Process) : list string := r_allHosts (p_runtime p).
Definition failed_line (l : ResultStatus * string) : Prop := l.1 = FAILED.

(** [p'] comes after [p]: hosts may have been deleted, lines logged; a logged
    failure has cost a host unless [excused]. *)
Definition after (excused : Prop) (p p' : Process) : Prop :=
  ∃ new, p_log p' = p_log p ++ new ∧ separate (p_runtime p') ∧
         length (hosts_of p') ≤ length (hosts_of p) ∧
         (length (hosts_of p') = length (hosts_of p) → hosts_of p' = hosts_of p) ∧
         (Exists failed_line new → excused ∨ length (hosts_of p') < length (hosts_of p)).

Lemma after_same P p p' :
  p_log p' = p_log p → p_runtime p' = p_runtime p → separate (p_runtime p) → after P p p'.
Proof.
  intros H1 H2 H3. exists []. unfold hosts_of. rewrite H1, H2, app_nil_r.
  split_and!; [done|done|lia|done|]. by rewrite Exists_nil.
Qed.

Lemma after_trans P p1 p2 p3 : after P p1 p2 → after P p2 p3 → after P p1 p3.
Proof.
  intros (n1 & H1 & H2 & H3 & H4 & H5) (n2 & H6 & H7 & H8 & H9 & H10). exists (n1 ++ n2).
  split; [by rewrite H6, H1, app_assoc|]. split; [done|]. split; [lia|].
  split; [intros E; rewrite H9, H4; [done|lia|lia]|].
  intros [H|H]%Exists_app; [destruct (H5 H)|destruct (H10 H)]; auto; right; lia.
Qed.

Lemma after_weaken (P Q : Prop) p p' : (P → Q) → after P p p' → after Q p p'.
Proof. intros H (n & H1 & H2 & H3 & H4 & H5). exists n. split_and!; try done. intros E. destruct (H5 E); auto. Qed.

Lemma keep_shorter h l : length (keep h l) = length l → keep h l = l.
Proof.
  induction l as [|x l IH]; simpl; [done|]. case_bool_decide; simpl.
  - intros E. pose proof (List.filter_length_le (λ x, negb (bool_decide (x = h))) l). unfold keep in E. lia.
  - intros [= E]. by rewrite IH.
Qed.

Lemma process_results_spec name remote acs res m p o :
  process_results name remote acs res m p = Ok o → separate (p_runtime p) → tr_results res ≠ [] →
  match o with
  | inl (m', p') => after True p p' ∧ mr_failed m' = true ∧ is_Some (mr_combine m')
  | inr (res', m', p') =>
      after (remote && r_ignoreErr (p_runtime p) = false ∧ Exists (λ a, ar_status a = FAILED) acs) p p' ∧
      tr_results res' = tr_results res ∧ (remote && r_ignoreErr (p_runtime p) = false → res' = res)
  end.
Proof.
  revert res m p. induction acs as [|ac acs IH]; intros res m p; cbn [process_results].
  { intros [= <-] Hs _. split; [by apply after_same|done]. }
  intros H Hs Hne. apply rbind_ok in H as (m1 & Hm & H).
  assert (∀ P : Prop, (ar_status ac = FAILED → P) → after P p (log_line p ac)) as HL.
  { intros P HP. exists [(ar_status ac, default "" (ar_host ac))]. unfold hosts_of. simpl. split_and!; [done|done|lia|done|].
    rewrite Exists_cons, Exists_nil. unfold failed_line. simpl. tauto. }
  assert (∀ m', process_results name remote acs res m' (log_line p ac) = Ok o →
            (remote && r_ignoreErr (p_runtime p) = true → ar_status ac ≠ FAILED) →
            match o with
            | inl (m', p') => after True p p' ∧ mr_failed m' = true ∧ is_Some (mr_combine m')
            | inr (res', m', p') =>
                after (remote && r_ignoreErr (p_runtime p) = false ∧ Exists (λ a, ar_status a = FAILED) (ac :: acs)) p p' ∧
                tr_results res' = tr_results res ∧ (remote && r_ignoreErr (p_runtime p) = false → res' = res)
            end) as Hstep.
  { intros m' Hr HR. specialize (IH res m' (log_line p ac) Hr Hs Hne).
    destruct o as [[mo po]|[[ro mo] po]].
    - destruct IH as (A & B & C). split; [|done]. eapply after_trans; [by apply HL|exact A].
    - destruct IH as (A & B & C). simpl in A, C. split; [|done]. eapply after_trans.
      + apply HL. intros HF. destruct (remote && r_ignoreErr (p_runtime p)) eqn:ER; [by apply HR in HF|].
        split; [done|by left].
      + eapply after_weaken; [|exact A]. intros [? ?]. split; [done|by right]. }
  cbn [p_runtime log_line] in H.
  destruct (remote && r_ignoreErr (p_runtime p)) eqn:ER.
  2: { by apply (Hstep m1 H). }
  case_bool_decide as Hh.
  2: { apply rbind_ok in H as (ce & Hce & [= <-]). split; [by apply HL|]. split; [done|].
       unfold CombineErr in Hce. destruct (nonempty_spec (tr_results res)); [|done].
       apply rbind_ok in Hce as (e & _ & [= <-]). by eexists. }
  destruct (decide (ar_status ac = FAILED)) as [HF|HF].
  2: { apply (Hstep m1); [|done]. destruct (ar_status ac), (ar_host ac); done. }
  rewrite HF in H. destruct (ar_host ac) as [h|] eqn:EH; [|by unfold AppendHostResult in Hm; rewrite EH in Hm].
  apply rbind_ok in H as (rt & HD & H).
  pose proof (DeleteHost_ok _ _ _ HD) as (D1 & D2 & D3 & D4). apply DeleteHost_separate in HD; [|done].
  specialize (IH _ m1 _ H HD Hne).
  assert (∀ P, after P p (with_runtime (log_line p ac) rt)) as HA.
  { intros P. exists [(ar_status ac, default "" (ar_host ac))]. unfold hosts_of. simpl.
    split_and!; [done|done|lia|lia|]. intros _. by right. }
  destruct o as [[mo po]|[[ro mo] po]]; simpl in IH; rewrite ?D3 in IH; destruct IH as (A & B & C).
  - split; [|done]. eapply after_trans; [apply HA|exact A].
  - rewrite ER in A. split; [|done]. eapply after_trans; [apply HA|]. eapply after_weaken; [|exact A]. by intros [? _].
Qed.

Lemma execute_task_spec t p res p' :
  execute_task Connect schedule t p = (res, p') →
  p_runtime p' = p_runtime p ∧ p_log p' = p_log p ∧
  (tr_status res = FAILED ↔ Exists (λ a, ar_status a = FAILED) (tr_results res)).
Proof.
  unfold execute_task. destruct t as [t hosts|t].
  - pose proof (Execute_spec Connect (schedule (p_runs p)) t (r_deprecated (p_runtime p))
                  (resolve (p_runtime p) hosts) (p_state p)) as H.
    destruct (Execute _ _ _ _ _ _) as [s' r]. intros [= <- <-]. destruct H as (_ & _ & H).
    split; [done|]. split; [done|]. rewrite H. by destruct (decide _).
  - pose proof (ExecuteLocal_status t (p_state p)) as H. destruct (ExecuteLocal t (p_state p)) as [s' r].
    by intros [= <- <-].
Qed.

Lemma CombineErr_Some res ce : tr_results res ≠ [] → CombineErr res = Ok ce → is_Some ce.
Proof.
  unfold CombineErr. intros H. destruct (nonempty_spec (tr_results res)); [|done].
  intros E. apply rbind_ok in E as (e & _ & [= <-]). by eexists.
Qed.

(** A module result that failed says why. *)
Definition explained (m : ModuleResult) : Prop := mr_failed m = true → is_Some (mr_combine m).

Lemma run_tasks_spec name tasks m p m' p' :
  run_tasks Connect schedule race name tasks m p = Ok (m', p') → separate (p_runtime p) →
  after (mr_failed m' = true) p p' ∧ explained m'.
Proof.
  revert m p. induction tasks as [|t tasks IH]; intros m p; cbn [run_tasks].
  { intros [= <- <-] Hs. split; [by apply after_same|done]. }
  destruct (execute_task _ _ t p) as [res p1] eqn:E1.
  destruct (execute_task_spec _ _ _ _ E1) as (R1 & R2 & R3).
  intros H Hs. apply rbind_ok in H as (o & HO & H). rewrite <- R1 in Hs.
  assert (after (mr_failed m' = true) p p1) as HA0 by (apply after_same; [done|done|by rewrite <- R1]).
  destruct (decide (tr_results res = [])) as [Hne|Hne].
  { rewrite Hne in HO. cbn [process_results] in HO. injection HO as <-. simpl in H.
    unfold IsFailed in H. rewrite bool_decide_eq_false_2 in H.
    2: { intros HF. apply R3 in HF. rewrite Hne in HF. by apply Exists_nil in HF. }
    destruct (IH _ _ H Hs) as [A B]. split; [|done]. by eapply after_trans. }
  pose proof (process_results_spec _ _ _ _ _ _ _ HO Hs Hne) as HP.
  destruct o as [[mo po]|[[ro mo] po]].
  { injection H as -> ->. destruct HP as (A & B & C). split; [|by intros _].
    eapply after_trans; [exact HA0|]. by eapply after_weaken; [|exact A]. }
  destruct HP as (A & B & C). destruct (IsFailed ro) eqn:EF.
  - apply rbind_ok in H as (p3 & HR & H). apply rbind_ok in H as (ce & HC & [= <- <-]).
    apply CombineErr_Some in HC; [|by rewrite B].
    assert (p_log p3 = p_log po ∧ p_runtime p3 = p_runtime po) as [L1 L2].
    { unfold rollback_task in HR. destruct t; [|by injection HR as <-].
      by apply rbind_ok in HR as (s3 & _ & [= <-]). }
    split; [|intros _; destruct HC as [e ->]; simpl; by eexists].
    eapply after_trans; [exact HA0|]. eapply after_trans; [eapply after_weaken; [|exact A]; done|].
    apply after_same; [done|done|]. by destruct A as (? & ? & ? & _).
  - assert (separate (p_runtime po)) as Hs2 by (by destruct A as (? & ? & ? & _)).
    destruct (IH _ _ H Hs2) as [A2 B2]. split; [|done].
    eapply after_trans; [exact HA0|]. eapply after_trans; [|exact A2].
    eapply after_weaken; [|exact A]. intros [HR HE]. rewrite (C HR) in EF.
    unfold IsFailed in EF. apply bool_decide_eq_false in EF. by apply R3 in HE.
Qed.

Lemma RunModule_spec fuel m tasks r p r' p' :
  RunModule Connect schedule race fuel m tasks r p = Some (Ok (r', p')) → separate (p_runtime p) →
  after (mr_failed r' = true) p p' ∧ explained r'.
Proof.
  revert r p. induction fuel as [|fuel IH]; intros r p; cbn [RunModule]; [done|].
  destruct (run_tasks _ _ _ _ _ _ _) as [[r1 p1]|e|w] eqn:E; [|done..]. intros H Hs.
  destruct (run_tasks_spec _ _ _ _ _ _ E Hs) as [A B].
  assert (separate (p_runtime p1)) as Hs1 by (by destruct A as (? & ? & ? & _)).
  destruct (mr_failed r1) eqn:EF; [injection H as <- <-; split; [by rewrite EF|done]|].
  destruct (m_until m (p_state p1)) as [u s2].
  assert (∀ P, after P p1 (with_state p1 s2)) as HW by (intros P; by apply after_same).
  assert (∀ P, after P p p1) as HA by (intros P; eapply after_weaken; [|exact A]; congruence).
  destruct u as [e|[[]|]]; [injection H as <- <-..| |injection H as <- <-].
  - split; [|by eexists]. eapply after_trans; [apply HA|apply HW].
  - split; [|done]. eapply after_trans; [apply HA|apply HW].
  - destruct (IH _ _ H Hs1) as [A2 B2]. split; [|done].
    eapply after_trans; [apply HA|]. eapply after_trans; [apply HW|exact A2].
  - split; [|done]. eapply after_trans; [apply HA|apply HW].
Qed.

Lemma CallPostHook_spec hooks r (p : Process) e (p' : Process) :
  CallPostHook hooks r p = (e, p') → p_runtime p' = p_runtime p ∧ p_log p' = p_log p.
Proof.
  revert p. induction hooks as [|h hooks IH]; intros p; simpl; [by intros [= <- <-]|].
  destruct (h r (p_state p)) as [[e1|] s]; [by intros [= <- <-]|]. intros H. apply IH in H. done.
Qed.

Lemma run_modules_spec fuel hooks ms p b p' :
  run_modules Connect schedule race fuel hooks ms p = Some (Ok b, p') → separate (p_runtime p) →
  b = true ∧ after False p p'.
Proof.
  revert p. induction ms as [|m ms IH]; intros p; cbn [run_modules].
  { intros [= <- <-] Hs. split; [done|]. by apply after_same. }
  destruct (m_skip m p); [by apply IH|].
  destruct (RunModule _ _ _ _ _ _ _ _) as [[[r p1]|e|w]|] eqn:E; [|done..]. intros H Hs.
  destruct (RunModule_spec _ _ _ _ _ _ _ E Hs) as [A B].
  destruct (CallPostHook _ _ _) as [he p2] eqn:EH. apply CallPostHook_spec in EH as [H1 H2].
  destruct (mr_failed r) eqn:EF.
  { destruct (B EF) as [e Ee]. by rewrite Ee in H. }
  destruct he; [done|].
  assert (separate (p_runtime p1)) as Hs1 by (by destruct A as (? & ? & ? & _)).
  assert (after False p1 p2) as A2 by (apply after_same; [done|done|done]).
  destruct (IH _ H) as [Hb A3]; [by rewrite H1|]. split; [done|].
  eapply after_trans; [eapply after_weaken; [|exact A]; congruence|]. by eapply after_trans.
Qed.

(** Modules whose [Until] never asks for another turn end in one. *)
Lemma run_modules_returns fuel hooks ms p :
  Forall (λ m, ∀ s, (m_until m s).1 ≠ inr (Some false)) ms →
  is_Some (run_modules Connect schedule race (Datatypes.S fuel) hooks ms p).
Proof.
  intros H. revert p. induction H as [|m ms Hm _ IH]; intros p; cbn [run_modules]; [by eexists|].
  destruct (m_skip m p); [apply IH|]. cbn [RunModule].
  destruct (run_tasks _ _ _ _ _ _ _) as [[r1 p1]|e|w]; [|by eexists..].
  assert (∀ r p1, is_Some (let '(he, p2) := CallPostHook (m_hooks m ++ hooks) r p1 in
            if mr_failed r then match mr_combine r with
              | Some e => Some (Err (Wrap "execute failed" (Msg e)), p2) | None => Some (Ok false, p2) end
            else match he with
                 | Some e => Some (Err (Wrap "execute failed" (Msg e)), p2)
                 | None => run_modules Connect schedule race (Datatypes.S fuel) hooks ms p2 end)) as HR.
  { intros r p2. destruct (CallPostHook _ r p2) as [he p3]. destruct (mr_failed r); [destruct (mr_combine r); by eexists|].
    destruct he; [by eexists|apply IH]. }
  destruct (mr_failed r1); [apply HR|]. specialize (Hm (p_state p1)).
  destruct (m_until m (p_state p1)) as [[e|[[]|]] s2]; try apply HR. by destruct Hm.
Qed.

(** C15: a pipeline that returns nil has lost nothing: with or without the
    ignore-error option its hosts are the ones it started with and no task
    failed on any host.  (A failure that is ignored deletes the host, and the
    final comparison of the number of hosts turns it into an error.)  And it
    returns: one turn per module is enough unless a module asks for more. *)
Theorem Start_success hooks ms p :
  separate (p_runtime p) →
  (∀ fuel p', Start Connect schedule race fuel hooks ms p = Some (Ok tt, p') →
     GetAllHosts (p_runtime p') = GetAllHosts (p_runtime p) ∧
     ∃ new, p_log p' = p_log p ++ new ∧ Forall (λ l, l.1 ≠ FAILED) new) ∧
  (Forall (λ m, ∀ s, (m_until m s).1 ≠ inr (Some false)) ms →
   ∀ fuel, is_Some (Start Connect schedule race (Datatypes.S fuel) hooks ms p)).
Proof.
  intros Hs. split.
  - intros fuel p'. unfold Start. destruct (run_modules _ _ _ _ _ _ _) as [[[b|e|w] p1]|] eqn:E; [|done..].
    destruct (run_modules_spec _ _ _ _ _ _ E Hs) as [-> (new & H1 & H2 & H3 & H4 & H5)].
    case_bool_decide as HL; [|done]. intros [= <-].
    rewrite !GetAllHosts_separate in * by done. unfold hosts_of in *.
    split; [by apply H4|]. exists new. split; [done|].
    apply list.Forall_forall. intros l Hl HF. destruct H5 as [[]|H5]; [|lia].
    apply Exists_exists. by exists l.
  - intros Hm fuel. destruct (run_modules_returns fuel hooks ms p Hm) as [[[[]|e|w] p1] E]; unfold Start; rewrite E;
      [case_bool_decide|..]; by eexists.
Qed.

End Invariant.

(** ** Small instances *)

Definition small_runtime (ignoreErr : bool) : Runtime :=
  {| r_allHosts := ["a"; "b"; "c"]; r_roleArray := {["master" := ["a"; "b"; "c"]]};
     r_roleLen := {["master" := 3]}; r_deprecated := ∅; r_ignoreErr := ignoreErr |}.

Lemma small_runtime_separate ignoreErr : separate (small_runtime ignoreErr).
Proof. intros h _. apply not_elem_of_empty. Qed.

Definition small_process : Process (S:=unit) :=
  {| p_state := tt; p_runtime := small_runtime true; p_runs := 0; p_log := [] |}.

(** A module of two tasks on the hosts of a role: the first fails on the host
    "a". *)
Definition small_task (action : string → prog unit (option string)) : RemoteTask (S:=unit) :=
  {| rt_name := "t"; rt_precheck := λ _, PRet (inr true); rt_action := action; rt_rollback := None;
     rt_parallel := true; rt_retry := 1 |}.

Definition small_module (actions : list (string → prog unit (option string))) : Module (S:=unit) :=
  {| m_name := "m"; m_skip := λ _, false;
     m_tasks := λ p, map (λ f, Remote (small_task f) (GetHostsByRole (p_runtime p) "master")) actions;
     m_until := λ s, (inr None, s); m_hooks := [] |}.

Lemma Start_success_witness :
  ∃ p', Start (λ _, PRet None) (λ _, []) (λ _, false) 1 [] [small_module [λ _, PRet None]] small_process
        = Some (Ok tt, p') ∧ GetAllHosts (p_runtime p') = ["a"; "b"; "c"].
Proof.
  eexists. split; [vm_compute; reflexivity|].
  match goal with |- GetAllHosts (p_runtime ?p) = _ =>
    destruct (Start_success (λ _, PRet None) (λ _, []) (λ _, false) [] [small_module [λ _, PRet None]]
                small_process (small_runtime_separate true)) as [H _]; destruct (H 1 p eq_refl) as [H' _]
  end. exact H'.
Defined.

Lemma DeleteHost_duplicates_witness :
  ∃ rt', DeleteHost (small_runtime true) "a" = Ok rt' ∧
    resolve rt' (GetHostsByRole (small_runtime true) "master") = [Some "b"; Some "c"; Some "c"].
Proof.
  eexists. split; [reflexivity|].
  match goal with |- resolve ?rt' _ = _ =>
    destruct (DeleteHost_duplicates (small_runtime true) rt' "master" "a" [] ["b"] "c"
                eq_refl eq_refl) as (_ & _ & H & _)
  end; [apply not_elem_of_nil|by intros H%list_elem_of_singleton|done|apply small_runtime_separate|reflexivity|].
  exact H.
Defined.
