(* ===== verification/HostFacts.v ===== *)
(** * Facts of a host: [src/feature/pkg/connector/helper.go] and
      [gather_facts.go]

    What a host says about itself is text, which is read line by line into
    maps, and may be kept in memory or in a file for the next time. *)

From Stdlib Require Import Ascii String.
From S2P Require Import Prelude GoStrings Paths Values.
From stdpp Require Import gmap strings list sets.

#[local] Arguments String.append !_ _ /.

(** ** Reading text *)

Definition line_end : ascii := "010"%char.
Definition carriage_return : ascii := "013"%char.

(** [bufio.Scanner] has a buffer of 64 KiB, in which a line and its end must
    fit; it stops at the first line that does not. *)
Definition MaxScanTokenSize : Z := 64 * 1024.
Definition fits_buffer (line : string) : bool := (Z.of_nat (String.length line) <? MaxScanTokenSize)%Z.

Definition dropCR (line : string) : string := TrimSuffix line (String carriage_return EmptyString).

Fixpoint drop_last_empty (l : list string) : list string :=
  match l with
  | [] => []
  | [s] => if bool_decide (s = "") then [] else [s]
  | s :: l' => s :: drop_last_empty l'
  end.

Fixpoint take_fitting (l : list string) : list string :=
  match l with
  | [] => []
  | s :: l' => if fits_buffer s then dropCR s :: take_fitting l' else []
  end.

(** The texts of successive calls of [Scan]. *)
Definition scan_lines (bs : string) : list string := take_fitting (drop_last_empty (Split bs line_end)).

(** [strings.SplitN(line, split, 2)] for a separator of one byte: nothing when
    there is one part only. *)
Fixpoint SplitN2 (line : string) (split : ascii) : option (string * string) :=
  match line with
  | EmptyString => None
  | String a rest =>
      if bool_decide (a = split) then Some (EmptyString, rest)
      else '(k, v) ← SplitN2 rest split; Some (String a k, v)
  end.

Definition add_line (split : ascii) (config : gmap string string) (line : string) : gmap string string :=
  match SplitN2 line split with
  | Some (k, v) => <[TrimSpace k := TrimSpace v]> config
  | None => config
  end.

Definition convertBytesToMap (bs : string) (split : ascii) : gmap string string :=
  fold_left (add_line split) (scan_lines bs) ∅.

(** The loop's variables: the groups that are complete, and the current one. *)
Definition slice_step (split : ascii) (st : list (gmap string string) * gmap string string) (line : string) :
    list (gmap string string) * gmap string string :=
  let '(config, currentMap) := st in
  let line := TrimSpace line in
  if negb (bool_decide (line = "")) then (config, add_line split currentMap line)
  else if bool_decide (currentMap = ∅) then st
  else (config ++ [currentMap], ∅)%list.

Definition convertBytesToSlice (bs : string) (split : ascii) : list (gmap string string) :=
  let '(config, currentMap) := fold_left (slice_step split) (scan_lines bs) ([], ∅) in
  if bool_decide (currentMap = ∅) then config else (config ++ [currentMap])%list.

(** ** Caches *)

Notation Facts := (gmap string value).

Definition gatherFactsCacheJSON : string := "jsonfile".
Definition gatherFactsCacheYAML : string := "yamlfile".
Definition gatherFactsCacheMemory : string := "memory".

Definition VariableLocalHost : string := "localhost".
Definition RuntimeDir : string := "runtime".
Definition RuntimeGatherFactsCacheDir : string := "gather_facts_caches".

(** The process's cache, the directories and files below the work directory,
    and the hosts that have been asked. *)
Record FactState := {
  fs_cache : gmap string Facts;
  fs_dirs : gset string;
  fs_files : gmap string string;
  fs_asked : list string;
}.

(** JSON and YAML, the file system's errors, and what a host answers.
    [read_after_call] is an order of evaluation that the language leaves
    open: whether [return result, f(&result)] reads [result] after the
    call. *)
Class FactLib := {
  json_Marshal : Facts → error + string;
  json_Unmarshal : string → error + Facts;
  yaml_Marshal : Facts → error + string;
  yaml_Unmarshal : string → error + Facts;
  stat_error : string → option error;      (* other than not existing *)
  mkdir_error : string → option error;
  write_file_error : string → option error;
  read_file_error : string → option error; (* of a file that is there *)
  remove_error : string → option error;
  ask : string → error + Facts;
  read_after_call : bool;
}.

(** [remote] is the host that [getHostInfoFn] asks. *)
Record cacheGatherFact := {
  inventoryName : string;
  cacheType : string;
  cacheDir : string;
  remote : string;
}.

Definition newCacheGatherFact (inventoryName cacheType workdir remote : string) : cacheGatherFact :=
  {| inventoryName := inventoryName; cacheType := cacheType;
     cacheDir := Paths.Join [workdir; RuntimeDir; RuntimeGatherFactsCacheDir]; remote := remote |}.

Section Gather.
Context `{FactLib}.

(** A call that changes the state and returns facts and perhaps an error. *)
Definition Answer : Type := option Facts * option error.

Definition getHostInfoFn (c : cacheGatherFact) (st : FactState) : Answer * FactState :=
  let st := {| fs_cache := fs_cache st; fs_dirs := fs_dirs st; fs_files := fs_files st;
               fs_asked := fs_asked st ++ [remote c] |} in
  match ask (remote c) with inl e => ((None, Some e), st) | inr info => ((Some info, None), st) end.

Definition with_cache (st : FactState) (m : gmap string Facts) : FactState :=
  {| fs_cache := m; fs_dirs := fs_dirs st; fs_files := fs_files st; fs_asked := fs_asked st |}.
Definition with_files (st : FactState) (m : gmap string string) : FactState :=
  {| fs_cache := fs_cache st; fs_dirs := fs_dirs st; fs_files := m; fs_asked := fs_asked st |}.
Definition with_dir (st : FactState) (d : string) : FactState :=
  {| fs_cache := fs_cache st; fs_dirs := {[d]} ∪ fs_dirs st; fs_files := fs_files st; fs_asked := fs_asked st |}.

Definition ensureCacheDir (c : cacheGatherFact) (st : FactState) : option error * FactState :=
  match stat_error (cacheDir c) with
  | Some e => (Some e, st)
  | None =>
      if bool_decide (cacheDir c ∈ fs_dirs st) then (None, st)
      else match mkdir_error (cacheDir c) with
           | Some e => (Some e, st)
           | None => (None, with_dir st (cacheDir c))
           end
  end.

Definition ReadFile (filename : string) (st : FactState) : option string :=
  match read_file_error filename with Some _ => None | None => fs_files st !! filename end.

Definition Remove (filename : string) (st : FactState) : FactState :=
  match remove_error filename with Some _ => st | None => with_files st (delete filename (fs_files st)) end.

Definition fetchAndCache (c : cacheGatherFact) (filename : string) (marshalFn : Facts → error + string) (st : FactState) :
    Answer * FactState :=
  match getHostInfoFn c st with
  | ((Some hostInfo, None), st) =>
      match marshalFn hostInfo with
      | inl err => ((None, Some err), st)
      | inr data =>
          match write_file_error filename with
          | Some err => ((Some hostInfo, Some err), st)
          | None => ((Some hostInfo, None), with_files st (<[filename := data]> (fs_files st)))
          end
      end
  | ((_, err), st) => ((None, err), st)
  end.

(** [var result map[string]any; return result, unmarshal(data, &result)] *)
Definition decode (unmarshal : string → error + Facts) (data : string) : Answer :=
  match unmarshal data with
  | inl err => (None, Some err)
  | inr result => (if read_after_call then Some result else None, None)
  end.

Definition handleFileCache (c : cacheGatherFact) (what suffix : string) (marshal : Facts → error + string)
    (unmarshal : string → error + Facts) (st : FactState) : Answer * FactState :=
  match ensureCacheDir c st with
  | (Some err, st) => ((None, Some (Wrap (what +:+ " cache dir error for host " +:+ inventoryName c) err)), st)
  | (None, st) =>
      let filename := Paths.Join [cacheDir c; inventoryName c +:+ suffix] in
      match ReadFile filename st with
      | None => fetchAndCache c filename marshal st
      | Some data => (decode unmarshal data, st)
      end
  end.

Definition handleJSONCache (c : cacheGatherFact) : FactState → Answer * FactState :=
  handleFileCache c "json" ".json" json_Marshal json_Unmarshal.
Definition handleYAMLCache (c : cacheGatherFact) : FactState → Answer * FactState :=
  handleFileCache c "yaml" ".yaml" yaml_Marshal yaml_Unmarshal.

Definition handleMemoryCache (c : cacheGatherFact) (st : FactState) : Answer * FactState :=
  match fs_cache st !! inventoryName c with
  | Some cached => ((Some cached, None), st)
  | None =>
      match getHostInfoFn c st with
      | ((Some hostInfo, None), st) =>
          ((Some hostInfo, None), with_cache st (<[inventoryName c := hostInfo]> (fs_cache st)))
      | ((_, err), st) => ((None, err), st)
      end
  end.

Definition HostInfo (c : cacheGatherFact) (st : FactState) : Answer * FactState :=
  if bool_decide (cacheType c = gatherFactsCacheJSON) then handleJSONCache c st
  else if bool_decide (cacheType c = gatherFactsCacheYAML) then handleYAMLCache c st
  else if bool_decide (cacheType c = gatherFactsCacheMemory) then handleMemoryCache c st
  else
    let st := Remove (Paths.Join [cacheDir c; inventoryName c +:+ ".json"]) st in
    let st := Remove (Paths.Join [cacheDir c; inventoryName c +:+ ".yaml"]) st in
    getHostInfoFn c (with_cache st (delete (inventoryName c) (fs_cache st))).

End Gather.
(** ** Printing and reading back *)

Definition trimmed (s : string) : Prop :=
  trim_space_left s = s ∧ trim_space_left (str_rev s) = str_rev s.
#[export] Instance trimmed_dec s : Decision (trimmed s).
Proof. unfold trimmed. apply _. Defined.

(** A key and a value that a line can hold. *)
Record fact (split : ascii) (kv : string * string) : Prop := {
  fa_key : trimmed kv.1;
  fa_value : trimmed kv.2;
  fa_split : lacks split kv.1 = true;
  fa_key_line : lacks line_end kv.1 = true;
  fa_value_line : lacks line_end kv.2 = true;
  fa_short : (Z.of_nat (String.length kv.1 + String.length kv.2 + 1) < MaxScanTokenSize)%Z;
}.

Definition fact_line (split : ascii) (kv : string * string) : string := kv.1 +:+ String split kv.2.

Definition terminated (lines : list string) : string := foldr (λ l s, l +:+ String line_end s) EmptyString lines.

(** One line per fact and an empty line after each group. *)
Definition group_lines (split : ascii) (g : list (string * string)) : list string := map (fact_line split) g ++ [EmptyString].
Definition print_groups (split : ascii) (gs : list (list (string * string))) : string :=
  terminated (concat (map (group_lines split) gs)).

Lemma Split_terminated lines :
  Forall (λ l, lacks line_end l = true) lines → Split (terminated lines) line_end = lines ++ [EmptyString].
Proof.
  induction 1 as [|l lines Hl _ IH]; [done|]. change (terminated (l :: lines)) with (l +:+ String line_end (terminated lines)).
  rewrite Split_terminated_line by done. by rewrite IH.
Qed.

Lemma drop_last_empty_snoc l : drop_last_empty (l ++ [EmptyString]) = l.
Proof. induction l as [|s l IH]; [done|]. simpl. destruct l; simpl in *; [done|]. by rewrite IH. Qed.

Lemma trimmed_head a s : trim_space_left (String a s) = String a s → is_space a = false.
Proof.
  simpl. destruct (is_space a); [|done]. intros H. exfalso.
  assert (String.length (trim_space_left s) ≤ String.length s) as Hl.
  { clear. induction s as [|b r IH]; simpl; [lia|]. destruct (is_space b); simpl; lia. }
  rewrite H in Hl. simpl in Hl. lia.
Qed.

Lemma trim_left_app s t : trim_space_left s = s → trim_space_left t = t → trim_space_left (s +:+ t) = s +:+ t.
Proof. destruct s as [|a s]; [done|]. intros Ha%trimmed_head _. simpl. by rewrite Ha. Qed.

Lemma trimmed_TrimSpace s : trimmed s → TrimSpace s = s.
Proof. intros [H1 H2]. unfold TrimSpace. by rewrite H1, H2, str_rev_involutive. Qed.

Lemma dropCR_trimmed s : trimmed s → dropCR s = s.
Proof.
  intros [_ H]. unfold dropCR, TrimSuffix. change (str_rev (String carriage_return "")) with (String carriage_return "").
  unfold TrimPrefix. destruct (str_rev s) as [|a r] eqn:E; [by rewrite <- (str_rev_involutive s), E|].
  apply trimmed_head in H. simpl. case_bool_decide as Ea; [by subst|]. simpl. by rewrite <- E, str_rev_involutive.
Qed.

Lemma take_fitting_trimmed l :
  Forall (λ s, trimmed s ∧ (Z.of_nat (String.length s) < MaxScanTokenSize)%Z) l → take_fitting l = l.
Proof.
  induction 1 as [|s l [Ht Hs] _ IH]; [done|]. cbn [take_fitting]. unfold fits_buffer.
  rewrite (proj2 (Z.ltb_lt _ _) Hs), dropCR_trimmed, IH; done.
Qed.

(** A separator that is no white space, and lines of facts with it. *)
Section Lines.
Context (split : ascii) (Hsplit : is_space split = false).

Lemma split_not_end : split ≠ line_end.
Proof. intros ->. done. Qed.

Lemma fact_line_trimmed kv : fact split kv → trimmed (fact_line split kv).
Proof.
  intros [[Hk1 Hk2] [Hv1 Hv2] _ _ _ _]. unfold fact_line. split.
  - apply trim_left_app; [done|]. simpl. by rewrite Hsplit.
  - rewrite str_rev_app_distr, str_rev_cons, str_app_assoc. apply trim_left_app; [done|]. simpl. by rewrite Hsplit.
Qed.

Lemma fact_line_scans kv :
  fact split kv → lacks line_end (fact_line split kv) = true ∧ trimmed (fact_line split kv) ∧
    (Z.of_nat (String.length (fact_line split kv)) < MaxScanTokenSize)%Z.
Proof.
  intros Hf. split_and!; [|by apply fact_line_trimmed|]; destruct Hf as [_ _ _ Hk Hv Hl]; unfold fact_line.
  - rewrite lacks_app. simpl. rewrite Hk, Hv, bool_decide_false; [done|apply split_not_end].
  - assert (∀ s t, String.length (s +:+ t) = String.length s + String.length t) as Happ.
    { induction s as [|a s IH]; intros t; simpl; [done|]. by rewrite IH. }
    rewrite Happ. simpl. lia.
Qed.

Lemma SplitN2_fact kv : fact split kv → SplitN2 (fact_line split kv) split = Some kv.
Proof.
  intros [_ _ Hs _ _ _]. destruct kv as [k v]. unfold fact_line. simpl in *.
  induction k as [|a k IH]; simpl in *; [by rewrite bool_decide_true|]. bools.
  rewrite bool_decide_false by done. by rewrite IH.
Qed.

Lemma add_fact_line kv m : fact split kv → add_line split m (fact_line split kv) = <[kv.1 := kv.2]> m.
Proof.
  intros Hf. unfold add_line. rewrite SplitN2_fact by done. destruct kv as [k v], Hf as [Hk Hv _ _ _ _].
  simpl in *. by rewrite !trimmed_TrimSpace.
Qed.

Definition add_fact (m : gmap string string) (kv : string * string) : gmap string string := <[kv.1 := kv.2]> m.

(** A group as a map: the last value of a key. *)
Definition group_map (g : list (string * string)) : gmap string string := fold_left add_fact g ∅.

Lemma slice_group g config m :
  Forall (fact split) g → fold_left (slice_step split) (map (fact_line split) g) (config, m) = (config, fold_left add_fact g m).
Proof.
  intros Hg. revert m. induction Hg as [|kv g Hkv _ IH]; intros m; [done|]. cbn [map fold_left].
  unfold slice_step at 2. rewrite trimmed_TrimSpace by by apply fact_line_trimmed.
  rewrite bool_decide_false by (unfold fact_line; by destruct kv as [[] ?]). cbn [negb].
  rewrite add_fact_line by done. apply IH.
Qed.

Lemma add_facts_nonempty g m : m ≠ ∅ → fold_left add_fact g m ≠ ∅.
Proof. revert m. induction g as [|kv g IH]; intros m Hm; [done|]. apply IH, insert_non_empty. Qed.

Lemma group_map_nonempty g : g ≠ [] → group_map g ≠ ∅.
Proof. destruct g as [|kv g]; [done|]. intros _. apply (add_facts_nonempty g), insert_non_empty. Qed.

Lemma slice_groups gs config :
  Forall (λ g, g ≠ [] ∧ Forall (fact split) g) gs →
  fold_left (slice_step split) (concat (map (group_lines split) gs)) (config, ∅) = (config ++ map group_map gs, ∅).
Proof.
  intros Hgs. revert config. induction Hgs as [|g gs [Hne Hg] _ IH]; intros config; [by rewrite app_nil_r|].
  cbn [map concat]. unfold group_lines at 1. rewrite !fold_left_app, slice_group by done.
  change (fold_left add_fact g ∅) with (group_map g). cbn [fold_left]. unfold slice_step at 2.
  change (TrimSpace "") with "". rewrite (bool_decide_true ("" = "")) by done. cbn [negb].
  rewrite bool_decide_false by by apply group_map_nonempty.
  rewrite IH. by rewrite <- app_assoc.
Qed.

Lemma print_groups_scan gs :
  Forall (λ g, g ≠ [] ∧ Forall (fact split) g) gs →
  scan_lines (print_groups split gs) = concat (map (group_lines split) gs).
Proof.
  intros Hgs.
  assert (Forall (λ l, lacks line_end l = true ∧ trimmed l ∧ (Z.of_nat (String.length l) < MaxScanTokenSize)%Z)
            (concat (map (group_lines split) gs))) as Hl.
  { induction Hgs as [|g gs [_ Hg] _ IH]; [constructor|]. cbn [map concat]. apply Forall_app_2; [|done].
    apply Forall_app_2; [|apply list.Forall_singleton; split_and!; [done|done|done]].
    apply Forall_map. eapply list.Forall_impl; [exact Hg|]. apply fact_line_scans. }
  unfold scan_lines, print_groups. rewrite Split_terminated, drop_last_empty_snoc.
  - apply take_fitting_trimmed. eapply list.Forall_impl; [exact Hl|]. by intros l (? & ? & ?).
  - eapply list.Forall_impl; [exact Hl|]. by intros l (? & ? & ?).
Qed.

(** C21: What is printed as groups of facts, one per line with an empty line
    after each group, is read back as the maps of these groups, in their order
    and with the last value of each key; keys and values without white space
    around them, in lines that the scanner's buffer holds. *)
Theorem convertBytesToSlice_prints gs :
  Forall (λ g, g ≠ [] ∧ Forall (fact split) g) gs →
  convertBytesToSlice (print_groups split gs) split = map group_map gs.
Proof.
  intros Hgs. unfold convertBytesToSlice. rewrite print_groups_scan by done.
  rewrite slice_groups by done. cbn. done.
Qed.

End Lines.

Lemma convertBytesToSlice_prints_witness :
  map map_to_list (convertBytesToSlice
    (print_groups ":" [[("processor", "0"); ("model name", "Intel")]; [("processor", "1")]]) ":") =
  map map_to_list [<["model name" := "Intel"]> {["processor" := "0"]}; {["processor" := "1"]}].
Proof.
  rewrite (convertBytesToSlice_prints ":"%char eq_refl
    [[("processor", "0"); ("model name", "Intel")]; [("processor", "1")]]); [vm_compute; reflexivity|].
  repeat constructor; done.
Defined.

(** ** What a cache answers *)

Section Cached.
Context `{FactLib}.

Definition cached_type (t : string) : Prop :=
  t = gatherFactsCacheJSON ∨ t = gatherFactsCacheYAML ∨ t = gatherFactsCacheMemory.

(** The encoders give back what they were given, files can be read back, and
    [result] is read after the call. *)
Class FactLibSpec : Prop := {
  json_back : ∀ f s, json_Marshal f = inr s → json_Unmarshal s = inr f;
  yaml_back : ∀ f s, yaml_Marshal f = inr s → yaml_Unmarshal s = inr f;
  readable : ∀ p, read_file_error p = None;
  late_read : read_after_call = true;
}.

(** Connectors that look in the same place. *)
Definition same_cache (c1 c2 : cacheGatherFact) : Prop :=
  inventoryName c1 = inventoryName c2 ∧ cacheType c1 = cacheType c2 ∧ cacheDir c1 = cacheDir c2.

Lemma getHostInfoFn_files c st a st1 :
  getHostInfoFn c st = (a, st1) → fs_dirs st1 = fs_dirs st ∧ fs_files st1 = fs_files st ∧ fs_cache st1 = fs_cache st.
Proof. unfold getHostInfoFn. destruct (ask (remote c)); intros [= <- <-]; done. Qed.

Lemma ensureCacheDir_again c1 c2 st st1 :
  cacheDir c1 = cacheDir c2 → ensureCacheDir c1 st = (None, st1) → cacheDir c1 ∈ fs_dirs st1 ∧
    ∀ st2, fs_dirs st2 = fs_dirs st1 → ensureCacheDir c2 st2 = (None, st2).
Proof.
  intros Ed. unfold ensureCacheDir. rewrite <- Ed. destruct (stat_error (cacheDir c1)); [done|]. intros Hst.
  assert (cacheDir c1 ∈ fs_dirs st1) as Hin.
  { case_bool_decide; simplify_eq; [done|]. destruct (mkdir_error _); simplify_eq. simpl. set_solver. }
  split; [done|]. intros st2 ->. by rewrite bool_decide_true.
Qed.

Lemma handleFileCache_again `{!FactLibSpec} c1 c2 what suffix marshal unmarshal st f st1 :
  (∀ f s, marshal f = inr s → unmarshal s = inr f) → same_cache c1 c2 →
  handleFileCache c1 what suffix marshal unmarshal st = ((Some f, None), st1) →
  handleFileCache c2 what suffix marshal unmarshal st1 = ((Some f, None), st1).
Proof.
  intros Hback (En & _ & Ed). unfold handleFileCache. rewrite <- En, <- Ed.
  destruct (ensureCacheDir c1 st) as [[e|] st0] eqn:Ee; [done|].
  destruct (ensureCacheDir_again c1 c2 st st0 Ed Ee) as [Hin Hagain].
  set (filename := Paths.Join _). unfold ReadFile. rewrite readable.
  destruct (fs_files st0 !! filename) as [data|] eqn:Ef.
  - intros Hd. assert (st0 = st1 ∧ decode unmarshal data = (Some f, None)) as [<- Hdec] by (by injection Hd).
    rewrite Hagain by done. by rewrite Ef, Hdec.
  - unfold fetchAndCache. destruct (getHostInfoFn c1 st0) as [[[info|] [e|]] st2] eqn:Eg; try done.
    destruct (getHostInfoFn_files _ _ _ _ Eg) as (Hdirs & _ & _).
    destruct (marshal info) as [e|data] eqn:Em; [done|]. destruct (write_file_error filename); [done|].
    intros [= <- <-]. rewrite Hagain by (by rewrite <- Hdirs). cbn [fs_files with_files].
    rewrite lookup_insert_eq. unfold decode. by rewrite (Hback _ _ Em), late_read.
Qed.

Lemma handleMemoryCache_again c1 c2 st f st1 :
  same_cache c1 c2 → handleMemoryCache c1 st = ((Some f, None), st1) → handleMemoryCache c2 st1 = ((Some f, None), st1).
Proof.
  intros (En & _ & _). unfold handleMemoryCache. rewrite <- En.
  destruct (fs_cache st !! inventoryName c1) as [f'|] eqn:Ef; [intros [= <- <-]; by rewrite Ef|].
  destruct (getHostInfoFn c1 st) as [[[info|] [e|]] st2]; try done. intros [= <- <-]. cbn [fs_cache with_cache].
  by rewrite lookup_insert_eq.
Qed.

(** After an answer, every connector that looks in the same place has the same
    answer, and nothing changes: no host is asked. *)
Lemma HostInfo_again `{!FactLibSpec} c1 c2 st f st1 :
  cached_type (cacheType c1) → same_cache c1 c2 →
  HostInfo c1 st = ((Some f, None), st1) → HostInfo c2 st1 = ((Some f, None), st1).
Proof.
  intros Ht Hc. pose proof Hc as (_ & Et & _). unfold HostInfo. rewrite <- Et.
  destruct Ht as [->|[->| ->]].
  - rewrite !bool_decide_true by done. by apply handleFileCache_again; [exact json_back|].
  - rewrite (bool_decide_false (_ = gatherFactsCacheJSON)), !bool_decide_true by done.
    by apply handleFileCache_again; [exact yaml_back|].
  - rewrite (bool_decide_false (_ = gatherFactsCacheJSON)), (bool_decide_false (_ = gatherFactsCacheYAML)),
      !bool_decide_true by done.
    by apply handleMemoryCache_again.
Qed.

(** Without a cache every host is asked, and what was kept under the name is
    removed. *)
Theorem HostInfo_uncached c st :
  ¬ cached_type (cacheType c) →
  (HostInfo c st).1 = match ask (remote c) with inl e => (None, Some e) | inr f => (Some f, None) end ∧
  fs_asked (HostInfo c st).2 = (fs_asked st ++ [remote c])%list ∧ fs_cache (HostInfo c st).2 !! inventoryName c = None.
Proof.
  intros Ht. unfold HostInfo. rewrite !bool_decide_false by (unfold cached_type in Ht; tauto).
  unfold getHostInfoFn, Remove. destruct (ask (remote c)), (remove_error _), (remove_error _); cbn;
    by rewrite lookup_delete_eq.
Qed.

End Cached.
