(* ===== verification/Connector.v ===== *)
(** * Connectors: [src/feature/pkg/connector]

    Which connector a host gets and with which parameters ([connector.go], the
    constructors), how a session over SSH is opened, and what a host is asked
    about itself.  The transfer of files and commands is a parameter. *)

From Stdlib Require Import Ascii String.
From S2P Require Import Prelude GoStrings Paths Values Tmpl TaskExec Modules HostFacts.
From stdpp Require Import gmap strings list sets.

Definition VariableConnector : string := "connector".
Definition VariableConnectorType : string := "type".
Definition VariableConnectorHost : string := "host".
Definition VariableConnectorURL : string := "url".
Definition VariableConnectorPort : string := "port".
Definition VariableConnectorUser : string := "user".
Definition VariableConnectorUserName : string := "username".
Definition VariableConnectorPassword : string := "password".
Definition VariableConnectorPrivateKey : string := "private_key".
Definition VariableConnectorPrivateKeyContent : string := "private_key_content".
Definition VariableConnectorKubeconfig : string := "kubeconfig".
Definition VariableConnectorToken : string := "token".
Definition VariableGatherFactsCache : string := "fact_caching".

Definition connectedSSH : string := "ssh".
Definition connectedLocal : string := "local".
Definition connectedKubernetes : string := "kubernetes".
Definition connectedPrometheus : string := "prometheus".

Definition defaultSSHPort : Z := 22.
Definition defaultSSHUser : string := "root".
Definition defaultPrometheusTimeout : Z := 10 * 1000000000.

(** The machine the program runs on and libraries: the truncation of a float,
    the name of the machine (empty when there is none), its addresses (nothing
    for an address of another type), the default key of its user, and
    [time.ParseDuration]. *)
Class Machine := {
  float_int : string → Z;
  os_Hostname : string;
  InterfaceAddrs : error + list (option string);
  defaultSSHPrivateKey : string;
  ParseDuration : string → option Z;
}.

Section Connector.
Context {LB : Libraries} {ML : ModuleLibraries} `{Machine}.

(** ** Parameters *)

(** [IntVar]; an integer above the largest [int] is a [uint64]. *)
Definition IntVar (ctx args : gmap string value) (keys : list string) : result Z :=
  match NestedFieldNoCopy args keys with
  | inl e => Err e
  | inr None => Err (cannot_find keys)
  | inr (Some (VInt z)) =>
      if bool_decide (z ≤ max_int)%Z then Ok z
      else Err (Msg ("variable " +:+ StrJoin keys "." +:+ " overflows int"))
  | inr (Some (VFloat t)) => Ok (float_int t)
  | inr (Some (VStr s)) =>
      let! vs := Parse tmpl_execute ctx s in
      match Atoi vs with
      | Some z => Ok z
      | None => Err (Msg ("failed to convert string " +:+ vs +:+ " to int of key " +:+ StrJoin keys "."))
      end
  | inr (Some _) => Err (Msg ("unsupported variable " +:+ StrJoin keys "." +:+ " type"))
  end.

(** [BoolVar] *)
Definition BoolVar (ctx args : gmap string value) (keys : list string) : result bool :=
  match NestedFieldNoCopy args keys with
  | inl e => Err e
  | inr None => Err (cannot_find keys)
  | inr (Some (VBool b)) => Ok b
  | inr (Some (VStr s)) => ParseBool tmpl_execute ctx [s]
  | inr (Some _) => Err (Msg ("unsupported variable " +:+ StrJoin keys "." +:+ " type"))
  end.

(** [x, err := ...; if err != nil { x = dflt }] *)
Definition or_default {A : Type} (dflt : A) (r : result A) : result A :=
  match r with Ok a => Ok a | Err _ => Ok dflt | Panic w => Panic w end.

Definition connector_var (hostVars : gmap string value) (key : string) : result string :=
  StringVar ∅ hostVars [VariableConnector; key].

(** ** The connectors *)

Record sshConnector := {
  Host : string;
  Port : Z;
  User : string;
  Password : string;
  PrivateKey : string;
  PrivateKeyContent : string;
  ssh_shell : string;
  ssh_gatherFacts : cacheGatherFact;
}.

Record localConnector := { local_Password : string; local_gatherFacts : cacheGatherFact }.

Record kubernetesConnector := { kc_workdir : string; kc_clusterName : string; kc_kubeconfig : string }.

Record PrometheusConnector := {
  pc_url : string;
  pc_username : string;
  pc_password : string;
  pc_token : string;
  pc_headers : gmap string string;
  pc_timeout : Z;
}.

(** [None] in [CPrometheus] is a nil pointer. *)
Inductive Connector :=
| CSSH (c : sshConnector)
| CLocal (c : localConnector)
| CKubernetes (c : kubernetesConnector)
| CPrometheus (c : option PrometheusConnector).

Definition newSSHConnector (workdir host : string) (hostVars : gmap string value) : result sshConnector :=
  let! hostParam := or_default host (connector_var hostVars VariableConnectorHost) in
  let! portParam := or_default defaultSSHPort (IntVar ∅ hostVars [VariableConnector; VariableConnectorPort]) in
  let! userParam := or_default defaultSSHUser (connector_var hostVars VariableConnectorUser) in
  let! passwdParam := or_default "" (connector_var hostVars VariableConnectorPassword) in
  let! keyParam := or_default defaultSSHPrivateKey (connector_var hostVars VariableConnectorPrivateKey) in
  let! (keycontentParam, keyParam) :=
    match connector_var hostVars VariableConnectorPrivateKeyContent with
    | Ok content => Ok (content, keyParam)
    | Err _ => Ok ("", defaultSSHPrivateKey)
    | Panic w => Panic w
    end in
  let! cacheType := or_default "" (StringVar ∅ hostVars [VariableGatherFactsCache]) in
  Ok {| Host := hostParam; Port := portParam; User := userParam; Password := passwdParam;
        PrivateKey := keyParam; PrivateKeyContent := keycontentParam; ssh_shell := "";
        ssh_gatherFacts := newCacheGatherFact VariableLocalHost cacheType workdir hostParam |}.

Definition newLocalConnector (workdir : string) (hostVars : gmap string value) : result localConnector :=
  let! password := or_default "" (connector_var hostVars VariableConnectorPassword) in
  let! cacheType := or_default "" (StringVar ∅ hostVars [VariableGatherFactsCache]) in
  Ok {| local_Password := password;
        local_gatherFacts := newCacheGatherFact VariableLocalHost cacheType workdir VariableLocalHost |}.

Definition newKubernetesConnector (host workdir : string) (hostVars : gmap string value) : result kubernetesConnector :=
  match connector_var hostVars VariableConnectorKubeconfig with
  | Ok kubeconfig => Ok {| kc_workdir := workdir; kc_clusterName := host; kc_kubeconfig := kubeconfig |}
  | Err err =>
      if negb (bool_decide (host = VariableLocalHost)) then Err err
      else Ok {| kc_workdir := workdir; kc_clusterName := host; kc_kubeconfig := "" |}
  | Panic w => Panic w
  end.

Definition header_text (v : value) : option string := match v with VStr s => Some s | _ => None end.

Definition newPrometheusConnector (vars : gmap string value) : result (option PrometheusConnector) :=
  let! promURL := or_default "" (connector_var vars VariableConnectorURL) in
  let! username := or_default "" (connector_var vars VariableConnectorUserName) in
  let! password := or_default "" (connector_var vars VariableConnectorPassword) in
  let! token := or_default "" (connector_var vars VariableConnectorToken) in
  match vars !! "connector" with
  | Some (VMap prometheusVars) =>
      let headers := match prometheusVars !! "headers" with Some (VMap m) => omap header_text m | _ => ∅ end in
      let timeout := match prometheusVars !! "timeout" with
                     | Some (VStr timeoutStr) => default defaultPrometheusTimeout (ParseDuration timeoutStr)
                     | _ => defaultPrometheusTimeout
                     end in
      Ok (Some {| pc_url := promURL; pc_username := username; pc_password := password; pc_token := token;
                  pc_headers := headers; pc_timeout := timeout |})
  | _ => Ok None
  end.

Definition isLocalIP (ipAddr : string) : bool :=
  match InterfaceAddrs with
  | inl _ => false
  | inr addrs => existsb (λ a, match a with Some ip => bool_decide (ip = ipAddr) | None => false end) addrs
  end.

(** [all] and [work] are what the variable store answers to [GetAllVariable]
    and [GetWorkDir]. *)
Definition NewConnector (host : string) (all work : error + value) : result Connector :=
  match all with
  | inl err => Err err
  | inr (VMap vd) =>
      match work with
      | inl err => Err err
      | inr (VStr wd) =>
          let! connectedType := or_default "" (connector_var vd VariableConnectorType) in
          if bool_decide (connectedType = connectedLocal) then rmap CLocal (newLocalConnector wd vd)
          else if bool_decide (connectedType = connectedSSH) then rmap CSSH (newSSHConnector wd host vd)
          else if bool_decide (connectedType = connectedKubernetes) then rmap CKubernetes (newKubernetesConnector host wd vd)
          else if bool_decide (connectedType = connectedPrometheus) then rmap CPrometheus (newPrometheusConnector vd)
          else
            let! hostParam := or_default host (connector_var vd VariableConnectorHost) in
            if bool_decide (host = VariableLocalHost) || bool_decide (host = os_Hostname) || isLocalIP hostParam
            then rmap CLocal (newLocalConnector wd vd)
            else rmap CSSH (newSSHConnector wd host vd)
      | inr _ => Err (Msg "workdir in variable should be string")
      end
  | inr _ => Err (Msg ("host: " +:+ host +:+ " variable is not a map"))
  end.

(** The connectors that gather facts. *)
Definition gatherFacts (c : Connector) : option cacheGatherFact :=
  match c with
  | CSSH c => Some (ssh_gatherFacts c)
  | CLocal c => Some (local_gatherFacts c)
  | _ => None
  end.

End Connector.

(** ** Opening a session *)

Inductive AuthMethod :=
| APassword (password : string)
| APublicKeys (key : string).

(** [golang.org/x/crypto/ssh] and the disk: whether a key can be parsed,
    whether a file is there and what it holds, dialling a server with the
    methods, opening a session, and the answer to [echo $SHELL]. *)
Class SSHLib := {
  ParsePrivateKey : string → option error;
  file_exists : string → bool;
  read_key_file : string → error + string;
  Dial : string → Z → string → list AuthMethod → option error;
  NewSession : option error;
  CombinedOutput : error + string;
}.

Definition parse_key `{SSHLib} (c : sshConnector) (key : string) : result (list AuthMethod) :=
  match ParsePrivateKey key with
  | Some err => Err (Wrap ("failed to parse private key " +:+ PrivateKey c) err)
  | None => Ok [APublicKeys key]
  end.

(** The password, the key that is given, and the key in the file. *)
Definition auth_methods `{SSHLib} (c : sshConnector) : result (list AuthMethod) :=
  let auth := if bool_decide (Password c = "") then [] else [APassword (Password c)] in
  let! content := if bool_decide (PrivateKeyContent c = "") then Ok [] else parse_key c (PrivateKeyContent c) in
  let! file :=
    if file_exists (PrivateKey c) then
      match read_key_file (PrivateKey c) with
      | inl err => Err (Wrap ("failed to read private key " +:+ PrivateKey c) err)
      | inr key => parse_key c key
      end
    else Ok [] in
  Ok (auth ++ content ++ file)%list.

Definition with_shell (c : sshConnector) (shell : string) : sshConnector :=
  {| Host := Host c; Port := Port c; User := User c; Password := Password c; PrivateKey := PrivateKey c;
     PrivateKeyContent := PrivateKeyContent c; ssh_shell := shell; ssh_gatherFacts := ssh_gatherFacts c |}.

(** [sshConnector.Init] *)
Definition ssh_Init `{SSHLib} (c : sshConnector) : result sshConnector :=
  if bool_decide (Host c = "") then Err (Msg "host is not set")
  else
    let! auth := auth_methods c in
    match Dial (Host c) (Port c) (User c) auth with
    | Some err => Err (Wrap ("failed to dial " +:+ Host c +:+ " ssh server") err)
    | None =>
        match NewSession with
        | Some err => Err (Wrap "failed to create session" err)
        | None =>
            match CombinedOutput with
            | inl err => Err (Wrap "failed to env command" err)
            | inr output =>
                let shell := TrimSpace output in
                Ok (with_shell c (if bool_decide (shell = "") then "/bin/bash" else shell))
            end
        end
    end.

(** ** Asking a host *)

(** Files and commands of the host: the standard output, the standard error
    and the error of a command. *)
Class Remote := {
  FetchFile : string → error + string;
  ExecuteCommand : string → string * string * option error;
}.

Definition run_fact `{Remote} (what cmd : string) : result value :=
  match ExecuteCommand cmd with
  | (_, stderr, Some err) => Err (Wrap ("failed to get " +:+ what) err)
  | (stdout, stderr, None) =>
      if bool_decide (stderr = "") then Ok (VStr (TrimSpace stdout))
      else Err (Msg ("failed to get " +:+ what +:+ ", stderr: " +:+ stderr))
  end.

Definition fetch `{Remote} (path : string) : result string :=
  match FetchFile path with inl err => Err err | inr data => Ok data end.

Definition text_map (m : gmap string string) : value := VMap (VStr <$> m).

(** [getHostInfo] of both connectors, on Linux. *)
Definition getHostInfo `{Remote} : result Facts :=
  let! osRelease := fetch "/etc/os-release" in
  let! kernel := run_fact "kernel" "uname -r" in
  let! hn := run_fact "hostname" "hostname" in
  let! arch := run_fact "arch" "arch" in
  let! cpu := fetch "/proc/cpuinfo" in
  let! mem := fetch "/proc/meminfo" in
  Ok {["os" := VMap {["release" := text_map (convertBytesToMap osRelease "="%char); "kernel_version" := kernel;
                      "hostname" := hn; "architecture" := arch]};
       "process" := VMap {["cpuInfo" := VList (map text_map (convertBytesToSlice cpu ":"%char));
                           "memInfo" := text_map (convertBytesToMap mem ":"%char)]}]}.

(** [localConnector.getHostInfo], by the platform. *)
Definition local_getHostInfo `{Remote} (GOOS : string) : result Facts :=
  if bool_decide (GOOS = "linux") then getHostInfo else Ok ∅.

(** ** What the parameters are *)

Section Spec.
Context {LB : Libraries} {ML : ModuleLibraries} `{Machine}.

Lemma or_default_ok {A} (dflt : A) r a : or_default dflt r = Ok a → r = Ok a ∨ (∃ e, r = Err e) ∧ a = dflt.
Proof. destruct r; simpl; naive_solver. Qed.

(** A connector over SSH uses the file of the private key that its host is
    configured with only when the content of a key is configured as well; with
    the file alone it uses the default key of the user. *)
Theorem private_key_needs_content workdir host hostVars c :
  newSSHConnector workdir host hostVars = Ok c →
  let configured := connector_var hostVars VariableConnectorPrivateKey in
  let content := connector_var hostVars VariableConnectorPrivateKeyContent in
  (∀ text, content = Ok text →
     PrivateKeyContent c = text ∧ or_default defaultSSHPrivateKey configured = Ok (PrivateKey c)) ∧
  ((∃ e, content = Err e) → PrivateKeyContent c = "" ∧ PrivateKey c = defaultSSHPrivateKey).
Proof.
  intros Hc configured content. unfold newSSHConnector in Hc.
  apply rbind_ok in Hc as (hostParam & _ & Hc). apply rbind_ok in Hc as (portParam & _ & Hc).
  apply rbind_ok in Hc as (userParam & _ & Hc). apply rbind_ok in Hc as (passwdParam & _ & Hc).
  apply rbind_ok in Hc as (keyParam & Hk & Hc). apply rbind_ok in Hc as ([text key] & Ht & Hc). cbv beta iota in Hc.
  apply rbind_ok in Hc as (cacheType & _ & Hc). simplify_eq/=. fold content in Ht. fold configured in Hk.
  split; [intros text' E|intros [e E]]; rewrite E in Ht; by simplify_eq.
Qed.

Definition ssh_or_local (c : Connector) : Prop := match c with CSSH _ | CLocal _ => True | _ => False end.

Lemma newSSHConnector_cache workdir host hostVars c :
  newSSHConnector workdir host hostVars = Ok c →
  ∃ t r, ssh_gatherFacts c = newCacheGatherFact VariableLocalHost t workdir r.
Proof.
  unfold newSSHConnector. intros Hc. repeat (apply rbind_ok in Hc as (? & _ & Hc)). go_cases. by eexists _, _.
Qed.

Lemma newLocalConnector_cache workdir hostVars c :
  newLocalConnector workdir hostVars = Ok c →
  ∃ t r, local_gatherFacts c = newCacheGatherFact VariableLocalHost t workdir r.
Proof.
  unfold newLocalConnector. intros Hc. repeat (apply rbind_ok in Hc as (? & _ & Hc)). go_cases. by eexists _, _.
Qed.

(** Every connector that gathers facts keeps them under the same name. *)
Lemma NewConnector_cache host all wd c g :
  NewConnector host all (inr (VStr wd)) = Ok c → gatherFacts c = Some g →
  ∃ t r, g = newCacheGatherFact VariableLocalHost t wd r.
Proof.
  unfold NewConnector. destruct all as [|[| | | | | | |vd]]; try done. intros Hc Hg.
  assert (rmap CSSH (newSSHConnector wd host vd) = Ok c ∨ rmap CLocal (newLocalConnector wd vd) = Ok c →
    ∃ t r, g = newCacheGatherFact VariableLocalHost t wd r) as Hmain.
  { intros [Hr|Hr]; apply rbind_ok in Hr as (c' & Hr & [= <-]); simpl in Hg; injection Hg as <-;
      [by eapply newSSHConnector_cache|by eapply newLocalConnector_cache]. }
  apply rbind_ok in Hc as (t & _ & Hc).
  do 4 (case_bool_decide; [first [apply Hmain; tauto | by apply rbind_ok in Hc as (? & _ & [= <-])]|]).
  apply rbind_ok in Hc as (hp & _ & Hc). destruct (_ || _) in Hc; apply Hmain; tauto.
Qed.


End Spec.

(** ** Two hosts *)

Section Two_hosts.

Definition lookup_path (m : gmap string value) (keys : list string) : error + option value :=
  match keys with
  | [k] => inr (m !! k)
  | [k; k'] => match m !! k with Some (VMap m') => inr (m' !! k') | Some _ => inl (Msg "not a map") | None => inr None end
  | _ => inr None
  end.

Definition path_text (m : gmap string value) (keys : list string) : error + option string :=
  match lookup_path m keys with
  | inr (Some (VStr s)) => inr (Some s)
  | inr None => inr None
  | _ => inl (Msg "not a string")
  end.

Definition two_libraries : ModuleLibraries := {|
  json_unmarshal := λ _, None;
  json_strings := λ _, None;
  yaml_node := λ _, inl (Msg "no yaml");
  yaml_value := λ _, inr VNil;
  decode_any := λ _, inr VNil;
  NestedFieldNoCopy := lookup_path;
  NestedString := path_text;
  json_marshal := λ _, inr "";
  json_indent := λ _, None;
|}.

Definition two_machine : Machine := {|
  float_int := λ _, 0%Z;
  os_Hostname := "control";
  InterfaceAddrs := inr [Some "127.0.0.1"];
  defaultSSHPrivateKey := "/root/.ssh/id_rsa";
  ParseDuration := λ _, None;
|}.

(** Every host answers with its address; nothing is written in JSON or YAML. *)
Definition two_facts : FactLib := {|
  json_Marshal := λ _, inl (Msg "no json");
  json_Unmarshal := λ _, inl (Msg "no json");
  yaml_Marshal := λ _, inl (Msg "no yaml");
  yaml_Unmarshal := λ _, inl (Msg "no yaml");
  stat_error := λ _, None;
  mkdir_error := λ _, None;
  write_file_error := λ _, None;
  read_file_error := λ _, None;
  remove_error := λ _, None;
  ask := λ h, inr {["hostname" := VStr h]};
  read_after_call := true;
|}.

#[local] Existing Instances TaskExec.no_templates two_libraries two_machine two_facts.

#[local] Instance two_facts_spec : FactLibSpec.
Proof. by split. Qed.

Definition host_vars (address : string) : gmap string value :=
  {["connector" := VMap {["host" := VStr address; "private_key" := VStr "/keys/id"]}; "fact_caching" := VStr "memory"]}.

Definition facts_cache_of (address : string) : cacheGatherFact := newCacheGatherFact "localhost" "memory" "/kk" address.

Definition no_facts : FactState := {| fs_cache := ∅; fs_dirs := ∅; fs_files := ∅; fs_asked := [] |}.

(** The key of [host_vars] is not used. *)
Lemma private_key_needs_content_witness :
  ∃ c, newSSHConnector "/kk" "node1" (host_vars "10.0.0.1") = Ok c ∧ PrivateKey c = "/root/.ssh/id_rsa".
Proof.
  eexists. split; [vm_compute; reflexivity|].
  refine (proj2 (proj2 (private_key_needs_content "/kk" "node1" (host_vars "10.0.0.1") _ _) _)); [vm_compute; reflexivity|].
  eexists. vm_compute. reflexivity.
Defined.


End Two_hosts.
