(* ===== verification/PathExpr.v ===== *)
(** * Path expressions of the API proxy:
      [src/feature/pkg/proxy/path_expression.go]

    A route is a template such as [/apis/g/v/namespaces/{namespace}/tasks];
    it becomes a regular expression that is matched against the path of a
    request.  The part of Go's [regexp] that the templates use is modelled
    from the text of the expression: [Compile] reads it, [find] runs the
    leftmost-first search with its backtracking. *)

From Stdlib Require Import Ascii String.
From S2P Require Import Prelude GoStrings Paths.
From stdpp Require Import strings list.

#[local] Arguments String.append !_ _ /.

(** ** [regexp] *)

(** The characters [regexp.QuoteMeta] escapes. *)
Definition special (a : ascii) : bool := contains (map (λ b, String b "") (list_ascii_of_string "\.+*?()|[]{}^$")) (String a "").

Fixpoint QuoteMeta (s : string) : string :=
  match s with
  | EmptyString => EmptyString
  | String a s' => if special a then String "\" (String a (QuoteMeta s')) else String a (QuoteMeta s')
  end.

(** What may follow a slash in the expression of a template. *)
Inductive atom :=
| Lit (s : string)    (* quoted text *)
| Var                 (* a shortest non-empty text without slash *)
| Rest.               (* a longest text *)

#[export] Instance atom_eq_dec : EqDecision atom.
Proof. solve_decision. Defined.

Definition var_expr : string := "([^/]+?)".
Definition rest_expr : string := "(.*)".
Definition tail_expr : string := "(/.*)?$".

Definition atom_expr (a : atom) : string :=
  match a with Lit s => QuoteMeta s | Var => var_expr | Rest => rest_expr end.

Fixpoint atoms_expr (r : list atom) : string :=
  match r with [] => EmptyString | a :: r' => "/" +:+ atom_expr a +:+ atoms_expr r' end.

(** [scan_literal] reads quoted text up to the next slash or operator. *)
Fixpoint scan_literal (s : string) : string * string :=
  match s with
  | EmptyString => (EmptyString, s)
  | String a s' =>
      if bool_decide (a = "\"%char) then
        match s' with
        | String b s'' => if special b then let '(l, rest) := scan_literal s'' in (String b l, rest) else (EmptyString, s)
        | EmptyString => (EmptyString, s)
        end
      else if special a || bool_decide (a = slash) then (EmptyString, s)
      else let '(l, rest) := scan_literal s' in (String a l, rest)
  end.

Definition scan_atom (s : string) : option (atom * string) :=
  if HasPrefix s var_expr then Some (Var, TrimPrefix s var_expr)
  else if HasPrefix s rest_expr then Some (Rest, TrimPrefix s rest_expr)
  else match scan_literal s with (EmptyString, _) => None | (l, rest) => Some (Lit l, rest) end.

Fixpoint scan_atoms (fuel : nat) (s : string) : option (list atom) :=
  if bool_decide (s = tail_expr) then Some []
  else match fuel, s with
       | S fuel', String "/" s' =>
           '(a, rest) ← scan_atom s'; r ← scan_atoms fuel' rest; Some (a :: r)
       | _, _ => None
       end.

Definition scan_expr (e : string) : option (list atom) :=
  match e with String "^" e' => scan_atoms (String.length e') e' | _ => None end.

(** The search.  [lazy_run] is a lazy repetition, [greedy_run] a greedy one;
    [k] matches what follows, [acc] is what the group has taken. *)
Definition Captures := option (list string).

Definition not_slash (a : ascii) : bool := negb (bool_decide (a = slash)).
Definition newline : ascii := "010"%char.
Definition not_newline (a : ascii) : bool := negb (bool_decide (a = newline)).

Definition snoc (s : string) (a : ascii) : string := s +:+ String a EmptyString.

Fixpoint lazy_run (k : string → Captures) (acc s : string) : Captures :=
  match k s with
  | Some caps => Some (acc :: caps)
  | None => match s with
            | String a s' => if not_slash a then lazy_run k (snoc acc a) s' else None
            | EmptyString => None
            end
  end.

Fixpoint greedy_run (k : string → Captures) (acc s : string) : Captures :=
  match s with
  | String a s' =>
      if not_newline a then
        match greedy_run k (snoc acc a) s' with Some caps => Some caps | None => cons acc <$> k s end
      else cons acc <$> k s
  | EmptyString => cons acc <$> k s
  end.

Fixpoint one_line (s : string) : bool :=
  match s with EmptyString => true | String a s' => not_newline a && one_line s' end.

(** The optional rest of the path up to its end; a group that takes no part in
    the match is the empty string. *)
Definition find_tail (s : string) : Captures :=
  match s with
  | EmptyString => Some [EmptyString]
  | String a s' => if bool_decide (a = slash) && one_line s' then Some [s] else None
  end.

Definition find_atom (a : atom) (k : string → Captures) (s : string) : Captures :=
  match a with
  | Lit l => if HasPrefix s l then k (TrimPrefix s l) else None
  | Var => match s with
           | String b s' => if not_slash b then lazy_run k (String b EmptyString) s' else None
           | EmptyString => None
           end
  | Rest => greedy_run k EmptyString s
  end.

Fixpoint find (r : list atom) (s : string) : Captures :=
  match r with
  | [] => find_tail s
  | a :: r' => match s with
               | String b s' => if bool_decide (b = slash) then find_atom a (find r') s' else None
               | EmptyString => None
               end
  end.

(** [FindStringSubmatch]: the match, which is the whole text as the
    expression is anchored, and the groups. *)
Definition FindStringSubmatch (r : list atom) (s : string) : Captures := cons s <$> find r s.

(** The expressions of other forms, which a template has when it gives its own
    expression for a variable. *)
Class RegexpLib := { Compile_other : string → error + (string → Captures) }.

Definition Compile `{RegexpLib} (e : string) : error + (string → Captures) :=
  match scan_expr e with Some r => inr (FindStringSubmatch r) | None => Compile_other e end.

(** ** Templates *)

(** [s[i:j]] *)
Definition cut (s : string) (i j : nat) : result string :=
  if bool_decide (i ≤ j ∧ j ≤ String.length s) then Ok (substring i (j - i) s)
  else Panic "slice bounds out of range".

Record pathExpression := {
  LiteralCount : nat;
  VarNames : list string;
  VarCount : nat;
  Matcher : string → Captures;
  Source : string;
  tokens : list string;
}.

Definition tokenizePath (path : string) : list string :=
  if bool_decide (path = "/") then [] else Split (TrimRight (TrimLeft path slash) slash) slash.

(** The loop's variables: the buffer, the literal count, the names and their
    number. *)
Record Template := { t_buffer : string; t_literals : nat; t_names : list string; t_count : nat }.

Definition template_step (t : Template) (each : string) : result Template :=
  if bool_decide (each = "") then Ok t
  else
    let buffer := t_buffer t +:+ "/" in
    let variable name text :=
      {| t_buffer := buffer +:+ text; t_literals := t_literals t;
         t_names := t_names t ++ [TrimSpace name]; t_count := S (t_count t) |} in
    if HasPrefix each "{" then
      match String.index 0 ":" each with
      | Some colon =>
          let! varName := cut each 1 colon in
          let! text := cut each (colon + 1) (String.length each - 1) in
          let paramExpr := TrimSpace text in
          Ok (variable varName (if bool_decide (paramExpr = "*") then rest_expr else "(" +:+ paramExpr +:+ ")"))
      | None => let! varName := cut each 1 (String.length each - 1) in Ok (variable varName var_expr)
      end
    else
      Ok {| t_buffer := buffer +:+ QuoteMeta each; t_literals := t_literals t + String.length each;
            t_names := t_names t; t_count := t_count t |}.

Fixpoint template_loop (t : Template) (l : list string) : result Template :=
  match l with [] => Ok t | each :: l' => let! t' := template_step t each in template_loop t' l' end.

Definition empty_template : Template := {| t_buffer := "^"; t_literals := 0; t_names := []; t_count := 0 |}.

Definition templateToRegularExpression (template : string) : result (string * nat * list string * nat * list string) :=
  let tokens := tokenizePath template in
  let! t := template_loop empty_template tokens in
  Ok (TrimRight (t_buffer t) slash +:+ tail_expr, t_literals t, t_names t, t_count t, tokens).

Definition newPathExpression `{RegexpLib} (path : string) : result pathExpression :=
  let! (expression, literalCount, varNames, varCount, tokens) := templateToRegularExpression path in
  match Compile expression with
  | inl err => Err (Wrap "failed to compile regexp" err)
  | inr compiled =>
      Ok {| LiteralCount := literalCount; VarNames := varNames; VarCount := varCount;
            Matcher := compiled; Source := expression; tokens := tokens |}
  end.

(** ** The text of an expression and its atoms *)

Definition wf_atom (a : atom) : Prop :=
  match a with Lit s => s ≠ "" ∧ no_slash s = true | _ => True end.

Lemma no_slash_cons a s : no_slash (String a s) = true → a ≠ slash ∧ no_slash s = true.
Proof. simpl. intros H. by bools. Qed.

(** A text at which a literal ends. *)
Definition stops (s : string) : bool :=
  match s with
  | EmptyString => true
  | String a _ => bool_decide (a ≠ "\"%char) && (special a || bool_decide (a = slash))
  end.

Lemma scan_literal_stops s : stops s = true → scan_literal s = (EmptyString, s).
Proof.
  destruct s as [|a s]; simpl; [done|]. intros H. apply andb_true_iff in H as [Ha H].
  apply bool_decide_eq_true in Ha. rewrite bool_decide_false by done. by rewrite H.
Qed.

Lemma scan_QuoteMeta l s :
  no_slash l = true → stops s = true → scan_literal (QuoteMeta l +:+ s) = (l, s).
Proof.
  intros Hl Hs. induction l as [|a l IH]; [by apply scan_literal_stops|].
  apply no_slash_cons in Hl as [Ha Hl]. specialize (IH Hl). simpl. destruct (special a) eqn:E; simpl.
  - rewrite E. by rewrite IH.
  - destruct (decide (a = "\"%char)) as [->|Hne]; [done|].
    rewrite bool_decide_false by done. rewrite E. simpl. rewrite bool_decide_false by done.
    by rewrite IH.
Qed.

Lemma atoms_expr_stops r s : stops s = true → stops (atoms_expr r +:+ s) = true.
Proof. by destruct r. Qed.

Lemma scan_lit l s :
  wf_atom (Lit l) → stops s = true → scan_atom (QuoteMeta l +:+ s) = Some (Lit l, s).
Proof.
  intros [Hne Hl] Hs. unfold scan_atom.
  assert (∀ p, HasPrefix (QuoteMeta l +:+ s) (String "(" p) = false) as Hp.
  { intros p. destruct l as [|a l]; [done|]. simpl. destruct (special a) eqn:E; [done|]. simpl.
    rewrite bool_decide_false; [done|]. intros <-. vm_compute in E. done. }
  unfold var_expr, rest_expr. rewrite !Hp, scan_QuoteMeta by done. by destruct l.
Qed.

Lemma scan_atom_expr a s :
  wf_atom a → stops s = true → scan_atom (atom_expr a +:+ s) = Some (a, s).
Proof.
  destruct a as [l| |]; intros Ha Hs; [by apply scan_lit| |]; unfold scan_atom, atom_expr.
  - by rewrite HasPrefix_app, TrimPrefix_app.
  - change (HasPrefix (rest_expr +:+ s) var_expr) with false. cbv iota.
    by rewrite HasPrefix_app, TrimPrefix_app.
Qed.

Lemma scan_atoms_expr r n :
  Forall wf_atom r → length r ≤ n → scan_atoms n (atoms_expr r +:+ tail_expr) = Some r.
Proof.
  intros Hr. revert n. induction Hr as [|a r Ha Hr IH]; intros n Hn; [by destruct n|].
  destruct n as [|n]; simpl in Hn; [lia|]. simpl. rewrite str_app_assoc.
  rewrite scan_atom_expr; [|done|by apply atoms_expr_stops]. simpl. rewrite IH by lia. done.
Qed.

Lemma atoms_expr_length r s : length r ≤ String.length (atoms_expr r +:+ s).
Proof.
  induction r as [|a r IH]; simpl; [lia|]. rewrite str_app_assoc.
  induction (atom_expr a) as [|b t IHt]; simpl in *; lia.
Qed.

Lemma Compile_atoms `{RegexpLib} r :
  Forall wf_atom r → Compile (String "^" (atoms_expr r +:+ tail_expr)) = inr (FindStringSubmatch r).
Proof.
  intros Hr. unfold Compile, scan_expr. rewrite scan_atoms_expr; [done|done|apply atoms_expr_length].
Qed.

(** ** Matching by segments

    [capture] compares the segments of a path with the atoms one by one; it is
    the reference for the backtracking search. *)

Fixpoint slashed (segs : list string) : string :=
  match segs with [] => EmptyString | seg :: segs' => "/" +:+ seg +:+ slashed segs' end.

Fixpoint capture (r : list atom) (segs : list string) : Captures :=
  match r, segs with
  | [], [] => Some [EmptyString]
  | [], seg :: segs' => if one_line (seg +:+ slashed segs') then Some [slashed segs] else None
  | Lit l :: r', seg :: segs' => if bool_decide (seg = l) then capture r' segs' else None
  | Var :: r', seg :: segs' => if bool_decide (seg = "") then None else cons seg <$> capture r' segs'
  | Rest :: _, seg :: segs' =>
      let text := seg +:+ slashed segs' in if one_line text then Some [text; EmptyString] else None
  | _ :: _, [] => None
  end.

(** The longest text comes last, as the templates of the program have it. *)
Fixpoint rest_last (r : list atom) : Prop :=
  match r with [] => True | Rest :: r' => r' = [] | _ :: r' => rest_last r' end.

Lemma slashed_Split s : slashed (Split s slash) = "/" +:+ s.
Proof.
  induction s as [|a s IH]; [done|]. simpl in *. pose proof (Split_nonempty s slash) as Hne.
  case_bool_decide as E; subst; simpl; [by rewrite IH|].
  destruct (Split s slash) as [|p l]; [done|]. simpl in *. by injection IH as ->.
Qed.

Lemma Split_segments s : Forall (λ c, no_slash c = true) (Split s slash).
Proof.
  induction s as [|a s IH]; simpl; [by constructor|]. case_bool_decide as E; [by constructor|].
  pose proof (Split_nonempty s slash) as Hne. destruct (Split s slash) as [|p l]; [done|].
  inversion IH; subst. constructor; [|done]. simpl. by rewrite bool_decide_false.
Qed.

(** What follows a variable begins at a slash or at the end. *)
Lemma find_off_slash r a s : a ≠ slash → find r (String a s) = None.
Proof. intros Ha. destruct r; simpl; by rewrite (bool_decide_false (a = slash)). Qed.

Lemma not_slash_true a : a ≠ slash → not_slash a = true.
Proof. intros H. unfold not_slash. by rewrite bool_decide_false. Qed.

Lemma lazy_run_segment r acc seg segs :
  no_slash seg = true → lazy_run (find r) acc (seg +:+ slashed segs) = cons (acc +:+ seg) <$> find r (slashed segs).
Proof.
  revert acc. induction seg as [|a seg IH]; intros acc Hs; simpl.
  - rewrite str_app_nil_r. destruct segs as [|s segs]; simpl; [by destruct (find r "")|].
    by destruct (find r _).
  - apply no_slash_cons in Hs as [Ha Hs]. rewrite find_off_slash, not_slash_true by done.
    rewrite IH by done. unfold snoc. by rewrite str_app_assoc.
Qed.

Lemma find_Var r seg segs :
  no_slash seg = true →
  find_atom Var (find r) (seg +:+ slashed segs) = if bool_decide (seg = "") then None else cons seg <$> find r (slashed segs).
Proof.
  destruct seg as [|a seg]; intros Hs; [by destruct segs|].
  apply no_slash_cons in Hs as [Ha Hs]. simpl find_atom. rewrite not_slash_true by done.
  by rewrite lazy_run_segment.
Qed.

Lemma literal_prefix l seg segs :
  no_slash l = true → no_slash seg = true → HasPrefix (seg +:+ slashed segs) l = true →
  ∃ t, seg = l +:+ t.
Proof.
  revert seg. induction l as [|a l IH]; intros seg Hl Hs H; [by exists seg|].
  apply no_slash_cons in Hl as [Ha Hl]. destruct seg as [|b seg].
  - destruct segs as [|s segs]; [done|]. simpl in H. bools. by subst.
  - apply no_slash_cons in Hs as [_ Hs]. simpl in H. bools. subst.
    destruct (IH seg) as [t ->]; [done..|]. by exists t.
Qed.

Lemma find_Lit r l seg segs :
  wf_atom (Lit l) → no_slash seg = true →
  find_atom (Lit l) (find r) (seg +:+ slashed segs) = if bool_decide (seg = l) then find r (slashed segs) else None.
Proof.
  intros [_ Hl] Hs. simpl. destruct (HasPrefix _ l) eqn:E.
  - destruct (literal_prefix l seg segs) as [t ->]; [done..|].
    rewrite str_app_assoc, TrimPrefix_app. destruct t as [|a t]; simpl.
    + rewrite str_app_nil_r. by rewrite bool_decide_true.
    + rewrite bool_decide_false by (intros H%(f_equal String.length); revert H; clear;
        induction l; simpl; lia).
      apply find_off_slash. rewrite no_slash_app in Hs. by apply andb_true_iff in Hs as [_ [? _]%no_slash_cons].
  - rewrite bool_decide_false; [done|]. intros ->. by rewrite HasPrefix_app in E.
Qed.

Lemma find_Rest acc s :
  greedy_run find_tail acc s = if one_line s then Some [acc +:+ s; EmptyString] else None.
Proof.
  revert acc. induction s as [|a s IH]; intros acc; simpl; [by rewrite str_app_nil_r|].
  destruct (not_newline a) eqn:E; simpl.
  - rewrite IH. unfold snoc. rewrite str_app_assoc. simpl. destruct (one_line s) eqn:El; [done|].
    by rewrite andb_false_r.
  - rewrite bool_decide_false; [done|]. intros ->. done.
Qed.

Lemma find_capture r segs :
  Forall wf_atom r → rest_last r → Forall (λ c, no_slash c = true) segs →
  find r (slashed segs) = capture r segs.
Proof.
  intros Hr. revert segs. induction Hr as [|a r Ha Hr IH]; intros segs Hl Hs.
  - destruct segs as [|seg segs]; [done|]. simpl. by destruct (one_line _).
  - destruct segs as [|seg segs]; [by destruct a|]. inversion Hs; subst.
    change (find (a :: r) (slashed (seg :: segs))) with (find_atom a (find r) (seg +:+ slashed segs)).
    destruct a as [l| |]; simpl in Hl.
    + rewrite find_Lit by done. simpl. by rewrite IH.
    + rewrite find_Var by done. simpl. by rewrite IH.
    + subst r. simpl. by rewrite find_Rest.
Qed.

(** ** The expression of a template *)

(** A token that is text, a variable, or a variable for the rest of the path. *)
Definition simple_token (each : string) : Prop :=
  HasPrefix each "{" = true → 2 ≤ String.length each ∧
  match String.index 0 ":" each with
  | Some colon => colon + 2 ≤ String.length each ∧
      TrimSpace (substring (colon + 1) (String.length each - 1 - (colon + 1)) each) = "*"
  | None => True
  end.

#[export] Instance simple_token_dec each : Decision (simple_token each).
Proof. unfold simple_token. destruct (String.index 0 ":" each); apply _. Defined.

Definition token_atom (each : string) : atom :=
  if HasPrefix each "{" then match String.index 0 ":" each with Some _ => Rest | None => Var end else Lit each.

(** The segments of a template, the empty ones left out. *)
Definition segments (template : string) : list string := filter (λ t, t ≠ "") (tokenizePath template).

Definition template_atoms (template : string) : list atom := map token_atom (segments template).

Definition is_lit (a : atom) : bool := match a with Lit _ => true | _ => false end.

Definition lit_length (r : list atom) : nat :=
  foldr (λ a n, match a with Lit s => String.length s | _ => 0 end + n) 0 r.
Definition var_count (r : list atom) : nat := foldr (λ a n, (if is_lit a then 0 else 1) + n) 0 r.

Lemma index_bound c s i : String.index 0 c s = Some i → c ≠ "" → i < String.length s.
Proof.
  intros H Hc. apply String.index_correct1 in H. destruct c as [|a c]; [done|].
  assert (∀ m, i + S m ≤ String.length s ∨ String.length s < i + S m) as Hd by lia.
  destruct (decide (i < String.length s)) as [?|Hge]; [done|]. exfalso.
  assert (substring i (String.length (String a c)) s = "") as E; [|by rewrite E in H].
  clear -Hge. simpl. revert i Hge. induction s as [|b s IH]; intros [|i] Hge; simpl in *; try done; try lia.
  apply IH. lia.
Qed.

Lemma template_step_atom t each :
  simple_token each → each ≠ "" →
  ∃ names, template_step t each =
    Ok {| t_buffer := t_buffer t +:+ "/" +:+ atom_expr (token_atom each);
          t_literals := t_literals t + lit_length [token_atom each];
          t_names := names; t_count := t_count t + var_count [token_atom each] |}.
Proof.
  intros Hs Hne. unfold template_step, token_atom. rewrite bool_decide_false by done.
  destruct (HasPrefix each "{") eqn:Hp.
  - destruct (Hs Hp) as [H2 Hc]. destruct (String.index 0 ":" each) as [colon|] eqn:Ei.
    + pose proof (index_bound _ _ _ Ei) as Hb.
      destruct Hc as [Hc Hstar]. unfold cut.
      assert (1 ≤ colon) as H1.
      { destruct colon; [|lia]. apply String.index_correct1 in Ei. destruct each as [|a e]; [done|].
        simpl in Hp. bools. subst. by destruct e. }
      rewrite !bool_decide_true by lia. simpl. rewrite Hstar. simpl.
      eexists. rewrite str_app_assoc, Nat.add_0_r, Nat.add_1_r. done.
    + unfold cut. rewrite bool_decide_true by lia. simpl.
      eexists. rewrite str_app_assoc, Nat.add_0_r, Nat.add_1_r. done.
  - eexists. simpl. rewrite str_app_assoc, !Nat.add_0_r. done.
Qed.

Lemma template_loop_atoms t l :
  Forall simple_token l →
  ∃ names, template_loop t l =
    let r := map token_atom (filter (λ s, s ≠ "") l) in
    Ok {| t_buffer := t_buffer t +:+ atoms_expr r; t_literals := t_literals t + lit_length r;
          t_names := names; t_count := t_count t + var_count r |}.
Proof.
  intros Hl. revert t. induction Hl as [|s l Hs Hl IH]; intros t.
  - exists (t_names t). simpl. rewrite str_app_nil_r, !Nat.add_0_r. by destruct t.
  - cbn [template_loop]. destruct (decide (s = "")) as [->|Hne].
    + rewrite filter_cons_False by naive_solver. cbn. apply IH.
    + rewrite filter_cons_True by done. destruct (template_step_atom t s) as [ns ->]; [done..|].
      cbn [rbind]. destruct (IH {| t_buffer := t_buffer t +:+ "/" +:+ atom_expr (token_atom s);
          t_literals := t_literals t + lit_length [token_atom s];
          t_names := ns; t_count := t_count t + var_count [token_atom s] |}) as [ns' ->].
      exists ns'. cbn [t_buffer t_literals t_count]. f_equal. f_equal.
      * simpl. by rewrite !str_app_assoc.
      * simpl. lia.
      * simpl. lia.
Qed.


(** The text that ends with something else than a slash loses nothing. *)
Definition keeps_end (s : string) : Prop := ∃ p a, a ≠ slash ∧ s = snoc p a.

Lemma TrimRight_keeps s : keeps_end s → TrimRight s slash = s.
Proof.
  intros (p & a & Ha & ->). unfold TrimRight, snoc. rewrite str_rev_app_distr. simpl.
  rewrite bool_decide_false by done. change (String a (str_rev p)) with (str_rev (String a "") +:+ str_rev p).
  by rewrite <- str_rev_app_distr, str_rev_involutive.
Qed.

Lemma keeps_end_app s t : keeps_end t → keeps_end (s +:+ t).
Proof. intros (p & a & Ha & ->). exists (s +:+ p), a. unfold snoc. by rewrite str_app_assoc. Qed.

Lemma QuoteMeta_keeps l : l ≠ "" → no_slash l = true → keeps_end (QuoteMeta l).
Proof.
  induction l as [|a l IH]; [done|]. intros _ [Ha Hl]%no_slash_cons. destruct (decide (l = "")) as [->|Hne].
  - simpl. destruct (special a); [by exists "\"%string, a|by exists ""%string, a].
  - simpl. destruct (special a).
    + apply (keeps_end_app (String "\" (String a EmptyString))), IH; done.
    + apply (keeps_end_app (String a "")), IH; done.
Qed.

Lemma atom_keeps a : wf_atom a → keeps_end (atom_expr a).
Proof.
  destruct a as [l| |]; simpl; [by intros []; apply QuoteMeta_keeps| |]; intros _.
  - by exists "([^/]+?"%string, ")"%char.
  - by exists "(.*"%string, ")"%char.
Qed.

Lemma atoms_keep r : Forall wf_atom r → TrimRight (String "^" (atoms_expr r)) slash = String "^" (atoms_expr r).
Proof.
  intros Hr. apply TrimRight_keeps. destruct (decide (r = [])) as [->|Hne]; [by exists ""%string, "^"%char|].
  apply (keeps_end_app "^"). induction Hr as [|a r Ha Hr IH]; [done|]. simpl.
  apply (keeps_end_app "/"). destruct r as [|b r]; [simpl; rewrite str_app_nil_r; by apply atom_keeps|].
  by apply keeps_end_app, IH.
Qed.

Lemma tokenizePath_segments s : Forall (λ c, no_slash c = true) (tokenizePath s).
Proof. unfold tokenizePath. case_bool_decide; [by constructor|apply Split_segments]. Qed.

Lemma template_atoms_wf s : Forall wf_atom (template_atoms s).
Proof.
  unfold template_atoms, segments. apply list.Forall_forall. intros a (t & -> & Ht)%list_elem_of_fmap.
  apply list_elem_of_filter in Ht as [Hne Ht].
  pose proof (tokenizePath_segments s) as Hs. rewrite list.Forall_forall in Hs. specialize (Hs _ Ht).
  unfold token_atom. destruct (HasPrefix t "{"); [by destruct (String.index _ _ _)|done].
Qed.

Lemma newPathExpression_ok `{RegexpLib} path :
  Forall simple_token (tokenizePath path) →
  ∃ e, newPathExpression path = Ok e ∧ Matcher e = FindStringSubmatch (template_atoms path) ∧
    LiteralCount e = lit_length (template_atoms path) ∧ VarCount e = var_count (template_atoms path).
Proof.
  intros Hs. unfold newPathExpression, templateToRegularExpression.
  destruct (template_loop_atoms empty_template _ Hs) as [names ->]. cbn [rbind].
  fold (segments path). fold (template_atoms path). cbn [t_buffer t_literals t_names t_count empty_template].
  change ("^" +:+ atoms_expr (template_atoms path)) with (String "^" (atoms_expr (template_atoms path))).
  rewrite atoms_keep by apply template_atoms_wf.
  change (String "^" ?s +:+ tail_expr) with (String "^" (s +:+ tail_expr)).
  rewrite Compile_atoms by apply template_atoms_wf. by eexists.
Qed.

(** C30: The expression that the proxy builds from a template compiles, and
    matching it, with its lazy and greedy groups and their backtracking,
    is comparing the segments of the path with those of the template: text is
    equal, a variable takes a whole non-empty segment, and what is left over
    is a group of its own that has no line break. *)
Theorem template_matches_segments `{RegexpLib} template path :
  Forall simple_token (tokenizePath template) → rest_last (template_atoms template) →
  ∃ e, newPathExpression template = Ok e ∧
    Matcher e ("/" +:+ path) = cons ("/" +:+ path) <$> capture (template_atoms template) (Split path slash).
Proof.
  intros Ht Hl. destruct (newPathExpression_ok template Ht) as (e & -> & Hm & _). exists e. split; [done|].
  rewrite Hm. unfold FindStringSubmatch. rewrite <- slashed_Split.
  rewrite find_capture; [done|apply template_atoms_wf|done|apply Split_segments].
Qed.

(** A library that compiles no other expressions. *)
#[local] Instance no_other : RegexpLib := { Compile_other _ := inl (Msg "error parsing regexp") }.

Lemma template_matches_segments_witness :
  ∃ e, newPathExpression "/namespaces/{namespace}/tasks/{path:*}" = Ok e ∧
    Matcher e ("/" +:+ "namespaces/a/tasks/b/c") = Some ["/namespaces/a/tasks/b/c"; "a"; "b/c"; ""].
Proof.
  apply (template_matches_segments "/namespaces/{namespace}/tasks/{path:*}" "namespaces/a/tasks/b/c");
    [by_decision|reflexivity].
Defined.
