(* ===== verification/Proxy.v ===== *)
(** * The API proxy: [src/feature/pkg/proxy/router.go], [transport.go],
      [api_resources.go] and [admit.go]

    The client of the engine talks to a [transport]: a request for a resource
    that is kept locally goes to the handler its path and method name, any
    other one to the cluster.  The handlers, the stores they work on and the
    sort of Go's library are parameters. *)

From stdpp Require Import gmap strings list sorting.
From S2P Require Import Prelude GoStrings Paths PathExpr.

(** ** [sort.Sort] *)

(** It permutes its input and sorts it; it need not be stable. *)
Class GoSort := {
  Sort : ∀ {A : Type}, (A → A → bool) → list A → list A;
  Sort_permutation : ∀ A (less : A → A → bool) l, Sort less l ≡ₚ l;
  Sort_sorted : ∀ A (less : A → A → bool) l,
    (∀ a b, less a b = true → less b a = false) →
    (∀ a b c, less b a = false → less c b = false → less c a = false) →
    StronglySorted (λ a b, less b a = false) (Sort less l);
}.

(** [sort.Reverse] *)
Definition Reverse {A : Type} (less : A → A → bool) : A → A → bool := λ a b, less b a.

(** ** Admission: [admit.go] *)

(** The only implementation of the interface. *)
Inductive admission := admit_all.
Definition newAlwaysAdmit : admission := admit_all.
Definition Validate (a : admission) : option error := None.
Definition Admit (a : admission) : option error := None.
Definition Handles (a : admission) : bool := true.

(** ** Resources: [api_resources.go] *)

Record GroupVersion := { gv_Group : string; gv_Version : string }.
#[export] Instance GroupVersion_eq_dec : EqDecision GroupVersion.
Proof. solve_decision. Defined.

Definition gv_String (gv : GroupVersion) : string := gv_Group gv +:+ "/" +:+ gv_Version gv.

Record GroupVersionKind := { k_Group : string; k_Version : string; k_Kind : string }.

(** What a storage is: which interfaces it implements, and what their methods
    answer.  [st_kinds] is the scheme's answer for its object,
    [st_versioner] its storage version unless there is none, [st_kindError]
    and [st_managerError] the errors of the library's [GetResourceKind] and
    [NewDefaultFieldManager] for it. *)
Record Storage := {
  st_scoper : option bool;                (* NamespaceScoped *)
  st_lister : bool;
  st_tableConvertor : bool;
  st_creater : bool;
  st_namedCreater : bool;
  st_updater : bool;
  st_patcher : bool;
  st_getter : bool;
  st_getterWithOptions : option bool;     (* NewGetOptions: a subpath *)
  st_gracefulDeleter : bool;
  st_collectionDeleter : bool;
  st_watcher : bool;
  st_connecter : option bool;             (* NewConnectOptions: a subpath *)
  st_singular : option string;
  st_shortNames : option (list string);
  st_categories : option (list string);
  st_kinds : error + list GroupVersionKind;
  st_versioner : option (list GroupVersionKind → option GroupVersionKind);
  st_kindError : option error;
  st_managerError : option error;
}.

Record resourceOptions := {
  ro_path : string;
  ro_resource : string;
  ro_subresource : string;
  ro_resourcePath : string;
  ro_itemPath : string;
  ro_storage : Storage;
  ro_admit : option admission;
}.

Definition newResourceOptions (path : string) (storage : Storage) : resourceOptions :=
  {| ro_path := path; ro_resource := ""; ro_subresource := ""; ro_resourcePath := ""; ro_itemPath := "";
     ro_storage := storage; ro_admit := None |}.

Definition ro_init (o : resourceOptions) : result resourceOptions :=
  match st_scoper (ro_storage o) with
  | None => Err (Msg (ro_path o +:+ " must implement scoper"))
  | Some namespaced =>
      let prefix := if namespaced then "/namespaces/{namespace}/" else "/" in
      let set resource subresource resourcePath itemPath :=
        Ok {| ro_path := ro_path o; ro_resource := resource; ro_subresource := subresource;
              ro_resourcePath := resourcePath; ro_itemPath := itemPath; ro_storage := ro_storage o;
              ro_admit := match ro_admit o with None => Some newAlwaysAdmit | a => a end |} in
      match Split (ro_path o) slash with
      | [resource; subresource] =>
          let p := prefix +:+ resource +:+ "/{name}/" +:+ subresource in set resource subresource p p
      | [resource] =>
          set resource (ro_subresource o) (prefix +:+ resource) (prefix +:+ resource +:+ "/{name}")
      | _ => Err (Msg "api_installer allows only one or two segment paths (resource or resource/subresource)")
      end
  end.

Record APIResource := {
  ar_Name : string;
  ar_SingularName : string;
  ar_Namespaced : bool;
  ar_Group : string;
  ar_Version : string;
  ar_Kind : string;
  ar_Verbs : list string;
  ar_ShortNames : list string;
  ar_Categories : list string;
  ar_StorageVersionHash : string;
}.

Record apiResources := {
  as_gv : GroupVersion;
  as_prefix : string;
  as_options : list resourceOptions;
  as_list : list APIResource;
}.

Definition newAPIIResources (gv : GroupVersion) : apiResources :=
  {| as_gv := gv; as_prefix := "/apis/" +:+ gv_String gv; as_options := []; as_list := [] |}.

Definition getStorageVersionKind (versioner : list GroupVersionKind → option GroupVersionKind) (storage : Storage) :
    result GroupVersionKind :=
  match st_kinds storage with
  | inl e => Err (Wrap "failed to get object kind" e)
  | inr fqKinds => match versioner fqKinds with
                   | Some gvk => Ok gvk
                   | None => Err (Msg "failed to find the storage version kind")
                   end
  end.

(** ** Requests, responses and handlers *)

Record Request := { rq_Method : string; rq_Path : string }.

Notation Header := (gmap string (list string)).

Record Response := { rs_Proto : string; rs_Header : Header; rs_StatusCode : Z; rs_Body : option string }.

(** What a handler does with its writer. *)
Inductive WriterCall :=
| SetHeader (key : string) (values : list string)
| WriteHeader (statusCode : Z)
| Write (bs : string).

(** The scope of a request: what its handler works on. *)
Record ReqScope := { sc_gv : GroupVersion; sc_resource : string; sc_subresource : string }.
#[export] Instance ReqScope_eq_dec : EqDecision ReqScope.
Proof. solve_decision. Defined.

(** The handlers: the constructors of the library's package [handlers] that
    the proxy calls, with the arguments that tell them apart. *)
Inductive Handler :=
| HandlerAPIResources (gv : GroupVersion) (list : list APIResource)
| ListResource (scope : ReqScope) (forceWatch : bool)
| CreateResource (scope : ReqScope) (a : option admission)
| CreateNamedResource (scope : ReqScope) (a : option admission)
| DeleteCollection (scope : ReqScope) (a : option admission)
| GetResource (scope : ReqScope)
| GetResourceWithOptions (scope : ReqScope) (isSubresource : bool)
| UpdateResource (scope : ReqScope) (a : option admission)
| PatchResource (scope : ReqScope) (a : option admission) (types : list string)
| DeleteResource (scope : ReqScope) (allowsOptions : bool) (a : option admission)
| ConnectResource (scope : ReqScope) (a : option admission) (restPath : string) (isSubresource : bool).

(** The API server's library: its feature gate for the hash of a storage
    version, the hash, and what a handler behind [WithRequestInfo] does; the
    stores of the registry by resource, the error of completing one, and the
    errors of making the scope of a status storage. *)
Class ProxyLib := {
  StorageVersionHash_enabled : bool;
  StorageVersionHash : string → string → string → string;
  ServeHTTP : Handler → Request → list WriterCall;
  registry_Store : string → Storage;
  CompleteWithOptions : string → option error;
  status_kindError : string → option error;
  status_managerError : string → option error;
}.

(** [apiResources.AddResource] *)
Definition AddResource `{ProxyLib} (r : apiResources) (o : resourceOptions) : result apiResources :=
  let! o := ro_init o in
  let storage := ro_storage o in
  let! (group, version, kind, hash) :=
    match st_versioner storage with
    | Some versioner =>
        if StorageVersionHash_enabled then
          let! gvk := getStorageVersionKind versioner storage in
          Ok (k_Group gvk, k_Version gvk, k_Kind gvk, StorageVersionHash (k_Group gvk) (k_Version gvk) (k_Kind gvk))
        else Ok ("", "", "", "")
    | None => Ok ("", "", "", "")
    end in
  let! singular :=
    if bool_decide (ro_subresource o = "") then
      match st_singular storage with
      | Some s => Ok s
      | None => Err (Msg ("resource " +:+ ro_path o +:+ " must implement SingularNameProvider"))
      end
    else Ok "" in
  let apiResource :=
    {| ar_Name := ro_path o; ar_SingularName := singular; ar_Namespaced := true;
       ar_Group := group; ar_Version := version; ar_Kind := kind; ar_Verbs := ["*"];
       ar_ShortNames := default [] (st_shortNames storage); ar_Categories := default [] (st_categories storage);
       ar_StorageVersionHash := hash |} in
  Ok {| as_gv := as_gv r; as_prefix := as_prefix r; as_options := as_options r ++ [o];
        as_list := as_list r ++ [apiResource] |}.

(** ** Routers: [router.go] *)

Record router := { rt_path : string; rt_pathExpr : pathExpression; rt_handlers : gmap string Handler }.

Record dispatcherCandidate := {
  dc_router : router;
  dc_finalMatch : string;
  dc_matchesCount : nat;
  dc_literalCount : nat;
  dc_nonDefaultCount : nat;
}.

Definition Less (ci cj : dispatcherCandidate) : bool :=
  if bool_decide (dc_matchesCount ci < dc_matchesCount cj) then true
  else if bool_decide (dc_matchesCount cj < dc_matchesCount ci) then false
  else if bool_decide (dc_literalCount ci < dc_literalCount cj) then true
  else if bool_decide (dc_literalCount cj < dc_literalCount ci) then false
  else bool_decide (dc_nonDefaultCount ci < dc_nonDefaultCount cj).

(** ** The transport: [transport.go] *)

Record transport := {
  restClient : option (Request → Response * option error);
  routers : list router;
}.

Definition candidate (path : string) (each : router) : option dispatcherCandidate :=
  matches ← Matcher (rt_pathExpr each) path;
  Some {| dc_router := each; dc_finalMatch := default "" (last matches);
          dc_matchesCount := length matches; dc_literalCount := LiteralCount (rt_pathExpr each);
          dc_nonDefaultCount := VarCount (rt_pathExpr each) |}.

Definition detectDispatcher `{GoSort} (l : transport) (request : Request) : result Handler :=
  let filtered := omap (candidate (rq_Path request)) (routers l) in
  match Sort (Reverse Less) filtered with
  | [] => Err (Msg "not found")
  | first :: _ => match rt_handlers (dc_router first) !! rq_Method request with
                  | Some handler => Ok handler
                  | None => Err (Msg "not found")
                  end
  end.

(** [responseWriter]: the body is what was written last, and [Write] answers
    0. *)
Definition responseWriter_call (r : Response) (c : WriterCall) : Response :=
  match c with
  | SetHeader k v => {| rs_Proto := rs_Proto r; rs_Header := <[k := v]> (rs_Header r);
                        rs_StatusCode := rs_StatusCode r; rs_Body := rs_Body r |}
  | WriteHeader code => {| rs_Proto := rs_Proto r; rs_Header := rs_Header r;
                           rs_StatusCode := code; rs_Body := rs_Body r |}
  | Write bs => {| rs_Proto := rs_Proto r; rs_Header := rs_Header r;
                   rs_StatusCode := rs_StatusCode r; rs_Body := Some bs |}
  end.

Definition responseWriter_Write (r : Response) (bs : string) : Response * (Z * option error) :=
  (responseWriter_call r (Write bs), (0%Z, None)).

Definition kkcorev1 : GroupVersion := {| gv_Group := "kubekey.kubesphere.io"; gv_Version := "v1" |}.
Definition kkcorev1alpha1 : GroupVersion := {| gv_Group := "kubekey.kubesphere.io"; gv_Version := "v1alpha1" |}.

Definition local_response : Response :=
  {| rs_Proto := "local"; rs_Header := ∅; rs_StatusCode := 0; rs_Body := None |}.

Definition serve_locally `{GoSort, ProxyLib} (l : transport) (request : Request) : result (Response * option error) :=
  match detectDispatcher l request with
  | Ok handler => Ok (fold_left responseWriter_call (ServeHTTP handler request) local_response, None)
  | Err e => Ok (local_response, Some e)
  | Panic w => Panic w
  end.

Definition RoundTrip `{GoSort, ProxyLib} (l : transport) (request : Request) : result (Response * option error) :=
  match restClient l with
  | Some client =>
      if negb (HasPrefix (rq_Path request) ("/apis/" +:+ gv_String kkcorev1alpha1)) then Ok (client request)
      else serve_locally l request
  | None => serve_locally l request
  end.

(** *** Registration *)

(** The first router of the path gets the handler, unless it has one for the
    verb. *)
Fixpoint add_handler (l : list router) (verb path : string) (handler : Handler) : option (list router) :=
  match l with
  | [] => None
  | r :: l' =>
      if negb (bool_decide (rt_path r = path)) then cons r <$> add_handler l' verb path handler
      else match rt_handlers r !! verb with
           | Some _ => Some l
           | None => Some ({| rt_path := rt_path r; rt_pathExpr := rt_pathExpr r;
                              rt_handlers := <[verb := handler]> (rt_handlers r) |} :: l')
           end
  end.

Definition registerRouter `{RegexpLib} (l : list router) (verb path : string) (handler : Handler) (shouldAdd : bool) :
    result (list router) :=
  if negb shouldAdd then Ok l
  else match add_handler l verb path handler with
       | Some l' => Ok l'
       | None => match newPathExpression path with
                 | Ok expression =>
                     Ok (l ++ [{| rt_path := path; rt_pathExpr := expression; rt_handlers := {[verb := handler]} |}])
                 | Err _ => Ok l
                 | Panic w => Panic w
                 end
       end.

Section Register.
Context `{RegexpLib} (resources : apiResources) (reqScope : ReqScope) (o : resourceOptions).

Let prefix : string := as_prefix resources.
Let storage : Storage := ro_storage o.
Let isSub : bool := negb (bool_decide (ro_subresource o = "")).
Let is_some {A : Type} (x : option A) : bool := match x with Some _ => true | None => false end.

Definition registerList (l : list router) : result (list router) :=
  let! l := registerRouter l "GET" (prefix +:+ ro_resourcePath o) (ListResource reqScope false) (st_lister storage) in
  let! l := registerRouter l "GET" (prefix +:+ "/" +:+ ro_resource o) (ListResource reqScope false)
              (negb isSub && st_lister storage) in
  registerRouter l "GET" (prefix +:+ "/watch/" +:+ ro_resource o) (ListResource reqScope true)
    (negb isSub && st_watcher storage && st_lister storage).

Definition registerPost (l : list router) : result (list router) :=
  if st_namedCreater storage
  then registerRouter l "POST" (prefix +:+ ro_resourcePath o) (CreateNamedResource reqScope (ro_admit o)) (st_creater storage)
  else registerRouter l "POST" (prefix +:+ ro_resourcePath o) (CreateResource reqScope (ro_admit o)) (st_creater storage).

Definition registerDeleteCollection (l : list router) : result (list router) :=
  registerRouter l "DELETE" (prefix +:+ ro_resourcePath o) (DeleteCollection reqScope (ro_admit o)) (st_collectionDeleter storage).

Definition registerWatchList (l : list router) : result (list router) :=
  registerRouter l "GET" (prefix +:+ "/watch" +:+ ro_resourcePath o) (ListResource reqScope true)
    (st_watcher storage && st_lister storage).

Definition registerGet (l : list router) : result (list router) :=
  match st_getterWithOptions storage with
  | Some getSubpath =>
      let! l := registerRouter l "GET" (prefix +:+ ro_itemPath o) (GetResourceWithOptions reqScope isSub) (st_getter storage) in
      registerRouter l "GET" (prefix +:+ ro_itemPath o +:+ "/{path:*}") (GetResourceWithOptions reqScope isSub)
        (st_getter storage && getSubpath)
  | None =>
      let! l := registerRouter l "GET" (prefix +:+ ro_itemPath o) (GetResource reqScope) (st_getter storage) in
      registerRouter l "GET" (prefix +:+ ro_itemPath o +:+ "/{path:*}") (GetResource reqScope) false
  end.

Definition registerPut (l : list router) : result (list router) :=
  registerRouter l "PUT" (prefix +:+ ro_itemPath o) (UpdateResource reqScope (ro_admit o)) (st_updater storage).

Definition patch_types : list string :=
  ["application/json-patch+json"; "application/merge-patch+json";
   "application/strategic-merge-patch+json"; "application/apply-patch+yaml"].

Definition registerPatch (l : list router) : result (list router) :=
  registerRouter l "PATCH" (prefix +:+ ro_itemPath o) (PatchResource reqScope (ro_admit o) patch_types) (st_patcher storage).

Definition registerDelete (l : list router) : result (list router) :=
  registerRouter l "DELETE" (prefix +:+ ro_itemPath o)
    (DeleteResource reqScope (st_gracefulDeleter storage) (ro_admit o)) (st_gracefulDeleter storage).

Definition registerWatch (l : list router) : result (list router) :=
  registerRouter l "GET" (prefix +:+ "/watch" +:+ ro_itemPath o) (ListResource reqScope true) (st_watcher storage).

Definition registerConnect (l : list router) : result (list router) :=
  let connectSubpath := default false (st_connecter storage) in
  let handler := ConnectResource reqScope (ro_admit o) (ro_path o) isSub in
  let! l := registerRouter l "CONNECT" (prefix +:+ ro_itemPath o) handler (is_some (st_connecter storage)) in
  registerRouter l "CONNECT" (prefix +:+ ro_itemPath o +:+ "/{path:*}") handler
    (is_some (st_connecter storage) && connectSubpath).

Definition register_all (l : list router) : result (list router) :=
  let! l := registerList l in
  let! l := registerPost l in
  let! l := registerDeleteCollection l in
  let! l := registerWatchList l in
  let! l := registerGet l in
  let! l := registerPut l in
  let! l := registerPatch l in
  let! l := registerDelete l in
  let! l := registerWatch l in
  registerConnect l.

End Register.

(** The part of the scope that handlers are told apart by. *)
Definition newReqScope (resources : apiResources) (o : resourceOptions) : result ReqScope :=
  match st_kindError (ro_storage o), st_managerError (ro_storage o) with
  | Some err, _ => Err (Wrap "failed to get resourcekind" err)
  | None, Some err => Err (Wrap "failed to create default fieldManager" err)
  | None, None => Ok {| sc_gv := as_gv resources; sc_resource := ro_resource o; sc_subresource := ro_subresource o |}
  end.

Fixpoint register_options `{RegexpLib} (resources : apiResources) (l : list router) (os : list resourceOptions) :
    result (list router) :=
  match os with
  | [] => Ok l
  | o :: os' =>
      if st_lister (ro_storage o) && negb (st_tableConvertor (ro_storage o))
      then Err (Msg (ro_path o +:+ " must implement TableConvertor"))
      else
        let! reqScope := newReqScope resources o in
        let! l' := register_all resources reqScope o l in
        register_options resources l' os'
  end.

Definition registerResources `{RegexpLib} (l : list router) (resources : apiResources) : result (list router) :=
  let! l := registerRouter l "GET" (as_prefix resources) (HandlerAPIResources (as_gv resources) (as_list resources)) true in
  register_options resources l (as_options resources).

(** *** Construction *)

(** [REST] embeds the store of the registry; [StatusREST] of tasks and
    playbooks has methods of its own. *)
Definition REST `{ProxyLib} (resource : string) : Storage := registry_Store resource.

Definition StatusREST `{ProxyLib} (resource : string) : Storage :=
  {| st_scoper := Some true; st_lister := false; st_tableConvertor := true; st_creater := false;
     st_namedCreater := false; st_updater := true; st_patcher := true; st_getter := true;
     st_getterWithOptions := None; st_gracefulDeleter := false; st_collectionDeleter := false;
     st_watcher := false; st_connecter := None; st_singular := None; st_shortNames := None;
     st_categories := None; st_kinds := st_kinds (registry_Store resource); st_versioner := None;
     st_kindError := status_kindError resource; st_managerError := status_managerError resource |}.

Definition task_NewStorage `{ProxyLib} : result (Storage * Storage) :=
  match CompleteWithOptions "tasks" with
  | Some err => Err (Wrap "failed to complete store" err)
  | None => Ok (REST "tasks", StatusREST "tasks")
  end.

Definition playbook_NewStorage `{ProxyLib} : result (Storage * Storage) :=
  match CompleteWithOptions "playbooks" with
  | Some err => Err err
  | None => Ok (REST "playbooks", StatusREST "playbooks")
  end.

Definition inventory_NewStorage `{ProxyLib} : result Storage :=
  match CompleteWithOptions "inventories" with Some err => Err err | None => Ok (REST "inventories") end.

Definition add `{ProxyLib} (path : string) (storage : Storage) (r : apiResources) : result apiResources :=
  AddResource r (newResourceOptions path storage).

Definition task_resources `{ProxyLib} : result apiResources :=
  let! (task, taskStatus) := task_NewStorage in
  let! r := add "tasks" task (newAPIIResources kkcorev1alpha1) in
  add "tasks/status" taskStatus r.

Definition core_resources `{ProxyLib} : result apiResources :=
  let r := newAPIIResources kkcorev1 in
  let! inventory := inventory_NewStorage in
  let! r := add "inventories" inventory r in
  let! (playbook, playbookStatus) := playbook_NewStorage in
  let! r := add "playbooks" playbook r in
  add "playbooks/status" playbookStatus r.

(** [newProxyTransport]: the host of the cluster, and the client for it. *)
Definition newProxyTransport `{RegexpLib, ProxyLib} (host : string)
    (HTTPClientFor : error + (Request → Response * option error)) : result transport :=
  let remote := negb (bool_decide (host = "")) in
  let! client := if remote then match HTTPClientFor with
                                | inl err => Err (Wrap "failed to create http client" err)
                                | inr c => Ok (Some c)
                                end
                 else Ok None in
  let! kkv1alpha1 := task_resources in
  let! l := registerResources [] kkv1alpha1 in
  let! l := if remote then Ok l else let! kkv1 := core_resources in registerResources l kkv1 in
  Ok {| restClient := client; routers := l |}.

(** ** Lemmas on the order of the candidates *)

Lemma Less_asym a b : Less a b = true → Less b a = false.
Proof. unfold Less. repeat case_bool_decide; intros; try done; lia. Qed.

Lemma Less_trans a b c : Less a b = false → Less b c = false → Less a c = false.
Proof. unfold Less. repeat case_bool_decide; intros; try done; lia. Qed.

(** The sorted candidates begin with one that no other is above. *)
Lemma Sort_head `{GoSort} cs c rest :
  Sort (Reverse Less) cs = c :: rest → c ∈ cs ∧ ∀ c', c' ∈ cs → Less c c' = false.
Proof.
  intros E. pose proof (Sort_permutation _ (Reverse Less) cs) as Hp.
  pose proof (Sort_sorted _ (Reverse Less) cs) as Hs. unfold Reverse in Hs at 1 2 3 4 5.
  specialize (Hs (λ a b, Less_asym b a) (λ a b c H1 H2, Less_trans a b c H1 H2)). rewrite E in *.
  split; [rewrite <- Hp; by left|]. intros c' Hc'. rewrite <- Hp in Hc'.
  apply StronglySorted_inv in Hs as [_ Hs]. rewrite list.Forall_forall in Hs.
  apply elem_of_cons in Hc' as [->|Hc']; [|by apply (Hs c')].
  unfold Less. repeat case_bool_decide; try done; lia.
Qed.

(** The candidate that is above all others is the one that is used. *)
Lemma dispatch_best `{GoSort} l request c :
  c ∈ omap (candidate (rq_Path request)) (routers l) →
  (∀ c', c' ∈ omap (candidate (rq_Path request)) (routers l) →
     Less c' c = true ∨ rt_handlers (dc_router c') = rt_handlers (dc_router c)) →
  detectDispatcher l request =
    match rt_handlers (dc_router c) !! rq_Method request with
    | Some handler => Ok handler
    | None => Err (Msg "not found")
    end.
Proof.
  intros Hc Hbest. unfold detectDispatcher. set (filtered := omap _ _) in *.
  pose proof (Sort_permutation _ (Reverse Less) filtered) as Hp.
  destruct (Sort _ filtered) as [|f rest] eqn:E; [rewrite <- Hp in Hc; by inversion Hc|].
  destruct (Sort_head _ _ _ E) as [Hin Hf]. specialize (Hf c Hc).
  destruct (Hbest f Hin) as [Hl|Eh]; [congruence|by rewrite Eh].
Qed.

(** A request goes to the most specific of the routers whose template its
    path matches: most captures, then most literal characters, then most
    variables.  That router alone decides: when it has no handler for the
    method, or no router matches, the request is not found. *)
Theorem detectDispatcher_most_specific `{GoSort} l request :
  let cs := omap (candidate (rq_Path request)) (routers l) in
  (cs = [] → detectDispatcher l request = Err (Msg "not found")) ∧
  (cs ≠ [] → ∃ c, c ∈ cs ∧ (∀ c', c' ∈ cs → Less c c' = false) ∧
    detectDispatcher l request =
      match rt_handlers (dc_router c) !! rq_Method request with
      | Some handler => Ok handler
      | None => Err (Msg "not found")
      end).
Proof.
  intros cs. unfold detectDispatcher. fold cs. pose proof (Sort_permutation _ (Reverse Less) cs) as Hp. split.
  - intros E. rewrite E in Hp |- *. by apply Permutation_nil_r in Hp as ->.
  - intros Hne. destruct (Sort (Reverse Less) cs) as [|c rest] eqn:E; [by apply Permutation_nil_l in Hp|].
    exists c. destruct (Sort_head _ _ _ E). done.
Qed.

(** ** Registration keeps what is registered *)

Definition handler_of (l : list router) (path verb : string) : option Handler :=
  match filter (λ r, rt_path r = path) l with r :: _ => rt_handlers r !! verb | [] => None end.

Lemma handler_of_cons r l path verb :
  handler_of (r :: l) path verb = if bool_decide (rt_path r = path) then rt_handlers r !! verb else handler_of l path verb.
Proof. unfold handler_of. rewrite filter_cons. by case_decide; [rewrite bool_decide_true|rewrite bool_decide_false]. Qed.

Lemma handler_of_app l r path verb :
  rt_path r ∉ map rt_path l →
  handler_of (l ++ [r]) path verb = if bool_decide (rt_path r = path) then rt_handlers r !! verb else handler_of l path verb.
Proof.
  intros Hr. induction l as [|r' l IH]; simpl; [apply handler_of_cons|].
  rewrite !handler_of_cons, IH by set_solver. case_bool_decide as E; [|done].
  rewrite bool_decide_false; [done|]. set_solver.
Qed.

Lemma add_handler_none_path l verb path h : add_handler l verb path h = None → path ∉ map rt_path l.
Proof.
  induction l as [|r l IH]; simpl; [set_solver|]. case_bool_decide as E; simpl; [by destruct (rt_handlers r !! verb)|].
  destruct (add_handler l verb path h); [done|]. intros _. set_solver.
Qed.

Lemma add_handler_spec l verb path h l' :
  add_handler l verb path h = Some l' →
  map rt_path l' = map rt_path l ∧ path ∈ map rt_path l ∧
  ∀ p v, handler_of l' p v =
    match handler_of l p v with Some h0 => Some h0 | None => if bool_decide (p = path ∧ v = verb) then Some h else None end.
Proof.
  revert l'. induction l as [|r l IH]; intros l' Ha; simpl in *; [done|]. case_bool_decide as E; simpl in Ha.
  - subst. destruct (rt_handlers r !! verb) as [h0|] eqn:Eh; simplify_eq; (split; [done|]); (split; [by left|]);
      intros p v; rewrite !handler_of_cons; simpl; case_bool_decide as Ep; subst;
      try (rewrite (bool_decide_false (p = rt_path r ∧ v = verb)) by naive_solver; by destruct (handler_of l p v)).
    + destruct (rt_handlers r !! v) eqn:Ev; [done|]. by rewrite bool_decide_false by (intros [_ ->]; congruence).
    + destruct (decide (v = verb)) as [->|Hv].
      * by rewrite lookup_insert_eq, Eh, bool_decide_true.
      * rewrite lookup_insert_ne by done. rewrite bool_decide_false by naive_solver.
        by destruct (rt_handlers r !! v).
  - destruct (add_handler l verb path h) as [l1|]; simplify_eq/=. destruct (IH l1 eq_refl) as (Hp & Hin & Hh).
    split; [by f_equal|]. split; [by right|]. intros p v. rewrite !handler_of_cons, Hh.
    case_bool_decide as Ep; [|done]. subst. rewrite bool_decide_false by naive_solver. by destruct (rt_handlers r !! v).
Qed.

(** Registering a handler never takes one away and never replaces one:
    afterwards every path and verb have the handler they had, the new one is
    added where there was none, no path has two routers, and a path whose
    template does not compile is left out. *)
Theorem registerRouter_first_wins `{RegexpLib} l verb path h l' :
  NoDup (map rt_path l) → registerRouter l verb path h true = Ok l' →
  NoDup (map rt_path l') ∧
  ∀ p v, handler_of l' p v =
    match handler_of l p v with
    | Some h0 => Some h0
    | None => if bool_decide (p = path ∧ v = verb ∧ path ∈ map rt_path l') then Some h else None
    end.
Proof.
  intros Hnd. unfold registerRouter. simpl. destruct (add_handler l verb path h) as [l1|] eqn:E.
  - intros [= <-]. destruct (add_handler_spec _ _ _ _ _ E) as (Hp & Hin & Hh). rewrite Hp. split; [done|].
    intros p v. rewrite Hh. destruct (handler_of l p v); [done|]. apply (f_equal (λ b : bool, if b then Some h else None)).
    apply bool_decide_ext. naive_solver.
  - apply add_handler_none_path in E. destruct (newPathExpression path) as [e|e|w]; intros [= <-].
    + split.
      { rewrite map_app. apply NoDup_app. split; [done|]. simpl. split; [set_solver|apply NoDup_singleton]. }
      intros p v. rewrite handler_of_app by done. simpl. case_bool_decide as Ep; subst.
      * assert (handler_of l p v = None) as ->.
        { unfold handler_of. destruct (filter _ l) as [|r rs] eqn:Ef; [done|]. exfalso.
          assert (r ∈ filter (λ r, rt_path r = p) l) as Hr by (rewrite Ef; left).
          apply list_elem_of_filter in Hr as [<- Hr]. apply E. by apply list_elem_of_fmap_2. }
        rewrite map_app. simpl. destruct (decide (v = verb)) as [->|Hv].
        -- rewrite lookup_singleton_eq, bool_decide_true by set_solver. done.
        -- rewrite lookup_singleton_ne by done. by rewrite bool_decide_false by naive_solver.
      * rewrite bool_decide_false by naive_solver. by destruct (handler_of l p v).
    + split; [done|]. intros p v. rewrite bool_decide_false by naive_solver. by destruct (handler_of l p v).
Qed.

(** ** Responses *)

(** What a handler wrote last is the whole body, and the status stays 0
    unless the handler sets it: the chunks before are lost. *)
Theorem last_write_is_body r (cs : list WriterCall) :
  let written := omap (λ c, match c with Write bs => Some bs | _ => None end) cs in
  let set := omap (λ c, match c with WriteHeader code => Some code | _ => None end) cs in
  let r' := fold_left responseWriter_call cs r in
  rs_Body r' = match last written with Some bs => Some bs | None => rs_Body r end ∧
  rs_StatusCode r' = default (rs_StatusCode r) (last set).
Proof.
  revert r. induction cs as [|c cs IH]; intros r; [done|]. destruct (IH (responseWriter_call r c)) as [Hb Hs].
  cbn [fold_left]. rewrite Hb, Hs.
  destruct c as [k v|code|bs]; cbn [omap list_omap responseWriter_call rs_Body rs_StatusCode]; [done| |];
    rewrite last_cons; (split; [try done|try done]);
    match goal with |- context [last ?l] => by destruct (last l) end.
Qed.

(** ** An instance of the sort, and of a registration *)

Definition not_less {A : Type} (less : A → A → bool) (a b : A) : Prop := less b a = false.
#[export] Instance not_less_dec {A} (less : A → A → bool) : RelDecision (not_less less).
Proof. intros a b. unfold not_less. apply _. Defined.

Definition merge {A : Type} (less : A → A → bool) (l : list A) : list A := merge_sort (not_less less) l.

Lemma merge_sorted A (less : A → A → bool) l :
  (∀ a b, less a b = true → less b a = false) →
  (∀ a b c, less b a = false → less c b = false → less c a = false) →
  StronglySorted (λ a b, less b a = false) (merge less l).
Proof.
  intros Ha Ht.
  assert (Transitive (not_less less)) by (intros a b c; apply Ht).
  assert (Total (not_less less)).
  { intros a b. unfold not_less. destruct (less b a) eqn:E; [right; by apply Ha|by left]. }
  apply (StronglySorted_merge_sort (not_less less)).
Qed.

Definition merge_go_sort : GoSort :=
  {| Sort := @merge; Sort_permutation A less := merge_sort_Permutation (not_less less); Sort_sorted := merge_sorted |}.

Lemma registerRouter_first_wins_witness :
  ∃ l : list router, map rt_path l = ["/apis"] ∧
    ∀ p v, handler_of l p v =
      match handler_of [] p v with
      | Some h0 => Some h0
      | None => if bool_decide (p = "/apis" ∧ v = "GET" ∧ "/apis" ∈ map rt_path l)
                then Some (HandlerAPIResources kkcorev1 []) else None
      end.
Proof.
  eexists. split; cycle 1.
  - apply (@registerRouter_first_wins {| Compile_other _ := inl (Msg "") |} [] "GET" "/apis"
      (HandlerAPIResources kkcorev1 [])); [by constructor|reflexivity].
  - reflexivity.
Defined.
