(* ===== verification/ProxySpec.v ===== *)
(** * The routes of the API proxy

    What requests the transport of [Proxy.v] answers, and with which handler.
    Registration is followed on skeletons: the paths and handlers of the
    routers, without their compiled expressions. *)

From stdpp Require Import gmap strings list sorting.
From S2P Require Import Prelude GoStrings Paths PathExpr Proxy.

(** ** Skeletons *)

Notation Skeleton := (list (string * gmap string Handler)).

Definition skeleton (l : list router) : Skeleton := map (λ r, (rt_path r, rt_handlers r)) l.

(** A path whose variables have no expressions of their own. *)
Definition simple (path : string) : Prop :=
  Forall simple_token (tokenizePath path) ∧ rest_last (template_atoms path).

#[export] Instance rest_last_dec r : Decision (rest_last r).
Proof. induction r as [|[s| |] r IH]; simpl; apply _. Defined.
#[export] Instance simple_dec path : Decision (simple path).
Proof. unfold simple. apply _. Defined.

Definition compiled `{RegexpLib} (l : list router) : Prop :=
  Forall (λ r, simple (rt_path r) ∧ newPathExpression (rt_path r) = Ok (rt_pathExpr r)) l.

Fixpoint sk_add (sk : Skeleton) (verb path : string) (h : Handler) : Skeleton :=
  match sk with
  | [] => [(path, {[verb := h]})]
  | (p, hs) :: sk' =>
      if bool_decide (p = path)
      then (p, match hs !! verb with Some _ => hs | None => <[verb := h]> hs end) :: sk'
      else (p, hs) :: sk_add sk' verb path h
  end.

Section Registration.
Context `{RegexpLib}.

Definition follows (l : list router) (sk : Skeleton) : Prop := compiled l ∧ skeleton l = sk.

(** A step that turns routers of one skeleton into routers of another. *)
Definition steps (f : list router → result (list router)) (sk sk' : Skeleton) : Prop :=
  ∀ l, follows l sk → ∃ l', f l = Ok l' ∧ follows l' sk'.

Lemma steps_id sk : steps Ok sk sk.
Proof. intros l Hl. by exists l. Qed.

Lemma steps_bind f g sk1 sk2 sk3 :
  steps f sk1 sk2 → steps g sk2 sk3 → steps (λ l, rbind (f l) g) sk1 sk3.
Proof. intros Hf Hg l Hl. destruct (Hf l Hl) as (l' & -> & Hl'). by apply Hg. Qed.

Lemma add_handler_some l verb path h l' :
  add_handler l verb path h = Some l' → compiled l →
  compiled l' ∧ skeleton l' = sk_add (skeleton l) verb path h.
Proof.
  revert l'. induction l as [|r l IH]; intros l' Ha Hl; simpl in *; [done|].
  inversion Hl; subst. case_bool_decide as E; simpl in Ha.
  - destruct (rt_handlers r !! verb); simplify_eq; (split; [by constructor|]); simpl; done.
  - destruct (add_handler l verb path h) as [l1|]; simplify_eq/=.
    destruct (IH l1) as [Hc Hs]; [done..|]. split; [by constructor|]. by f_equal.
Qed.

Lemma add_handler_none l verb path h :
  add_handler l verb path h = None → sk_add (skeleton l) verb path h = skeleton l ++ [(path, {[verb := h]})].
Proof.
  induction l as [|r l IH]; simpl; [done|]. case_bool_decide as E; simpl.
  - by destruct (rt_handlers r !! verb).
  - destruct (add_handler l verb path h); [done|]. intros _. by rewrite IH.
Qed.

Lemma registerRouter_skip verb path h sk : steps (λ l, registerRouter l verb path h false) sk sk.
Proof. intros l Hl. by exists l. Qed.

Lemma registerRouter_steps verb path h sk :
  simple path → steps (λ l, registerRouter l verb path h true) sk (sk_add sk verb path h).
Proof.
  intros Hp l [Hl <-]. unfold registerRouter. simpl.
  destruct (add_handler l verb path h) as [l'|] eqn:E.
  - exists l'. split; [done|]. by apply add_handler_some.
  - destruct (newPathExpression_ok path) as (e & He & _); [apply Hp|]. rewrite He.
    eexists. split; [done|]. split.
    + apply Forall_app_2; [done|]. apply list.Forall_singleton. by split.
    + unfold skeleton. rewrite map_app. symmetry. by apply add_handler_none.
Qed.

End Registration.

Notation Route := (string * string * Handler)%type.
Definition sk_routes (sk : Skeleton) (rs : list Route) : Skeleton :=
  fold_left (λ sk '(verb, path, h), sk_add sk verb path h) rs sk.

(** ** What a storage registers *)

(** A storage of the registry: it implements the standard interfaces and is
    named within a namespace. *)
Record standard (s : Storage) : Prop := {
  sd_scoper : st_scoper s = Some true;
  sd_lister : st_lister s = true;
  sd_table : st_tableConvertor s = true;
  sd_creater : st_creater s = true;
  sd_namedCreater : st_namedCreater s = false;
  sd_updater : st_updater s = true;
  sd_patcher : st_patcher s = true;
  sd_getter : st_getter s = true;
  sd_options : st_getterWithOptions s = None;
  sd_graceful : st_gracefulDeleter s = true;
  sd_collection : st_collectionDeleter s = true;
  sd_watcher : st_watcher s = true;
  sd_connecter : st_connecter s = None;
  sd_singular : is_Some (st_singular s);
  sd_version : ∀ f, st_versioner s = Some f → ∃ ks k, st_kinds s = inr ks ∧ f ks = Some k;
  sd_kind : st_kindError s = None;
  sd_manager : st_managerError s = None;
}.

Section Routes.
Context (gv : GroupVersion) (resource : string).

Let prefix : string := "/apis/" +:+ gv_String gv.
Let sc : ReqScope := {| sc_gv := gv; sc_resource := resource; sc_subresource := "" |}.
Let status_sc : ReqScope := {| sc_gv := gv; sc_resource := resource; sc_subresource := "status" |}.

Definition standard_routes : list Route :=
  let collection := "/namespaces/{namespace}/" +:+ resource in
  let item := "/namespaces/{namespace}/" +:+ resource +:+ "/{name}" in
  let a := Some newAlwaysAdmit in
  [("GET", prefix +:+ collection, ListResource sc false);
   ("GET", prefix +:+ "/" +:+ resource, ListResource sc false);
   ("GET", prefix +:+ "/watch/" +:+ resource, ListResource sc true);
   ("POST", prefix +:+ collection, CreateResource sc a);
   ("DELETE", prefix +:+ collection, DeleteCollection sc a);
   ("GET", prefix +:+ "/watch" +:+ collection, ListResource sc true);
   ("GET", prefix +:+ item, GetResource sc);
   ("PUT", prefix +:+ item, UpdateResource sc a);
   ("PATCH", prefix +:+ item, PatchResource sc a patch_types);
   ("DELETE", prefix +:+ item, DeleteResource sc true a);
   ("GET", prefix +:+ "/watch" +:+ item, ListResource sc true)].

Definition status_routes : list Route :=
  let item := "/namespaces/{namespace}/" +:+ resource +:+ "/{name}/status" in
  let a := Some newAlwaysAdmit in
  [("GET", prefix +:+ item, GetResource status_sc);
   ("PUT", prefix +:+ item, UpdateResource status_sc a);
   ("PATCH", prefix +:+ item, PatchResource status_sc a patch_types)].

End Routes.

Definition main_options (resource : string) (s : Storage) : resourceOptions :=
  {| ro_path := resource; ro_resource := resource; ro_subresource := "";
     ro_resourcePath := "/namespaces/{namespace}/" +:+ resource;
     ro_itemPath := "/namespaces/{namespace}/" +:+ resource +:+ "/{name}";
     ro_storage := s; ro_admit := Some newAlwaysAdmit |}.

Definition status_options (resource : string) (s : Storage) : resourceOptions :=
  let path := "/namespaces/{namespace}/" +:+ resource +:+ "/{name}/status" in
  {| ro_path := resource +:+ "/status"; ro_resource := resource; ro_subresource := "status";
     ro_resourcePath := path; ro_itemPath := path; ro_storage := s; ro_admit := Some newAlwaysAdmit |}.

Definition with_option (r : apiResources) (o : resourceOptions) (ar : APIResource) : apiResources :=
  {| as_gv := as_gv r; as_prefix := as_prefix r; as_options := as_options r ++ [o]; as_list := as_list r ++ [ar] |}.

#[local] Ltac found := eexists; split; cycle 1; [reflexivity|reflexivity].

Lemma add_standard `{ProxyLib} r resource s :
  no_slash resource = true → standard s →
  ∃ ar, ar_Name ar = resource ∧ add resource s r = Ok (with_option r (main_options resource s) ar).
Proof.
  intros Hr Hs. destruct (sd_singular s Hs) as [name Hname].
  unfold add, AddResource, newResourceOptions, ro_init. cbn [ro_storage ro_path ro_admit ro_subresource].
  rewrite (sd_scoper s Hs), Split_no_slash by done. cbn [rbind ro_storage ro_subresource ro_path]. rewrite Hname.
  destruct (st_versioner s) as [f|] eqn:Ef; [|found].
  destruct (sd_version s Hs f Ef) as (ks & k & Hk & Hf). unfold getStorageVersionKind. rewrite Hk, Hf.
  destruct StorageVersionHash_enabled; found.
Qed.

Lemma add_status `{ProxyLib} r resource kinds :
  no_slash resource = true →
  ∃ ar, ar_Name ar = resource +:+ "/status" ∧
    add (resource +:+ "/status") (StatusREST kinds) r =
    Ok (with_option r (status_options resource (StatusREST kinds)) ar).
Proof.
  intros Hr. unfold add, AddResource, newResourceOptions, ro_init. cbn [ro_storage ro_path ro_admit ro_subresource].
  change (resource +:+ "/status") with (resource +:+ "/" +:+ "status").
  rewrite Split_slash, Split_no_slash by done. cbn. found.
Qed.

(** The stores of the registry are standard, and nothing fails at start. *)
Class ProxyLibSpec `{ProxyLib} : Prop := {
  registry_standard : ∀ resource, standard (registry_Store resource);
  complete_ok : ∀ resource, CompleteWithOptions resource = None;
  status_kind_ok : ∀ resource, status_kindError resource = None;
  status_manager_ok : ∀ resource, status_managerError resource = None;
}.

Section Steps.
Context `{RegexpLib}.

Definition paths_simple (rs : list Route) : Prop := Forall (λ r, simple (r.1.2)) rs.

(** A registration that is made, or one that is not. *)
Ltac registered :=
  lazymatch goal with
  | |- steps (λ l, rbind (@?f l) ?g) _ _ => eapply (steps_bind f g); [registered|cbv beta; registered]
  | |- steps (λ l, registerRouter l _ _ _ false) _ _ => apply registerRouter_skip
  | |- steps (λ l, registerRouter l _ _ _ true) _ _ => apply registerRouter_steps; assumption
  end.

Ltac registers Hp :=
  unfold register_all, registerList, registerPost, registerDeleteCollection, registerWatchList, registerGet,
    registerPut, registerPatch, registerDelete, registerWatch, registerConnect;
  cbn [ro_storage ro_subresource ro_resource ro_resourcePath ro_itemPath ro_admit ro_path main_options
       status_options StatusREST st_scoper st_lister st_tableConvertor st_creater st_namedCreater st_updater
       st_patcher st_getter st_getterWithOptions st_gracefulDeleter st_collectionDeleter st_watcher st_connecter];
  unfold paths_simple, standard_routes, status_routes in Hp; rewrite !Forall_cons in Hp; destruct_and? Hp;
  cbn [fst snd] in *; unfold sk_routes, standard_routes, status_routes; cbn [fold_left].

Lemma register_standard r resource s sk :
  as_prefix r = "/apis/" +:+ gv_String (as_gv r) → standard s →
  paths_simple (standard_routes (as_gv r) resource) →
  steps (register_all r {| sc_gv := as_gv r; sc_resource := resource; sc_subresource := "" |} (main_options resource s))
    sk (sk_routes sk (standard_routes (as_gv r) resource)).
Proof.
  intros Hpre Hs Hp. destruct Hs. registers Hp.
  rewrite Hpre, sd_lister0, sd_creater0, sd_namedCreater0, sd_updater0, sd_patcher0, sd_getter0, sd_options0,
    sd_graceful0, sd_collection0, sd_watcher0, sd_connecter0.
  rewrite (bool_decide_true ("" = "")) by done. cbn [negb andb default]. registered.
Qed.

Lemma register_status `{ProxyLib} r resource sk :
  as_prefix r = "/apis/" +:+ gv_String (as_gv r) → paths_simple (status_routes (as_gv r) resource) →
  steps (register_all r {| sc_gv := as_gv r; sc_resource := resource; sc_subresource := "status" |}
           (status_options resource (StatusREST resource)))
    sk (sk_routes sk (status_routes (as_gv r) resource)).
Proof.
  intros Hpre Hp. registers Hp. rewrite Hpre.
  rewrite (bool_decide_false ("status" = "")) by done. cbn [negb andb default]. registered.
Qed.

End Steps.
(** ** The routers of the transport *)

Definition group_route (gv : GroupVersion) (names : list APIResource) : Route :=
  ("GET", "/apis/" +:+ gv_String gv, HandlerAPIResources gv names).

Definition task_routes (names : list APIResource) : list Route :=
  group_route kkcorev1alpha1 names :: standard_routes kkcorev1alpha1 "tasks" ++ status_routes kkcorev1alpha1 "tasks".

Definition core_routes (names : list APIResource) : list Route :=
  group_route kkcorev1 names :: standard_routes kkcorev1 "inventories" ++
  standard_routes kkcorev1 "playbooks" ++ status_routes kkcorev1 "playbooks".

Lemma sk_routes_app sk rs rs' : sk_routes sk (rs ++ rs') = sk_routes (sk_routes sk rs) rs'.
Proof. apply fold_left_app. Qed.

Section Transport.
Context `{RegexpLib} `{PL : ProxyLib} {PS : @ProxyLibSpec PL}.

Lemma option_standard r resource s os sk sk' :
  as_prefix r = "/apis/" +:+ gv_String (as_gv r) → standard s →
  paths_simple (standard_routes (as_gv r) resource) →
  steps (λ l, register_options r l os) (sk_routes sk (standard_routes (as_gv r) resource)) sk' →
  steps (λ l, register_options r l (main_options resource s :: os)) sk sk'.
Proof.
  intros Hpre Hs Hp Hos l Hl. cbn [register_options ro_storage main_options]. rewrite (sd_table s Hs), andb_false_r.
  unfold newReqScope. cbn [ro_storage ro_resource ro_subresource main_options]. rewrite (sd_kind s Hs), (sd_manager s Hs). cbn [rbind].
  destruct (register_standard r resource s sk Hpre Hs Hp l Hl) as (l' & -> & Hl'). by apply Hos.
Qed.

Lemma option_status r resource os sk sk' :
  as_prefix r = "/apis/" +:+ gv_String (as_gv r) → paths_simple (status_routes (as_gv r) resource) →
  steps (λ l, register_options r l os) (sk_routes sk (status_routes (as_gv r) resource)) sk' →
  steps (λ l, register_options r l (status_options resource (StatusREST resource) :: os)) sk sk'.
Proof.
  intros Hpre Hp Hos l Hl. cbn [register_options ro_storage status_options StatusREST st_lister andb].
  unfold newReqScope. cbn [ro_storage ro_resource ro_subresource status_options StatusREST st_kindError st_managerError].
  rewrite status_kind_ok, status_manager_ok. cbn [rbind].
  destruct (register_status r resource sk Hpre Hp l Hl) as (l' & -> & Hl'). by apply Hos.
Qed.

Lemma task_steps :
  ∃ names r, task_resources = Ok r ∧ ∀ sk, steps (λ l, registerResources l r) sk (sk_routes sk (task_routes names)).
Proof.
  unfold task_resources, task_NewStorage. rewrite complete_ok. cbn [rbind].
  destruct (add_standard (newAPIIResources kkcorev1alpha1) "tasks" (REST "tasks")) as (ar & _ & ->);
    [done|apply registry_standard|]. cbn [rbind].
  set (r1 := with_option _ _ _).
  destruct (add_status r1 "tasks" "tasks") as (ar' & _ & Ha); [done|].
  change ("tasks" +:+ "/status") with "tasks/status" in Ha. rewrite Ha.
  eexists _, _. split; [done|]. intros sk. unfold registerResources. eapply steps_bind.
  { apply registerRouter_steps. by_decision. }
  cbv beta. cbn [as_options with_option r1 newAPIIResources app].
  eapply option_standard; [done|apply registry_standard|by_decision|].
  eapply option_status; [done|by_decision|]. apply steps_id.
Qed.

Lemma core_steps :
  ∃ names r, core_resources = Ok r ∧ ∀ sk, steps (λ l, registerResources l r) sk (sk_routes sk (core_routes names)).
Proof.
  unfold core_resources, inventory_NewStorage, playbook_NewStorage. rewrite !complete_ok. cbn [rbind].
  destruct (add_standard (newAPIIResources kkcorev1) "inventories" (REST "inventories")) as (ar & _ & ->);
    [done|apply registry_standard|]. cbn [rbind].
  set (r1 := with_option _ _ _).
  destruct (add_standard r1 "playbooks" (REST "playbooks")) as (ar' & _ & ->); [done|apply registry_standard|].
  cbn [rbind]. set (r2 := with_option _ _ _).
  destruct (add_status r2 "playbooks" "playbooks") as (ar'' & _ & Ha); [done|].
  change ("playbooks" +:+ "/status") with "playbooks/status" in Ha. rewrite Ha.
  eexists _, _. split; [done|]. intros sk. unfold registerResources. eapply steps_bind.
  { apply registerRouter_steps. by_decision. }
  cbv beta. cbn [as_options with_option r1 r2 newAPIIResources app].
  eapply option_standard; [done|apply registry_standard|by_decision|].
  eapply option_standard; [done|apply registry_standard|by_decision|].
  eapply option_status; [done|by_decision|]. apply steps_id.
Qed.

(** The routers of a transport: those of the tasks, and those of the other
    resources when there is no cluster. *)
Lemma newProxyTransport_routers host HTTPClientFor :
  (host ≠ "" → ∃ c, HTTPClientFor = inr c) →
  ∃ t names names', newProxyTransport host HTTPClientFor = Ok t ∧
    follows (routers t)
      (sk_routes [] (task_routes names ++ if bool_decide (host = "") then core_routes names' else [])) ∧
    restClient t = if bool_decide (host = "") then None else match HTTPClientFor with inr c => Some c | inl _ => None end.
Proof.
  intros Hc. destruct task_steps as (names & r & Hr & Hs). destruct core_steps as (names' & r' & Hr' & Hs').
  assert (follows [] []) as H0 by (split; [constructor|done]).
  destruct (Hs [] [] H0) as (l & Hl & Hf). unfold newProxyTransport. rewrite Hr. case_bool_decide as E; cbn [negb rbind].
  - rewrite Hl. cbn [rbind]. rewrite Hr'. cbn [rbind]. destruct (Hs' _ _ Hf) as (l' & -> & Hf'). cbn [rbind].
    eexists _, names, names'. split; [done|]. split; [|done]. by rewrite sk_routes_app.
  - destruct (Hc E) as [c ->]. cbn [rbind]. rewrite Hl. cbn [rbind].
    eexists _, names, names'. split; [done|]. split; [|done]. by rewrite app_nil_r.
Qed.

End Transport.

(** ** Dispatch on skeletons *)

Definition Key : Type := nat * nat * nat.
Definition key_lt (a b : Key) : Prop :=
  a.1.1 < b.1.1 ∨ a.1.1 = b.1.1 ∧ (a.1.2 < b.1.2 ∨ a.1.2 = b.1.2 ∧ a.2 < b.2).
#[export] Instance key_lt_dec a b : Decision (key_lt a b).
Proof. unfold key_lt. apply _. Defined.

(** The candidates of a path by their sort key and handlers. *)
Definition sk_candidate (segs : list string) (r : string * gmap string Handler) : option (Key * gmap string Handler) :=
  caps ← capture (template_atoms r.1) segs;
  Some ((S (length caps), lit_length (template_atoms r.1), var_count (template_atoms r.1)), r.2).

Definition dc_key (c : dispatcherCandidate) : Key := (dc_matchesCount c, dc_literalCount c, dc_nonDefaultCount c).

Lemma Less_key a b : key_lt (dc_key a) (dc_key b) → Less a b = true.
Proof. unfold key_lt, dc_key, Less. cbn. intros H. repeat case_bool_decide; try done; lia. Qed.

Lemma candidate_skeleton `{RegexpLib} l segs :
  compiled l → Forall (λ c, no_slash c = true) segs →
  map (λ c, (dc_key c, rt_handlers (dc_router c))) (omap (candidate (slashed segs)) l) =
  omap (sk_candidate segs) (skeleton l).
Proof.
  intros Hl Hs. induction Hl as [|r l [[Ht Hlast] Hr] Hl IH]; [done|].
  destruct (newPathExpression_ok (rt_path r) Ht) as (e & He & Hm & Hlit & Hvar). rewrite He in Hr. injection Hr as Hr.
  cbn [omap list_omap skeleton map]. unfold candidate at 1, sk_candidate at 1. cbn [fst snd]. rewrite <- Hr, Hm.
  unfold FindStringSubmatch. rewrite find_capture by (done || apply template_atoms_wf).
  destruct (capture _ segs) as [caps|]; cbn; [|done]. f_equal; [|done].
  unfold dc_key. cbn. by rewrite Hlit, Hvar.
Qed.

(** The most specific of the candidates decides. *)
Lemma dispatch_skeleton `{RegexpLib, GoSort} t sk segs method k hs :
  follows (routers t) sk → Forall (λ c, no_slash c = true) segs →
  (k, hs) ∈ omap (sk_candidate segs) sk →
  Forall (λ c, c.2 = hs ∨ key_lt c.1 k) (omap (sk_candidate segs) sk) →
  detectDispatcher t {| rq_Method := method; rq_Path := slashed segs |} =
    match hs !! method with Some h => Ok h | None => Err (Msg "not found") end.
Proof.
  intros [Hl <-] Hs. rewrite <- candidate_skeleton by done.
  intros (c & Hc & Hin)%list_elem_of_fmap Hbest. injection Hc as -> ->.
  rewrite (dispatch_best _ _ c); [done|done|]. intros c' Hc'.
  rewrite list.Forall_forall in Hbest. destruct (Hbest (dc_key c', rt_handlers (dc_router c'))) as [E|E].
  - apply list_elem_of_fmap. by exists c'.
  - by right.
  - left. by apply Less_key.
Qed.

(** ** Requests for local resources *)

(** A name that is one segment of a path. *)
Record segment (s : string) : Prop := {
  sg_nonempty : s ≠ "";
  sg_no_slash : no_slash s = true;
  sg_one_line : one_line s = true;
}.

Lemma one_line_app s t : one_line s = true → one_line t = true → one_line (s +:+ t) = true.
Proof. induction s as [|a s IH]; simpl; [done|]. intros Hs Ht. bools. by rewrite H, IH. Qed.

Lemma one_line_slashed segs : Forall (λ s, one_line s = true) segs → one_line (slashed segs) = true.
Proof. induction 1 as [|s segs Hs _ IH]; [done|]. change (one_line (s +:+ slashed segs) = true). by apply one_line_app. Qed.

Lemma one_line_rest seg segs : Forall (λ s, one_line s = true) (seg :: segs) → one_line (seg +:+ slashed segs) = true.
Proof. intros [Hs Hl]%Forall_cons. by apply one_line_app, one_line_slashed. Qed.

(** Dispatch is computed on paths of which some segments are not known: a
    segment is a fixed text, or any name but the given ones. *)
Inductive pattern :=
| Fixed (s : string)
| Any (avoid : list string).

Definition fits (p : pattern) (s : string) : Prop :=
  no_slash s = true ∧ one_line s = true ∧
  match p with Fixed t => s = t | Any avoid => s ≠ "" ∧ s ∉ avoid end.

Lemma fits_fixed s : no_slash s && one_line s = true → fits (Fixed s) s.
Proof. intros H. bools. by split_and!. Qed.

Lemma fits_any avoid s : segment s → s ∉ avoid → fits (Any avoid) s.
Proof. intros [] H. by split_and!. Qed.

Lemma fits_name s : segment s → fits (Any []) s.
Proof. intros H. apply fits_any; [done|]. by intros ?%elem_of_nil. Qed.

Definition one_more (x : option (option nat)) : option (option nat) :=
  match x with Some (Some n) => Some (Some (S n)) | _ => x end.

(** The number of captures; nothing when it depends on the unknown. *)
Fixpoint count_captures (r : list atom) (ps : list pattern) : option (option nat) :=
  match r, ps with
  | [], _ => Some (Some 1)
  | Lit l :: r', Fixed t :: ps' => if bool_decide (t = l) then count_captures r' ps' else Some None
  | Lit l :: r', Any avoid :: ps' => if bool_decide (l ∈ avoid) then Some None else None
  | Var :: r', Fixed t :: ps' => if bool_decide (t = "") then Some None else one_more (count_captures r' ps')
  | Var :: r', Any _ :: ps' => one_more (count_captures r' ps')
  | Rest :: _, _ :: _ => Some (Some 2)
  | _ :: _, [] => Some None
  end.

Lemma fits_one_line ps segs : Forall2 fits ps segs → one_line (slashed segs) = true.
Proof. intros H. apply one_line_slashed. by induction H as [|?? ?? (_ & ? & _)]; constructor. Qed.

Lemma fits_no_slash ps segs : Forall2 fits ps segs → Forall (λ c, no_slash c = true) segs.
Proof. by induction 1 as [|?? ?? (? & _)]; constructor. Qed.

Lemma fits_rest p ps s segs : Forall2 fits (p :: ps) (s :: segs) → one_line (s +:+ slashed segs) = true.
Proof.
  intros H. apply (fits_one_line (p :: ps) (s :: segs)) in H.
  by change (one_line (s +:+ slashed segs) = true) in H.
Qed.

Lemma one_more_sound (x : option (option nat)) n (caps : Captures) s :
  one_more x = Some n → (∀ m, x = Some m → length <$> caps = m) → length <$> (cons s <$> caps) = n.
Proof. intros Hx Hc. destruct x as [m|]; [|done]. rewrite <- (Hc m eq_refl) in Hx. by destruct caps; simplify_eq/=. Qed.

Lemma count_captures_sound r ps segs n :
  count_captures r ps = Some n → Forall2 fits ps segs → length <$> capture r segs = n.
Proof.
  intros Hn Hf. revert r n Hn.
  induction Hf as [|p s ps segs Hp Hf IH]; intros r n Hn.
  { destruct r as [|[] r]; simpl in *; by simplify_eq. }
  assert (one_line (s +:+ slashed segs) = true) as Hone by (by eapply fits_rest; constructor).
  destruct Hp as (_ & _ & Hp). destruct r as [|[l| |] r].
  - simpl in *. rewrite Hone. by simplify_eq.
  - cbn [capture count_captures] in *. destruct p as [t|avoid].
    + subst. case_bool_decide; [by apply IH|by simplify_eq].
    + destruct Hp as [_ Hp]. case_bool_decide as Hl; [|done]. rewrite bool_decide_false by congruence.
      by simplify_eq.
  - cbn [capture count_captures] in *. destruct p as [t|avoid].
    + subst. case_bool_decide; [by simplify_eq|].
      eapply one_more_sound; [done|]. intros m. apply IH.
    + destruct Hp as [Hp _]. rewrite bool_decide_false by done.
      eapply one_more_sound; [done|]. intros m. apply IH.
  - cbn [capture count_captures] in *. rewrite Hone. by simplify_eq.
Qed.

Definition Candidates : Type := list (Key * gmap string Handler).

Fixpoint pattern_candidates (sk : Skeleton) (ps : list pattern) : option Candidates :=
  match sk with
  | [] => Some []
  | (path, hs) :: sk' =>
      n ← count_captures (template_atoms path) ps; rest ← pattern_candidates sk' ps;
      Some (match n with
            | Some n => ((S n, lit_length (template_atoms path), var_count (template_atoms path)), hs) :: rest
            | None => rest
            end)
  end.

Lemma pattern_candidates_sound sk ps segs cs :
  pattern_candidates sk ps = Some cs → Forall2 fits ps segs → omap (sk_candidate segs) sk = cs.
Proof.
  intros Hc Hf. revert cs Hc. induction sk as [|[path hs] sk IH]; intros cs Hc; cbn in Hc; [by simplify_eq|].
  destruct (count_captures _ ps) as [n|] eqn:En; [|done]. cbn in Hc.
  destruct (pattern_candidates sk ps) as [rest|]; simplify_eq/=.
  pose proof (count_captures_sound _ _ _ _ En Hf) as Hn.
  unfold sk_candidate at 1. cbn. destruct (capture (template_atoms path) segs) as [caps|]; simplify_eq/=;
    [f_equal|]; by apply IH.
Qed.

Fixpoint last_best (c : Key * gmap string Handler) (cs : Candidates) : option (gmap string Handler) :=
  match cs with
  | [] => Some c.2
  | c' :: cs' => if bool_decide (key_lt c.1 c'.1) then last_best c' cs' else None
  end.

(** The handlers of the path when each candidate is more specific than the
    one before, and dispatch to them. *)
Definition pattern_handlers (sk : Skeleton) (ps : list pattern) : option (gmap string Handler) :=
  match pattern_candidates sk ps with Some (c :: cs) => last_best c cs | _ => None end.

Definition pattern_dispatch (sk : Skeleton) (method : string) (ps : list pattern) : option (result Handler) :=
  hs ← pattern_handlers sk ps; Some (match hs !! method with Some h => Ok h | None => Err (Msg "not found") end).

Lemma key_lt_trans a b c : key_lt a b → key_lt b c → key_lt a c.
Proof. unfold key_lt. lia. Qed.

Lemma last_best_sound c cs hs :
  last_best c cs = Some hs →
  ∃ k, (k, hs) ∈ c :: cs ∧ (c.1 = k ∧ c.2 = hs ∨ key_lt c.1 k) ∧ Forall (λ c', c'.2 = hs ∨ key_lt c'.1 k) (c :: cs).
Proof.
  revert c. induction cs as [|c' cs IH]; intros [kc hc] H; simpl in H.
  - simplify_eq. exists kc. split; [by left|]. split; [by left|]. apply list.Forall_singleton. by left.
  - case_bool_decide as Hlt; [|done]. destruct (IH c' H) as (k & Hin & Hc & Hall).
    assert (key_lt kc k) as Hk by (destruct Hc as [[<- _]|Hc]; [done|by eapply key_lt_trans]).
    exists k. split; [by right|]. split; [by right|]. constructor; [by right|done].
Qed.

Lemma pattern_handlers_sound `{RegexpLib, GoSort} t sk method ps segs hs :
  follows (routers t) sk → Forall2 fits ps segs → pattern_handlers sk ps = Some hs →
  detectDispatcher t {| rq_Method := method; rq_Path := slashed segs |} =
    match hs !! method with Some h => Ok h | None => Err (Msg "not found") end.
Proof.
  intros Hf Hp. unfold pattern_handlers. destruct (pattern_candidates sk ps) as [[|c cs]|] eqn:E; [done| |done].
  intros Eb. pose proof (pattern_candidates_sound _ _ _ _ E Hp) as Hc.
  destruct (last_best_sound _ _ _ Eb) as (k & Hin & _ & Hall). rewrite <- Hc in Hin, Hall.
  eapply dispatch_skeleton; [done|by eapply fits_no_slash|done..].
Qed.

Lemma pattern_dispatch_sound `{RegexpLib, GoSort} t sk method ps segs r :
  follows (routers t) sk → Forall2 fits ps segs → pattern_dispatch sk method ps = Some r →
  detectDispatcher t {| rq_Method := method; rq_Path := slashed segs |} = r.
Proof.
  intros Hf Hp. unfold pattern_dispatch. destruct (pattern_handlers sk ps) as [hs|] eqn:E; [|done].
  cbn. intros [= <-]. by eapply pattern_handlers_sound.
Qed.

Section Served.
Context (gv : GroupVersion) (resource ns name : string).

Let p : list string := ["apis"; gv_Group gv; gv_Version gv].
Let sc : ReqScope := {| sc_gv := gv; sc_resource := resource; sc_subresource := "" |}.
Let status_sc : ReqScope := {| sc_gv := gv; sc_resource := resource; sc_subresource := "status" |}.
Let a : option admission := Some newAlwaysAdmit.

(** Method, segments of the path, and the handler that is meant. *)
Definition served : list (string * list string * Handler) :=
  [("GET", p ++ [resource], ListResource sc false);
   ("GET", p ++ ["namespaces"; ns; resource], ListResource sc false);
   ("POST", p ++ ["namespaces"; ns; resource], CreateResource sc a);
   ("DELETE", p ++ ["namespaces"; ns; resource], DeleteCollection sc a);
   ("GET", p ++ ["namespaces"; ns; resource; name], GetResource sc);
   ("PUT", p ++ ["namespaces"; ns; resource; name], UpdateResource sc a);
   ("PATCH", p ++ ["namespaces"; ns; resource; name], PatchResource sc a patch_types);
   ("DELETE", p ++ ["namespaces"; ns; resource; name], DeleteResource sc true a);
   ("GET", p ++ ["watch"; resource], ListResource sc true);
   ("GET", p ++ ["watch"; "namespaces"; ns; resource], ListResource sc true);
   ("GET", p ++ ["watch"; "namespaces"; ns; resource; name], ListResource sc true)].

Definition served_status : list (string * list string * Handler) :=
  [("GET", p ++ ["namespaces"; ns; resource; name; "status"], GetResource status_sc);
   ("PUT", p ++ ["namespaces"; ns; resource; name; "status"], UpdateResource status_sc a);
   ("PATCH", p ++ ["namespaces"; ns; resource; name; "status"], PatchResource status_sc a patch_types)].

End Served.

Definition served_tasks (ns name : string) : list (string * list string * Handler) :=
  served kkcorev1alpha1 "tasks" ns name ++ served_status kkcorev1alpha1 "tasks" ns name.
Definition served_core (ns name : string) : list (string * list string * Handler) :=
  served kkcorev1 "inventories" ns name ++ served kkcorev1 "playbooks" ns name ++
  served_status kkcorev1 "playbooks" ns name.

(** A closed equation, by the virtual machine; segments that fit patterns. *)
Ltac by_computation := lazymatch goal with |- _ = ?r => vm_cast_no_check (eq_refl r) end.

Ltac fit := repeat (apply Forall2_cons; split; [first [apply fits_name; assumption | apply fits_fixed; reflexivity]|]); constructor.

Definition dispatches (sk : Skeleton) (method : string) (segs : list string) (r : result Handler) : Prop :=
  ∃ ps, Forall2 fits ps segs ∧ pattern_dispatch sk method ps = Some r.

Definition handled (sk : Skeleton) (segs : list string) (hs : gmap string Handler) : Prop :=
  ∃ ps, Forall2 fits ps segs ∧ pattern_handlers sk ps = Some hs.

Lemma remote_dispatch names ns name :
  segment ns → segment name →
  Forall (λ '(method, segs, h), dispatches (sk_routes [] (task_routes names)) method segs (Ok h)) (served_tasks ns name).
Proof.
  intros Hn Hm. unfold served_tasks, served, served_status. cbn [app].
  repeat (apply Forall_cons_2; [eexists; split; [fit|by_computation]|]). constructor.
Qed.

Lemma local_dispatch names names' ns name :
  segment ns → segment name →
  Forall (λ '(method, segs, h), dispatches (sk_routes [] (task_routes names ++ core_routes names')) method segs (Ok h))
    (served_tasks ns name ++ served_core ns name).
Proof.
  intros Hn Hm. unfold served_tasks, served_core, served, served_status. cbn [app].
  repeat (apply Forall_cons_2; [eexists; split; [fit|by_computation]|]). constructor.
Qed.

Definition respond `{ProxyLib} (h : Handler) (request : Request) : Response :=
  fold_left responseWriter_call (ServeHTTP h request) local_response.

(** [host_routes]: what is registered, and for whom, of a transport. *)
Definition host_routes (host : string) (names names' : list APIResource) : list Route :=
  task_routes names ++ if bool_decide (host = "") then core_routes names' else [].
Definition host_served (host ns name : string) : list (string * list string * Handler) :=
  served_tasks ns name ++ if bool_decide (host = "") then served_core ns name else [].

Section Requests.
Context `{RL : RegexpLib} `{SL : GoSort} `{PL : ProxyLib} {PS : @ProxyLibSpec PL}.

Lemma newProxyTransport_follows host HTTPClientFor t :
  newProxyTransport host HTTPClientFor = Ok t →
  ∃ names names', follows (routers t) (sk_routes [] (host_routes host names names')) ∧
    restClient t = if bool_decide (host = "") then None else match HTTPClientFor with inr c => Some c | inl _ => None end.
Proof.
  intros Ht. assert (host ≠ "" → ∃ c, HTTPClientFor = inr c) as Hc.
  { intros Hne. destruct HTTPClientFor as [e|c]; [|by exists c].
    unfold newProxyTransport in Ht. by rewrite bool_decide_false in Ht. }
  destruct (newProxyTransport_routers host HTTPClientFor Hc) as (t' & names & names' & Ht' & Hf & Hr).
  rewrite Ht in Ht'. injection Ht' as <-. by exists names, names'.
Qed.

Lemma host_dispatch host names names' ns name :
  segment ns → segment name →
  Forall (λ '(method, segs, h), dispatches (sk_routes [] (host_routes host names names')) method segs (Ok h))
    (host_served host ns name).
Proof.
  unfold host_routes, host_served. case_bool_decide; [apply local_dispatch|].
  rewrite !app_nil_r. apply remote_dispatch.
Qed.

Lemma served_tasks_prefix ns name :
  Forall (λ x, HasPrefix (slashed x.1.2) ("/apis/" +:+ gv_String kkcorev1alpha1) = true) (served_tasks ns name).
Proof.
  unfold served_tasks, served, served_status. cbn [app].
  repeat (apply Forall_cons_2; [reflexivity|]). constructor.
Qed.

(** A path of tasks is for the handlers here, whoever the client is. *)
Lemma host_served_local host HTTPClientFor t ns name method segs h :
  newProxyTransport host HTTPClientFor = Ok t → (method, segs, h) ∈ host_served host ns name →
  let request := {| rq_Method := method; rq_Path := slashed segs |} in
  RoundTrip t request = serve_locally t request.
Proof.
  intros Ht Hin. destruct (newProxyTransport_follows _ _ _ Ht) as (names & names' & _ & Hr).
  intros request. unfold RoundTrip. rewrite Hr. unfold host_served in Hin. case_bool_decide as E; [done|].
  destruct HTTPClientFor as [e|c]; [done|]. rewrite app_nil_r in Hin.
  pose proof (served_tasks_prefix ns name) as Hp. rewrite list.Forall_forall in Hp. specialize (Hp _ Hin).
  cbn in Hp |- *. by rewrite Hp.
Qed.

(** C29: Every request for a resource that is kept locally is answered by the
    handler that is meant for it: listing and creating in a namespace,
    deleting all of it, reading, replacing, patching and deleting one object,
    its status, listing across namespaces, and watching; for tasks whether
    there is a cluster or not, for inventories and playbooks when there is
    none. *)
Theorem requests_reach_handlers host HTTPClientFor t ns name method segs h :
  newProxyTransport host HTTPClientFor = Ok t → segment ns → segment name →
  (method, segs, h) ∈ host_served host ns name →
  let request := {| rq_Method := method; rq_Path := slashed segs |} in
  RoundTrip t request = Ok (respond h request, None).
Proof.
  intros Ht Hn Hm Hin request. unfold request. rewrite (host_served_local _ _ _ _ _ _ _ _ Ht Hin).
  destruct (newProxyTransport_follows _ _ _ Ht) as (names & names' & Hf & _).
  pose proof (host_dispatch host names names' ns name Hn Hm) as Hd. rewrite list.Forall_forall in Hd.
  destruct (Hd _ Hin) as (ps & Hps & Hpd). unfold serve_locally.
  by rewrite (pattern_dispatch_sound _ _ _ _ _ _ Hf Hps Hpd).
Qed.

(** With a cluster, any other request is its client's. *)
Theorem other_requests_to_cluster host HTTPClientFor client t request :
  newProxyTransport host HTTPClientFor = Ok t → host ≠ "" → HTTPClientFor = inr client →
  HasPrefix (rq_Path request) "/apis/kubekey.kubesphere.io/v1alpha1" = false →
  RoundTrip t request = Ok (client request).
Proof.
  intros Ht Hne -> Hp. destruct (newProxyTransport_follows _ _ _ Ht) as (names & names' & _ & Hr).
  unfold RoundTrip. rewrite Hr, bool_decide_false by done.
  change ("/apis/" +:+ gv_String kkcorev1alpha1) with "/apis/kubekey.kubesphere.io/v1alpha1". by rewrite Hp.
Qed.

(** A path under the group that names no resource, and a path below an object
    that is not its status.  [rest] is any number of further segments. *)
Definition under_group (r : string) (rest : list string) : list string :=
  ["apis"; "kubekey.kubesphere.io"; "v1"; r] ++ rest.
Definition item (gv : GroupVersion) (resource ns name : string) (below : list string) : list string :=
  ["apis"; gv_Group gv; gv_Version gv; "namespaces"; ns; resource; name] ++ below.

Definition local_resources : list (GroupVersion * string) :=
  [(kkcorev1alpha1, "tasks"); (kkcorev1, "inventories"); (kkcorev1, "playbooks")].

Lemma fits_rest_any rest : Forall segment rest → Forall2 fits (map (λ _, Any []) rest) rest.
Proof. induction 1; constructor; [by apply fits_name|done]. Qed.

Ltac fit_with H := cbn [app];
  repeat (apply Forall2_cons; split; [first [eapply fits_any; [assumption|eassumption] | apply fits_name; assumption | apply fits_fixed; reflexivity]|]);
  first [apply fits_rest_any; exact H | constructor].

Lemma group_handled names names' r rest :
  segment r → Forall segment rest → r ∉ ["namespaces"; "watch"; "inventories"; "playbooks"] →
  handled (sk_routes [] (host_routes "" names names')) (under_group r rest) {["GET" := HandlerAPIResources kkcorev1 names']}.
Proof. intros Hr Hrest Hni. unfold under_group. eexists. split; [fit_with Hrest|by_computation]. Qed.

(** The handlers of an object. *)
Definition item_handlers (gv : GroupVersion) (resource : string) : gmap string Handler :=
  let sc := {| sc_gv := gv; sc_resource := resource; sc_subresource := "" |} in
  let a := Some newAlwaysAdmit in
  {["GET" := GetResource sc; "PUT" := UpdateResource sc a; "PATCH" := PatchResource sc a patch_types;
    "DELETE" := DeleteResource sc true a]}.

Lemma item_handled names names' gv resource ns name below :
  (gv, resource) ∈ local_resources → segment ns → segment name → Forall segment below →
  head below ≠ Some "status" →
  handled (sk_routes [] (host_routes "" names names')) (item gv resource ns name below) (item_handlers gv resource).
Proof.
  intros Hin Hn Hm Hb Hne. unfold item.
  assert (∀ sub rest, below = sub :: rest → sub ∉ ["status"]) as Hsub by (intros sub rest ->; set_solver).
  unfold local_resources in Hin. rewrite !elem_of_cons, elem_of_nil in Hin.
  destruct Hin as [[= -> ->]|[[= -> ->]|[[= -> ->]|[]]]]; (destruct below as [|sub rest];
    [|apply Forall_cons in Hb as [Hs Hb]; specialize (Hsub sub rest eq_refl)]);
    eexists; (split; [fit_with Hb|by_computation]).
Qed.

(** Requests for what is not there are not all refused.  Without a
    cluster, reading a path of the group that names no resource answers with
    the list of the resources; and whatever is asked of a path below an
    object, its status apart, is asked of the object itself: deleting
    [playbooks/p/log] deletes the playbook. *)
Theorem unknown_paths_answered HTTPClientFor t :
  newProxyTransport "" HTTPClientFor = Ok t →
  (∃ names, ∀ r rest, segment r → Forall segment rest → r ∉ ["namespaces"; "watch"; "inventories"; "playbooks"] →
     detectDispatcher t {| rq_Method := "GET"; rq_Path := slashed (under_group r rest) |} =
       Ok (HandlerAPIResources kkcorev1 names)) ∧
  ∀ gv resource ns name below method,
    (gv, resource) ∈ local_resources → segment ns → segment name → Forall segment below →
    head below ≠ Some "status" →
    detectDispatcher t {| rq_Method := method; rq_Path := slashed (item gv resource ns name below) |} =
    detectDispatcher t {| rq_Method := method; rq_Path := slashed (item gv resource ns name []) |}.
Proof.
  intros Ht. destruct (newProxyTransport_follows _ _ _ Ht) as (names & names' & Hf & _). split.
  - exists names'. intros r rest Hr Hrest Hni.
    destruct (group_handled names names' r rest Hr Hrest Hni) as (ps & Hps & Hd).
    by rewrite (pattern_handlers_sound _ _ _ _ _ _ Hf Hps Hd).
  - intros gv resource ns name below method Hin Hn Hm Hb Hne.
    destruct (item_handled names names' gv resource ns name [] Hin Hn Hm) as (ps & Hps & Hd); [by constructor|done|].
    destruct (item_handled names names' gv resource ns name below Hin Hn Hm Hb Hne) as (ps' & Hps' & Hd').
    by rewrite (pattern_handlers_sound _ _ _ _ _ _ Hf Hps Hd), (pattern_handlers_sound _ _ _ _ _ _ Hf Hps' Hd').
Qed.

End Requests.

(** ** A library for which all of this holds *)

Section Example_library.

Definition example_store : Storage :=
  {| st_scoper := Some true; st_lister := true; st_tableConvertor := true; st_creater := true;
     st_namedCreater := false; st_updater := true; st_patcher := true; st_getter := true;
     st_getterWithOptions := None; st_gracefulDeleter := true; st_collectionDeleter := true;
     st_watcher := true; st_connecter := None; st_singular := Some "playbook"; st_shortNames := None;
     st_categories := None; st_kinds := inr []; st_versioner := None;
     st_kindError := None; st_managerError := None |}.

#[local] Instance example_regexp : RegexpLib := {| Compile_other _ := inl (Msg "error parsing regexp") |}.
#[local] Instance example_sort : GoSort := merge_go_sort.
#[local] Instance example_lib : ProxyLib := {|
  StorageVersionHash_enabled := true;
  StorageVersionHash g v k := "";
  ServeHTTP h r := [WriteHeader 200; Write "{}"];
  registry_Store _ := example_store;
  CompleteWithOptions _ := None;
  status_kindError _ := None;
  status_managerError _ := None |}.
#[local] Instance example_lib_spec : ProxyLibSpec.
Proof. by split; intros; try constructor. Qed.

Definition no_client : error + (Request → Response * option error) := inl (Msg "no host").

Definition example_transport : transport :=
  match newProxyTransport "" no_client with Ok t => t | _ => {| restClient := None; routers := [] |} end.

Lemma example_transport_ok : newProxyTransport "" no_client = Ok example_transport.
Proof.
  unfold example_transport. destruct (newProxyTransport_routers "" no_client) as (t & ? & ? & -> & _); [|done].
  by intros [].
Qed.

Lemma segment_default : segment "default".
Proof. by split. Qed.
Lemma segment_p : segment "p".
Proof. by split. Qed.
Lemma segment_log : segment "log".
Proof. by split. Qed.

Lemma requests_reach_handlers_witness :
  RoundTrip example_transport
    {| rq_Method := "GET"; rq_Path := "/apis/kubekey.kubesphere.io/v1/namespaces/default/playbooks/p" |} =
  Ok ({| rs_Proto := "local"; rs_Header := ∅; rs_StatusCode := 200; rs_Body := Some "{}" |}, None).
Proof.
  apply (@requests_reach_handlers example_regexp example_sort example_lib example_lib_spec "" no_client example_transport "default" "p" "GET"
    ["apis"; "kubekey.kubesphere.io"; "v1"; "namespaces"; "default"; "playbooks"; "p"]
    (GetResource {| sc_gv := kkcorev1; sc_resource := "playbooks"; sc_subresource := "" |})).
  - exact example_transport_ok.
  - exact segment_default.
  - exact segment_p.
  - apply elem_of_app. right. apply elem_of_app. right. do 4 right. left.
Defined.

Lemma unknown_paths_answered_witness :
  detectDispatcher example_transport
    {| rq_Method := "DELETE"; rq_Path := "/apis/kubekey.kubesphere.io/v1/namespaces/default/playbooks/p/log" |} =
  detectDispatcher example_transport
    {| rq_Method := "DELETE"; rq_Path := "/apis/kubekey.kubesphere.io/v1/namespaces/default/playbooks/p" |}.
Proof.
  apply (proj2 (unknown_paths_answered no_client example_transport example_transport_ok)
    kkcorev1 "playbooks" "default" "p" ["log"] "DELETE").
  - unfold local_resources. set_solver.
  - exact segment_default.
  - exact segment_p.
  - constructor; [exact segment_log|constructor].
  - done.
Defined.

End Example_library.
