(* ===== verification/FileStorage.v ===== *)
(** * Local storage of API objects:
      [src/feature/pkg/proxy/internal/file_storage.go] and [watcher.go]

    Without an API server, objects live in YAML files
    [<prefix>/<namespace>/<name>.yaml].  Deleting renames the file; the watcher
    sees the new name, reports the deletion and removes the file. *)

From stdpp Require Import gmap strings list sets sorting.
From S2P Require Import Prelude GoStrings.

Definition deleteTagSuffix : string := "-deleted".
Definition yamlSuffix : string := ".yaml".

(** ** The directory of a resource *)

(** The namespace directories below the prefix and their files. *)
Notation FS := (gmap string (gmap string string)).

(** What a key below the prefix names: the prefix itself, a namespace, an
    object. *)
Inductive Key := KRoot | KNamespace (ns : string) | KObject (ns name : string).

Definition name_le (a b : string) : Prop := String.leb a b = true.
#[export] Instance name_le_dec : RelDecision name_le.
Proof. intros a b. unfold name_le. apply _. Defined.

(** [os.ReadDir]: the entries by file name. *)
Definition ReadDir {A : Type} (m : gmap string A) : list (string * A) :=
  omap (λ n, a ← m !! n; Some (n, a)) (merge_sort name_le (map fst (map_to_list m))).

Section FileStorage.

(** Objects, their resource version, the codec, the versioner, the
    continuation tokens of [k8s.io/apiserver], and the operating system's
    answer to a write. *)
Context {Obj : Type} (resourceVersion : Obj → string) (SetResourceVersion : string → Obj → Obj).
Context (Encode : Obj → error + string) (Decode : string → error + Obj).
Context (ParseResourceVersion : string → error + N).
Context (EncodeContinue : string → string → error + string).
Context (DecodeContinue : string → string → error + string).
Context (write_error : string → option error).
Context (prefix : string).

Definition path_of (ns file : string) : string := prefix +:+ "/" +:+ ns +:+ "/" +:+ file.

Definition key_path (k : Key) : string :=
  match k with
  | KRoot => prefix
  | KNamespace ns => prefix +:+ "/" +:+ ns
  | KObject ns name => path_of ns name
  end.

Definition read_file (fs : FS) (ns file : string) : option string := fs !! ns ≫= λ d, d !! file.
Definition write_file (fs : FS) (ns file data : string) : FS :=
  <[ns := <[file := data]> (default ∅ (fs !! ns))]> fs.
Definition remove_file (fs : FS) (ns file : string) : FS :=
  <[ns := delete file (default ∅ (fs !! ns))]> fs.

Definition of_sum {A : Type} (what : string) (r : error + A) : result A :=
  match r with inl e => Err (Wrap what e) | inr a => Ok a end.

(** ** Objects *)

(** [Create]: the object of the request and the one to return; the directory
    is made before anything can fail. *)
Definition Create (ns name : string) (obj : Obj) (fs : FS) : result Obj * FS :=
  let obj := SetResourceVersion "1" obj in
  let fs1 := match fs !! ns with Some _ => fs | None => <[ns := ∅]> fs end in
  match Encode obj with
  | inl e => (Err (Wrap "failed to encode object" e), fs1)
  | inr data =>
      match Decode data with
      | inl e => (Err (Wrap "failed to decode output object" e), fs1)
      | inr out =>
          match write_error (path_of ns (name +:+ yamlSuffix)) with
          | Some e => (Err (Wrap "failed to create object" e), fs1)
          | None => (Ok out, write_file fs1 ns (name +:+ yamlSuffix) data)
          end
      end
  end.

Definition Get (ns name : string) (fs : FS) : result Obj :=
  match read_file fs ns (name +:+ yamlSuffix) with
  | None => Err (Wrap "failed to read object file" (Msg "file does not exist"))
  | Some data => of_sum "failed to decode output object" (Decode data)
  end.

(** [Delete]: [preconditions] and [validateDeletion] look at the object. *)
Definition Delete (ns name : string) (preconditions validateDeletion : Obj → option error)
    (cachedExistingObject : option Obj) (fs : FS) : result Obj * FS :=
  match match cachedExistingObject with Some o => Ok o | None => Get ns name fs end with
  | Err e => (Err e, fs)
  | Panic p => (Panic p, fs)
  | Ok out =>
      match preconditions out with
      | Some e => (Err (Wrap "failed to check preconditions for object" e), fs)
      | None =>
          match validateDeletion out with
          | Some e => (Err e, fs)
          | None =>
              match read_file fs ns (name +:+ yamlSuffix) with
              | None => (Err (Wrap "failed to rename object" (Msg "no such file or directory")), fs)
              | Some data =>
                  (Ok out, write_file (remove_file fs ns (name +:+ yamlSuffix)) ns
                             (name +:+ yamlSuffix +:+ deleteTagSuffix) data)
              end
          end
      end
  end.

(** [GuaranteedUpdate] *)
Definition GuaranteedUpdate (ns name : string) (preconditions : Obj → option error)
    (tryUpdate : Obj → N → error + Obj) (cachedExistingObject : option Obj) (fs : FS) : result Obj * FS :=
  match match cachedExistingObject with Some o => Ok o | None => Get ns name fs end with
  | Err e => (Err e, fs)
  | Panic p => (Panic p, fs)
  | Ok oldObj =>
      match preconditions oldObj with
      | Some e => (Err (Wrap "failed to check preconditions" e), fs)
      | None =>
          match ParseResourceVersion (resourceVersion oldObj) with
          | inl e => (Err (Wrap "failed to parse resource version" e), fs)
          | inr oldVersion =>
              match tryUpdate oldObj (oldVersion + 1)%N with
              | inl e => (Err e, fs)
              | inr out =>
                  match Encode out with
                  | inl e => (Err (Wrap "failed to encode resource file" e), fs)
                  | inr data =>
                      match Decode data with
                      | inl e => (Err (Wrap "failed to decode output object" e), fs)
                      | inr destination =>
                          match fs !! ns, write_error (path_of ns (name +:+ yamlSuffix)) with
                          | Some _, None => (Ok destination, write_file fs ns (name +:+ yamlSuffix) data)
                          | None, _ => (Err (Wrap "failed to create resource file" (Msg "no such file or directory")), fs)
                          | _, Some e => (Err (Wrap "failed to create resource file" e), fs)
                          end
                      end
                  end
              end
          end
      end
  end.

(** ** Lists *)

Record ListOptions := {
  lo_recursive : bool;
  lo_continue : string;
  lo_limit : Z;
  lo_resourceVersion : string;
  lo_resourceVersionMatch : string;
  lo_matches : Obj → option bool;      (* Predicate.Matches; None: an error *)
}.

(** The match rules: the test of a version, and the test of a path, which may
    use up its [sync.Once]. *)
Definition VersionRule := N → bool.
Definition KeyRule := bool → string → bool * bool.

Definition suffix_rule : KeyRule := λ once path, (HasSuffix path yamlSuffix, once).

(** [startRead] is a local of the rule: it is false unless this very path is
    the continuation key, which the second conjunct then rejects. *)
Definition continue_rule (continueKey : string) : KeyRule := λ once path,
  let '(startRead, once') := if bool_decide (path = continueKey) then (negb once, true) else (false, once) in
  (startRead && negb (bool_decide (path = continueKey)), once').

(** [buildMatchRules] *)
Definition buildMatchRules (key : string) (opts : ListOptions) : result (VersionRule * KeyRule) :=
  if lo_recursive opts && negb (bool_decide (lo_continue opts = "")) then
    let! continueKey := of_sum "invalid continue token" (DecodeContinue (lo_continue opts) key) in
    Ok (λ _, true, continue_rule continueKey)
  else if negb (bool_decide (lo_resourceVersion opts = "")) then
    let! parsedRV := of_sum "invalid resource version" (ParseResourceVersion (lo_resourceVersion opts)) in
    if bool_decide (lo_resourceVersionMatch opts = "NotOlderThan") then Ok (λ u, N.leb parsedRV u, suffix_rule)
    else if bool_decide (lo_resourceVersionMatch opts = "Exact") then Ok (λ u, N.eqb u parsedRV, suffix_rule)
    else if bool_decide (lo_resourceVersionMatch opts = "") then Ok (λ _, true, suffix_rule)
    else Err (Msg "unknown ResourceVersionMatch value")
  else Ok (λ _, true, suffix_rule).

(** The state of a listing: the objects, the last key, whether there is more,
    and the [sync.Once]. *)
Record Listing := { l_items : list Obj; l_lastKey : string; l_hasMore : bool; l_once : bool }.

(** [processResourceFile] *)
Definition processResourceFile (rules : VersionRule * KeyRule) (opts : ListOptions)
    (path data : string) (l : Listing) : result Listing :=
  let '(keep, once) := rules.2 (l_once l) path in
  let l := {| l_items := l_items l; l_lastKey := l_lastKey l; l_hasMore := l_hasMore l; l_once := once |} in
  if negb keep then Ok l
  else
    let! obj := of_sum "failed to decode object" (Decode data) in
    let! rv := of_sum "failed to parse resource version" (ParseResourceVersion (resourceVersion obj)) in
    if negb (rules.1 rv) then Ok l
    else match lo_matches opts obj with
         | Some true => Ok {| l_items := l_items l ++ [obj]; l_lastKey := path; l_hasMore := l_hasMore l; l_once := once |}
         | _ => Ok l
         end.

(** [opts.Predicate.Limit != 0 && int64(v.Len()) >= opts.Predicate.Limit] *)
Definition limit_reached (opts : ListOptions) (l : Listing) : bool :=
  negb (bool_decide (lo_limit opts = 0%Z)) && bool_decide (lo_limit opts ≤ Z.of_nat (length (l_items l)))%Z.

Definition set_hasMore (b : bool) (l : Listing) : Listing :=
  {| l_items := l_items l; l_lastKey := l_lastKey l; l_hasMore := b; l_once := l_once l |}.

(** [processNamespaceDirectory]: stops at the limit and says there is more. *)
Fixpoint processNamespaceDirectory (rules : VersionRule * KeyRule) (opts : ListOptions) (ns : string)
    (entries : list (string * string)) (l : Listing) : result Listing :=
  match entries with
  | [] => Ok l
  | (file, data) :: rest =>
      let! l1 := processResourceFile rules opts (path_of ns file) data l in
      if limit_reached opts l1 then Ok (set_hasMore true l1)
      else processNamespaceDirectory rules opts ns rest l1
  end.

(** The loop of [GetList] over the root entries: at the limit [hasMore] is
    whether this was the last entry. *)
Fixpoint process_entries {A : Type} (step : A → Listing → result Listing) (opts : ListOptions)
    (entries : list A) (l : Listing) : result Listing :=
  match entries with
  | [] => Ok l
  | e :: rest =>
      let! l1 := step e l in
      if limit_reached opts l1 then Ok (set_hasMore (nonempty rest) l1)
      else process_entries step opts rest l1
  end.

(** [handleResult]: the items and the continuation token. *)
Definition handleResult (l : Listing) : result (list Obj * string) :=
  if l_hasMore l then
    let! next := of_sum "failed to encode continue"
                   (EncodeContinue (l_lastKey l +:+ String Ascii.zero "") "") in
    Ok (l_items l, next)
  else Ok (l_items l, "").

(** [getRootEntries] of a key: [filepath.SplitList] splits at the list
    separator, so an object key is a directory like a namespace. *)
Definition list_entries (k : Key) (fs : FS) : list (string * gmap string string) + (string * list (string * string)) :=
  match k with
  | KRoot => inl (ReadDir fs)
  | KNamespace ns => inr (ns, ReadDir (default ∅ (fs !! ns)))
  | KObject ns name => inr (ns +:+ "/" +:+ name, [])
  end.

(** [GetList] *)
Definition GetList (k : Key) (opts : ListOptions) (fs : FS) : result (list Obj * string) :=
  let! rules := buildMatchRules (key_path k) opts in
  let start := {| l_items := []; l_lastKey := ""; l_hasMore := false; l_once := false |} in
  let! l := match list_entries k fs with
            | inl dirs =>
                process_entries (λ '(ns, d) l, processNamespaceDirectory rules opts ns (ReadDir d) l) opts dirs start
            | inr (ns, files) =>
                process_entries (λ '(file, data) l, processResourceFile rules opts (path_of ns file) data l) opts files start
            end in
  handleResult l.

(** [Count] *)
Definition countByNSDir (d : gmap string string) : nat :=
  length (List.filter (λ e : string * string, HasSuffix e.1 yamlSuffix) (ReadDir d)).

Definition Count (k : Key) (fs : FS) : result nat :=
  match k with
  | KRoot => Ok (fold_left (λ n (e : string * gmap string string), n + countByNSDir e.2) (ReadDir fs) 0)
  | KNamespace ns =>
      match fs !! ns with
      | Some d => Ok (countByNSDir d)
      | None => Err (Wrap "failed to read namespaces dir" (Msg "no such file or directory"))
      end
  | KObject _ _ => Err (Wrap "failed to read namespaces dir" (Msg "no such file or directory"))
  end.

(** ** Watching *)

Inductive FileOp := OpCreate | OpWrite | OpRemove | OpRename.

Inductive WatchEvent := Added (o : Obj) | Modified (o : Obj) | Deleted (o : Obj).

(** [watchFile] for a file of a namespace; [named]: the object has a name or
    a name prefix. *)
Definition watchFile (named : Obj → bool) (op : FileOp) (ns file : string) (fs : FS) : list WatchEvent * FS :=
  if negb (HasSuffix file yamlSuffix) && negb (HasSuffix file (yamlSuffix +:+ deleteTagSuffix)) then ([], fs)
  else
    match read_file fs ns file with
    | None => ([], fs)
    | Some data =>
        match Decode data with
        | inl _ => ([], fs)
        | inr obj =>
            if negb (named obj) then ([], fs)
            else match op with
                 | OpCreate =>
                     if HasSuffix file deleteTagSuffix then ([Deleted obj], remove_file fs ns file)
                     else ([Added obj], fs)
                 | OpWrite => ([Modified obj], fs)
                 | _ => ([], fs)
                 end
        end
    end.

(** ** Files *)

Lemma yaml_inj (a b : string) : a +:+ yamlSuffix = b +:+ yamlSuffix → a = b.
Proof.
  intros H. apply (f_equal str_rev) in H. rewrite !str_rev_app_distr in H. apply str_app_inj_l in H.
  apply (f_equal str_rev) in H. by rewrite !str_rev_involutive in H.
Qed.

Lemma read_write fs ns file data : read_file (write_file fs ns file data) ns file = Some data.
Proof. unfold read_file, write_file. rewrite lookup_insert_eq. simpl. apply lookup_insert_eq. Qed.

Lemma read_write_ne fs ns file data ns' file' :
  (ns, file) ≠ (ns', file') → read_file (write_file fs ns file data) ns' file' = read_file fs ns' file'.
Proof.
  intros H. unfold read_file, write_file. destruct (decide (ns = ns')) as [->|].
  - rewrite lookup_insert_eq. simpl. rewrite lookup_insert_ne by congruence. by destruct (fs !! ns').
  - by rewrite lookup_insert_ne.
Qed.

Lemma read_remove fs ns file : read_file (remove_file fs ns file) ns file = None.
Proof. unfold read_file, remove_file. rewrite lookup_insert_eq. simpl. apply lookup_delete_eq. Qed.

Lemma read_remove_ne fs ns file ns' file' :
  (ns, file) ≠ (ns', file') → read_file (remove_file fs ns file) ns' file' = read_file fs ns' file'.
Proof.
  intros H. unfold read_file, remove_file. destruct (decide (ns = ns')) as [->|].
  - rewrite lookup_insert_eq. simpl. rewrite lookup_delete_ne by congruence. by destruct (fs !! ns').
  - by rewrite lookup_insert_ne.
Qed.

(** What Create returns is what Get reads afterwards, and no other file
    changes; Create never asks whether the object exists, so it replaces one. *)
Theorem Create_Get ns name obj fs out fs' :
  Create ns name obj fs = (Ok out, fs') →
  Get ns name fs' = Ok out ∧
  ∀ ns' file, (ns', file) ≠ (ns, name +:+ yamlSuffix) → read_file fs' ns' file = read_file fs ns' file.
Proof.
  unfold Create. destruct (Encode _) as [e|data]; [done|].
  destruct (Decode data) as [e|o] eqn:ED; [done|]. destruct (write_error _); [done|].
  intros [= <- <-]. split; [by unfold Get; rewrite read_write, ED|].
  intros ns' file Hne. rewrite read_write_ne by congruence.
  destruct (fs !! ns) eqn:E; [done|]. unfold read_file.
  destruct (decide (ns = ns')) as [<-|]; [|by rewrite lookup_insert_ne].
  rewrite lookup_insert_eq, E. simpl. apply lookup_empty.
Qed.

(** C28: the life of a deletion.  After Delete the object cannot be read; the
    file system reports a rename of the old name, which the watcher ignores,
    and the creation of the new one, for which it emits exactly one Deleted
    event and removes the file.  No other file is touched. *)
Theorem Delete_lifecycle named ns name pre val fs out fs1 :
  Delete ns name pre val None fs = (Ok out, fs1) → named out = true →
  let file := name +:+ yamlSuffix in
  let deleted := name +:+ yamlSuffix +:+ deleteTagSuffix in
  is_ok (Get ns name fs1) = false ∧
  watchFile named OpRename ns file fs1 = ([], fs1) ∧
  ∃ fs2, watchFile named OpCreate ns deleted fs1 = ([Deleted out], fs2) ∧
    read_file fs2 ns deleted = None ∧ read_file fs2 ns file = None ∧
    ∀ ns' f, (ns', f) ≠ (ns, file) → (ns', f) ≠ (ns, deleted) → read_file fs2 ns' f = read_file fs ns' f.
Proof.
  intros H Hn file deleted. unfold Delete in H.
  destruct (Get ns name fs) as [o|e|p] eqn:EG; [|done..].
  destruct (pre o); [done|]. destruct (val o); [done|].
  destruct (read_file fs ns (name +:+ yamlSuffix)) as [data|] eqn:ER; [|done].
  injection H as <- <-. unfold Get in EG. rewrite ER in EG.
  destruct (Decode data) as [e|o'] eqn:ED; [done|]. injection EG as ->.
  fold file deleted in ER |- *.
  assert (deleted ≠ file) as Hne.
  { unfold deleted, file. rewrite <- str_app_assoc. intros E.
    rewrite <- (str_app_nil_r (name +:+ yamlSuffix)) in E at 2. apply str_app_inj_l in E. done. }
  set (fs1 := write_file _ ns deleted data).
  assert (read_file fs1 ns file = None) as H1.
  { unfold fs1. rewrite read_write_ne by congruence. apply read_remove. }
  assert (read_file fs1 ns deleted = Some data) as H2 by apply read_write.
  split; [by unfold Get; fold file; rewrite H1|].
  split. { unfold watchFile. rewrite H1. by destruct (_ && _). }
  exists (remove_file fs1 ns deleted). split_and!.
  - unfold watchFile. assert (HasSuffix deleted (yamlSuffix +:+ deleteTagSuffix) = true) as -> by apply HasSuffix_app.
    assert (HasSuffix deleted deleteTagSuffix = true) as HS.
    { unfold deleted. rewrite <- str_app_assoc. apply HasSuffix_app. }
    rewrite andb_false_r, H2, ED, Hn. simpl. by rewrite HS.
  - apply read_remove.
  - by rewrite read_remove_ne by congruence.
  - intros ns' f Hf1 Hf2. rewrite read_remove_ne by congruence. unfold fs1.
    rewrite read_write_ne by congruence. by rewrite read_remove_ne by congruence.
Qed.

(** ** Lists *)

Lemma continue_rule_false continueKey once path : (continue_rule continueKey once path).1 = false.
Proof. unfold continue_rule. case_bool_decide; simpl; [apply andb_false_r|done]. Qed.

Lemma process_skip (rules : VersionRule * KeyRule) opts path data l :
  (∀ once path, (rules.2 once path).1 = false) →
  ∃ once, processResourceFile rules opts path data l =
          Ok {| l_items := l_items l; l_lastKey := l_lastKey l; l_hasMore := l_hasMore l; l_once := once |}.
Proof.
  intros H. unfold processResourceFile. specialize (H (l_once l) path).
  destruct (rules.2 (l_once l) path) as [keep once]. simpl in H. subst keep. by exists once.
Qed.

(** Nothing collected, nothing more. *)
Definition idle (l : Listing) : Prop := l_items l = [] ∧ l_hasMore l = false.

Lemma idle_limit opts l : idle l → (0 < lo_limit opts)%Z ∨ lo_limit opts = 0%Z → limit_reached opts l = false.
Proof.
  intros [H _] HL. unfold limit_reached. rewrite H. simpl.
  destruct HL; [rewrite (bool_decide_eq_false_2 (_ ≤ _)%Z) by lia; apply andb_false_r|by rewrite bool_decide_eq_true_2].
Qed.

Lemma process_entries_idle {A} (step : A → Listing → result Listing) opts entries l :
  (0 < lo_limit opts)%Z ∨ lo_limit opts = 0%Z →
  (∀ e l, idle l → ∃ l', step e l = Ok l' ∧ idle l') → idle l →
  ∃ l', process_entries step opts entries l = Ok l' ∧ idle l'.
Proof.
  intros HL HS. revert l. induction entries as [|e entries IH]; intros l Hl; simpl; [by exists l|].
  destruct (HS e l Hl) as (l' & -> & Hl'). simpl. rewrite idle_limit by done. by apply IH.
Qed.

(** A continued list is always empty and says it is complete: the rule
    that should start after the continuation key never accepts a file,
    whatever the store holds. *)
Theorem continued_list_is_empty k opts fs continueKey :
  lo_recursive opts = true → lo_continue opts ≠ "" → (0 ≤ lo_limit opts)%Z →
  DecodeContinue (lo_continue opts) (key_path k) = inr continueKey →
  GetList k opts fs = Ok ([], "").
Proof.
  intros HR HC HL HD. unfold GetList, buildMatchRules. rewrite HR, bool_decide_eq_false_2 by done.
  rewrite HD. cbn [of_sum rbind andb negb].
  set (rules := (λ _ : N, true, continue_rule continueKey) : VersionRule * KeyRule).
  assert (∀ opts path data l, idle l → ∃ l', processResourceFile rules opts path data l = Ok l' ∧ idle l') as HP.
  { intros opts' path data l Hl. destruct (process_skip rules opts' path data l) as [once ->].
    - intros once p. apply continue_rule_false.
    - by eexists. }
  assert ((0 < lo_limit opts)%Z ∨ lo_limit opts = 0%Z) as HL' by lia.
  set (start := {| l_items := []; l_lastKey := ""; l_hasMore := false; l_once := false |}).
  assert (idle start) as Hst by done.
  assert (∃ l, match list_entries k fs with
            | inl dirs =>
                process_entries (λ '(ns, d) l, processNamespaceDirectory rules opts ns (ReadDir d) l) opts dirs start
            | inr (ns, files) =>
                process_entries (λ '(file, data) l, processResourceFile rules opts (path_of ns file) data l) opts files start
            end = Ok l ∧ idle l) as (l & -> & [E1 E2]).
  { destruct (list_entries k fs) as [dirs|[ns files]]; apply process_entries_idle; try done.
    - intros [ns d] l Hl. generalize (ReadDir d). intros files. revert l Hl.
      induction files as [|[f data] files IH]; intros l Hl; simpl; [by exists l|].
      destruct (HP opts (path_of ns f) data l Hl) as (l' & -> & Hl'). simpl.
      rewrite idle_limit by done. by apply IH.
    - intros [f data] l Hl. by apply HP. }
  simpl. unfold handleResult. by rewrite E1, E2.
Qed.

(** The object of a file that a plain list returns. *)
Definition wanted (opts : ListOptions) (ns : string) (e : string * string) : option Obj :=
  if HasSuffix (path_of ns e.1) yamlSuffix then
    match Decode e.2 with
    | inr o => match lo_matches opts o with Some true => Some o | _ => None end
    | inl _ => None
    end
  else None.

(** Every YAML file holds an object with a version. *)
Definition readable (ns : string) (e : string * string) : Prop :=
  HasSuffix (path_of ns e.1) yamlSuffix = true →
  ∃ o v, Decode e.2 = inr o ∧ ParseResourceVersion (resourceVersion o) = inr v.

Definition plain_rules : VersionRule * KeyRule := (λ _, true, suffix_rule).

Lemma process_plain opts ns e l :
  readable ns e →
  ∃ last, processResourceFile plain_rules opts (path_of ns e.1) e.2 l =
    Ok {| l_items := l_items l ++ option_list (wanted opts ns e); l_lastKey := last;
          l_hasMore := l_hasMore l; l_once := l_once l |}.
Proof.
  intros HR. unfold processResourceFile, wanted, readable in *. cbn [plain_rules fst snd suffix_rule].
  destruct (HasSuffix _ _); simpl; [|rewrite app_nil_r; by eexists].
  destruct (HR eq_refl) as (o & v & -> & Hv). simpl. rewrite Hv. simpl.
  destruct (lo_matches opts o) as [[]|]; simpl; rewrite ?app_nil_r; by eexists.
Qed.

(** How many objects fit: all of them without a limit. *)
Definition fits (opts : ListOptions) (n : nat) : Prop :=
  lo_limit opts = 0%Z ∨ (Z.of_nat n < lo_limit opts)%Z.
#[local] Instance fits_dec opts n : Decision (fits opts n).
Proof. unfold fits. apply _. Defined.

Lemma limit_reached_fits opts l :
  (0 ≤ lo_limit opts)%Z →
  limit_reached opts l = negb (bool_decide (fits opts (length (l_items l)))).
Proof.
  intros H. unfold limit_reached, fits.
  repeat match goal with |- context [bool_decide ?P] => destruct (bool_decide_reflect P) end; simpl; lia.
Qed.

Lemma namespace_plain opts ns files l :
  (0 ≤ lo_limit opts)%Z → Forall (readable ns) files → fits opts (length (l_items l)) →
  let all := l_items l ++ omap (wanted opts ns) files in
  ∃ l', processNamespaceDirectory plain_rules opts ns files l = Ok l' ∧
    if decide (fits opts (length all)) then l_items l' = all ∧ l_hasMore l' = l_hasMore l
    else l_items l' = take (Z.to_nat (lo_limit opts)) all ∧ l_hasMore l' = true.
Proof.
  intros HL HF. revert l. induction HF as [|e files He _ IH]; intros l Hl all.
  { exists l. unfold all. simpl. rewrite app_nil_r. by destruct (decide _). }
  destruct e as [file data]. destruct (process_plain opts ns (file, data) l He) as [lk Hp].
  cbn [processNamespaceDirectory]. simpl in Hp. rewrite Hp. simpl.
  set (l1 := {| l_items := _ |}).
  assert (all = l_items l1 ++ omap (wanted opts ns) files) as Ea.
  { unfold all, l1. simpl. rewrite <- app_assoc. by destruct (wanted opts ns (file, data)). }
  rewrite limit_reached_fits by done.
  destruct (bool_decide_reflect (fits opts (length (l_items l1)))) as [Hf|Hf]; simpl.
  - rewrite Ea. exact (IH l1 Hf).
  - eexists. split; [done|]. rewrite Ea. unfold fits in *.
    assert (Z.to_nat (lo_limit opts) = length (l_items l1)) as El.
    { unfold l1 in *. simpl in *. rewrite length_app in *.
      destruct (wanted opts ns (file, data)); simpl in *; lia. }
    destruct (decide _) as [[H|H]|_]; [lia|rewrite length_app in H; lia|].
    simpl. by rewrite El, take_app_length.
Qed.

Definition all_wanted (opts : ListOptions) (dirs : list (string * gmap string string)) : list Obj :=
  concat (map (λ e, omap (wanted opts e.1) (ReadDir e.2)) dirs).

Lemma entries_plain opts dirs l :
  (0 ≤ lo_limit opts)%Z → Forall (λ e, Forall (readable e.1) (ReadDir e.2)) dirs → fits opts (length (l_items l)) →
  l_hasMore l = false →
  let all := l_items l ++ all_wanted opts dirs in
  ∃ l', process_entries (λ '(ns, d) l, processNamespaceDirectory plain_rules opts ns (ReadDir d) l) opts dirs l = Ok l' ∧
    (fits opts (length all) → l_items l' = all ∧ l_hasMore l' = false) ∧
    (∀ before last, dirs = before ++ [last] → fits opts (length (l_items l ++ all_wanted opts before)) →
       ¬ fits opts (length all) → l_items l' = take (Z.to_nat (lo_limit opts)) all ∧ l_hasMore l' = false).
Proof.
  intros HL HF. revert l. induction HF as [|[ns d] dirs He _ IH]; intros l Hl Hm all.
  { exists l. unfold all. simpl. rewrite app_nil_r. split; [done|]. split; [done|]. by intros [|??] ? [=]. }
  cbn [process_entries]. destruct (namespace_plain opts ns (ReadDir d) l HL He Hl) as (l1 & -> & H1).
  simpl. rewrite limit_reached_fits by done.
  assert (all = (l_items l ++ omap (wanted opts ns) (ReadDir d)) ++ all_wanted opts dirs) as Ea.
  { unfold all, all_wanted. simpl. by rewrite app_assoc. }
  destruct (decide (fits opts (length (l_items l ++ omap (wanted opts ns) (ReadDir d))))) as [Hf|Hf].
  - destruct H1 as [E1 E2]. rewrite E1, bool_decide_eq_true_2 by done. simpl.
    destruct (IH l1) as (l' & -> & A & B); [by rewrite E1|congruence|].
    rewrite E1, <- Ea in A. exists l'. split; [done|]. split; [done|].
    intros [|b before] last HD Hb Hn.
    + simpl in HD. injection HD as <- ->. destruct Hn. rewrite Ea. simpl. by rewrite app_nil_r.
    + injection HD as <- HD. rewrite Ea, <- E1. apply (B before last HD); [|by rewrite E1, <- Ea].
      rewrite E1. unfold all_wanted in Hb. simpl in Hb. by rewrite app_assoc in Hb.
  - destruct H1 as [E1 E2].
    assert (Z.to_nat (lo_limit opts) ≤ length (l_items l ++ omap (wanted opts ns) (ReadDir d))) as Hlen
      by (unfold fits in Hf; lia).
    assert (length (l_items l1) = Z.to_nat (lo_limit opts)) as El by (rewrite E1, length_take; lia).
    rewrite bool_decide_eq_false_2 by (rewrite El; unfold fits in *; lia). simpl.
    eexists. split; [done|]. simpl. split.
    + intros Hx. exfalso. unfold fits in *. rewrite Ea, length_app in Hx. lia.
    + intros [|b before] last HD Hb Hn.
      * simpl in HD. injection HD as <- ->. simpl. rewrite E1, Ea. simpl. by rewrite app_nil_r.
      * injection HD as <- HD. exfalso. unfold fits, all_wanted in *. simpl in Hb.
        rewrite !length_app in *. lia.
Qed.

(** A list over all namespaces without limit or token returns exactly the
    matching objects of all YAML files, by namespace and file name.  With a
    limit that is reached in the last namespace directory it returns that many
    and an empty token, so the client takes a truncated list for a complete
    one. *)
Theorem GetList_all opts fs :
  lo_continue opts = "" → lo_resourceVersion opts = "" → (0 ≤ lo_limit opts)%Z →
  Forall (λ e, Forall (readable e.1) (ReadDir e.2)) (ReadDir fs) →
  let all := all_wanted opts (ReadDir fs) in
  (fits opts (length all) → GetList KRoot opts fs = Ok (all, "")) ∧
  (∀ before last, ReadDir fs = before ++ [last] → fits opts (length (all_wanted opts before)) →
     ¬ fits opts (length all) → GetList KRoot opts fs = Ok (take (Z.to_nat (lo_limit opts)) all, "")).
Proof.
  intros HC HV HL HF all. unfold GetList, buildMatchRules. rewrite HC, HV.
  rewrite (bool_decide_eq_true_2 ("" = "")) by done. rewrite andb_false_r. cbn [negb rbind list_entries].
  fold plain_rules. set (start := {| l_items := []; l_lastKey := ""; l_hasMore := false; l_once := false |}).
  assert (HX : lo_limit opts = 0%Z ∨ (0 < lo_limit opts)%Z) by lia.
  destruct (entries_plain opts (ReadDir fs) start HL HF HX eq_refl) as (l & -> & A & B).
  simpl in A, B. fold all in A, B. simpl. split.
  - intros Hf. destruct (A Hf) as [E1 E2]. unfold handleResult. by rewrite E2, E1.
  - intros before last HD Hb Hn. destruct (B before last HD Hb Hn) as [E1 E2]. unfold handleResult. by rewrite E2, E1.
Qed.

End FileStorage.

(** ** Small instances *)

(** Objects that are their own text. *)
Definition text_encode (o : string) : error + string := inr o.
Definition text_version (_ : string) : error + N := inr 1%N.
Definition text_token (k _ : string) : error + string := inr k.
Definition small_fs : FS := {["default" := {["a.yaml" := "A"; "b.yaml" := "B"]}]}.
Definition plain_options (limit : Z) (continue : string) : ListOptions (Obj:=string) :=
  {| lo_recursive := true; lo_continue := continue; lo_limit := limit; lo_resourceVersion := "";
     lo_resourceVersionMatch := ""; lo_matches := λ _, Some true |}.

Lemma Create_Get_witness :
  let '(r, fs') := Create (λ _ o, o) text_encode text_encode (λ _, None) "/p" "default" "a" "new" small_fs in
  r = Ok "new" ∧ Get text_encode "default" "a" fs' = Ok "new".
Proof.
  destruct (Create _ _ _ _ _ _ _ _ _) as [r fs'] eqn:E.
  assert (r = Ok "new") as -> by (change r with (r, fs').1; rewrite <- E; vm_compute; reflexivity).
  split; [done|]. by apply (Create_Get (λ _ o, o) text_encode text_encode (λ _, None) "/p" _ _ "new" small_fs).
Defined.

Lemma Delete_lifecycle_witness :
  let '(r, fs1) := Delete text_encode "default" "a" (λ _, None) (λ _, None) None small_fs in
  r = Ok "A" ∧ ∃ fs2, watchFile text_encode (λ _, true) OpCreate "default" "a.yaml-deleted" fs1 = ([Deleted "A"], fs2) ∧
  read_file fs2 "default" "b.yaml" = Some "B".
Proof.
  destruct (Delete _ _ _ _ _ _ _) as [r fs1] eqn:E.
  assert (r = Ok "A") as -> by (change r with (r, fs1).1; rewrite <- E; vm_compute; reflexivity).
  split; [done|].
  destruct (Delete_lifecycle text_encode (λ _, true) "default" "a" (λ _, None) (λ _, None) small_fs "A" fs1 E eq_refl)
    as (_ & _ & fs2 & H1 & _ & _ & H2).
  exists fs2. split; [exact H1|]. rewrite H2; [reflexivity|done|done].
Defined.

Lemma continued_list_is_empty_witness :
  GetList (λ _, "1") text_encode text_version text_token text_token "/p" KRoot (plain_options 1 "/p/default/a.yaml") small_fs
  = Ok ([], "").
Proof. by apply (continued_list_is_empty _ _ _ _ _ _ _ _ _ "/p/default/a.yaml"). Defined.

Lemma GetList_all_witness :
  GetList (λ _, "1") text_encode text_version text_token text_token "/p" KRoot (plain_options 0 "") small_fs
  = Ok (["A"; "B"], "") ∧
  GetList (λ _, "1") text_encode text_version text_token text_token "/p" KRoot (plain_options 1 "") small_fs
  = Ok (["A"], "").
Proof.
  assert (∀ e : string * gmap string string,
            Forall (readable (λ _, "1") text_encode text_version "/p" e.1) (ReadDir e.2)) as HR.
  { intros e. apply list.Forall_forall. intros f _ _. by exists f.2, 1%N. }
  split.
  - destruct (GetList_all (λ _, "1") text_encode text_version text_token text_token "/p" (plain_options 0 "") small_fs)
      as [H _]; [done|done|done|by apply list.Forall_forall|].
    rewrite H; [vm_compute; reflexivity|by left].
  - destruct (GetList_all (λ _, "1") text_encode text_version text_token text_token "/p" (plain_options 1 "") small_fs)
      as [_ H]; [done|done|done|by apply list.Forall_forall|].
    rewrite (H [] ("default", {["a.yaml" := "A"; "b.yaml" := "B"]})); [vm_compute; reflexivity| | |].
    + vm_compute. reflexivity.
    + right. vm_compute. reflexivity.
    + intros [Hz|Hz]; vm_compute in Hz; discriminate Hz.
Defined.
