(* ===== verification/Query.v ===== *)
(** * Lists of the web API: [src/feature/pkg/web/query]

    A list request selects by filters, sorts and cuts out a page. *)

From stdpp Require Import gmap strings list sets.
From S2P Require Import Prelude GoStrings.
From Stdlib Require Import ZArith.

(** ** Pagination *)

Record Pagination := { Limit : Z; Offset : Z }.

Definition newPagination (limit offset : Z) : Pagination := {| Limit := limit; Offset := offset |}.
Definition NoPagination : Pagination := newPagination (-1) 0.

(** [GetValidPagination], on 64-bit integers. *)
Definition GetValidPagination (p : Pagination) (total : Z) : Z * Z :=
  if bool_decide (Limit p = Limit NoPagination) then (0, total)%Z
  else if bool_decide (Limit p < 0 ∨ Offset p < 0 ∨ total < Offset p)%Z then (0, 0)%Z
  else
    let endIndex := wrap64 (Offset p + Limit p) in
    (Offset p, if bool_decide (total < endIndex)%Z then total else endIndex).

(** [filtered[start:end]] *)
Definition slice {T : Type} (l : list T) (s e : Z) : result (list T) :=
  if bool_decide (0 ≤ s ∧ s ≤ e ∧ e ≤ Z.of_nat (length l))%Z
  then Ok (take (Z.to_nat (e - s)) (drop (Z.to_nat s) l))
  else Panic "slice bounds out of range".

(** ** Requests *)

Definition ParameterLabelSelector : string := "labelSelector".
Definition ParameterPage : string := "page".
Definition ParameterLimit : string := "limit".
Definition ParameterOrderBy : string := "sortBy".
Definition ParameterAscending : string := "ascending".
Definition FieldName : string := "name".
Definition FieldNames : string := "names".
Definition FieldUID : string := "uid".
Definition FieldCreationTimeStamp : string := "creationTimestamp".
Definition FieldLabel : string := "label".
Definition FieldAnnotation : string := "annotation".
Definition FieldNamespace : string := "namespace".
Definition FieldOwnerReference : string := "ownerReference".
Definition FieldOwnerKind : string := "ownerKind".

Record Filter := { Field : string; Value : string }.

Record Query := {
  q_pagination : option Pagination;
  q_sortBy : string;
  q_ascending : bool;
  q_filters : gmap string string;
  q_labelSelector : string;
}.

(** [New] *)
Definition new_query : Query :=
  {| q_pagination := Some NoPagination; q_sortBy := ""; q_ascending := false; q_filters := ∅; q_labelSelector := "" |}.

(** The query of a URL, and the first value of a parameter. *)
Notation Params := (gmap string (list string)).
Definition QueryParameter (r : Params) (k : string) : string := default "" (r !! k ≫= head).

Definition DefaultString (value defaultValue : string) : string :=
  if bool_decide (value = "") then defaultValue else value.

(** [strconv.ParseBool] *)
Definition ParseBool (s : string) : option bool :=
  if contains ["1"; "t"; "T"; "TRUE"; "true"; "True"] s then Some true
  else if contains ["0"; "f"; "F"; "FALSE"; "false"; "False"] s then Some false
  else None.

Definition reserved : list string :=
  [ParameterPage; ParameterLimit; ParameterOrderBy; ParameterAscending; ParameterLabelSelector].

(** [ParseQueryParameter] *)
Definition ParseQueryParameter (r : Params) : Query :=
  let limit := default (-1)%Z (Atoi (QueryParameter r ParameterLimit)) in
  let page := default 1%Z (Atoi (QueryParameter r ParameterPage)) in
  {| q_pagination := Some (newPagination limit (wrap64 (wrap64 (page - 1) * limit)));
     q_sortBy := DefaultString (QueryParameter r ParameterOrderBy) FieldCreationTimeStamp;
     q_ascending := default false (ParseBool (DefaultString (QueryParameter r ParameterAscending) "false"));
     q_filters := map_imap (λ k vs, if contains reserved k then None else Some (default "" (head vs))) r;
     q_labelSelector := QueryParameter r ParameterLabelSelector |}.

(** ** Lists *)

Record ListResult (T : Type) := { Items : list T; TotalItems : Z }.
Arguments Items {T} l.
Arguments TotalItems {T} l.

Section DefaultList.
Context {T : Type}.

(** [sort.Slice] *)
Context (sort_Slice : (T → T → bool) → list T → list T).
Context (compareFunc : T → T → string → bool) (filterFunc : T → Filter → bool).

Definition selected (q : Query) (o : T) : bool :=
  forallb (λ fv : string * string, filterFunc o {| Field := fv.1; Value := fv.2 |}) (map_to_list (q_filters q)).

(** [DefaultList] *)
Definition DefaultList (objects : list T) (q : Query) (transformFuncs : list (T → T)) : result (ListResult T) :=
  let filtered := map (λ o, fold_left (λ o f, f o) transformFuncs o) (List.filter (selected q) objects) in
  let sorted := sort_Slice (λ a b, if negb (q_ascending q) then compareFunc a b (q_sortBy q)
                                   else negb (compareFunc a b (q_sortBy q))) filtered in
  let total := Z.of_nat (length sorted) in
  let '(s, e) := GetValidPagination (default NoPagination (q_pagination q)) total in
  let! items := slice sorted s e in
  Ok {| Items := items; TotalItems := total |}.

End DefaultList.

(** ** The default order and filter of Kubernetes objects *)

Record OwnerReference := { or_uid : string; or_kind : string }.

Record ObjectMeta := {
  om_name : string;
  om_namespace : string;
  om_uid : string;
  om_creation : Z;
  om_owners : list OwnerReference;
  om_labels : gmap string string;
  om_annotations : gmap string string;
}.

Definition str_gtb (a b : string) : bool := String.ltb b a.

Definition DefaultObjectMetaCompare (left right : ObjectMeta) (sortBy : string) : bool :=
  if bool_decide (sortBy = FieldName) then str_gtb (om_name left) (om_name right)
  else if bool_decide (om_creation left = om_creation right) then str_gtb (om_name left) (om_name right)
  else bool_decide (om_creation right < om_creation left)%Z.

Section Filters.

(** [labels.Parse] and [Matches]; [None]: the selector is invalid. *)
Context (labels_match : string → gmap string string → option bool).

Definition labelMatch (m : gmap string string) (filter : string) : bool :=
  default false (labels_match filter m).

Definition comma : Ascii.ascii := Ascii.ascii_of_nat 44.

Definition DefaultObjectMetaFilter (item : ObjectMeta) (f : Filter) : bool :=
  let on (field : string) := bool_decide (Field f = field) in
  if on FieldNames then existsb (λ n, bool_decide (om_name item = n)) (Split (Value f) comma)
  else if on FieldName then Contains (om_name item) (Value f)
  else if on FieldUID then bool_decide (om_uid item = Value f)
  else if on FieldNamespace then bool_decide (om_namespace item = Value f)
  else if on FieldOwnerReference then existsb (λ o, bool_decide (or_uid o = Value f)) (om_owners item)
  else if on FieldOwnerKind then existsb (λ o, bool_decide (or_kind o = Value f)) (om_owners item)
  else if on FieldAnnotation then labelMatch (om_annotations item) (Value f)
  else if on FieldLabel then labelMatch (om_labels item) (Value f)
  else true.

End Filters.

(** ** Fields by their JSON names: [query/field.go]

    A struct is the list of its fields in their order, each with its JSON tag,
    its name and its value; only strings and integers are looked into. *)

Inductive field_value := FString (s : string) | FInt (z : Z) | FOther.

Record struct_field := { sf_tag : string; sf_name : string; sf_value : field_value }.

(** The tag is the name asked for, up to the first comma. *)
Definition tag_matches (jsonTag filed : string) : bool :=
  bool_decide (jsonTag = filed) ||
  (bool_decide (jsonTag ≠ "") && bool_decide (jsonTag = filed +:+ ",omitempty")) ||
  (bool_decide (jsonTag ≠ "") && HasPrefix jsonTag filed &&
   match TrimPrefix jsonTag filed with String.EmptyString => true | String.String a _ => bool_decide (a = comma) end).

(** [None]: the zero Value. *)
Definition GetFieldByJSONTag (obj : list struct_field) (filed : string) : option field_value :=
  match List.find (λ f, tag_matches (sf_tag f) filed) obj with
  | Some f => Some (sf_value f)
  | None => sf_value <$> List.find (λ f, bool_decide (sf_name f = filed)) obj
  end.

(** ** Properties *)

(** The query for page [p] of [limit] items. *)
Definition with_page (q : Query) (limit p : Z) : Query :=
  {| q_pagination := Some (newPagination limit (wrap64 (wrap64 (p - 1) * limit))); q_sortBy := q_sortBy q;
     q_ascending := q_ascending q; q_filters := q_filters q; q_labelSelector := q_labelSelector q |}.

Lemma concat_pages {T} (l : list T) (k n : nat) :
  concat (map (λ i, take k (drop (i * k) l)) (seq 0 n)) = take (n * k) l.
Proof.
  induction n as [|n IH]; [done|]. rewrite seq_S, map_app, concat_app, IH. simpl.
  rewrite app_nil_r, (Nat.add_comm k). apply take_take_drop.
Qed.

Lemma GetValidPagination_page limit p n total :
  (0 < limit)%Z → (1 ≤ p)%Z → (p * limit ≤ max_int)%Z → (0 ≤ total)%Z → n = Z.to_nat (p - 1) →
  let '(s, e) := GetValidPagination (newPagination limit (wrap64 (wrap64 (p - 1) * limit))) total in
  (0 ≤ s ≤ e)%Z ∧ (e ≤ total)%Z ∧
  ∀ {T} (l : list T), Z.of_nat (length l) = total →
    take (Z.to_nat (e - s)) (drop (Z.to_nat s) l) = take (Z.to_nat limit) (drop (n * Z.to_nat limit) l).
Proof.
  intros HL Hp Hmax Ht ->. assert (min_int ≤ 0)%Z as Hmin by done.
  rewrite (wrap64_small (p - 1)) by nia. rewrite wrap64_small by nia.
  unfold GetValidPagination. cbn [Limit Offset newPagination NoPagination].
  rewrite bool_decide_eq_false_2 by lia. case_bool_decide as Ho.
  - split; [lia|]. split; [lia|]. intros T l Hl.
    rewrite (drop_ge l (Z.to_nat (p - 1) * Z.to_nat limit)) by nia. by rewrite take_nil.
  - rewrite wrap64_small by nia. case_bool_decide as He; (split; [nia|]; split; [lia|]; intros T l Hl).
    + replace (Z.to_nat (p - 1) * Z.to_nat limit) with (Z.to_nat ((p - 1) * limit)) by nia.
      rewrite !take_ge; [done|rewrite length_drop; nia|rewrite length_drop; nia].
    + replace (Z.to_nat (p - 1) * Z.to_nat limit) with (Z.to_nat ((p - 1) * limit)) by nia.
      f_equal. f_equal. lia.
Qed.


(** Page and limit are multiplied and added without a check for overflow: a
    request for page -1 with the largest limit makes the offset 2 and the end
    negative, and cutting out the page panics as soon as two objects match. *)
Theorem page_overflow_panics {T} sort compare filter (objects : list T) transforms :
  (∀ less l, length (sort less l) = length l) →
  (∀ o f, filter o f = true) →
  2 ≤ length objects → (Z.of_nat (length objects) ≤ max_int)%Z →
  DefaultList sort compare filter objects
    (ParseQueryParameter {["limit" := ["9223372036854775807"]; "page" := ["-1"]]}) transforms
  = Panic "slice bounds out of range".
Proof.
  intros HS HF H2 HM.
  set (q := ParseQueryParameter _).
  assert (q_pagination q = Some (newPagination max_int 2)) as Hq by (vm_compute; reflexivity).
  unfold DefaultList. rewrite Hq. cbn [default from_option id].
  assert (List.filter (selected filter q) objects = objects) as ->.
  { clear -HF. induction objects as [|o l IH]; simpl; [done|].
    assert (selected filter q o = true) as -> by (apply forallb_forall; intros; apply HF). by rewrite IH. }
  rewrite HS, length_map. unfold GetValidPagination.
  cbn [Limit Offset newPagination NoPagination].
  rewrite bool_decide_eq_false_2 by done. rewrite bool_decide_eq_false_2 by (unfold max_int; lia).
  replace (wrap64 (2 + max_int)) with (min_int + 1)%Z by reflexivity.
  rewrite bool_decide_eq_false_2 by (unfold min_int; lia).
  unfold slice. rewrite bool_decide_eq_false_2 by (unfold min_int; lia). done.
Qed.


Lemma page_overflow_panics_witness :
  DefaultList (λ _ l, l) (λ _ _ _, true) (λ o _, true) [5; 6]
    (ParseQueryParameter {["limit" := ["9223372036854775807"]; "page" := ["-1"]]}) []
  = Panic "slice bounds out of range".
Proof. apply page_overflow_panics; [done|done|simpl; lia|done]. Defined.
