(* ===== verification/Net.v ===== *)
(** * Address ranges: [src/feature/pkg/utils/ip.go] and its predecessor
      [src/cmd/kk/pkg/core/util/ip.go]

    A host entry may be an address, a range of addresses or a network; both
    programs expand it into a list.  An address is the list of its bytes, as
    in [net.IP]. *)

From stdpp Require Import list strings.
From S2P Require Import Prelude GoStrings.
From Stdlib Require Import ZArith Lia.
Open Scope Z_scope.

(** ** Bytes and numbers *)

Notation IP := (list Z).

(** [big.Int.SetBytes]: big endian. *)
Definition of_bytes (l : list Z) : Z := fold_left (λ acc b, acc * 256 + b) l 0.

(** [big.Int.Bytes]: the bytes of a natural number, without leading zeros;
    [fuel] bytes at most. *)
Fixpoint to_bytes (fuel : nat) (n : Z) : list Z :=
  match fuel with
  | O => []
  | S fuel' => if n <=? 0 then [] else to_bytes fuel' (n / 256) ++ [n mod 256]
  end.

(** Enough bytes for any number below [2 ^ 256]. *)
Definition Bytes (n : Z) : list Z := to_bytes 32 n.

Definition is_byte (b : Z) : Prop := 0 <= b < 256.

(** [math.MaxUint32] *)
Definition MaxUint32 : Z := 2 ^ 32 - 1.

(** [To4]: the four bytes of an IPv4 address, also in its 16-byte form. *)
Definition v4InV6Prefix : list Z := [0; 0; 0; 0; 0; 0; 0; 0; 0; 0; 255; 255].
Definition To4 (ip : IP) : option IP :=
  if (length ip =? 4)%nat then Some ip
  else if (length ip =? 16)%nat && bool_decide (take 12 ip = v4InV6Prefix) then Some (drop 12 ip)
  else None.

Definition To16 (ip : IP) : option IP :=
  if (length ip =? 4)%nat then Some (v4InV6Prefix ++ ip)
  else if (length ip =? 16)%nat then Some ip
  else None.

Definition ip4ToInt (ip : IP) : Z :=
  match To4 ip with Some ip => of_bytes ip | None => 0 end.

Definition intToIP4 (n : Z) : IP :=
  let n := if MaxUint32 <? n then MaxUint32 else n in
  let b := Bytes n in
  if (length b <? 4)%nat then repeat 0 (4 - length b) ++ b
  else if (4 <? length b)%nat then drop (length b - 4) b
  else b.

Definition ip6ToInt (ip : IP) : Z :=
  match To16 ip with Some ip => of_bytes ip | None => 0 end.

(** [intToIP6]: [make([]byte, 0, n)] is empty, whatever its capacity, so
    nothing is put in front of [b]. *)
Definition intToIP6 (n : Z) : IP :=
  let b := Bytes n in
  if (length b <? 16)%nat then let pad := [] in pad ++ b else b.

(** [for n := start; n <= stop; n++ { append(f(n)) }]; [None]: still running
    after [fuel] turns. *)
Fixpoint count_up {A : Type} (fuel : nat) (n stop : Z) (f : Z → A) : option (list A) :=
  if stop <? n then Some []
  else match fuel with
       | O => None
       | S fuel' => l ← count_up fuel' (n + 1) stop f; Some (f n :: l)
       end.

(** Turns of the loop from [start] to [stop]. *)
Definition span (start stop : Z) : nat := Z.to_nat (stop - start + 1).

(** ** [getAvailableIPRange], from parsed addresses *)
Definition getAvailableIPRange (startIP endIP : IP) : option (list IP) :=
  match To4 startIP, To4 endIP with
  | Some s, Some e => count_up (span (ip4ToInt s) (ip4ToInt e)) (ip4ToInt s) (ip4ToInt e) intToIP4
  | _, _ =>
      match To16 startIP, To16 endIP with
      | Some s, Some e => count_up (span (ip6ToInt s) (ip6ToInt e)) (ip6ToInt s) (ip6ToInt e) intToIP6
      | _, _ => Some []
      end
  end.

(** ** Networks *)

Definition byte_not (b : Z) : Z := 255 - b.

(** [IP.Mask] for an address and a mask of the same length. *)
Definition apply_mask (ip mask : IP) : IP := zip_with Z.land ip mask.

(** [networkRange] *)
Definition networkRange (ip mask : IP) : IP * IP :=
  let startIP := apply_mask ip mask in
  (startIP, zip_with (λ s m, Z.lor s (byte_not m)) startIP mask).

(** [getAvailableIP] for a parsed network: without the first and the last
    address for IPv4, with both for IPv6. *)
Definition getAvailableIP (ip mask : IP) : option (list IP) :=
  let '(firstIP, lastIP) := networkRange ip mask in
  match To4 firstIP with
  | Some _ =>
      let s := ip4ToInt firstIP in
      let e := ip4ToInt lastIP in
      count_up (span (s + 1) (e - 1)) (s + 1) (e - 1) intToIP4
  | None =>
      match To16 firstIP with
      | Some _ =>
          let s := ip6ToInt firstIP in
          let e := ip6ToInt lastIP in
          count_up (span s e) s e intToIP6
      | None => Some []
      end
  end.

(** ** Masks in dotted notation *)

(** [byte(val)] *)
Definition to_byte (z : Z) : Z := z mod 256.

(** The leading ones of a byte, and whether only zeros follow. *)
Fixpoint leading_ones (bits : nat) (b : Z) : nat :=
  match bits with
  | O => 0%nat
  | S bits' => if Z.testbit b (Z.of_nat bits') then S (leading_ones bits' b) else 0%nat
  end.

(** [IPMask.Size]: the ones of a mask that is ones followed by zeros, and
    zero for any other. *)
Fixpoint simple_mask_length (mask : list Z) : option nat :=
  match mask with
  | [] => Some 0%nat
  | b :: rest =>
      if b =? 255 then n ← simple_mask_length rest; Some (8 + n)%nat
      else
        let n := leading_ones 8 b in
        if (b =? 256 - 2 ^ (8 - Z.of_nat n)) && forallb (λ x, x =? 0) rest then Some n else None
  end.

Definition mask_ones (mask : list Z) : nat := default 0%nat (simple_mask_length mask).

Definition dot : Ascii.ascii := Ascii.ascii_of_nat 46.
Definition dash : Ascii.ascii := Ascii.ascii_of_nat 45.
Definition slash : Ascii.ascii := Ascii.ascii_of_nat 47.

(** [iPMaskStringToCIDR]: a part that is not a number counts as 0, and
    [strconv.Itoa] of the ones. *)
Definition iPMaskStringToCIDR (netmask : string) : string :=
  let parts := Split netmask dot in
  if negb (length parts =? 4)%nat then "0"
  else pretty.pretty (N.of_nat (mask_ones (map (λ p, to_byte (Atoi_value p)) parts))).

(** [iPAddressToCIDR] *)
Definition iPAddressToCIDR (ipAddress : string) : string :=
  if Contains ipAddress "/" then
    match Split ipAddress slash with
    | ip :: mask :: _ =>
        let mask := if Contains mask "." then iPMaskStringToCIDR mask else mask in
        ip +:+ "/" +:+ mask
    | _ => ipAddress
    end
  else ipAddress.

(** ** [ParseIP]

    The text of an address is the library's: [net.ParseIP], [net.ParseCIDR]
    (which gives the masked address and the mask) and [net.IP.String] are
    arguments. *)
Section Text.

Context (net_ParseIP : string → option IP) (net_ParseCIDR : string → option (IP * IP)) (IP_String : IP → string).

(** [strings.SplitN(s, "-", 2)] where the separator occurs. *)
Definition SplitN2 (s : string) (c : Ascii.ascii) : string * string :=
  match Split s c with
  | first :: rest => (first, StrJoin rest (String c EmptyString))
  | [] => (s, EmptyString)
  end.

Definition range_text (ipStart ipEnd : string) : option (list string) :=
  match net_ParseIP ipStart, net_ParseIP ipEnd with
  | Some startIP, Some endIP => map IP_String <$> getAvailableIPRange startIP endIP
  | _, _ => Some []
  end.

Definition network_text (ipAndMask : string) : option (list string) :=
  match net_ParseCIDR (iPAddressToCIDR (TrimSpace ipAndMask)) with
  | Some (ip, mask) => map IP_String <$> getAvailableIP ip mask
  | None => Some []
  end.

Definition ParseIP (ip : string) : option (list string) :=
  let ip := TrimRight ip slash in
  if Contains ip "/" then
    if HasSuffix ip "/32" || HasSuffix ip "/128" then Some (take 1 (Split ip slash))
    else network_text ip
  else if Contains ip "-" then
    let '(first, last) := SplitN2 ip dash in range_text first last
  else Some [ip].

End Text.

(** ** The predecessor: the same on [int32] *)
Module Legacy.

Definition to_int32 (z : Z) : Z := (z + 2 ^ 31) mod 2 ^ 32 - 2 ^ 31.

Definition ipToInt (ip : IP) : Z := to_int32 (of_bytes ip).

(** [intToIP]: [binary.BigEndian.PutUint32] of [uint32(n)]. *)
Definition intToIP (n : Z) : IP :=
  let u := n mod 2 ^ 32 in
  [u / 2 ^ 24; u / 2 ^ 16 mod 256; u / 2 ^ 8 mod 256; u mod 256].

(** [GetAvailableIPRange] from four-byte addresses: [newNum + pos] wraps. *)
Fixpoint range_loop (fuel : nat) (newNum stop : Z) : option (list IP) :=
  if newNum <=? stop then
    match fuel with
    | O => None
    | S fuel' => l ← range_loop fuel' (to_int32 (newNum + 1)) stop; Some (intToIP newNum :: l)
    end
  else Some [].

Definition GetAvailableIPRange (fuel : nat) (firstIP endIP : IP) : option (list IP) :=
  range_loop fuel (ipToInt firstIP) (ipToInt endIP).

End Legacy.

(** ** Numbers and bytes *)

(** The bytes without the leading zeros. *)
Fixpoint strip (l : list Z) : list Z :=
  match l with
  | b :: l' => if b =? 0 then strip l' else l
  | [] => []
  end.

Lemma of_bytes_snoc l b : of_bytes (l ++ [b]) = of_bytes l * 256 + b.
Proof. unfold of_bytes. by rewrite fold_left_app. Qed.

Lemma of_bytes_bound l : Forall is_byte l → 0 <= of_bytes l < 256 ^ Z.of_nat (length l).
Proof.
  induction l as [|b l IH] using rev_ind; [done|]. intros [H1 H2%Forall_inv]%Forall_app.
  specialize (IH H1). rewrite of_bytes_snoc, length_app. unfold is_byte in H2.
  change (length [b]) with 1%nat. rewrite Nat2Z.inj_add, Z.pow_add_r by lia.
  change (256 ^ Z.of_nat 1) with 256. lia.
Qed.

Lemma strip_snoc l b :
  strip (l ++ [b]) = match strip l with [] => strip [b] | _ => strip l ++ [b] end.
Proof.
  induction l as [|x l IH]; [done|]. cbn [app strip]. destruct (x =? 0); [exact IH|done].
Qed.

Lemma strip_nil l : Forall is_byte l → strip l = [] ↔ of_bytes l = 0.
Proof.
  induction l as [|b l IH] using rev_ind; [done|]. intros [H1 H2%Forall_inv]%Forall_app.
  specialize (IH H1). pose proof (of_bytes_bound l H1). unfold is_byte in H2.
  rewrite strip_snoc, of_bytes_snoc. destruct (strip l) as [|x s] eqn:E.
  - assert (of_bytes l = 0) as -> by by apply IH. simpl. destruct (b =? 0) eqn:Eb; [|split; [done|lia]].
    split; [lia|done].
  - split; [done|]. intros Hz. assert (of_bytes l = 0) by lia.
    by assert ([] = x :: s) by (symmetry; by apply IH).
Qed.

Lemma to_bytes_of_bytes l fuel : Forall is_byte l → (length l <= fuel)%nat → to_bytes fuel (of_bytes l) = strip l.
Proof.
  revert fuel. induction l as [|b l IH] using rev_ind; intros fuel; [by destruct fuel|].
  intros [H1 H2%Forall_inv]%Forall_app HL. rewrite length_app in HL. simpl in HL.
  destruct fuel as [|fuel]; [lia|]. pose proof (of_bytes_bound l H1). unfold is_byte in H2.
  pose proof (strip_nil l H1) as HN. rewrite of_bytes_snoc, strip_snoc. cbn [to_bytes].
  destruct (Z.leb_spec (of_bytes l * 256 + b) 0).
  - assert (strip l = []) as -> by (apply HN; lia). assert (b = 0) as -> by lia. done.
  - replace ((of_bytes l * 256 + b) / 256) with (of_bytes l) by (apply (Z.div_unique _ _ _ b); lia).
    replace ((of_bytes l * 256 + b) mod 256) with b by (apply (Z.mod_unique _ _ (of_bytes l)); lia).
    rewrite IH by (done || lia). destruct (strip l) as [|x s] eqn:E; [|done].
    assert (of_bytes l = 0) by by apply HN. simpl. destruct (b =? 0) eqn:Eb; [lia|done].
Qed.

Lemma repeat_strip l : repeat 0 (length l - length (strip l)) ++ strip l = l.
Proof.
  assert (∀ l, (length (strip l) <= length l)%nat) as HL.
  { clear. induction l as [|b l IH]; simpl; [done|]. destruct (b =? 0); simpl; lia. }
  induction l as [|b l IH]; [done|]. cbn [strip]. destruct (Z.eqb_spec b 0) as [->|].
  - cbn [length]. rewrite Nat.sub_succ_l by apply HL. simpl. by rewrite IH.
  - by rewrite Nat.sub_diag.
Qed.

Lemma byte_log2 z : 0 <= z → (Z.log2 z < 8) ↔ is_byte z.
Proof.
  intros Hz. unfold is_byte. change 256 with (2 ^ 8). destruct (Z.eq_dec z 0) as [->|]; [done|].
  rewrite (Z.log2_lt_pow2 z 8) by lia. lia.
Qed.

Lemma byte_land x y : is_byte x → is_byte y → is_byte (Z.land x y).
Proof.
  intros Hx Hy. assert (0 <= x ∧ 0 <= y) as [Hx' Hy'] by (unfold is_byte in *; lia).
  apply byte_log2; [apply Z.land_nonneg; lia|]. apply byte_log2 in Hx; [|lia].
  pose proof (Z.log2_land x y Hx' Hy'). lia.
Qed.

Lemma byte_lor x y : is_byte x → is_byte y → is_byte (Z.lor x y).
Proof.
  intros Hx Hy. assert (0 <= x ∧ 0 <= y) as [Hx' Hy'] by (unfold is_byte in *; lia).
  apply byte_log2; [apply Z.lor_nonneg; lia|]. apply byte_log2 in Hx, Hy; [|lia..].
  rewrite Z.log2_lor by lia. lia.
Qed.

(** An IPv4 address of four bytes, an IPv6 address of sixteen. *)
Definition ip_of (n : nat) (ip : IP) : Prop := length ip = n ∧ Forall is_byte ip.

Lemma To4_4 ip : ip_of 4 ip → To4 ip = Some ip.
Proof. intros [H _]. unfold To4. by rewrite H. Qed.

Lemma ip4ToInt_4 ip : ip_of 4 ip → ip4ToInt ip = of_bytes ip.
Proof. intros H. unfold ip4ToInt. by rewrite To4_4. Qed.

Lemma ip6ToInt_16 ip : ip_of 16 ip → ip6ToInt ip = of_bytes ip.
Proof. intros [H _]. unfold ip6ToInt, To16. by rewrite H. Qed.

Lemma intToIP4_ip4ToInt ip : ip_of 4 ip → intToIP4 (ip4ToInt ip) = ip.
Proof.
  intros [HL HB]. pose proof (of_bytes_bound ip HB) as Hb. rewrite HL in Hb.
  rewrite ip4ToInt_4 by done. unfold intToIP4, MaxUint32. destruct (Z.ltb_spec (2 ^ 32 - 1) (of_bytes ip)); [lia|].
  unfold Bytes. rewrite to_bytes_of_bytes by (done || lia).
  pose proof (repeat_strip ip) as HR. rewrite HL in HR.
  destruct (Nat.ltb_spec (length (strip ip)) 4); [exact HR|].
  destruct (Nat.ltb_spec 4 (length (strip ip))) as [H4|H4].
  - apply (f_equal length) in HR. rewrite length_app in HR. lia.
  - replace (4 - length (strip ip))%nat with 0%nat in HR by lia. exact HR.
Qed.

Lemma ip4ToInt_intToIP4 n : 0 <= n <= MaxUint32 → ∃ ip, ip_of 4 ip ∧ intToIP4 n = ip ∧ ip4ToInt ip = n.
Proof.
  unfold MaxUint32. intros Hn.
  set (ip := [n / 2 ^ 24; n / 2 ^ 16 mod 256; n / 2 ^ 8 mod 256; n mod 256]).
  assert (ip_of 4 ip) as Hip.
  { split; [done|]. assert (∀ x, is_byte (x mod 256)) as HM by (intros x; apply Z.mod_pos_bound; lia).
    unfold ip. apply Forall_cons. split; [|repeat (apply Forall_cons; split; [apply HM|]); constructor].
    split; [apply Z.div_pos; lia|apply Z.div_lt_upper_bound; lia]. }
  assert (of_bytes ip = n) as Eip.
  { unfold of_bytes, ip. cbn [fold_left].
    replace (n / 2 ^ 24) with (n / 256 / 256 / 256) by (rewrite !Z.div_div by lia; done).
    replace (n / 2 ^ 16) with (n / 256 / 256) by (rewrite !Z.div_div by lia; done).
    change (n / 2 ^ 8) with (n / 256).
    pose proof (Z.div_mod n 256). pose proof (Z.div_mod (n / 256) 256).
    pose proof (Z.div_mod (n / 256 / 256) 256). lia. }
  rewrite <- ip4ToInt_4 in Eip by done.
  exists ip. split; [done|]. split; [|exact Eip]. rewrite <- Eip at 1. by apply intToIP4_ip4ToInt.
Qed.

(** ** Ranges *)

Lemma count_up_spec {A} fuel s e (f : Z → A) :
  (span s e <= fuel)%nat → count_up fuel s e f = Some (map f (seqZ s (e - s + 1))).
Proof.
  unfold span. revert s. induction fuel as [|fuel IH]; intros s H; simpl.
  - destruct (Z.ltb_spec e s); [|lia]. by rewrite seqZ_nil by lia.
  - destruct (Z.ltb_spec e s); [by rewrite seqZ_nil by lia|].
    rewrite IH by lia. simpl. rewrite (seqZ_cons s) by lia. simpl.
    by replace (Z.pred (e - s + 1)) with (e - (s + 1) + 1) by lia.
Qed.

(** The addresses from [lo] to [hi] inclusive, in ascending order. *)
Lemma ip4_interval lo hi :
  0 <= lo → hi <= MaxUint32 →
  let l := map intToIP4 (seqZ lo (hi - lo + 1)) in
  NoDup l ∧ map ip4ToInt l = seqZ lo (hi - lo + 1) ∧
  ∀ ip, ip ∈ l ↔ ip_of 4 ip ∧ lo <= ip4ToInt ip <= hi.
Proof.
  intros Hlo Hhi l.
  assert (map ip4ToInt l = seqZ lo (hi - lo + 1)) as HM.
  { unfold l. rewrite map_map. rewrite <- (map_id (seqZ lo (hi - lo + 1))) at 2. apply map_ext_in.
    intros n Hn%list_elem_of_In%elem_of_seqZ. destruct (ip4ToInt_intToIP4 n) as (ip & _ & -> & ->); [lia|done]. }
  split.
  { apply (NoDup_fmap_1 ip4ToInt). change (ip4ToInt <$> l) with (map ip4ToInt l). rewrite HM. apply NoDup_seqZ. }
  split; [done|]. intros ip. unfold l. rewrite list_elem_of_In, in_map_iff. split.
  - intros (n & <- & Hn%list_elem_of_In%elem_of_seqZ).
    destruct (ip4ToInt_intToIP4 n) as (ip' & H1 & -> & H3); [lia|]. split; [done|lia].
  - intros [H1 H2]. exists (ip4ToInt ip). split; [by apply intToIP4_ip4ToInt|].
    apply list_elem_of_In, elem_of_seqZ. lia.
Qed.

(** An IPv4 range is expanded completely: the loop ends, and the result is
    every address from the start to the end inclusive, in ascending order,
    once.  A network gives the addresses strictly between its first and its
    last one. *)
Theorem ip4_ranges a b :
  ip_of 4 a → ip_of 4 b →
  (∃ l, getAvailableIPRange a b = Some l ∧ NoDup l ∧
        map ip4ToInt l = seqZ (ip4ToInt a) (ip4ToInt b - ip4ToInt a + 1) ∧
        ∀ ip, ip ∈ l ↔ ip_of 4 ip ∧ ip4ToInt a <= ip4ToInt ip <= ip4ToInt b) ∧
  (∃ l, getAvailableIP a b = Some l ∧ NoDup l ∧
        ∀ ip, ip ∈ l ↔ ip_of 4 ip ∧ ip4ToInt (networkRange a b).1 < ip4ToInt ip < ip4ToInt (networkRange a b).2).
Proof.
  assert (∀ x, ip_of 4 x → 0 <= ip4ToInt x <= MaxUint32) as HB.
  { intros x [HL Hx]. pose proof (of_bytes_bound x Hx) as H. rewrite HL in H. rewrite ip4ToInt_4 by done. unfold MaxUint32. lia. }
  intros Ha Hb. split.
  - unfold getAvailableIPRange. rewrite (To4_4 a), (To4_4 b) by done.
    rewrite count_up_spec by done. eexists. split; [done|].
    apply ip4_interval; by apply HB.
  - unfold getAvailableIP. destruct (networkRange a b) as [s e] eqn:E.
    assert (ip_of 4 s ∧ ip_of 4 e) as [Hs He].
    { unfold networkRange, apply_mask in E. injection E as <- <-.
      destruct Ha as [La Ba], Hb as [Lb Bb].
      destruct a as [|a1 [|a2 [|a3 [|a4 [|]]]]]; try discriminate La.
      destruct b as [|b1 [|b2 [|b3 [|b4 [|]]]]]; try discriminate Lb.
      assert (∀ x, is_byte x → is_byte (byte_not x)) as Hnot by (unfold is_byte, byte_not; lia).
      rewrite !Forall_cons in Ba, Bb. destruct Ba as (A1 & A2 & A3 & A4 & _), Bb as (B1 & B2 & B3 & B4 & _).
      split; (split; [done|]); cbn [zip_with]; repeat (apply Forall_cons; split; [auto using byte_land, byte_lor|]); constructor. }
    rewrite (To4_4 s) by done. rewrite count_up_spec by done.
    eexists. split; [done|].
    destruct (ip4_interval (ip4ToInt s + 1) (ip4ToInt e - 1)) as (H1 & _ & H3);
      [pose proof (HB s Hs); lia|pose proof (HB e He); lia|].
    split; [done|]. intros ip. rewrite H3. simpl. split; intros [? ?]; (split; [done|lia]).
Qed.

(** Expanding a host entry always ends, whatever the entry, the library's
    reading of addresses included. *)
Theorem ParseIP_total net_ParseIP net_ParseCIDR IP_String ip :
  ∃ l, ParseIP net_ParseIP net_ParseCIDR IP_String ip = Some l.
Proof.
  unfold ParseIP, range_text, network_text, getAvailableIPRange, getAvailableIP.
  repeat (case_match; try by eexists); subst; rewrite count_up_spec in * by done; simplify_eq; by eexists.
Qed.

(** An IPv6 address survives the conversion to a number and back exactly
    when its first byte is not zero: the missing leading bytes are not put
    back, so an address of ::/8 becomes a byte string of the wrong length. *)
Theorem ip6_roundtrip_iff ip :
  ip_of 16 ip →
  (intToIP6 (ip6ToInt ip) = ip ↔ head ip ≠ Some 0) ∧
  (head ip = Some 0 → (length (intToIP6 (ip6ToInt ip)) < 16)%nat).
Proof.
  intros [HL HB].
  assert (intToIP6 (ip6ToInt ip) = strip ip) as ->.
  { rewrite ip6ToInt_16 by done. unfold intToIP6, Bytes. rewrite to_bytes_of_bytes by (done || lia).
    by destruct (_ <? _)%nat. }
  destruct ip as [|b ip]; [done|]. cbn [head strip].
  assert (∀ l, (length (strip l) <= length l)%nat) as HS.
  { clear. induction l as [|b l IH]; simpl; [done|]. destruct (b =? 0); simpl; lia. }
  destruct (Z.eqb_spec b 0) as [->|Hb].
  - specialize (HS ip). simpl in HL. split; [|lia]. split; [|done].
    intros E. apply (f_equal length) in E. simpl in E. lia.
  - split; [|by intros [= ->]]. split; [|done]. by intros _ [= ->].
Qed.

(** The predecessor counts in 32 signed bits: a range that ends in the
    largest of them, 127.255.255.255, is never complete, whatever its start. *)
Theorem legacy_range_diverges fuel firstIP :
  Legacy.GetAvailableIPRange fuel firstIP [127; 255; 255; 255] = None.
Proof.
  assert (∀ z, Legacy.to_int32 z <= 2 ^ 31 - 1) as HM.
  { intros z. unfold Legacy.to_int32. pose proof (Z.mod_pos_bound (z + 2 ^ 31) (2 ^ 32)). lia. }
  unfold Legacy.GetAvailableIPRange. replace (Legacy.ipToInt [127; 255; 255; 255]) with (2 ^ 31 - 1) by reflexivity.
  assert (∀ n, n <= 2 ^ 31 - 1 → Legacy.range_loop fuel n (2 ^ 31 - 1) = None) as HD; [|apply HD, HM].
  induction fuel as [|fuel IH]; intros n Hn; cbn [Legacy.range_loop].
  - by destruct (Z.leb_spec n (2 ^ 31 - 1)); [|lia].
  - destruct (Z.leb_spec n (2 ^ 31 - 1)); [|lia]. by rewrite IH by apply HM.
Qed.

Lemma ip4_ranges_witness :
  ∃ l, getAvailableIPRange [192; 168; 1; 254] [192; 168; 2; 1] = Some l ∧
       map ip4ToInt l = seqZ (ip4ToInt [192; 168; 1; 254]) 4.
Proof.
  destruct (ip4_ranges [192; 168; 1; 254] [192; 168; 2; 1]) as [(l & H1 & _ & H2 & _) _].
  - split; [done|]. unfold is_byte. repeat (constructor; [lia|]). constructor.
  - split; [done|]. unfold is_byte. repeat (constructor; [lia|]). constructor.
  - exists l. split; [exact H1|]. rewrite H2. reflexivity.
Defined.

Lemma ip6_roundtrip_iff_witness :
  let loopback := [0; 0; 0; 0; 0; 0; 0; 0; 0; 0; 0; 0; 0; 0; 0; 1] in
  (length (intToIP6 (ip6ToInt loopback)) < 16)%nat.
Proof.
  apply (ip6_roundtrip_iff [0; 0; 0; 0; 0; 0; 0; 0; 0; 0; 0; 0; 0; 0; 0; 1]%Z); [|done].
  split; [done|]. unfold is_byte. repeat (constructor; [lia|]). constructor.
Defined.
