(* ===== verification/WebManager.v ===== *)
(** * The playbooks that the web server runs:
      [src/feature/pkg/web/handler/executor.go] and [src/feature/pkg/web/api]

    A request creates a playbook and starts its execution, by default on a
    goroutine of its own; the manager keeps the function that cancels each
    execution under the key of its playbook.  Handlers and executions are
    [prog]s over one world: the API server, the memory and the files of the
    server, the manager.  Each call is one step, which may fail, and between two
    steps any other goroutine may run. *)

From Stdlib Require Import Ascii String.
From S2P Require Import Prelude GoStrings Paths Values Groups Prog.
From stdpp Require Import gmap strings list sets.

#[local] Open Scope nat_scope.

(** ** Answers: [api/helper.go], [api/result.go] *)

Definition StatusOK : Z := 200.
Definition StatusNotFound : Z := 404.
Definition StatusConflict : Z := 409.
Definition StatusUnprocessableEntity : Z := 422.
Definition StatusInternalServerError : Z := 500.

(** An error, with the status code it carries if it is an API status or a
    service error. *)
Record werror := { we_code : option Z; we_text : string }.

Definition plain (text : string) : werror := {| we_code := None; we_text := text |}.

(** [errors.Wrap]: [errors.As] still finds the code. *)
Definition wrap (text : string) (e : werror) : werror :=
  {| we_code := we_code e; we_text := text +:+ ": " +:+ we_text e |}.

(** What a request is answered: an entity, or an error as text.  A handler that
    panics answers nothing. *)
Inductive reply (E : Type) :=
| Entity (code : Z) (e : E)
| Error (code : Z) (text : string)
| Aborted (why : string).
Arguments Entity {E} code e.
Arguments Error {E} code text.
Arguments Aborted {E} why.

(** [sanitizer] *)
Definition sanitize_char (a : ascii) : string :=
  if bool_decide (a = "&"%char) then "&amp;"
  else if bool_decide (a = "<"%char) then "&lt;"
  else if bool_decide (a = ">"%char) then "&gt;"
  else String a EmptyString.

Fixpoint sanitizer (s : string) : string :=
  match s with EmptyString => EmptyString | String a s' => sanitize_char a +:+ sanitizer s' end.

Definition handle {E} (code : Z) (e : werror) : reply E := Error code (sanitizer (we_text e)).
Definition HandleConflict {E} (text : string) : reply E := handle StatusConflict (plain text).
Definition HandleError {E} (e : werror) : reply E := handle (default StatusInternalServerError (we_code e)) e.

(** ** The world *)

Definition key : Type := string * string.

(** [ObjectKey.String] *)
Definition key_string (k : key) : string := k.1 +:+ "/" +:+ k.2.

Definition PlaybookPhasePending : string := "Pending".
Definition PlaybookPhaseRunning : string := "Running".
Definition PlaybookPhaseFailed : string := "Failed".
Definition PlaybookPhaseSucceeded : string := "Succeeded".

(** A playbook; its labels in the order in which one loop ranges over them. *)
Record Playbook := {
  pb_namespace : string;
  pb_name : string;
  pb_generateName : string;
  pb_uid : nat;
  pb_labels : list (string * string);
  pb_config : gmap string value;
  pb_inventoryRef : option key;
  pb_playbook : string;
  pb_phase : string;
  pb_failureMessage : string;
  pb_result : string;
}.

Definition pb_key (p : Playbook) : key := (pb_namespace p, pb_name p).

Definition with_config (c : gmap string value) (p : Playbook) : Playbook :=
  {| pb_namespace := pb_namespace p; pb_name := pb_name p; pb_generateName := pb_generateName p; pb_uid := pb_uid p;
     pb_labels := pb_labels p; pb_config := c; pb_inventoryRef := pb_inventoryRef p; pb_playbook := pb_playbook p;
     pb_phase := pb_phase p; pb_failureMessage := pb_failureMessage p; pb_result := pb_result p |}.

Definition with_status (phase message : string) (p : Playbook) : Playbook :=
  {| pb_namespace := pb_namespace p; pb_name := pb_name p; pb_generateName := pb_generateName p; pb_uid := pb_uid p;
     pb_labels := pb_labels p; pb_config := pb_config p; pb_inventoryRef := pb_inventoryRef p; pb_playbook := pb_playbook p;
     pb_phase := phase; pb_failureMessage := message; pb_result := pb_result p |}.

Definition with_identity (name : string) (uid : nat) (p : Playbook) : Playbook :=
  {| pb_namespace := pb_namespace p; pb_name := name; pb_generateName := pb_generateName p; pb_uid := uid;
     pb_labels := pb_labels p; pb_config := pb_config p; pb_inventoryRef := pb_inventoryRef p; pb_playbook := pb_playbook p;
     pb_phase := pb_phase p; pb_failureMessage := pb_failureMessage p; pb_result := pb_result p |}.

(** An inventory; its maps may be nil ([None], and for the groups
    [io_groups_nil], where there are none). *)
Record InventoryObject := {
  io_key : key;
  io_spec : Inventory;
  io_groups_nil : bool;
  io_annotations : option (gmap string string);
}.

Record Task := { t_namespace : string; t_playbook : string; t_uid : nat }.

(** A context made by [context.WithCancel] for the execution of a playbook:
    whether it has been cancelled and whether the execution is on its way. *)
Record Context := {
  x_key : string;
  x_uid : nat;
  x_cancelled : bool;
  x_running : bool;
}.

(** What may start on a goroutine: the execution of the playbook at an address. *)
Record Execution := { e_ptr : nat; e_playbook : Playbook }.

Record world := {
  w_playbooks : gmap key Playbook;
  w_inventories : gmap key InventoryObject;
  w_tasks : list Task;
  w_nextUID : nat;
  w_memory : list Playbook;
  w_manager : gmap string nat;
  w_contexts : list Context;
  w_files : gmap string string;
  w_dirs : gset string;
  w_clock : nat;
  w_go : list Execution;
  w_crashed : option string;
}.

Definition set_playbooks (m : gmap key Playbook) (w : world) : world :=
  {| w_playbooks := m; w_inventories := w_inventories w; w_tasks := w_tasks w; w_nextUID := w_nextUID w;
     w_memory := w_memory w; w_manager := w_manager w; w_contexts := w_contexts w; w_files := w_files w;
     w_dirs := w_dirs w; w_clock := w_clock w; w_go := w_go w; w_crashed := w_crashed w |}.
Definition set_inventories (m : gmap key InventoryObject) (w : world) : world :=
  {| w_playbooks := w_playbooks w; w_inventories := m; w_tasks := w_tasks w; w_nextUID := w_nextUID w;
     w_memory := w_memory w; w_manager := w_manager w; w_contexts := w_contexts w; w_files := w_files w;
     w_dirs := w_dirs w; w_clock := w_clock w; w_go := w_go w; w_crashed := w_crashed w |}.
Definition set_tasks (l : list Task) (w : world) : world :=
  {| w_playbooks := w_playbooks w; w_inventories := w_inventories w; w_tasks := l; w_nextUID := w_nextUID w;
     w_memory := w_memory w; w_manager := w_manager w; w_contexts := w_contexts w; w_files := w_files w;
     w_dirs := w_dirs w; w_clock := w_clock w; w_go := w_go w; w_crashed := w_crashed w |}.
Definition set_uid (n : nat) (w : world) : world :=
  {| w_playbooks := w_playbooks w; w_inventories := w_inventories w; w_tasks := w_tasks w; w_nextUID := n;
     w_memory := w_memory w; w_manager := w_manager w; w_contexts := w_contexts w; w_files := w_files w;
     w_dirs := w_dirs w; w_clock := w_clock w; w_go := w_go w; w_crashed := w_crashed w |}.
Definition set_memory (m : list Playbook) (w : world) : world :=
  {| w_playbooks := w_playbooks w; w_inventories := w_inventories w; w_tasks := w_tasks w; w_nextUID := w_nextUID w;
     w_memory := m; w_manager := w_manager w; w_contexts := w_contexts w; w_files := w_files w;
     w_dirs := w_dirs w; w_clock := w_clock w; w_go := w_go w; w_crashed := w_crashed w |}.
Definition set_manager (m : gmap string nat) (l : list Context) (w : world) : world :=
  {| w_playbooks := w_playbooks w; w_inventories := w_inventories w; w_tasks := w_tasks w; w_nextUID := w_nextUID w;
     w_memory := w_memory w; w_manager := m; w_contexts := l; w_files := w_files w;
     w_dirs := w_dirs w; w_clock := w_clock w; w_go := w_go w; w_crashed := w_crashed w |}.
Definition set_files (fs : gmap string string) (ds : gset string) (w : world) : world :=
  {| w_playbooks := w_playbooks w; w_inventories := w_inventories w; w_tasks := w_tasks w; w_nextUID := w_nextUID w;
     w_memory := w_memory w; w_manager := w_manager w; w_contexts := w_contexts w; w_files := fs;
     w_dirs := ds; w_clock := w_clock w; w_go := w_go w; w_crashed := w_crashed w |}.
Definition tick (w : world) : world :=
  {| w_playbooks := w_playbooks w; w_inventories := w_inventories w; w_tasks := w_tasks w; w_nextUID := w_nextUID w;
     w_memory := w_memory w; w_manager := w_manager w; w_contexts := w_contexts w; w_files := w_files w;
     w_dirs := w_dirs w; w_clock := S (w_clock w); w_go := w_go w; w_crashed := w_crashed w |}.
Definition set_go (l : list Execution) (w : world) : world :=
  {| w_playbooks := w_playbooks w; w_inventories := w_inventories w; w_tasks := w_tasks w; w_nextUID := w_nextUID w;
     w_memory := w_memory w; w_manager := w_manager w; w_contexts := w_contexts w; w_files := w_files w;
     w_dirs := w_dirs w; w_clock := w_clock w; w_go := l; w_crashed := w_crashed w |}.
Definition crash (why : string) (w : world) : world :=
  {| w_playbooks := w_playbooks w; w_inventories := w_inventories w; w_tasks := w_tasks w; w_nextUID := w_nextUID w;
     w_memory := w_memory w; w_manager := w_manager w; w_contexts := w_contexts w; w_files := w_files w;
     w_dirs := w_dirs w; w_clock := w_clock w; w_go := w_go w; w_crashed := Some why |}.

(** What is outside: which calls of the API server and of the disk fail (by
    the time of the call), whether creating an object that exists is an error
    (it is in a cluster; the local store overwrites), generated names, the
    current directory, and how the plays of a playbook end, given whether its
    context has been cancelled by then. *)
Record Env := {
  api : nat → option werror;
  disk : nat → option string;
  create_exists : bool;
  generated : nat → string;
  cwd : option string;
  plays_end : Playbook → bool → option string;
}.

Section Manager.
Context (env : Env).

(** ** Calls *)

Definition call {A} (f : world → world * (werror + A)) : prog world (werror + A) :=
  atomic (λ w, match api env (w_clock w) with
               | Some e => (tick w, inl e)
               | None => f (tick w)
               end).

Definition disk_call {A} (f : world → world * A) : prog world (string + A) :=
  atomic (λ w, match disk env (w_clock w) with
               | Some e => (tick w, inl e)
               | None => let '(w', a) := f (tick w) in (w', inr a)
               end).

Definition not_found (k : key) : werror := {| we_code := Some StatusNotFound; we_text := key_string k +:+ " not found" |}.
Definition IsNotFound (e : werror) : bool := bool_decide (we_code e = Some StatusNotFound).

Definition api_get (k : key) : prog world (werror + Playbook) :=
  call (λ w, (w, match w_playbooks w !! k with Some p => inr p | None => inl (not_found k) end)).

Definition api_get_inventory (k : key) : prog world (werror + InventoryObject) :=
  call (λ w, (w, match w_inventories w !! k with Some i => inr i | None => inl (not_found k) end)).

(** [List] with [MatchingLabels]: playbooks of all namespaces. *)
Definition with_label (label v : string) (w : world) : list Playbook :=
  List.filter (λ p, bool_decide ((label, v) ∈ pb_labels p)) (map_to_list (w_playbooks w)).*2.

Definition api_list (label v : string) : prog world (werror + list Playbook) :=
  call (λ w, (w, inr (with_label label v w))).

(** [Create] gives the object at the address its name and its UID. *)
Definition created (p : Playbook) (w : world) : Playbook :=
  with_identity (if bool_decide (pb_name p = "") then pb_generateName p +:+ generated env (w_nextUID w) else pb_name p)
    (w_nextUID w) p.

Definition api_create (ptr : nat) (p : Playbook) : prog world (werror + Playbook) :=
  call (λ w,
    let q := created p w in
    if create_exists env && bool_decide (is_Some (w_playbooks w !! pb_key q)) then
      (w, inl {| we_code := Some StatusConflict; we_text := key_string (pb_key q) +:+ " already exists" |})
    else (set_memory (<[ptr := q]> (w_memory w)) (set_uid (S (w_nextUID w)) (set_playbooks (<[pb_key q := q]> (w_playbooks w)) w)),
          inr q)).

Definition api_delete (k : key) : prog world (werror + ()) :=
  call (λ w, match w_playbooks w !! k with
             | Some _ => (set_playbooks (delete k (w_playbooks w)) w, inr ())
             | None => (w, inl (not_found k))
             end).

(** [DeleteAllOf] the tasks of a playbook. *)
Definition task_of (p : Playbook) (t : Task) : bool :=
  bool_decide (t_namespace t = pb_namespace p ∧ t_playbook t = pb_name p ∧ t_uid t = pb_uid p).

Definition api_delete_tasks (p : Playbook) : prog world (werror + ()) :=
  call (λ w, (set_tasks (List.filter (λ t, negb (task_of p t)) (w_tasks w)) w, inr ())).

(** A new object in memory. *)
Definition alloc (p : Playbook) : prog world nat :=
  atomic (λ w, (set_memory (w_memory w ++ [p]) w, length (w_memory w))).

(** ** Paths *)

Definition Workdir : string := "work_dir".
Definition RuntimeDir : string := "runtime".
Definition Group : string := "kubekey.kubesphere.io".
Definition Version : string := "v1".
Definition RuntimePlaybookDir : string := "playbooks".

(** [GetWorkdirFromConfig]: a missing value is the empty string without an
    error. *)
Definition GetWorkdirFromConfig (config : gmap string value) : string :=
  match config !! Workdir with
  | None => ""
  | Some (VStr wd) => wd
  | Some _ => default "/opt/kubekey" (cwd env)
  end.

Definition log_path (p : Playbook) : list string :=
  [GetWorkdirFromConfig (pb_config p); RuntimeDir; Group; Version; RuntimePlaybookDir; pb_namespace p; pb_name p].

Definition log_dir (p : Playbook) : string := Paths.Join (log_path p).
Definition log_file (p : Playbook) : string := Paths.Join (log_path p ++ [pb_name p +:+ ".log"])%list.

(** ** The manager *)

Definition addPlaybook (p : Playbook) : prog world nat :=
  atomic (λ w,
    let ctx := length (w_contexts w) in
    (set_manager (<[key_string (pb_key p) := ctx]> (w_manager w))
       (w_contexts w ++ [{| x_key := key_string (pb_key p); x_uid := pb_uid p; x_cancelled := false; x_running := true |}]) w,
     ctx)).

Definition deletePlaybook (p : Playbook) : prog world () :=
  atomic (λ w, (set_manager (delete (key_string (pb_key p)) (w_manager w)) (w_contexts w) w, ())).

Definition cancel_context (c : Context) : Context :=
  {| x_key := x_key c; x_uid := x_uid c; x_cancelled := true; x_running := x_running c |}.
Definition finished (c : Context) : Context :=
  {| x_key := x_key c; x_uid := x_uid c; x_cancelled := x_cancelled c; x_running := false |}.

Definition stop (k : string) (w : world) : world :=
  match w_manager w !! k with
  | Some ctx => set_manager (w_manager w) (alter cancel_context ctx (w_contexts w)) w
  | None => w
  end.

Definition stopPlaybook (p : Playbook) : prog world () :=
  atomic (λ w, (stop (key_string (pb_key p)) w, ())).

(** ** The execution of a playbook *)

Inductive outcome := Done | Failed (text : string) | Panicked (why : string).

(** [NewPlaybookExecutor]: the store needs the inventory and its directory;
    [None] is a nil executor. *)
Definition NewPlaybookExecutor (p : Playbook) : prog world (result (option ())) :=
  do! d <- disk_call (λ w, (w, ())) in
  match d with
  | inl _ => PRet (Ok None)
  | inr _ =>
      match pb_inventoryRef p with
      | None => PRet (Ok (Some ()))
      | Some ref =>
          do! r <- api_get_inventory ref in
          match r with
          | inl _ => PRet (Ok None)
          | inr inventory =>
              match ConvertGroup (io_spec inventory) with
              | None => PRet (Panic "stack overflow")
              | Some _ => PRet (Ok (Some ()))
              end
          end
      end
  end.

Definition cancelled (ctx : nat) (w : world) : bool :=
  match w_contexts w !! ctx with Some c => x_cancelled c | None => false end.

(** [syncStatus]: the status in memory, then the patch with the context of the
    execution, which goes by name. *)
Definition end_status (err : option string) (p : Playbook) : Playbook :=
  match err with
  | Some text => with_status PlaybookPhaseFailed text p
  | None => with_status PlaybookPhaseSucceeded (pb_failureMessage p) p
  end.

Definition patch_status (ctx : nat) (p : Playbook) (err : option string) : prog world () :=
  atomic (λ w,
    if cancelled ctx w then (tick w, ())
    else match api env (w_clock w) with
         | Some _ => (tick w, ())
         | None => (set_playbooks (alter (end_status err) (pb_key p) (w_playbooks w)) (tick w), ())
         end).

(** [Exec], from the end of the plays. *)
Definition Exec (ctx ptr : nat) (p : Playbook) : prog world () :=
  do! err <- atomic (λ w, let err := plays_end env p (cancelled ctx w) in
                          (set_memory (alter (end_status err) ptr (w_memory w)) w, err)) in
  do! _ <- patch_status ctx p err in
  atomic (λ w, (set_manager (w_manager w) (alter finished ctx (w_contexts w)) w, ())).

(** The log file, in its directory. *)
Definition open_log (p : Playbook) : prog world (string + ()) :=
  do! s <- disk_call (λ w, (w, bool_decide (Dir (log_file p) ∈ w_dirs w))) in
  match s with
  | inl e => PRet (inl ("failed to stat playbook dir: " +:+ e))
  | inr exists_ =>
      do! d <- (if (exists_ : bool) then PRet (inr ())
                else disk_call (λ w, (set_files (w_files w) ({[Dir (log_file p)]} ∪ w_dirs w) w, ()))) in
      match d with
      | inl e => PRet (inl ("failed to create playbook dir: " +:+ e))
      | inr _ =>
          do! o <- disk_call (λ w, (set_files (<[log_file p := default "" (w_files w !! log_file p)]> (w_files w)) (w_dirs w) w, ())) in
          match o with
          | inl e => PRet (inl ("failed to open log file: " +:+ e))
          | inr _ => PRet (inr ())
          end
      end
  end.

(** The function [f] of [executor]. *)
Definition execution (e : Execution) : prog world outcome :=
  let p := e_playbook e in
  do! o <- open_log p in
  match o with
  | inl text => PRet (Failed text)
  | inr _ =>
      do! ctx <- addPlaybook p in
      do! ex <- NewPlaybookExecutor p in
      match ex with
      | Ok (Some _) =>
          do! _ <- Exec ctx (e_ptr e) p in
          do! _ <- deletePlaybook p in
          PRet Done
      | Panic why => PRet (Panicked why)
      | _ => PRet (Panicked "nil pointer dereference")
      end
  end.

(** [executor]; a goroutine is left to the world to start. *)
Definition executor (e : Execution) (promise : string) : prog world outcome :=
  if bool_decide (promise = "true") then atomic (λ w, (set_go (w_go w ++ [e]) w, Done))
  else execution e.

(** A goroutine that panics ends the process. *)
Definition goroutine (R : Type) (done : R) (e : Execution) : prog world R :=
  do! o <- execution e in
  match o with
  | Panicked why => atomic (λ w, (crash why w, done))
  | _ => PRet done
  end.

(** ** The server: requests and the goroutines they start *)

Definition dead (w : world) : bool := bool_decide (is_Some (w_crashed w)).

Definition started {R} (done : R) (w : world) : list (prog world R) * world :=
  (goroutine R done <$> w_go w, set_go [] w).

Definition serve {R} (done : R) (sched : list nat) (st : world * list (prog world R)) : world * list (prog world R) :=
  run_spawn dead (started done) sched st.

End Manager.

(** ** The executions the manager knows

    Every entry of the manager is the context of an execution of that key.  The
    converse needs that no key is executed twice. *)

Definition context_keys (w : world) : list string := x_key <$> w_contexts w.

Record registered (w : world) : Prop := {
  registered_entry : ∀ k i, w_manager w !! k = Some i → ∃ c, w_contexts w !! i = Some c ∧ x_key c = k;
  registered_running : NoDup (context_keys w) →
    ∀ i c, w_contexts w !! i = Some c → x_running c = true → w_manager w !! x_key c = Some i;
}.

(** Contexts are never forgotten, revived or restarted. *)
Record contexts_le (w w' : world) : Prop := {
  le_keys : context_keys w `prefix_of` context_keys w';
  le_context : ∀ i c, w_contexts w !! i = Some c → ∃ c', w_contexts w' !! i = Some c' ∧ x_key c' = x_key c ∧
    (x_running c = false → x_running c' = false) ∧ (x_cancelled c = true → x_cancelled c' = true);
}.

#[export] Instance contexts_le_preorder : PreOrder contexts_le.
Proof.
  split.
  - intros w. split; [done|]. intros i c Hi. by exists c.
  - intros w1 w2 w3 [H1 H2] [H3 H4]. split; [by etrans|]. intros i c Hi.
    destruct (H2 i c Hi) as (c' & Hi' & Hk & Hr & Hx). destruct (H4 i c' Hi') as (c2 & Hi2 & Hk2 & Hr2 & Hx2).
    exists c2. split_and!; [done|congruence|auto|auto].
Qed.

Lemma contexts_le_NoDup w w' : contexts_le w w' → NoDup (context_keys w') → NoDup (context_keys w).
Proof. intros [[l Hl] _] H. rewrite Hl in H. by apply NoDup_app in H as (? & _ & _). Qed.

(** A program that other executions do not notice. *)
Definition quiet {A} (p : prog world A) : Prop := ∀ w, guarantees registered contexts_le (λ _ _, True) p w.

(** A step that leaves the manager and the contexts alone. *)
Definition same_contexts (w w' : world) : Prop := w_manager w' = w_manager w ∧ w_contexts w' = w_contexts w.

Lemma same_contexts_keeps w w' : same_contexts w w' → registered w → registered w' ∧ contexts_le w w'.
Proof.
  intros [Hm Hc] [H1 H2]. split.
  - split; [by rewrite Hm, Hc|]. unfold context_keys in *. by rewrite Hm, Hc.
  - split; unfold context_keys; rewrite Hc; [done|]. intros i c Hi. by exists c.
Qed.

Lemma quiet_atomic {A} (f : world → world * A) : (∀ w, same_contexts w (f w).1) → quiet (atomic f).
Proof.
  intros H w. apply guarantees_atomic. intros w' _ HI. destruct (same_contexts_keeps w' (f w').1 (H w') HI). done.
Qed.

Lemma quiet_bind {A B} (p : prog world A) (k : A → prog world B) : quiet p → (∀ a, quiet (k a)) → quiet (pbind p k).
Proof. intros Hp Hk w. eapply guarantees_bind; [apply Hp|]. intros. apply Hk. Qed.

Lemma quiet_ret {A} (a : A) : quiet (PRet a : prog world A).
Proof. done. Qed.

(** Entries of the list of contexts that are changed in place. *)
Lemma alter_context_keys (f : Context → Context) i w :
  (∀ c, x_key (f c) = x_key c) → x_key <$> alter f i (w_contexts w) = context_keys w.
Proof.
  intros Hf. unfold context_keys. apply list_eq. intros j. rewrite !list_lookup_fmap.
  destruct (decide (i = j)) as [->|Hne]; [rewrite list_lookup_alter_eq|by rewrite list_lookup_alter_ne].
  destruct (w_contexts w !! j); simpl; [by rewrite Hf|done].
Qed.

Lemma alter_context_le (f : Context → Context) i w m :
  (∀ c, x_key (f c) = x_key c) → (∀ c, x_running c = false → x_running (f c) = false) →
  (∀ c, x_cancelled c = true → x_cancelled (f c) = true) →
  contexts_le w (set_manager m (alter f i (w_contexts w)) w).
Proof.
  intros Hk Hr Hx. split; [unfold context_keys at 2; simpl; by rewrite alter_context_keys|].
  intros j c Hj. simpl. destruct (decide (i = j)) as [->|Hne].
  - rewrite list_lookup_alter_eq, Hj. simpl. exists (f c). auto.
  - rewrite list_lookup_alter_ne by done. by exists c.
Qed.

Lemma alter_context_registered (f : Context → Context) i w :
  (∀ c, x_key (f c) = x_key c) → (∀ c, x_running (f c) = true → x_running c = true) →
  registered w → registered (set_manager (w_manager w) (alter f i (w_contexts w)) w).
Proof.
  intros Hk Hr [H1 H2].
  assert (∀ j c, alter f i (w_contexts w) !! j = Some c → ∃ c0, w_contexts w !! j = Some c0 ∧ x_key c = x_key c0 ∧ (x_running c = true → x_running c0 = true)) as HA.
  { intros j c Hj. destruct (decide (i = j)) as [->|Hne].
    - rewrite list_lookup_alter_eq in Hj. apply fmap_Some in Hj as (c0 & Hc0 & ->). exists c0. auto.
    - rewrite list_lookup_alter_ne in Hj by done. by exists c. }
  split; cbn [w_manager w_contexts set_manager].
  - intros k j Hj. destruct (H1 k j Hj) as (c & Hc & <-). destruct (decide (i = j)) as [->|Hne].
    + rewrite list_lookup_alter_eq, Hc. simpl. by exists (f c).
    + rewrite list_lookup_alter_ne by done. by exists c.
  - intros HN j c Hj Hc. unfold context_keys in HN. simpl in HN. rewrite alter_context_keys in HN by done.
    destruct (HA j c Hj) as (c0 & Hc0 & -> & Hc'). auto.
Qed.

Lemma quiet_call {A} env (f : world → world * (werror + A)) : (∀ w, same_contexts w (f w).1) → quiet (call env f).
Proof.
  intros H. apply quiet_atomic. intros w. destruct (api env (w_clock w)); [done|]. exact (H (tick w)).
Qed.

Lemma quiet_disk {A} env (f : world → world * A) : (∀ w, same_contexts w (f w).1) → quiet (disk_call env f).
Proof.
  intros H. apply quiet_atomic. intros w. destruct (disk env (w_clock w)); [done|].
  specialize (H (tick w)). by destruct (f (tick w)).
Qed.

Ltac quiet_step :=
  match goal with
  | |- quiet (pbind _ _) => apply quiet_bind
  | |- quiet (PRet _) => apply quiet_ret
  | |- quiet (call _ _) => apply quiet_call; intros ?; try done
  | |- quiet (disk_call _ _) => apply quiet_disk; intros ?; try done
  | |- quiet (atomic _) => apply quiet_atomic; intros ?; try done
  | |- ∀ _, quiet _ => intros ?
  | |- quiet (match ?x with _ => _ end) => destruct x
  end.

Section Executions.
Context (env : Env).

Lemma quiet_NewPlaybookExecutor p : quiet (NewPlaybookExecutor env p).
Proof. unfold NewPlaybookExecutor, api_get_inventory. repeat quiet_step. Qed.

Lemma quiet_open_log p : quiet (open_log env p).
Proof. unfold open_log. repeat quiet_step. Qed.

Lemma quiet_patch_status ctx p err : quiet (patch_status env ctx p err).
Proof. apply quiet_atomic. intros w. destruct (cancelled ctx w); [done|]. by destruct (api env (w_clock w)). Qed.

(** The context of an execution of [k], and one whose execution has ended. *)
Definition has_context (i : nat) (k : string) (w : world) : Prop :=
  ∃ c, w_contexts w !! i = Some c ∧ x_key c = k.
Definition ended_context (i : nat) (k : string) (w : world) : Prop :=
  ∃ c, w_contexts w !! i = Some c ∧ x_key c = k ∧ x_running c = false.

Lemma has_context_le i k w w' : contexts_le w w' → has_context i k w → has_context i k w'.
Proof. intros [_ H] (c & Hc & <-). destruct (H i c Hc) as (c' & Hc' & Hk & _). by exists c'. Qed.

Lemma ended_context_le i k w w' : contexts_le w w' → ended_context i k w → ended_context i k w'.
Proof. intros [_ H] (c & Hc & <- & Hr). destruct (H i c Hc) as (c' & Hc' & Hk & Hr' & _). exists c'. auto. Qed.

Lemma guarantees_addPlaybook p w :
  guarantees registered contexts_le (λ w i, has_context i (key_string (pb_key p)) w) (addPlaybook p) w.
Proof.
  apply guarantees_atomic. intros w' _ [H1 H2]. simpl. split; [split|split].
  - simpl. intros k i Hi. apply lookup_insert_Some in Hi as [[<- <-]|[_ Hi]].
    + eexists. by rewrite list_lookup_middle.
    + destruct (H1 k i Hi) as (c & Hc & Hk). exists c. by rewrite lookup_app_l by (by eapply lookup_lt_Some).
  - unfold context_keys. simpl. intros HN i c Hi Hr.
    rewrite fmap_app in HN. apply NoDup_app in HN as (HN & Hd & _).
    apply lookup_app_Some in Hi as [Hi|[Hlen Hi]].
    + rewrite lookup_insert_ne; [by apply H2|]. intros E. apply (Hd (x_key c)); [|simpl; rewrite <- E; by left].
      apply list_elem_of_fmap. exists c. split; [done|]. by eapply list_elem_of_lookup_2.
    + apply list_lookup_singleton_Some in Hi as [Hi <-]. simpl. rewrite lookup_insert_eq. f_equal. lia.
  - split; unfold context_keys; simpl; [rewrite fmap_app; by eexists|].
    intros i c Hi. exists c. split; [|done]. by rewrite lookup_app_l by (by eapply lookup_lt_Some).
  - eexists. simpl. by rewrite list_lookup_middle.
Qed.

Lemma guarantees_deletePlaybook i p w :
  ended_context i (key_string (pb_key p)) w → guarantees registered contexts_le (λ _ _, True) (deletePlaybook p) w.
Proof.
  intros Hw. apply guarantees_atomic. intros w' Hle [H1 H2].
  destruct (ended_context_le _ _ _ _ Hle Hw) as (c & Hc & Hk & Hr). split; [split|split; [|done]].
  - simpl. intros k j Hj. apply lookup_delete_Some in Hj as [_ Hj]. auto.
  - simpl. intros HN j c' Hj Hr'. rewrite lookup_delete_ne; [by apply H2|]. intros E.
    assert (i = j) as ->; [|congruence].
    apply (NoDup_lookup (context_keys w') i j (x_key c)); [done| |]; unfold context_keys; rewrite list_lookup_fmap.
    + by rewrite Hc.
    + rewrite Hj. simpl. congruence.
  - split; [done|]. intros j c' Hj. by exists c'.
Qed.

Lemma guarantees_Exec ctx ptr p k w :
  has_context ctx k w → guarantees registered contexts_le (λ w _, ended_context ctx k w) (Exec env ctx ptr p) w.
Proof.
  intros Hw. unfold Exec. eapply guarantees_bind.
  { eapply (guarantees_frame _ _ (has_context ctx k)); [apply has_context_le|done|].
    apply quiet_atomic. by intros. }
  intros w1 err [H1 _]. eapply guarantees_bind.
  { eapply (guarantees_frame _ _ (has_context ctx k)); [apply has_context_le|done|]. apply quiet_patch_status. }
  intros w2 u [H2 _]. apply guarantees_atomic. intros w3 Hle HI. simpl. split_and!.
  - by apply alter_context_registered.
  - by apply alter_context_le.
  - destruct (has_context_le _ _ _ _ Hle H2) as (c & Hc & Hk). exists (finished c). simpl.
    by rewrite list_lookup_alter_eq, Hc.
Qed.

Lemma quiet_execution e : quiet (execution env e).
Proof.
  intros w. unfold execution. eapply guarantees_bind; [apply quiet_open_log|].
  intros w1 [text|[]] _; [done|]. eapply guarantees_bind; [apply guarantees_addPlaybook|].
  intros w2 ctx Hctx. eapply guarantees_bind.
  { eapply (guarantees_frame _ _ (has_context ctx _)); [apply has_context_le|exact Hctx|]. apply quiet_NewPlaybookExecutor. }
  intros w3 [[[]|]|err|why] [H3 _]; [|done..]. eapply guarantees_bind; [by apply guarantees_Exec|].
  intros w4 u H4. eapply guarantees_bind; [exact (guarantees_deletePlaybook _ _ _ H4)|]. done.
Qed.

Lemma quiet_goroutine {R} (done : R) e : quiet (goroutine env R done e).
Proof. apply quiet_bind; [apply quiet_execution|]. intros [|?|why]; [apply quiet_ret..|]. by apply quiet_atomic. Qed.

Lemma quiet_executor e promise : quiet (executor env e promise).
Proof. unfold executor. case_bool_decide; [by apply quiet_atomic|apply quiet_execution]. Qed.

Lemma quiet_stopPlaybook p : quiet (stopPlaybook p).
Proof.
  intros w. apply guarantees_atomic. intros w' _ HI. unfold stop. simpl.
  destruct (w_manager w' !! _) as [ctx|]; [|done]. split_and!; [|by apply alter_context_le|done].
  by apply alter_context_registered.
Qed.

(** Whatever requests are served under whatever schedule, and however long. *)
Lemma serve_registered {R} (done : R) sched ts w :
  registered w → Forall quiet ts →
  let st := serve env done sched (w, ts) in
  registered st.1 ∧ contexts_le w st.1 ∧ ∀ later, contexts_le st.1 (serve env done later st).1.
Proof.
  intros Hw Hts. assert (∀ v, registered v → let st := started env done v in
    registered st.2 ∧ contexts_le v st.2 ∧ keeps_pool registered contexts_le st.1 st.2) as Hnew.
  { intros v Hv. unfold started. simpl. split_and!; [by apply (same_contexts_keeps v)|by apply (same_contexts_keeps v)|].
    apply list.Forall_forall. intros p Hp. apply list_elem_of_fmap in Hp as (e & -> & _). apply quiet_goroutine. }
  destruct (run_spawn_keeps dead (started env done) registered contexts_le sched w ts) as (H1 & H2 & H3);
    [done|done|eapply list.Forall_impl; [exact Hts|]; auto|].
  refine (conj H1 (conj H2 _)). intros later. unfold serve in *.
  destruct (run_spawn dead (started env done) sched (w, ts)) as [w' ts'].
  by destruct (run_spawn_keeps dead (started env done) registered contexts_le later w' ts') as (_ & H4 & _).
Qed.

End Executions.
