(* ===== verification/WebPlaybook.v ===== *)
(** * Playbooks of the web API: [src/feature/pkg/web/handler/playbook.go]

    The handlers as programs over the world of [WebManager].  A request is a
    [request]; a server takes any number of them, in any order and interleaving,
    together with the executions they start. *)

From Stdlib Require Import Ascii String.
From S2P Require Import Prelude GoStrings Paths Values Groups Prog Query WebManager.
From stdpp Require Import gmap strings list sets.

#[local] Open Scope nat_scope.

Definition SchemaLabelSubfix : string := "kubekey.kubesphere.io/schema".

Inductive entity := SUCCESS | OnePlaybook (p : Playbook).

Inductive request :=
| PostPlaybook (body : werror + Playbook) (promise : string)
| GetPlaybook (k : key)
| DeletePlaybook (k : key).

Section Handlers.
Context (env : Env) (workdir : string).

(** ** [Post] *)

Definition two_labels : string := "a playbook can only have one schema label. Please ensure only one schema label is set".
Definition empty_label : string := "the schema label value must not be empty. Please provide a valid schema label value".
Definition label_taken : string := "a playbook with the same schema label already exists. Please use a different schema label or remove the existing playbook".

(** The loop over the labels; [Some]: the answer that ends the request. *)
Fixpoint check_labels (hasSchemaLabel : bool) (labels : list (string * string)) : prog world (option (reply entity)) :=
  match labels with
  | [] => PRet None
  | (labelKey, labelValue) :: rest =>
      if negb (HasSuffix labelKey SchemaLabelSubfix) then check_labels hasSchemaLabel rest
      else if hasSchemaLabel then PRet (Some (HandleConflict two_labels))
      else if bool_decide (labelValue = "") then PRet (Some (HandleConflict empty_label))
      else
        do! r <- api_list env labelKey labelValue in
        match r with
        | inl e => PRet (Some (HandleError e))
        | inr items => if nonempty items then PRet (Some (HandleConflict label_taken)) else check_labels true rest
        end
  end.

(** The playbook as it is created. *)
Definition prepared (p : Playbook) : Playbook :=
  with_status PlaybookPhasePending (pb_failureMessage p) (with_config (<[Workdir := VStr workdir]> (pb_config p)) p).

Definition execute (q : Playbook) (ptr : nat) (promise : string) : prog world (reply entity) :=
  do! o <- executor env {| e_ptr := ptr; e_playbook := q |} (DefaultString promise "true") in
  match o with
  | Failed text => PRet (HandleError (wrap "failed to execute playbook" (plain text)))
  | Panicked why => PRet (Aborted why)
  | Done => atomic (λ w, (w, Entity StatusOK (OnePlaybook (default q (w_memory w !! ptr)))))
  end.

Definition Post (body : werror + Playbook) (promise : string) : prog world (reply entity) :=
  match body with
  | inl e => PRet (HandleError e)
  | inr p =>
      do! ptr <- alloc p in
      do! conflict <- check_labels false (pb_labels p) in
      match conflict with
      | Some r => PRet r
      | None =>
          do! _ <- atomic (λ w, (set_memory (<[ptr := prepared p]> (w_memory w)) w, ())) in
          do! c <- api_create env ptr (prepared p) in
          match c with
          | inl e => PRet (HandleError e)
          | inr q => execute q ptr promise
          end
      end
  end.

(** ** [Info], without a watch, and [Delete] *)

Definition Info (k : key) : prog world (reply entity) :=
  do! r <- api_get env k in
  match r with
  | inl e => PRet (HandleError e)
  | inr p => PRet (Entity StatusOK (OnePlaybook p))
  end.

Definition under (dir path : string) : bool := bool_decide (path = dir) || HasPrefix path (dir +:+ "/").

(** [os.Remove] and [os.RemoveAll], whose errors are ignored. *)
Definition remove_logs (p : Playbook) (w : world) : world :=
  set_files (filter (λ f, under (log_dir env p) f.1 = false) (delete (log_file env p) (w_files w)))
    (filter (λ d, under (log_dir env p) d = false) (w_dirs w)) w.

Definition Delete (k : key) : prog world (reply entity) :=
  do! r <- api_get env k in
  match r with
  | inl e => PRet (if IsNotFound e then Entity StatusOK SUCCESS else HandleError e)
  | inr p =>
      do! _ <- stopPlaybook p in
      do! d <- api_delete env (pb_key p) in
      match d with
      | inl e => PRet (HandleError e)
      | inr _ =>
          do! _ <- atomic (λ w, (remove_logs p w, ())) in
          do! t <- api_delete_tasks env p in
          match t with
          | inl e => PRet (HandleError e)
          | inr _ => PRet (Entity StatusOK SUCCESS)
          end
      end
  end.

(** A request on the server; a goroutine that it starts answers nothing. *)
Definition handler (r : request) : prog world (option (reply entity)) :=
  do! a <- match r with
           | PostPlaybook body promise => Post body promise
           | GetPlaybook k => Info k
           | DeletePlaybook k => Delete k
           end in
  PRet (Some a).

Definition serve_requests (sched : list nat) (reqs : list request) (w : world) : world * list (prog world (option (reply entity))) :=
  serve env None sched (w, handler <$> reqs).

End Handlers.

(** ** [Log]

    What the loop sends, given what the file holds each time it is read to its
    end: [ReadString] consumes the rest of the file even where it finds no end
    of a line, and answers [io.EOF] with it, which the loop drops. *)

Definition lf : ascii := ascii_of_nat 10.

(** The complete lines of a text, and what follows the last of them. *)
Fixpoint read_lines (s : string) : list string * string :=
  match s with
  | EmptyString => ([], EmptyString)
  | String a s' =>
      let '(lines, rest) := read_lines s' in
      if bool_decide (a = lf) then (String a EmptyString :: lines, rest)
      else match lines with
           | [] => ([], String a rest)
           | l :: lines' => (String a l :: lines', rest)
           end
  end.

(** The file grows by [appends]; the loop reads to the end after each. *)
Definition Log (appends : list string) : list string := concat (map (λ s, (read_lines s).1) appends).

(** ** [List], for playbooks and for inventories

    [meta.Accessor] is given the objects themselves, not their addresses. *)

Section Lists.
Context {T : Type}.

Inductive any_object := ByValue (o : T) | ByPointer (o : T).

Context (Accessor : any_object → option ObjectMeta).
Context (labels_match : string → gmap string string → option bool).
Context (sort_Slice : (T → T → bool) → list T → list T).

Definition ParameterFieldSelector : string := "fieldSelector".

Definition list_compare (left right : T) (sortBy : string) : bool :=
  match Accessor (ByValue left), Accessor (ByValue right) with
  | Some l, Some r => DefaultObjectMetaCompare l r sortBy
  | _, _ => false
  end.

Definition list_filter (o : T) (f : Query.Filter) : bool :=
  if bool_decide (Field f = ParameterFieldSelector) then true
  else match Accessor (ByValue o) with
       | Some m => DefaultObjectMetaFilter labels_match m f
       | None => false
       end.

(** The list of what the API server answers, which selects by namespace, field
    and label; [parse_fields] is [fields.ParseSelector]. *)
Definition ListHandler (parse_fields : string → option werror) (listed : werror + list T) (q : Query) : result (reply (ListResult T)) :=
  match q_filters q !! ParameterFieldSelector ≫= parse_fields with
  | Some e => Ok (HandleError e)
  | None =>
      match listed with
      | inl e => Ok (HandleError e)
      | inr items => let! r := DefaultList sort_Slice list_compare list_filter items q [] in Ok (Entity StatusOK r)
      end
  end.

End Lists.
Arguments any_object T : clear implicits.

#[local] Arguments pbind : simpl never.

(** ** Cancellation, under every schedule *)

Lemma quiet_check_labels env has labels : quiet (check_labels env has labels).
Proof.
  revert has. induction labels as [|[l v] labels IH]; intros has; simpl; [apply quiet_ret|].
  destruct (negb _); [apply IH|]. destruct has; [apply quiet_ret|]. case_bool_decide; [apply quiet_ret|].
  unfold api_list. quiet_step; [repeat quiet_step|]. intros [e|items]; [apply quiet_ret|].
  destruct (nonempty items); [apply quiet_ret|apply IH].
Qed.

Lemma quiet_create env ptr p : quiet (api_create env ptr p).
Proof. apply quiet_call. intros w. simpl. by case_match. Qed.

Lemma quiet_execute env q ptr promise : quiet (execute env q ptr promise).
Proof. unfold execute. quiet_step; [apply quiet_executor|]. repeat quiet_step. Qed.

Lemma quiet_handler env workdir r : quiet (handler env workdir r).
Proof.
  unfold handler. quiet_step; [|repeat quiet_step]. destruct r as [[e|p] promise|k|k].
  - apply quiet_ret.
  - unfold Post, alloc. quiet_step; [quiet_step|]. intros ptr. quiet_step; [apply quiet_check_labels|].
    intros [r|]; [quiet_step|]. quiet_step; [quiet_step|]. intros _. quiet_step; [apply quiet_create|].
    intros [e|q]; [quiet_step|apply quiet_execute].
  - unfold Info, api_get. repeat quiet_step.
  - unfold Delete, api_get. quiet_step; [repeat quiet_step|]. intros [e|p]; [repeat quiet_step|].
    quiet_step; [apply quiet_stopPlaybook|]. intros _. quiet_step.
    { apply quiet_call. intros w. by destruct (w_playbooks w !! pb_key p). }
    unfold api_delete_tasks. repeat quiet_step.
Qed.

Lemma serve_requests_registered env workdir sched later reqs w :
  registered w →
  registered (serve_requests env workdir sched reqs w).1 ∧
  contexts_le (serve_requests env workdir sched reqs w).1 (serve_requests env workdir (sched ++ later) reqs w).1.
Proof.
  intros Hw. unfold serve_requests, serve. rewrite run_spawn_app.
  assert (Forall quiet (handler env workdir <$> reqs)) as HF.
  { apply list.Forall_forall. intros p Hp. apply list_elem_of_fmap in Hp as (r & -> & _). apply quiet_handler. }
  destruct (serve_registered env None sched _ w Hw HF) as (H1 & _ & H2). exact (conj H1 (H2 later)).
Qed.

Lemma fresh_registered w : w_manager w = ∅ → w_contexts w = [] → registered w.
Proof. intros Hm Hc. split; rewrite Hm; [done|]. rewrite Hc. done. Qed.


(** ** Requests one after the other *)

Lemma run_web_call {A} env (f : world → world * (werror + A)) w :
  run (call env f) w = match api env (w_clock w) with Some e => (tick w, inl e) | None => f (tick w) end.
Proof.
  unfold call, atomic. simpl. destruct (api env (w_clock w)); [done|]. by destruct (f (tick w)).
Qed.

Lemma run_atomic {A} (f : world → world * A) w : run (atomic f) w = f w.
Proof. unfold atomic. simpl. by destruct (f w). Qed.

(** The calls of the API server succeed. *)
Definition api_up (env : Env) : Prop := ∀ n, api env n = None.

Lemma run_call_up {A} env (f : world → world * (werror + A)) w : api_up env → run (call env f) w = f (tick w).
Proof. intros H. rewrite run_web_call. by rewrite H. Qed.

Lemma filter_under_None {A} (dir path : string) (m : gmap string A) :
  under dir path = true → filter (λ f, under dir f.1 = false) m !! path = None.
Proof. intros H. apply map_lookup_filter_None. right. intros x _. simpl. by rewrite H. Qed.

(** Playbooks are stored under their keys. *)
Definition keyed (w : world) : Prop := ∀ k p, w_playbooks w !! k = Some p → pb_key p = k.

(** Only contexts change when an execution is stopped. *)
Lemma stop_fields s w :
  w_playbooks (stop s w) = w_playbooks w ∧ w_tasks (stop s w) = w_tasks w ∧ w_manager (stop s w) = w_manager w ∧
  w_files (stop s w) = w_files w ∧ w_dirs (stop s w) = w_dirs w ∧ w_go (stop s w) = w_go w ∧ w_crashed (stop s w) = w_crashed w ∧
  w_clock (stop s w) = w_clock w.
Proof. unfold stop. by destruct (w_manager w !! s). Qed.

Lemma stop_tick s w : stop s (tick w) = tick (stop s w).
Proof. unfold stop. simpl. by destruct (w_manager w !! s). Qed.

(** What [Delete] leaves of a playbook. *)
Definition deleted (env : Env) (k : key) (p : Playbook) (w : world) : world :=
  let w1 := tick (stop (key_string k) (tick w)) in
  let w2 := remove_logs env p (set_playbooks (delete k (w_playbooks w)) w1) in
  set_tasks (List.filter (λ t, negb (task_of p t)) (w_tasks w)) (tick w2).

Lemma run_Delete env k p w :
  api_up env → keyed w → w_playbooks w !! k = Some p →
  run (Delete env k) w = (deleted env k p w, Entity StatusOK SUCCESS).
Proof.
  intros Hup Hk Hp. unfold Delete, api_get. rewrite run_pbind, run_call_up by done. cbn [fst snd].
  change (w_playbooks (tick w)) with (w_playbooks w). rewrite Hp.
  unfold stopPlaybook. rewrite run_pbind, run_atomic. cbn [fst snd]. rewrite (Hk k p Hp).
  unfold api_delete. rewrite run_pbind, run_call_up by done.
  change (w_playbooks (tick (stop (key_string k) (tick w)))) with (w_playbooks (stop (key_string k) (tick w))).
  destruct (stop_fields (key_string k) (tick w)) as (-> & Ht & _). simpl. rewrite Hp. cbn [fst snd].
  rewrite run_pbind, run_atomic. cbn [fst snd]. unfold api_delete_tasks. rewrite run_pbind, run_call_up by done.
  cbn [fst snd run]. unfold deleted. do 3 f_equal. simpl. by rewrite Ht.
Qed.


(** ** A missing inventory *)

Lemma run_disk_call {A} env (f : world → world * A) w :
  run (disk_call env f) w =
  match disk env (w_clock w) with Some e => (tick w, inl e) | None => let '(w', a) := f (tick w) in (w', inr a) end.
Proof.
  unfold disk_call, atomic. simpl. destruct (disk env (w_clock w)); [done|]. by destruct (f (tick w)).
Qed.

Definition disk_up (env : Env) : Prop := ∀ n, disk env n = None.

(** Opening the log leaves everything but the files and the clock. *)
Lemma run_open_log env p w :
  disk_up env →
  ∃ w', run (open_log env p) w = (w', inr ()) ∧ w_inventories w' = w_inventories w ∧ w_playbooks w' = w_playbooks w ∧
        w_manager w' = w_manager w ∧ w_contexts w' = w_contexts w ∧ w_go w' = w_go w.
Proof.
  intros Hd. unfold open_log. rewrite run_pbind, run_disk_call, Hd. cbn [fst snd].
  destruct (bool_decide _); rewrite run_pbind; [cbn [run fst snd]|rewrite run_disk_call, Hd; cbn [fst snd]];
    rewrite run_pbind, run_disk_call, Hd; simpl; by eexists.
Qed.

(** An execution without its inventory panics, and its entry stays. *)
Lemma execution_without_inventory env e ref w :
  disk_up env → pb_inventoryRef (e_playbook e) = Some ref → w_inventories w !! ref = None →
  let '(w', o) := run (execution env e) w in
  o = Panicked "nil pointer dereference" ∧ w_playbooks w' = w_playbooks w ∧ w_go w' = w_go w ∧
  w_manager w' = <[key_string (pb_key (e_playbook e)) := length (w_contexts w)]> (w_manager w).
Proof.
  intros Hd Href Hinv. unfold execution. rewrite run_pbind.
  destruct (run_open_log env (e_playbook e) w Hd) as (w1 & E1 & Hi & Hp & Hm & Hc & Hg). rewrite E1. cbn [fst snd].
  unfold addPlaybook. rewrite run_pbind, run_atomic. cbn [fst snd]. rewrite run_pbind.
  unfold NewPlaybookExecutor. rewrite Href, run_pbind, run_disk_call, Hd. cbn [fst snd].
  rewrite run_pbind. unfold api_get_inventory. rewrite run_web_call.
  destruct (api env _); simpl; [|rewrite Hi, Hinv; simpl]; rewrite ?Hp, ?Hm, ?Hc, ?Hg; done.
Qed.

(** Nothing runs in a process that has died. *)
Lemma serve_dead {R} env (done : R) sched w ts why : w_crashed w = Some why → serve env done sched (w, ts) = (w, ts).
Proof.
  intros Hw. unfold serve, run_spawn. induction sched as [|i sched IH]; [reflexivity|].
  simpl. unfold spawn_step at 2, dead at 2. simpl. by rewrite Hw.
Qed.


(** ** Schema labels *)

(** No two playbooks have a schema label in common. *)
Definition labels_unique (w : world) : Prop :=
  ∀ k1 k2 p1 p2 l v, w_playbooks w !! k1 = Some p1 → w_playbooks w !! k2 = Some p2 →
    HasSuffix l SchemaLabelSubfix = true → (l, v) ∈ pb_labels p1 → (l, v) ∈ pb_labels p2 → k1 = k2.

(** No playbook of [w'] is new or has other labels. *)
Definition labels_le (w' w : world) : Prop :=
  ∀ k p', w_playbooks w' !! k = Some p' → ∃ p, w_playbooks w !! k = Some p ∧ pb_labels p = pb_labels p'.

Lemma labels_le_unique w' w : labels_le w' w → labels_unique w → labels_unique w'.
Proof.
  intros H HU k1 k2 p1 p2 l v H1 H2 Hl L1 L2. destruct (H _ _ H1) as (q1 & E1 & F1), (H _ _ H2) as (q2 & E2 & F2).
  eapply (HU k1 k2 q1 q2 l v); congruence.
Qed.

Lemma labels_le_refl w w' : w_playbooks w' = w_playbooks w → labels_le w' w.
Proof. intros E k p. rewrite E. by exists p. Qed.

Notation unique_safe := (psafe labels_unique (λ _, True)).

Lemma unique_atomic {A} (f : world → world * A) : (∀ w, labels_le (f w).1 w) → unique_safe (atomic f).
Proof. intros H. apply psafe_atomic. intros w Hw. split; [|done]. by eapply labels_le_unique. Qed.

Lemma unique_call {A} env (f : world → world * (werror + A)) : (∀ w, labels_le (f w).1 w) → unique_safe (call env f).
Proof. intros H. apply unique_atomic. intros w. destruct (api env (w_clock w)); [by apply labels_le_refl|]. apply (H (tick w)). Qed.

Lemma unique_disk {A} env (f : world → world * A) : (∀ w, w_playbooks (f w).1 = w_playbooks w) → unique_safe (disk_call env f).
Proof.
  intros H. apply unique_atomic. intros w. apply labels_le_refl. destruct (disk env (w_clock w)); [done|].
  specialize (H (tick w)). by destruct (f (tick w)).
Qed.

Lemma unique_bind {A B} (p : prog world A) (k : A → prog world B) :
  unique_safe p → (∀ a, unique_safe (k a)) → unique_safe (pbind p k).
Proof. intros Hp Hk. eapply psafe_bind; [exact Hp|]. auto. Qed.

Ltac unique_step :=
  match goal with
  | |- psafe _ _ (pbind _ _) => apply unique_bind
  | |- psafe _ _ (PRet _) => exact I
  | |- psafe _ _ (call _ _) => apply unique_call; intros ?; try (by apply labels_le_refl, stop_fields); try (by apply labels_le_refl)
  | |- psafe _ _ (disk_call _ _) => apply unique_disk; intros ?; try done
  | |- psafe _ _ (atomic _) => apply unique_atomic; intros ?; try (by apply labels_le_refl, stop_fields); try (by apply labels_le_refl)
  | |- ∀ _, psafe _ _ _ => intros ?
  | |- psafe _ _ (match ?x with _ => _ end) => destruct x
  end.

Lemma alter_status_labels err k w w' :
  w_playbooks w' = alter (end_status err) k (w_playbooks w) → labels_le w' w.
Proof.
  intros E k' p'. rewrite E. destruct (decide (k = k')) as [->|Hne].
  - rewrite lookup_alter_eq. intros (p & Hp & ->)%fmap_Some. exists p. split; [done|]. by destruct err.
  - rewrite lookup_alter_ne by done. by exists p'.
Qed.

Lemma unique_executor env e promise : unique_safe (executor env e promise).
Proof.
  unfold executor. destruct (bool_decide _); [unique_step|].
  unfold execution, open_log, addPlaybook, NewPlaybookExecutor, api_get_inventory, Exec, patch_status, deletePlaybook.
  repeat unique_step.
  destruct (cancelled _ _); [by apply labels_le_refl|]. destruct (api env _); [by apply labels_le_refl|].
  by eapply alter_status_labels.
Qed.

(** What the loop over the labels has checked when it lets a playbook pass. *)
Lemma check_labels_passed env has labels w w' :
  run (check_labels env has labels) w = (w', None) →
  w_playbooks w' = w_playbooks w ∧
  ∀ l v, (l, v) ∈ labels → HasSuffix l SchemaLabelSubfix = true →
    has = false ∧ v ≠ "" ∧ with_label l v w = [] ∧
    ∀ l' v', (l', v') ∈ labels → HasSuffix l' SchemaLabelSubfix = true → (l', v') = (l, v).
Proof.
  revert has w. induction labels as [|[l0 v0] labels IH]; intros has w; cbn [check_labels].
  { simpl. intros [= <-]. split; [done|]. intros l v H. by apply elem_of_nil in H. }
  destruct (HasSuffix l0 SchemaLabelSubfix) eqn:Hs; cbn [negb].
  - destruct has; [done|]. case_bool_decide as Hv; [done|]. rewrite run_pbind. unfold api_list. rewrite run_web_call.
    destruct (api env (w_clock w)); cbn [fst snd]; [done|].
    change (with_label l0 v0 (tick w)) with (with_label l0 v0 w).
    destruct (with_label l0 v0 w) eqn:Hl; cbn [nonempty]; [|done]. intros H. apply IH in H as [Hp H].
    assert (∀ l v, (l, v) ∈ labels → HasSuffix l SchemaLabelSubfix = true → False) as Hnone.
    { intros l v Hin Hsuf. by destruct (H l v Hin Hsuf) as (? & _). }
    split; [done|]. intros l v Hin Hsuf. apply elem_of_cons in Hin as [[= -> ->]|Hin]; [|by destruct (Hnone l v)].
    split_and!; [done..|]. intros l' v' Hin' Hsuf'. apply elem_of_cons in Hin' as [?|Hin']; [done|]. by destruct (Hnone l' v').
  - intros H. apply IH in H as [Hp H]. split; [done|]. intros l v Hin Hsuf.
    apply elem_of_cons in Hin as [[= -> ->]|Hin]; [congruence|]. destruct (H l v Hin Hsuf) as (H1 & H2 & H3 & H4).
    split_and!; [done..|]. intros l' v' Hin' Hsuf'. apply elem_of_cons in Hin' as [[= -> ->]|Hin']; [congruence|]. auto.
Qed.

Lemma with_label_nil l v w : with_label l v w = [] → ∀ k p, w_playbooks w !! k = Some p → (l, v) ∉ pb_labels p.
Proof.
  unfold with_label. intros H k p Hp Hin. assert (p ∈ ([] : list Playbook)) as Hbad; [|by apply elem_of_nil in Hbad].
  rewrite <- H. apply list_elem_of_In, filter_In. split; [|by apply bool_decide_eq_true].
  apply list_elem_of_In, list_elem_of_fmap. exists (k, p). split; [done|]. by apply elem_of_map_to_list.
Qed.

Lemma unique_check_labels env has labels : unique_safe (check_labels env has labels).
Proof.
  revert has. induction labels as [|[l0 v0] l IH]; intros has; cbn [check_labels]; [done|].
  destruct (negb _); [apply IH|]. destruct has; [done|]. destruct (bool_decide _); [done|]. unfold api_list.
  apply unique_bind; [repeat unique_step|]. intros [?|items]; [done|]. destruct (nonempty items); [done|apply IH].
Qed.

Lemma unique_execute env q ptr promise : unique_safe (execute env q ptr promise).
Proof. unfold execute. apply unique_bind; [apply unique_executor|]. repeat unique_step. Qed.

(** A playbook whose labels have been checked is added. *)
Lemma labels_unique_insert k q w w' :
  w_playbooks w' = <[k := q]> (w_playbooks w) → labels_unique w →
  (∀ l v, (l, v) ∈ pb_labels q → HasSuffix l SchemaLabelSubfix = true → with_label l v w = []) →
  labels_unique w'.
Proof.
  intros E HU Hq k1 k2 p1 p2 l v H1 H2 Hl L1 L2. rewrite E in H1, H2.
  apply lookup_insert_Some in H1 as [[<- <-]|[N1 H1]]; apply lookup_insert_Some in H2 as [[<- <-]|[N2 H2]]; [done| | |by eauto].
  - by destruct (with_label_nil l v w (Hq l v L1 Hl) k2 p2 H2).
  - by destruct (with_label_nil l v w (Hq l v L2 Hl) k1 p1 H1).
Qed.

Lemma run_unique {A} (p : prog world A) w : unique_safe p → labels_unique w → labels_unique (run p w).1.
Proof. intros Hp Hw. by apply (psafe_run labels_unique (λ _, True) p w). Qed.

Lemma unique_Post env workdir body promise w :
  labels_unique w → labels_unique (run (Post env workdir body promise) w).1.
Proof.
  intros HU. destruct body as [e|p]; [done|]. unfold Post, alloc. rewrite run_pbind, run_atomic. cbn [fst snd].
  set (w1 := set_memory (w_memory w ++ [p]) w). rewrite run_pbind.
  destruct (run (check_labels env false (pb_labels p)) w1) as [w2 [r|]] eqn:E; cbn [fst snd].
  { pose proof (run_unique _ w1 (unique_check_labels env false (pb_labels p)) HU) as H. by rewrite E in H. }
  apply check_labels_passed in E as [Hp Hlabels]. rewrite run_pbind, run_atomic. cbn [fst snd]. rewrite run_pbind.
  assert (∀ w3, w_playbooks w3 = w_playbooks w → labels_unique w3) as Hsame.
  { intros w3 E3. unfold labels_unique. by rewrite E3. }
  unfold api_create. rewrite run_web_call. destruct (api env _); [by apply Hsame|]. cbv zeta.
  match goal with |- context [if ?b then _ else _] => destruct b end; [by apply Hsame|].
  cbn [fst snd]. apply run_unique; [apply unique_execute|].
  eapply (labels_unique_insert (pb_key (created env (prepared workdir p) _)) (created env (prepared workdir p) _) w); [by simpl; rewrite Hp|done|].
  intros l v Hin Hl. by destruct (Hlabels l v Hin Hl) as (_ & _ & H & _).
Qed.

(** Requests that are served one after the other, with their executions when
    the request waits for them. *)
Definition in_turn (env : Env) (workdir : string) (reqs : list request) (w : world) : world :=
  fold_left (λ w r, (run (handler env workdir r) w).1) reqs w.

(** C36: as long as requests are served one after the other no two playbooks
    have a schema label in common, whatever calls fail. *)
Theorem schema_labels_unique env workdir reqs w : labels_unique w → labels_unique (in_turn env workdir reqs w).
Proof.
  intros Hw. unfold in_turn. apply (fold_left_invariant labels_unique); [done|]. clear. intros w r _ Hw. unfold handler. rewrite run_pbind. simpl.
  destruct r as [body promise|k|k]; [by apply unique_Post| |]; apply run_unique; try done.
  - unfold Info, api_get. repeat unique_step.
  - unfold Delete, api_get, stopPlaybook, api_delete, api_delete_tasks. repeat unique_step.
    + case_match; [|by apply labels_le_refl]. intros k' p' Hp'. simpl in Hp'. apply lookup_delete_Some in Hp' as [_ Hp']. by exists p'.
Qed.

(** ** The races *)

Ltac by_computation := lazymatch goal with |- _ = ?r => vm_cast_no_check (eq_refl r) end.

Definition calm : Env := {|
  api _ := None; disk _ := None; create_exists := true; generated _ := "x"; cwd := Some "/root"; plays_end _ _ := None;
|}.

Definition empty_world : world := {|
  w_playbooks := ∅; w_inventories := ∅; w_tasks := []; w_nextUID := 1; w_memory := []; w_manager := ∅; w_contexts := [];
  w_files := ∅; w_dirs := ∅; w_clock := 0; w_go := []; w_crashed := None;
|}.

Definition sample (name : string) (labels : list (string * string)) (inventory : option key) : Playbook := {|
  pb_namespace := "default"; pb_name := name; pb_generateName := ""; pb_uid := 0; pb_labels := labels; pb_config := ∅;
  pb_inventoryRef := inventory; pb_playbook := "site.yaml"; pb_phase := ""; pb_failureMessage := ""; pb_result := "";
|}.

Definition install : request := PostPlaybook (inr (sample "install" [] None)) "".
Definition remove : request := DeletePlaybook ("default", "install").


(** A playbook that is deleted and created again: the first execution, cancelled,
    removes the entry of the second when it ends, and deleting the second does
    not stop it. *)
Theorem recreated_playbook_runs_on :
  let st := serve_requests calm "/kk"
    (replicate 5 0 ++ replicate 4 4 ++ replicate 5 1 ++ replicate 5 2 ++ replicate 4 5 ++ replicate 5 4 ++ replicate 5 3)
    [install; remove; install; remove] empty_world in
  st.2 !! 1 = Some (PRet (Some (Entity StatusOK SUCCESS))) ∧
  st.2 !! 3 = Some (PRet (Some (Entity StatusOK SUCCESS))) ∧
  w_playbooks st.1 = ∅ ∧ w_manager st.1 = ∅ ∧
  w_contexts st.1 = [{| x_key := "default/install"; x_uid := 1; x_cancelled := true; x_running := false |};
                     {| x_key := "default/install"; x_uid := 2; x_cancelled := false; x_running := true |}].
Proof. cbv zeta. split_and!; by_computation. Qed.

Definition labelled (name : string) : request :=
  PostPlaybook (inr (sample name [("install.kubekey.kubesphere.io/schema", "k8s.json")] None)) "".

(** Two requests that check a label before either creates its playbook: both
    playbooks have it. *)
Theorem label_check_races :
  let w := (serve_requests calm "/kk" (replicate 2 0 ++ replicate 2 1 ++ replicate 4 0 ++ replicate 4 1) [labelled "a"; labelled "b"] empty_world).1 in
  ¬ labels_unique w ∧ labels_unique (in_turn calm "/kk" [labelled "a"; labelled "b"] empty_world).
Proof.
  split.
  - intros H. assert (("default", "a") = ("default", "b") :> key) as E; [|done].
    eapply (H _ _ _ _ "install.kubekey.kubesphere.io/schema" "k8s.json"); [vm_compute; reflexivity|vm_compute; reflexivity|reflexivity| |];
      simpl; by left.
  - apply schema_labels_unique. intros k1 k2 p1 p2 l v H. done.
Qed.

(** ** What a log request sends *)

Definition sent (lines : list string) : string := StrJoin lines "".

Lemma length_str_app (a b : string) : String.length (a +:+ b) = String.length a + String.length b.
Proof. induction a as [|c a IH]; simpl; [done|]. by rewrite IH. Qed.

Lemma sent_cons l ls : sent (l :: ls) = l +:+ sent ls.
Proof. unfold sent. destruct ls; simpl; [by rewrite str_app_nil_r|done]. Qed.

Lemma sent_app l1 l2 : sent (l1 ++ l2) = sent l1 +:+ sent l2.
Proof. induction l1 as [|l l1 IH]; [done|]. rewrite <- app_comm_cons, !sent_cons, IH. by rewrite str_app_assoc. Qed.

(** Reading splits the text and keeps its order. *)
Lemma read_lines_sent s : sent (read_lines s).1 +:+ (read_lines s).2 = s.
Proof.
  induction s as [|a s IH]; [done|]. simpl. destruct (read_lines s) as [lines rest]. simpl in IH.
  case_bool_decide as Ha; cbn [fst snd] in *.
  - rewrite sent_cons, str_app_assoc, IH. done.
  - destruct lines as [|l lines]; cbn [fst snd] in *; [by rewrite <- IH|]. rewrite sent_cons in *. by rewrite <- IH.
Qed.

(** What a log request sends, in order, is the log without the beginnings of
    lines it has met before their ends were written: it is the whole log if and
    only if it has never read an unfinished line. *)
Theorem Log_streams appends :
  sent (Log appends) = sent appends ↔ Forall (λ s, (read_lines s).2 = "") appends.
Proof.
  assert (String.length (sent (Log appends)) + foldr (λ s n, String.length (read_lines s).2 + n) 0 appends = String.length (sent appends)) as HL.
  { induction appends as [|s appends IH]; [done|]. unfold Log in *. simpl concat. rewrite sent_app, sent_cons, !length_str_app.
    pose proof (f_equal String.length (read_lines_sent s)) as E. rewrite length_str_app in E. simpl. lia. }
  split.
  - intros E. rewrite E in HL. assert (foldr (λ s n, String.length (read_lines s).2 + n) 0 appends = 0) as H0 by lia. clear -H0.
    induction appends as [|s appends IH]; constructor; simpl in H0.
    + destruct (read_lines s).2; [done|simpl in H0; lia].
    + apply IH. lia.
  - intros H. clear HL. induction H as [|s appends Hs _ IH]; [done|]. unfold Log in *. simpl concat.
    rewrite sent_app, sent_cons, IH. f_equal. pose proof (read_lines_sent s) as E. rewrite Hs, str_app_nil_r in E. done.
Qed.

(** A line that is written in two parts loses the first. *)
Example half_a_line : Log ["task one" +:+ String lf "task t"; "wo" +:+ String lf ""] = ["task one" +:+ String lf ""; "wo" +:+ String lf ""].
Proof. reflexivity. Qed.

(** ** Lists *)

(** Lists of playbooks and of inventories know no filter and no order.  The
    objects are handed to meta.Accessor by value, which it refuses: with any
    filter but the field selector the list is empty, whatever matches, and no two
    objects are ever told apart by their order. *)
Theorem lists_ignore_their_query {T} (Accessor : any_object T → option ObjectMeta) labels_match sort parse_fields (items : list T) q :
  (∀ o, Accessor (ByValue o) = None) → (∀ less l, sort less l ≡ₚ l) → q_pagination q = Some NoPagination →
  q_filters q !! ParameterFieldSelector ≫= parse_fields = None →
  ((∃ f v, f ≠ ParameterFieldSelector ∧ q_filters q !! f = Some v) →
   ListHandler Accessor labels_match sort parse_fields (inr items) q = Ok (Entity StatusOK {| Items := []; TotalItems := 0 |})) ∧
  (∀ left right by_, list_compare Accessor left right by_ = list_compare Accessor right left by_).
Proof.
  intros HA HS Hpage Hparse. split; [|intros left right by_; unfold list_compare; by rewrite !HA].
  intros (f & v & Hf & Hv). unfold ListHandler. rewrite Hparse.
  assert (List.filter (selected (list_filter Accessor labels_match) q) items = []) as HE.
  { induction items as [|o items IH]; [done|]. simpl. assert (selected (list_filter Accessor labels_match) q o = false) as ->; [|done].
    apply not_true_is_false. intros H. unfold selected in H. rewrite forallb_forall in H.
    specialize (H (f, v)). rewrite <- list_elem_of_In, elem_of_map_to_list in H. specialize (H Hv).
    unfold list_filter in H. simpl in H. rewrite bool_decide_eq_false_2, HA in H by done. done. }
  unfold DefaultList. rewrite HE. simpl.
  match goal with |- context [sort ?less []] => assert (sort less [] = []) as -> end; [by apply Permutation_nil_r, HS|].
  simpl. rewrite Hpage. done.
Qed.

(** ** Witnesses *)


Definition stored_world : world := set_playbooks {[("default", "install") := sample "install" [] None]} empty_world.



Lemma schema_labels_unique_witness :
  labels_unique (in_turn calm "/kk" [labelled "a"; labelled "b"] empty_world).
Proof. apply (schema_labels_unique calm "/kk" [labelled "a"; labelled "b"] empty_world). intros k1 k2 p1 p2 l v H. done. Defined.

(** The objects of the witness are their own metadata. *)
Definition only_pointers (o : any_object ObjectMeta) : option ObjectMeta :=
  match o with ByValue _ => None | ByPointer m => Some m end.

Definition named (name : string) : ObjectMeta :=
  {| om_name := name; om_namespace := "default"; om_uid := name; om_creation := 0; om_owners := []; om_labels := ∅; om_annotations := ∅ |}.

Lemma lists_ignore_their_query_witness :
  ListHandler only_pointers (λ _ _, Some true) (λ _ l, l) (λ _, None) (inr [named "a"; named "b"]) (ParseQueryParameter {["name" := ["a"]]})
  = Ok (Entity StatusOK {| Items := []; TotalItems := 0 |}).
Proof.
  apply (lists_ignore_their_query only_pointers (λ _ _, Some true) (λ _ l, l) (λ _, None) [named "a"; named "b"]
           (ParseQueryParameter {["name" := ["a"]]})); [done|done|reflexivity|reflexivity|].
  exists "name", "a". split; [done|reflexivity].
Defined.
