(* ===== verification/WebSchema.v ===== *)
(** * Schemas, configuration and addresses of the web API:
      [src/feature/pkg/web/handler/resources.go]

    The schemas are files in a directory; the configuration that a user has
    entered for them is one more file there, which is written after the playbooks
    that check it have run. *)

From Stdlib Require Import Ascii String.
From S2P Require Import Prelude GoStrings Paths Values Groups Prog Query Net WebManager WebPlaybook.
From stdpp Require Import gmap strings list sets.

#[local] Open Scope nat_scope.

(** ** Data: [api/result.go] *)

Definition SchemaProductFile : string := "product.json".
Definition SchemaConfigFile : string := "config.json".

Record SchemaFileDataSchema := {
  ds_title : string; ds_description : string; ds_version : string; ds_namespace : string; ds_logo : string; ds_priority : Z;
}.

Record SchemaFile := { DataSchema : SchemaFileDataSchema; PlaybookPath : gmap string string }.

Record SchemaTablePlaybook := {
  stp_path : string; stp_name : string; stp_namespace : string; stp_phase : string; stp_result : option value;
}.

Record SchemaTable := {
  st_name : string; st_schema : SchemaFileDataSchema; st_playbook : gmap string SchemaTablePlaybook;
}.

(** [SchemaFile2Table] *)
Definition SchemaFile2Table (schemaFile : SchemaFile) (filename : string) : SchemaTable :=
  {| st_name := filename; st_schema := DataSchema schemaFile;
     st_playbook := (λ path, {| stp_path := path; stp_name := ""; stp_namespace := ""; stp_phase := ""; stp_result := None |}) <$> PlaybookPath schemaFile |}.

(** What a decoder of JSON answers. *)
Inductive decoded (A : Type) := Decoded (a : A) | EndOfInput | Invalid (text : string).
Arguments Decoded {A} a.
Arguments EndOfInput {A}.
Arguments Invalid {A} text.

(** A configuration: the values of each schema file, in the order in which the
    loop ranges over them; [None] is a nil map. *)
Notation Configs := (list (string * option (gmap string value))).

Inductive config_entity := ConfigSUCCESS | PrecheckFailed (results : list (string * string)).

Section Resources.
Context (env : Env) (rootPath workdir : string).
Context (json_config : string → decoded Configs).
Context (json_schema : string → string + SchemaFile).
Context (json_result : string → option value).

Definition config_path : string := Paths.Join [rootPath; SchemaConfigFile].

(** [os.ReadFile] *)
Definition ReadFile (path : string) : prog world (string + string) :=
  do! r <- disk_call env (λ w, (w, w_files w !! path)) in
  PRet match r with
       | inl e => inl e
       | inr None => inl ("open " +:+ path +:+ ": no such file or directory")
       | inr (Some data) => inr data
       end.

(** ** [ConfigInfo] *)

Definition ConfigInfo : prog world (reply string) :=
  do! r <- disk_call env (λ w, (w, w_files w !! config_path)) in
  PRet match r with
       | inl e => Error StatusInternalServerError e
       | inr None => Error StatusNotFound "no such file or directory"
       | inr (Some data) => Entity StatusOK data
       end.

(** ** [PostConfig] *)

(** [filepath.Ext] *)
Definition dot_char : ascii := ascii_of_nat 46.
Fixpoint ext_rev (s acc : string) : string :=
  match s with
  | EmptyString => ""
  | String a s' =>
      if bool_decide (a = slash) then ""
      else if bool_decide (a = dot_char) then String a acc
      else ext_rev s' (String a acc)
  end.
Definition Ext (path : string) : string := ext_rev (str_rev path) "".

Definition precheck_label : string := "precheck." +:+ SchemaLabelSubfix.

Definition precheck (namespace inventory fileName pbpath : string) (config : gmap string value) : Playbook :=
  {| pb_namespace := namespace; pb_name := ""; pb_generateName := "precheck-" +:+ TrimSuffix fileName (Ext fileName) +:+ "-";
     pb_uid := 0; pb_labels := []; pb_config := <[Workdir := VStr workdir]> config; pb_inventoryRef := Some (namespace, inventory);
     pb_playbook := pbpath; pb_phase := PlaybookPhasePending; pb_failureMessage := ""; pb_result := "" |}.

Definition internal {A} (text : string) : reply A := Error StatusInternalServerError text.

Definition old_value (oldConfig : Configs) (fileName : string) : option (gmap string value) :=
  default None (alookup fileName oldConfig).

(** The loop over the new configuration: the prechecks that have been started,
    or the answer that ends the request. *)
Fixpoint start_prechecks (namespace inventory : string) (oldConfig newConfig : Configs) (playbooks : list (string * Execution))
    : prog world (reply config_entity + list (string * Execution)) :=
  match newConfig with
  | [] => PRet (inr playbooks)
  | (fileName, newVal) :: rest =>
      if bool_decide (newVal = old_value oldConfig fileName) then start_prechecks namespace inventory oldConfig rest playbooks
      else
        do! file <- ReadFile (Paths.Join [rootPath; fileName]) in
        match file with
        | inl e => PRet (inl (internal e))
        | inr schemaInfo =>
            match json_schema schemaInfo with
            | inl e => PRet (inl (internal e))
            | inr schemaFile =>
                let pbpath := default "" (PlaybookPath schemaFile !! precheck_label) in
                if bool_decide (pbpath = "") then start_prechecks namespace inventory oldConfig rest playbooks
                else
                  match newVal with
                  | None => PRet (inl (Aborted "assignment to entry in nil map"))
                  | Some config =>
                      let p := precheck namespace inventory fileName pbpath config in
                      do! ptr <- alloc p in
                      do! c <- api_create env ptr p in
                      match c with
                      | inl e => PRet (inl (HandleError (wrap "failed to create precheck playbook" e)))
                      | inr q =>
                          start_prechecks namespace inventory oldConfig rest
                            (playbooks ++ [(fileName, {| e_ptr := ptr; e_playbook := q |})])
                      end
                  end
            end
        end
  end.

Definition outcome_panic (o : outcome) : option string := match o with Panicked why => Some why | _ => None end.

(** [wg.Wait]: the executions, under a schedule of their own.  One that panics
    ends the process. *)
Definition run_prechecks (sched : list nat) (executions : list Execution) : prog world (option string) :=
  atomic (λ w,
    let '(w', outcomes) := run_pool sched (execution env <$> executions) w in
    match omap outcome_panic outcomes with
    | why :: _ => (crash why w', Some why)
    | [] => (w', None)
    end).

Definition precheck_results (playbooks : list (string * Execution)) (w : world) : list (string * string) :=
  omap (λ fe : string * Execution,
    let message := match w_memory w !! e_ptr fe.2 with Some p => pb_failureMessage p | None => "" end in
    if bool_decide (message = "") then None else Some (fe.1, message)) playbooks.

Definition write_config (data : string) (w : world) : world :=
  set_files (<[config_path := data]> (w_files w)) (w_dirs w) w.

(** The request on an opened file. *)
Definition check_and_write (sched : list nat) (namespace inventory body : string) (oldConfig newConfig : Configs) : prog world (reply config_entity) :=
  do! s <- start_prechecks namespace inventory oldConfig newConfig [] in
  match s with
  | inl r => PRet r
  | inr playbooks =>
      do! panic <- run_prechecks sched (playbooks.*2) in
      match panic with
      | Some why => PRet (Aborted why)
      | None =>
          do! results <- atomic (λ w, (w, precheck_results playbooks w)) in
          do! written <- disk_call env (λ w, (write_config body w, ())) in
          PRet match written with
               | inl e => internal e
               | inr _ => if nonempty results then Entity StatusUnprocessableEntity (PrecheckFailed results) else Entity StatusOK ConfigSUCCESS
               end
      end
  end.

(** [os.OpenFile] with [O_TRUNC] comes first, then the old configuration is
    decoded from the file. *)
Definition PostConfig (sched : list nat) (body : string + string) (cluster inventory_param : string) : prog world (reply config_entity) :=
  match body with
  | inl e => PRet (internal e)
  | inr bodyBytes =>
      match json_config bodyBytes with
      | EndOfInput => PRet (internal "unexpected end of JSON input")
      | Invalid e => PRet (internal e)
      | Decoded newConfig =>
          do! opened <- disk_call env (λ w, (write_config "" w, ())) in
          match opened with
          | inl e => PRet (internal e)
          | inr _ =>
              do! content <- atomic (λ w, (w, default "" (w_files w !! config_path))) in
              let go oldConfig := check_and_write sched (DefaultString cluster "default") (DefaultString inventory_param "default") bodyBytes oldConfig newConfig in
              match json_config content with
              | Invalid e => PRet (internal e)
              | EndOfInput => go []
              | Decoded oldConfig => go oldConfig
              end
          end
      end
  end.

(** ** [ListSchema] *)

(** The playbooks of a namespace; the empty one is all of them. *)
Definition in_namespace (ns : string) (w : world) : list Playbook :=
  List.filter (λ p, bool_decide (ns = "" ∨ pb_namespace p = ns)) (map_to_list (w_playbooks w)).*2.

Definition api_list_namespace (ns : string) : prog world (werror + list Playbook) :=
  call env (λ w, (w, inr (in_namespace ns w))).

(** One label of a playbook. *)
Definition add_label (entry : string) (playbook : Playbook) (schema : SchemaTable) (lv : string * string) : string + SchemaTable :=
  match st_playbook schema !! lv.1 with
  | None => inr schema
  | Some t =>
      if negb (bool_decide (lv.2 = st_name schema)) then inr schema
      else if negb (bool_decide (stp_name t = "")) then
        inl ("schema " +:+ entry +:+ " has multiple playbooks of label " +:+ lv.1)
      else
        match (if bool_decide (pb_result playbook = "") then Some None else Some <$> json_result (pb_result playbook)) with
        | None => inl ("failed to unmarshal result from playbook of schema " +:+ st_name schema)
        | Some result =>
            inr {| st_name := st_name schema; st_schema := st_schema schema;
                   st_playbook := <[lv.1 := {| stp_path := stp_path t; stp_name := pb_name playbook; stp_namespace := pb_namespace playbook;
                                               stp_phase := pb_phase playbook; stp_result := result |}]> (st_playbook schema) |}
        end
  end.

Fixpoint sum_fold {A B : Type} (f : A → B → string + A) (l : list B) (a : A) : string + A :=
  match l with
  | [] => inr a
  | b :: l' => match f a b with inl e => inl e | inr a' => sum_fold f l' a' end
  end.

Definition add_playbook (entry : string) (schema : SchemaTable) (playbook : Playbook) : string + SchemaTable :=
  sum_fold (add_label entry playbook) (pb_labels playbook) schema.

Definition is_schema_file (name : string) (isDir : bool) : bool :=
  negb (isDir || negb (HasSuffix name ".json") || bool_decide (name = SchemaProductFile) || bool_decide (name = SchemaConfigFile)).

(** The table, or the error that ends the request; [cluster] is the path
    parameter of that name. *)
Fixpoint schema_table (cluster : string) (entries : list (string * bool)) (table : list SchemaTable) : prog world (werror + list SchemaTable) :=
  match entries with
  | [] => PRet (inr table)
  | (name, isDir) :: rest =>
      if negb (is_schema_file name isDir) then schema_table cluster rest table
      else
        do! file <- ReadFile (Paths.Join [rootPath; name]) in
        match file with
        | inl e => PRet (inl (plain ("failed to read file for schema: " +:+ e)))
        | inr data =>
            match json_schema data with
            | inl e => PRet (inl (plain ("failed to unmarshal file for schema: " +:+ e)))
            | inr schemaFile =>
                do! l <- api_list_namespace cluster in
                match l with
                | inl e => PRet (inl e)
                | inr items =>
                    match sum_fold (add_playbook name) items (SchemaFile2Table schemaFile name) with
                    | inl text => PRet (inl (plain text))
                    | inr schema => schema_table cluster rest (table ++ [schema])
                    end
                end
            end
        end
  end.

Definition schema_fields (o : SchemaTable) : list struct_field :=
  [{| sf_tag := "name"; sf_name := "Name"; sf_value := FString (st_name o) |};
   {| sf_tag := "title"; sf_name := "Title"; sf_value := FString (ds_title (st_schema o)) |};
   {| sf_tag := "description"; sf_name := "Description"; sf_value := FString (ds_description (st_schema o)) |};
   {| sf_tag := "version"; sf_name := "Version"; sf_value := FString (ds_version (st_schema o)) |};
   {| sf_tag := "namespace"; sf_name := "Namespace"; sf_value := FString (ds_namespace (st_schema o)) |};
   {| sf_tag := "logo"; sf_name := "Logo"; sf_value := FString (ds_logo (st_schema o)) |};
   {| sf_tag := "priority"; sf_name := "Priority"; sf_value := FInt (ds_priority (st_schema o)) |};
   {| sf_tag := "playbook"; sf_name := "Playbook"; sf_value := FOther |}].

Definition schema_less (left right : SchemaTable) (sortBy : string) : bool :=
  match GetFieldByJSONTag (schema_fields left) sortBy, GetFieldByJSONTag (schema_fields right) sortBy with
  | Some (FString l), Some (FString r) => str_gtb l r
  | Some (FInt l), Some (FInt r) => bool_decide (r < l)%Z
  | _, _ => bool_decide (ds_priority (st_schema right) < ds_priority (st_schema left))%Z
  end.

Definition schema_filter (o : SchemaTable) (f : Query.Filter) : bool :=
  match GetFieldByJSONTag (schema_fields o) (Field f) with
  | Some (FString s) => Contains s (Value f)
  | Some (FInt z) => match Atoi (Value f) with Some v => bool_decide (v = z) | None => false end
  | _ => true
  end.

(** The directory is read first; [path_parameters] are the variables of the
    route, of which "/schema" has none. *)
Definition ListSchema (sort_Slice : (SchemaTable → SchemaTable → bool) → list SchemaTable → list SchemaTable)
    (entries : string + list (string * bool)) (path_parameters : gmap string string) (q : Query)
    : prog world (result (reply (ListResult SchemaTable))) :=
  match entries with
  | inl e => PRet (Ok (HandleError (plain e)))
  | inr entries =>
      do! t <- schema_table (default "" (path_parameters !! "cluster")) entries [] in
      PRet match t with
           | inl e => Ok (HandleError e)
           | inr table => let! r := DefaultList sort_Slice schema_less schema_filter table q [] in Ok (Entity StatusOK r)
           end
  end.

End Resources.

(** ** [ListIP] *)

Record IPTable := { ip_address : string; ip_sshPort : string; ip_localhost : bool; ip_sshReachable : bool; ip_sshAuthorized : bool }.

(** What the network and the machine of the server answer. *)
Record Network := {
  IsLocalhostIP : string → bool;
  isIPOnline : string → bool;
  dial : string → bool;
  current_user : option (string * string);
  key_file : string → option (option string);
  ParsePrivateKey : string → option string;
  ssh_dial : string → string → string → bool;
}.

Section ListIP.
Context (net : Network).

(** [isSSHAuthorized]; [key_file] is [None] where there is no file and
    [Some None] where it cannot be read. *)
Definition isSSHAuthorized (ipStr sshPort : string) : bool * bool :=
  if negb (dial net (ipStr +:+ ":" +:+ sshPort)) then (false, false)
  else
    let '(sshUser, sshPrivateKey) :=
      match current_user net with
      | Some (username, home) => (username, Paths.Join [home; ".ssh/id_rsa"])
      | None => ("root", "/root/.ssh/id_rsa")
      end in
    match key_file net sshPrivateKey with
    | None | Some None => (true, false)
    | Some (Some key) =>
        match ParsePrivateKey net key with
        | None => (true, false)
        | Some privateKey => (true, ssh_dial net (ipStr +:+ ":22") sshUser privateKey)
        end
    end.

(** One job of a worker: what it appends to the table, if anything. *)
Definition check_ip (sshPort ip : string) : option IPTable :=
  if IsLocalhostIP net ip then
    Some {| ip_address := ip; ip_sshPort := sshPort; ip_localhost := true; ip_sshReachable := true; ip_sshAuthorized := true |}
  else if negb (isIPOnline net ip) then None
  else let '(reachable, authorized) := isSSHAuthorized ip sshPort in
       Some {| ip_address := ip; ip_sshPort := sshPort; ip_localhost := false; ip_sshReachable := reachable; ip_sshAuthorized := authorized |}.

(** A worker appends under the lock. *)
Definition ip_job (sshPort ip : string) : prog (list (option IPTable)) () :=
  atomic (λ table, (table ++ [check_ip sshPort ip], ())).

Definition ip_fields (o : IPTable) : list struct_field :=
  [{| sf_tag := "ip"; sf_name := "IP"; sf_value := FString (ip_address o) |};
   {| sf_tag := "sshPort"; sf_name := "SSHPort"; sf_value := FString (ip_sshPort o) |};
   {| sf_tag := "localhost"; sf_name := "Localhost"; sf_value := FOther |};
   {| sf_tag := "sshReachable"; sf_name := "SSHReachable"; sf_value := FOther |};
   {| sf_tag := "sshAuthorized"; sf_name := "SSHAuthorized"; sf_value := FOther |}].

(** [netip.ParseAddr]; addresses in their order. *)
Context (ParseAddr : string → option Z).

Definition ip_less (left right : IPTable) (sortBy : string) : bool :=
  match GetFieldByJSONTag (ip_fields left) sortBy, GetFieldByJSONTag (ip_fields right) sortBy with
  | Some (FString l), Some (FString r) =>
      if bool_decide (sortBy = "ip") then
        match ParseAddr l, ParseAddr r with
        | Some lip, Some rip => bool_decide (rip < lip)%Z
        | _, _ => true
        end
      else str_gtb l r
  | Some (FInt l), Some (FInt r) => bool_decide (r < l)%Z
  | _, _ => true
  end.

Definition ip_filter (o : IPTable) (f : Query.Filter) : bool :=
  match GetFieldByJSONTag (ip_fields o) (Field f) with
  | Some (FString s) => Contains s (Value f)
  | _ => true
  end.

(** The addresses are those of [utils.ParseIP]; the workers take them in some
    order and append what they find in another. *)
Definition ListIP (sort_Slice : (IPTable → IPTable → bool) → list IPTable → list IPTable)
    (ips : list string) (sched : list nat) (sshPort_param : string) (q : Query) : result (reply (ListResult IPTable)) :=
  let sshPort := DefaultString sshPort_param "22" in
  let table := (run_pool sched (ip_job sshPort <$> ips) []).1 in
  let! r := DefaultList sort_Slice ip_less ip_filter (omap id table) q [] in
  Ok (Entity StatusOK r).

End ListIP.

#[local] Arguments pbind : simpl never.

(** ** The configuration file *)

Section PostConfigSpec.
Context (env : Env) (rootPath workdir : string).
Context (json_config : string → decoded Configs) (json_schema : string → string + SchemaFile).

Notation config_path := (config_path rootPath).
Notation PostConfig := (PostConfig env rootPath workdir json_config json_schema).

(** Steps that leave the file of the configuration empty. *)
Definition config_is (data : string) (w : world) : Prop := w_files w !! config_path = Some data.

Lemma config_atomic {A} data (f : world → world * A) :
  (∀ w, w_files (f w).1 = w_files w) → psafe (config_is data) (λ _, True) (atomic f).
Proof. intros H. apply psafe_atomic. intros w Hw. unfold config_is in *. by rewrite H. Qed.

Lemma ReadFile_config data path : psafe (config_is data) (λ _, True) (ReadFile env path).
Proof.
  unfold ReadFile. eapply psafe_bind; [apply config_atomic|done]. intros w. by destruct (disk env (w_clock w)).
Qed.

Lemma start_prechecks_config data ns inv old new acc :
  psafe (config_is data) (λ _, True) (start_prechecks env rootPath workdir json_schema ns inv old new acc).
Proof.
  revert acc. induction new as [|[fileName newVal] new IH]; intros acc; cbn [start_prechecks]; [done|].
  destruct (bool_decide _); [apply IH|]. eapply psafe_bind; [apply ReadFile_config|]. intros [e|info] _; [done|].
  destruct (json_schema info) as [e|schema]; [done|]. cbv zeta. destruct (bool_decide _); [apply IH|].
  destruct newVal as [config|]; [|done]. eapply psafe_bind; [by apply config_atomic|]. intros ptr _.
  eapply psafe_bind; [|intros [e|q] _; [done|apply IH]]. apply config_atomic. intros w.
  destruct (api env (w_clock w)); [done|]. simpl. by case_match.
Qed.

(** What starts the prechecks ends with an error or an abort, or with them. *)
Lemma start_prechecks_answers ns inv old new acc w r :
  (run (start_prechecks env rootPath workdir json_schema ns inv old new acc) w).2 = inl r → ∀ code e, r ≠ Entity code e.
Proof.
  revert acc w. induction new as [|[fileName newVal] new IH]; intros acc w; cbn [start_prechecks]; [done|].
  destruct (bool_decide _); [apply IH|]. rewrite run_pbind. destruct (run (ReadFile _ _) w) as [w1 [e|info]]; cbn [fst snd]; [by intros [= <-]|].
  destruct (json_schema info) as [e|schema]; [by intros [= <-]|]. cbv zeta. destruct (bool_decide _); [apply IH|].
  destruct newVal as [config|]; [|by intros [= <-]]. rewrite run_pbind. destruct (run (alloc _) w1) as [w2 ptr]. cbn [fst snd].
  rewrite run_pbind. destruct (run (api_create _ _ _) w2) as [w3 [e|q]]; cbn [fst snd]; [by intros [= <-]|apply IH].
Qed.

(** The request once the file is open: the old configuration is gone. *)
Lemma run_PostConfig sched body cluster inv new w :
  disk_up env → json_config "" = EndOfInput → json_config body = Decoded new →
  run (PostConfig sched (inr body) cluster inv) w =
  run (check_and_write env rootPath workdir json_schema sched (DefaultString cluster "default") (DefaultString inv "default") body [] new)
    (write_config rootPath "" (tick w)).
Proof.
  intros Hd He Hb. unfold PostConfig. rewrite Hb, run_pbind, run_disk_call, Hd. cbn [fst snd].
  rewrite run_pbind, run_atomic. cbn [fst snd]. change (w_files (write_config rootPath "" (tick w))) with (<[config_path := ""]> (w_files (tick w))).
  rewrite lookup_insert_eq. simpl default. by rewrite He.
Qed.

(** Storing a configuration forgets the one before it first: the file is
    emptied when it is opened, so what it held has no influence on the answer,
    on the prechecks that run or on anything else; an answer with an error leaves
    it empty, and every other answer, also that a precheck has failed, leaves the
    new configuration in it. *)
Theorem PostConfig_forgets sched body cluster inv new w :
  disk_up env → json_config "" = EndOfInput → json_config body = Decoded new →
  let '(w', r) := run (PostConfig sched (inr body) cluster inv) w in
  (∀ old, run (PostConfig sched (inr body) cluster inv) (write_config rootPath old w) = (w', r)) ∧
  match r with
  | Entity _ _ => config_is body w'
  | Error _ _ => config_is "" w'
  | Aborted _ => True
  end.
Proof.
  intros Hd He Hb. destruct (run (PostConfig sched (inr body) cluster inv) w) as [w' r] eqn:E. split.
  - intros old. rewrite <- E, !(run_PostConfig _ _ _ _ new) by done. f_equal.
    unfold write_config, tick, set_files. simpl. by rewrite insert_insert_eq.
  - rewrite (run_PostConfig _ _ _ _ new) in E by done. unfold check_and_write in E. rewrite run_pbind in E.
    set (w0 := write_config rootPath "" (tick w)) in E.
    assert (config_is "" w0) as H0 by apply lookup_insert_eq.
    set (p := start_prechecks _ _ _ _ _ _ _ _ _) in E.
    destruct (psafe_run _ _ p w0 (start_prechecks_config "" _ _ _ _ _) H0) as [H1 _].
    pose proof (start_prechecks_answers (DefaultString cluster "default") (DefaultString inv "default") [] new [] w0) as HA.
    fold p in HA. destruct (run p w0) as [w1 [r1|playbooks]]; cbn [fst snd] in *.
    + simpl in E. injection E as <- <-. specialize (HA r1 eq_refl). destruct r1 as [code e|code e|why]; [by destruct (HA code e)|done|done].
    + rewrite run_pbind in E. destruct (run (run_prechecks _ _ _) w1) as [w2 [why|]]; cbn [fst snd] in E; [by simplify_eq/=|].
      rewrite run_pbind, run_atomic in E. cbn [fst snd] in E. rewrite run_pbind, run_disk_call, Hd in E. simpl in E.
      injection E as <- <-. destruct (nonempty _); apply lookup_insert_eq.
Qed.

End PostConfigSpec.

(** ** The table of schemas *)

Section ListSchemaSpec.
Context (env : Env) (rootPath : string).
Context (json_schema : string → string + SchemaFile) (json_result : string → option value).

(** The entry of a label that a playbook fills. *)
Definition filled (path : string) (p : Playbook) : SchemaTablePlaybook :=
  {| stp_path := path; stp_name := pb_name p; stp_namespace := pb_namespace p; stp_phase := pb_phase p;
     stp_result := if bool_decide (pb_result p = "") then None else json_result (pb_result p) |}.

Definition result_decodes (p : Playbook) : Prop := pb_result p = "" ∨ is_Some (json_result (pb_result p)).

(** The table of a schema after some playbooks: their labels with its name fill
    its entries; the others are empty. *)
Record schema_shows (schemaFile : SchemaFile) (name : string) (seen : list (Playbook * (string * string))) (s : SchemaTable) : Prop := {
  shows_name : st_name s = name;
  shows_schema : st_schema s = DataSchema schemaFile;
  shows_labels : ∀ l, st_playbook s !! l = None ↔ PlaybookPath schemaFile !! l = None;
  shows_entry : ∀ l path t, PlaybookPath schemaFile !! l = Some path → st_playbook s !! l = Some t →
    (stp_path t = path ∧ stp_name t = "" ∧ ∀ p, (p, (l, name)) ∉ seen) ∨
    (∃ p, (p, (l, name)) ∈ seen ∧ t = filled path p);
}.

Lemma SchemaFile2Table_shows schemaFile name : schema_shows schemaFile name [] (SchemaFile2Table schemaFile name).
Proof.
  split; simpl; [done|done| |].
  - intros l. rewrite lookup_fmap. by destruct (PlaybookPath schemaFile !! l).
  - intros l path t Hp. rewrite lookup_fmap, Hp. intros [= <-]. left. split_and!; [done|done|]. intros p H. by apply elem_of_nil in H.
Qed.

Lemma add_label_shows schemaFile name seen s p lv :
  schema_shows schemaFile name seen s → result_decodes p → pb_name p ≠ "" →
  (∀ p', lv.2 = name → is_Some (PlaybookPath schemaFile !! lv.1) → (p', lv) ∉ seen) →
  ∃ s', add_label json_result name p s lv = inr s' ∧ schema_shows schemaFile name (seen ++ [(p, lv)]) s'.
Proof.
  intros [H1 H2 H3 H4] Hres Hname Hnew. destruct lv as [l v]. unfold add_label. cbn [fst snd] in *.
  destruct (st_playbook s !! l) as [t|] eqn:Ht.
  2:{ exists s. split; [done|]. split; [done|done|done|]. intros l' path t Hp Ht'.
      assert (l' ≠ l) by (intros ->; congruence).
      destruct (H4 l' path t Hp Ht') as [(E1 & E2 & E3)|(p' & Hin & E)]; [left|right; exists p'; split; [apply elem_of_app; by left|done]].
      split_and!; [done|done|]. intros p'. rewrite elem_of_app, list_elem_of_singleton. intros [Hin|E4]; [by apply (E3 p')|congruence]. }
  destruct (PlaybookPath schemaFile !! l) as [path|] eqn:Hpath; [|apply H3 in Hpath; congruence].
  rewrite H1. case_bool_decide as Hv; simpl.
  2:{ exists s. split; [done|]. split; [done|done|done|]. intros l' path' t' Hp Ht'.
      destruct (H4 l' path' t' Hp Ht') as [(E1 & E2 & E3)|(p' & Hin & E)]; [left|right; exists p'; split; [apply elem_of_app; by left|done]].
      split_and!; [done|done|]. intros p'. rewrite elem_of_app, list_elem_of_singleton. intros [Hin|E4]; [by apply (E3 p')|congruence]. }
  subst v. destruct (H4 l path t Hpath Ht) as [(E1 & E2 & E3)|(p' & Hin & E)]; [|by destruct (Hnew p' eq_refl (ex_intro _ path eq_refl))].
  rewrite E2. simpl.
  assert (∃ r, (if bool_decide (pb_result p = "") then Some None else Some <$> json_result (pb_result p)) = Some r ∧
               r = (if bool_decide (pb_result p = "") then None else json_result (pb_result p))) as (r & -> & Hr).
  { case_bool_decide as Hp; [by eexists|]. destruct Hres as [?|[x ->]]; [done|by eexists]. }
  eexists. split; [reflexivity|]. split; simpl; [done|done| |].
  - intros l'. rewrite <- H3. destruct (decide (l = l')) as [->|Hne]; [rewrite lookup_insert_eq, Ht; done|by rewrite lookup_insert_ne].
  - intros l' path' t' Hp Ht'. destruct (decide (l = l')) as [<-|Hne].
    + rewrite lookup_insert_eq in Ht'. injection Ht' as <-. right. exists p. split; [apply elem_of_app; right; by left|].
      unfold filled. rewrite <- Hr. congruence.
    + rewrite lookup_insert_ne in Ht' by done.
      destruct (H4 l' path' t' Hp Ht') as [(F1 & F2 & F3)|(p' & Hin & E)]; [left|right; exists p'; split; [apply elem_of_app; by left|done]].
      split_and!; [done|done|]. intros p'. rewrite elem_of_app, list_elem_of_singleton. intros [Hin|E4]; [by apply (F3 p')|congruence].
Qed.

(** Playbooks of distinct keys, whose schema labels are unique, one after the
    other; [seen] are the labels of those before. *)
Definition label_pairs (items : list Playbook) : list (Playbook * (string * string)) :=
  concat (map (λ p, (p,.) <$> pb_labels p) items).

(** The labels of a schema are schema labels. *)
Definition schema_labels (schemaFile : SchemaFile) : Prop :=
  ∀ l, is_Some (PlaybookPath schemaFile !! l) → HasSuffix l SchemaLabelSubfix = true.

(** A label of the schema with its name belongs to one playbook, once. *)
Definition met_once (schemaFile : SchemaFile) (name : string) (pairs : list (Playbook * (string * string))) : Prop :=
  ∀ pre x post, pairs = pre ++ x :: post → x.2.2 = name → is_Some (PlaybookPath schemaFile !! x.2.1) →
    ∀ p, (p, x.2) ∉ pre.

Lemma add_labels_show schemaFile name p lvs : ∀ seen s,
  schema_shows schemaFile name seen s → result_decodes p → pb_name p ≠ "" →
  met_once schemaFile name (seen ++ ((p,.) <$> lvs)) →
  ∃ s', sum_fold (add_label json_result name p) lvs s = inr s' ∧ schema_shows schemaFile name (seen ++ ((p,.) <$> lvs)) s'.
Proof.
  induction lvs as [|lv lvs IH]; intros seen s Hs Hres Hname Hm; simpl.
  - exists s. split; [done|]. by rewrite app_nil_r.
  - destruct (add_label_shows schemaFile name seen s p lv Hs Hres Hname) as (s1 & -> & Hs1).
    { intros p' Hv Hl. by apply (Hm seen (p, lv) ((p,.) <$> lvs)). }
    rewrite fmap_cons, cons_middle, app_assoc in Hm. rewrite cons_middle, app_assoc. by apply (IH _ s1).
Qed.

Lemma add_playbooks_show schemaFile name items : ∀ seen s,
  schema_shows schemaFile name seen s → Forall (λ p, result_decodes p ∧ pb_name p ≠ "") items →
  met_once schemaFile name (seen ++ label_pairs items) →
  ∃ s', sum_fold (add_playbook json_result name) items s = inr s' ∧ schema_shows schemaFile name (seen ++ label_pairs items) s'.
Proof.
  induction items as [|p items IH]; intros seen s Hs HF Hm; simpl.
  - exists s. split; [done|]. unfold label_pairs. simpl. by rewrite app_nil_r.
  - inversion HF as [|? ? [Hres Hname] HF']; subst. unfold label_pairs in *. simpl in Hm |- *. rewrite app_assoc in Hm |- *.
    destruct (add_labels_show schemaFile name p (pb_labels p) seen s Hs Hres Hname) as (s1 & E & Hs1).
    { intros pre x post Ep. apply (Hm pre x (post ++ concat (map (λ p, (p,.) <$> pb_labels p) items))). by rewrite Ep, <- app_assoc. }
    unfold add_playbook at 1. rewrite E. by apply (IH _ s1).
Qed.

(** ** From the API server *)

Lemma elem_of_label_pairs p lv items : (p, lv) ∈ label_pairs items ↔ p ∈ items ∧ lv ∈ pb_labels p.
Proof.
  unfold label_pairs. rewrite list_elem_of_In, in_concat. split.
  - intros (l & Hl & Hin). apply in_map_iff in Hl as (q & <- & Hq). apply list_elem_of_In, list_elem_of_fmap in Hin as (x & [= -> ->] & Hx).
    split; [by apply list_elem_of_In|done].
  - intros [Hp Hlv]. eexists. split; [apply in_map_iff; exists p; split; [reflexivity|by apply list_elem_of_In]|].
    apply list_elem_of_In, list_elem_of_fmap. by exists lv.
Qed.

Lemma elem_of_in_namespace p ns w :
  p ∈ in_namespace ns w ↔ (ns = "" ∨ pb_namespace p = ns) ∧ ∃ k, w_playbooks w !! k = Some p.
Proof.
  unfold in_namespace. rewrite list_elem_of_In, filter_In, bool_decide_eq_true, <- list_elem_of_In, list_elem_of_fmap. split.
  - intros [([k q] & -> & H) Hn]. split; [done|]. exists k. by apply elem_of_map_to_list in H.
  - intros [Hn [k H]]. split; [|done]. exists (k, p). split; [done|]. by apply elem_of_map_to_list.
Qed.

Lemma in_namespace_NoDup ns w : keyed w → NoDup (in_namespace ns w).
Proof.
  intros Hk. unfold in_namespace. apply NoDup_ListNoDup, List.NoDup_filter, NoDup_ListNoDup.
  apply (NoDup_fmap_1 pb_key). rewrite <- list_fmap_compose.
  rewrite (list_fmap_ext _ fst (map_to_list (w_playbooks w))); [apply NoDup_fst_map_to_list|].
  intros i [k p] Hi. simpl. apply Hk. apply elem_of_map_to_list. by eapply list_elem_of_lookup_2.
Qed.

Lemma label_pairs_NoDup items : NoDup items → Forall (λ p, NoDup (pb_labels p)) items → NoDup (label_pairs items).
Proof.
  intros HN HF. induction HF as [|p items Hp HF IH]; [constructor|]. inversion HN as [|? ? Hni HN']; subst.
  unfold label_pairs. simpl. apply NoDup_app. split_and!; [apply NoDup_fmap_2; [congruence|done]| |by apply IH].
  intros [q lv] (lv' & [= -> ->] & _)%list_elem_of_fmap Hin. by apply elem_of_label_pairs in Hin as [Hin _].
Qed.

(** A world as the API server keeps it: playbooks under their keys, with names,
    labels in a map, and results that are JSON. *)
Record tidy (w : world) : Prop := {
  tidy_keyed : keyed w;
  tidy_playbook : ∀ k p, w_playbooks w !! k = Some p → NoDup (pb_labels p) ∧ pb_name p ≠ "" ∧ result_decodes p;
}.

Lemma label_pairs_met_once schemaFile name ns w :
  tidy w → labels_unique w → schema_labels schemaFile → met_once schemaFile name (label_pairs (in_namespace ns w)).
Proof.
  intros [Hk Ht] HU HS pre x post E Hv Hl p' Hin.
  assert (NoDup (label_pairs (in_namespace ns w))) as HN.
  { apply label_pairs_NoDup; [by apply in_namespace_NoDup|]. apply list.Forall_forall. intros p Hp.
    apply elem_of_in_namespace in Hp as (_ & k & Hp). by destruct (Ht k p Hp). }
  assert (∀ q, (q, x.2) ∈ label_pairs (in_namespace ns w) → x.2 ∈ pb_labels q ∧ w_playbooks w !! pb_key q = Some q) as HP.
  { intros q Hq. apply elem_of_label_pairs in Hq as [Hq Hlv]. apply elem_of_in_namespace in Hq as (_ & k & Hq). split; [done|]. by rewrite (Hk k q Hq). }
  rewrite E in HP. destruct (HP p') as [Hlv' Hp']; [apply elem_of_app; by left|].
  destruct (HP x.1) as [Hlv Hx]; [apply elem_of_app; right; destruct x; by left|].
  assert (pb_key p' = pb_key x.1) as EK.
  { eapply (HU _ _ p' x.1 x.2.1 x.2.2); [done|done|by apply HS|by destruct x as [? []]|by destruct x as [? []]]. }
  assert (p' = x.1) as -> by (rewrite EK in Hp'; congruence).
  rewrite E in HN. apply NoDup_app in HN as (_ & HD & _). apply (HD (x.1, x.2)); [done|]. destruct x; by left.
Qed.

(** The row of a schema file. *)
Definition row (w : world) (s : SchemaTable) : Prop :=
  ∃ schemaFile data, w_files w !! Paths.Join [rootPath; st_name s] = Some data ∧ json_schema data = inr schemaFile ∧
    schema_shows schemaFile (st_name s) (label_pairs (in_namespace "" w)) s.

Definition entry_ok (w : world) (e : string * bool) : Prop :=
  is_schema_file e.1 e.2 = true →
  ∃ data schemaFile, w_files w !! Paths.Join [rootPath; e.1] = Some data ∧ json_schema data = inr schemaFile ∧ schema_labels schemaFile.

Lemma schema_table_rows entries : ∀ acc w,
  disk_up env → api_up env → tidy w → labels_unique w → Forall (entry_ok w) entries →
  ∃ rows, (run (schema_table env rootPath json_schema json_result "" entries acc) w).2 = inr (acc ++ rows) ∧
    st_name <$> rows = (filter (λ e, is_schema_file e.1 e.2 = true) entries).*1 ∧ Forall (row w) rows.
Proof.
  induction entries as [|[name isDir] entries IH]; intros acc w Hd Hup Ht HU HF.
  { exists []. by rewrite app_nil_r. }
  inversion HF as [|? ? He HF']; subst. cbn [schema_table]. rewrite filter_cons. cbn [fst snd].
  unfold entry_ok in He. cbn [fst snd] in He. destruct (is_schema_file name isDir) eqn:Ef; cbn [negb].
  2:{ rewrite decide_False by done. by apply IH. }
  rewrite decide_True by done. destruct (He eq_refl) as (data & schemaFile & Hfile & Hjson & Hlab).
  unfold ReadFile. rewrite !run_pbind, run_disk_call, Hd. cbn [fst snd run]. change (w_files (tick w)) with (w_files w).
  rewrite Hfile, Hjson, run_pbind. unfold api_list_namespace. rewrite run_call_up by done. cbn [fst snd].
  change (in_namespace "" (tick (tick w))) with (in_namespace "" w).
  destruct (add_playbooks_show schemaFile name (in_namespace "" w) [] (SchemaFile2Table schemaFile name)) as (s & -> & Hs).
  { apply SchemaFile2Table_shows. }
  { apply list.Forall_forall. intros p Hp. apply elem_of_in_namespace in Hp as (_ & k & Hp).
    by destruct (tidy_playbook w Ht k p Hp) as (_ & ? & ?). }
  { by apply label_pairs_met_once. }
  destruct (IH (acc ++ [s]) (tick (tick w))) as (rows & E & Hn & Hrows); [done|done| |done|done|].
  { split; apply Ht. }
  exists (s :: rows). rewrite E, <- app_assoc. split; [done|]. pose proof (shows_name _ _ _ _ Hs) as Hname. rewrite !fmap_cons, Hname, Hn. split; [done|].
  constructor; [|done]. exists schemaFile, data. by rewrite Hname.
Qed.


End ListSchemaSpec.

(** ** Addresses *)

(** Whatever the order in which the workers finish, the addresses that are
    listed are those of the range that are the server itself or answer a ping,
    each as often as the range has it, with what the check of that address has
    found; authorization needs an SSH server on port 22, also where another port
    was asked for. *)
Theorem ListIP_table net ParseAddr sort ips sched sshPort q :
  ∃ table, table ≡ₚ omap (check_ip net (DefaultString sshPort "22")) ips ∧
    ListIP net ParseAddr sort ips sched sshPort q
      = (let! r := DefaultList sort (ip_less ParseAddr) ip_filter table q [] in Ok (Entity StatusOK r)) ∧
    ∀ o, o ∈ table → ip_sshAuthorized o = true → ip_localhost o = false →
      dial net (ip_address o +:+ ":" +:+ DefaultString sshPort "22") = true ∧
      ∃ user key, ssh_dial net (ip_address o +:+ ":22") user key = true.
Proof.
  set (port := DefaultString sshPort "22").
  destruct (run_pool_logged id ((λ ip (r : option IPTable), r = check_ip net port ip) <$> ips) sched (ip_job net port <$> ips) [])
    as (rs & new & E & HF & HP).
  { induction ips as [|ip ips IH]; constructor; [|exact IH]. intros table. right. split; [done|]. by exists (check_ip net port ip). }
  exists (omap id (run_pool sched (ip_job net port <$> ips) []).1). cbv [id] in E. rewrite E, app_nil_l. split; [|split].
  - rewrite HP. assert (rs = check_ip net port <$> ips) as ->.
    { clear -HF. revert rs HF. induction ips as [|ip ips IH]; intros rs HF; inversion HF; subst; simpl; [done|]. f_equal. auto. }
    clear. induction ips as [|ip ips IH]; simpl; [done|]. destruct (check_ip net port ip); simpl; [by rewrite IH|done].
  - unfold ListIP. fold port. by rewrite E, app_nil_l.
  - intros o Ho. rewrite HP in Ho. assert (∃ ip, check_ip net port ip = Some o) as [ip Hip].
    { clear -HF Ho. revert rs HF Ho. induction ips as [|ip ips IH]; intros rs HF Ho; inversion HF; subst; simpl in *.
      - by apply elem_of_nil in Ho.
      - destruct (check_ip net port ip) eqn:Ec; simpl in Ho; [|eauto]. apply elem_of_cons in Ho as [->|Ho]; eauto. }
    unfold check_ip, isSSHAuthorized in Hip. destruct (IsLocalhostIP net ip); [injection Hip as <-; done|].
    destruct (isIPOnline net ip); [|done]. simpl in Hip. destruct (dial net (ip +:+ ":" +:+ port)) eqn:Hdial; [|injection Hip as <-; done].
    simpl in Hip. destruct (match current_user net with Some _ => _ | None => _ end) as [user path].
    destruct (key_file net path) as [[key|]|]; [|injection Hip as <-; done..].
    destruct (ParsePrivateKey net key) as [k|]; injection Hip as <-; [|done]. simpl. intros H _. split; [done|]. by exists user, k.
Qed.

(** ** Witnesses *)

Definition small_schema : SchemaFile :=
  {| DataSchema := {| ds_title := "Kubernetes"; ds_description := ""; ds_version := "v1"; ds_namespace := ""; ds_logo := ""; ds_priority := 1 |};
     PlaybookPath := {["install.kubekey.kubesphere.io/schema" := "install.yaml"]} |}.

Definition read_config (s : string) : decoded Configs :=
  if bool_decide (s = "") then EndOfInput else Decoded [("k8s.json", Some {["version" := VStr s]})].

Definition schema_world : world :=
  set_files {["/schema/k8s.json" := "{}"; "/schema/config.json" := "old"]} ∅ empty_world.

Lemma PostConfig_forgets_witness :
  config_is "/schema" "new" (run (PostConfig calm "/schema" "/kk" read_config (λ _, inr small_schema) [] (inr "new") "" "") schema_world).1.
Proof.
  pose proof (PostConfig_forgets calm "/schema" "/kk" read_config (λ _, inr small_schema) [] "new" "" "" [("k8s.json", Some {["version" := VStr "new"]})] schema_world) as H.
  destruct (run (PostConfig _ _ _ _ _ _ _ _ _) schema_world) as [w' r] eqn:E.
  destruct H as [_ H]; [done|reflexivity|reflexivity|].
  assert (r = Entity StatusOK ConfigSUCCESS) as ->; [|exact H].
  change r with (snd (w', r)). rewrite <- E. vm_compute. reflexivity.
Defined.

Definition installed_world : world :=
  set_playbooks {[("default", "install") := sample "install" [("install.kubekey.kubesphere.io/schema", "k8s.json")] None]} schema_world.

