(* ===== verification/WebInventory.v ===== *)
(** * Inventories of the web API: [src/feature/pkg/web/handler/inventory.go]

    A change of an inventory is completed, stored and checked by a playbook; the
    table of the hosts shows what the check has found. *)

From Stdlib Require Import Ascii String.
From S2P Require Import Prelude GoStrings Paths Values Groups Vars Prog TaskExec Modules Connector Query WebManager WebPlaybook.
From stdpp Require Import gmap strings list sets.

#[local] Open Scope nat_scope.

(** ** [utils/slice.go] *)

Definition dup_step (st : gset string * list string) (v : string) : gset string * list string :=
  if bool_decide (v ∈ st.1) then st else ({[v]} ∪ st.1, st.2 ++ [v]).

Definition RemoveDuplicatesInOrder (arr : list string) : list string := (fold_left dup_step arr (∅, [])).2.

(** ** [Patch] *)

Definition JSONPatchType : string := "application/json-patch+json".
Definition MergePatchType : string := "application/merge-patch+json".
Definition HostCheckPlaybookAnnotation : string := "playbook.kubekey.kubesphere.io/host-check".
Definition etcd : string := "etcd".
Definition kube_control_plane : string := "kube_control_plane".

Definition dedup_group (g : InventoryGroup) : InventoryGroup :=
  {| group_groups := RemoveDuplicatesInOrder (group_groups g); group_hosts := RemoveDuplicatesInOrder (group_hosts g);
     group_vars := group_vars g |}.

Definition complete_groups (groups : list (string * InventoryGroup)) : list (string * InventoryGroup) :=
  map (λ kg, (kg.1, dedup_group kg.2)) (aset etcd (default zero_group (alookup kube_control_plane groups)) groups).

Definition with_groups (groups : list (string * InventoryGroup)) (inv : Inventory) : Inventory :=
  {| inv_hosts := inv_hosts inv; inv_vars := inv_vars inv; inv_groups := groups |}.

(** [completeInventory] writes to the map of the groups, which may be nil. *)
Definition completeInventory (o : InventoryObject) : result InventoryObject :=
  if io_groups_nil o then Panic "assignment to entry in nil map"
  else Ok {| io_key := io_key o; io_spec := with_groups (complete_groups (inv_groups (io_spec o))) (io_spec o);
             io_groups_nil := false; io_annotations := io_annotations o |}.

Definition with_annotations (m : gmap string string) (o : InventoryObject) : InventoryObject :=
  {| io_key := io_key o; io_spec := io_spec o; io_groups_nil := io_groups_nil o; io_annotations := Some m |}.

Section InventoryHandler.
Context (env : Env) (workdir : string).

(** The patch libraries with the codec: the patched object. *)
Context (json_patch merge_patch : InventoryObject → string → string + InventoryObject).

(** What a merge patch from one object to another makes of the stored one. *)
Context (merge : InventoryObject → InventoryObject → InventoryObject → InventoryObject).

Definition api_create_inventory (o : InventoryObject) : prog world (werror + ()) :=
  call env (λ w, if create_exists env && bool_decide (is_Some (w_inventories w !! io_key o))
             then (w, inl {| we_code := Some StatusConflict; we_text := key_string (io_key o) +:+ " already exists" |})
             else (set_inventories (<[io_key o := o]> (w_inventories w)) w, inr ())).

(** [Patch(new, MergeFrom(old))] on the object that [new] names. *)
Definition api_patch_inventory (f : InventoryObject → InventoryObject) (k : key) : prog world (werror + ()) :=
  call env (λ w, match w_inventories w !! k with
             | None => (w, inl (not_found k))
             | Some current => (set_inventories (<[k := f current]> (w_inventories w)) w, inr ())
             end).

Definition PostInventory (body : werror + InventoryObject) : prog world (reply InventoryObject) :=
  match body with
  | inl e => PRet (HandleError e)
  | inr o =>
      do! c <- api_create_inventory o in
      PRet match c with inl e => HandleError e | inr _ => Entity StatusOK o end
  end.

Definition InfoInventory (k : key) : prog world (reply InventoryObject) :=
  do! r <- api_get_inventory env k in
  PRet match r with inl e => HandleError e | inr o => Entity StatusOK o end.

Definition applyPatchAndDecode (contentType body : string) (old : InventoryObject) : string + InventoryObject :=
  if bool_decide (contentType = JSONPatchType) then json_patch old body
  else if bool_decide (contentType = MergePatchType) then merge_patch old body
  else inl ("unknown Content-Type header for patch: " +:+ contentType).

Definition host_check (k : key) : Playbook :=
  {| pb_namespace := k.1; pb_name := ""; pb_generateName := "host-check-"; pb_uid := 0; pb_labels := [];
     pb_config := {[Workdir := VStr workdir]}; pb_inventoryRef := Some k; pb_playbook := "host_check.yaml";
     pb_phase := PlaybookPhasePending; pb_failureMessage := ""; pb_result := "" |}.

(** From the check of the hosts on. *)
Definition check_hosts (k : key) (updated : InventoryObject) (promise : string) : prog world (reply InventoryObject) :=
  do! ptr <- alloc (host_check k) in
  do! c <- api_create env ptr (host_check k) in
  match c with
  | inl e => PRet (HandleError (wrap "failed to create host-check playbook in cluster" e))
  | inr q =>
      do! o <- executor env {| e_ptr := ptr; e_playbook := q |} (DefaultString promise "true") in
      match o with
      | Panicked why => PRet (Aborted why)
      | Failed text => PRet (HandleError (wrap "failed to execute host-check playbook" (plain text)))
      | Done =>
          let annotations := <[HostCheckPlaybookAnnotation := pb_name q]> (default ∅ (io_annotations updated)) in
          do! a <- api_patch_inventory (λ current, with_annotations (annotations ∪ default ∅ (io_annotations current)) current) (io_key updated) in
          PRet match a with
               | inl e => HandleError (wrap "failed to patch inventory annotation" e)
               | inr _ => Entity StatusOK (with_annotations annotations updated)
               end
      end
  end.

Definition Patch (k : key) (contentType : string) (body : string + string) (promise : string) : prog world (reply InventoryObject) :=
  match body with
  | inl e => PRet (HandleError (wrap "failed to read patch body from request" (plain e)))
  | inr patchBody =>
      do! r <- api_get_inventory env k in
      match r with
      | inl e => PRet (HandleError (wrap "failed to get Inventory from cluster" e))
      | inr old =>
          match applyPatchAndDecode contentType patchBody old with
          | inl e => PRet (HandleError (wrap "failed to apply patch and decode inventory" (plain e)))
          | inr patched =>
              match completeInventory patched with
              | Ok updated =>
                  do! p <- api_patch_inventory (merge old updated) (io_key updated) in
                  match p with
                  | inl e => PRet (HandleError (wrap "failed to patch Inventory in cluster" e))
                  | inr _ => check_hosts k updated promise
                  end
              | Err _ => PRet (Aborted "")
              | Panic why => PRet (Aborted why)
              end
          end
      end
  end.

End InventoryHandler.

(** ** [ListHosts] *)

Record InventoryHostGroups := { hg_role : string; hg_index : Z }.

Record InventoryHostTable := {
  ht_name : string; ht_status : string; ht_internalIPV4 : string; ht_internalIPV6 : string; ht_sshHost : string;
  ht_sshPort : string; ht_sshUser : string; ht_sshPassword : string; ht_sshPrivateKeyContent : string;
  ht_vars : gmap string value; ht_groups : list InventoryHostGroups; ht_arch : string;
}.

Definition ResultSucceed : string := "success".
Definition ResultFailed : string := "failed".
Definition ResultPending : string := "pending".
Definition k8s_cluster : string := "k8s_cluster".

Section ListHosts.
Context {LB : Libraries} {ML : ModuleLibraries}.

(** [x, _ = StringVar(...)]: what the function gives with its error is "". *)
Definition text_var (vars : gmap string value) (keys : list string) : string :=
  match StringVar ∅ vars keys with Ok s => s | _ => "" end.

Definition buildHostItem (hostname raw : string) : InventoryHostTable :=
  let vars := Extension2Variables json_unmarshal raw in
  let connector key := text_var vars [VariableConnector; key] in
  {| ht_name := hostname; ht_status := ""; ht_internalIPV4 := text_var vars [VariableIPv4]; ht_internalIPV6 := text_var vars [VariableIPv6];
     ht_sshHost := connector VariableConnectorHost; ht_sshPort := connector VariableConnectorPort;
     ht_sshUser := connector VariableConnectorUser; ht_sshPassword := connector VariableConnectorPassword;
     ht_sshPrivateKeyContent := connector VariableConnectorPrivateKeyContent;
     ht_vars := delete VariableConnector (delete VariableIPv6 (delete VariableIPv4 vars)); ht_groups := []; ht_arch := "" |}.

Fixpoint index_of (h : string) (l : list string) (i : Z) : Z :=
  match l with
  | [] => -1
  | x :: l' => if bool_decide (x = h) then i else index_of h l' (i + 1)%Z
  end.

(** [getGroupIndex] looks among the hosts that the group names itself. *)
Definition getGroupIndex (inv : Inventory) (groupName hostName : string) : Z :=
  index_of hostName (match alookup groupName (inv_groups inv) with Some g => group_hosts g | None => [] end) 0.

Definition special_group (g : string) : bool :=
  bool_decide (g = VariableGroupsAll) || bool_decide (g = VariableUnGrouped) || bool_decide (g = k8s_cluster).

Definition group_entry (inv : Inventory) (name : string) (gh : string * list string) : option InventoryHostGroups :=
  if special_group gh.1 then None
  else if contains gh.2 name then Some {| hg_role := gh.1; hg_index := getGroupIndex inv gh.1 name |}
  else None.

Definition fillGroups (inv : Inventory) (groups : gmap string (list string)) (item : InventoryHostTable) : InventoryHostTable :=
  {| ht_name := ht_name item; ht_status := ht_status item; ht_internalIPV4 := ht_internalIPV4 item; ht_internalIPV6 := ht_internalIPV6 item;
     ht_sshHost := ht_sshHost item; ht_sshPort := ht_sshPort item; ht_sshUser := ht_sshUser item; ht_sshPassword := ht_sshPassword item;
     ht_sshPrivateKeyContent := ht_sshPrivateKeyContent item; ht_vars := ht_vars item;
     ht_groups := ht_groups item ++ omap (group_entry inv (ht_name item)) (map_to_list groups); ht_arch := ht_arch item |}.

(** The status and the architecture of a host, by the check. *)
Definition check_result (playbook : option Playbook) (name : string) : string * string :=
  match playbook with
  | None => ("", "")
  | Some p =>
      if bool_decide (pb_phase p = PlaybookPhasePending ∨ pb_phase p = PlaybookPhaseRunning) then (ResultPending, "")
      else if bool_decide (pb_phase p = PlaybookPhaseFailed) then (ResultFailed, "")
      else if bool_decide (pb_phase p = PlaybookPhaseSucceeded) then
        match Extension2Variables json_unmarshal (pb_result p) !! name with
        | Some (VStr arch) => if bool_decide (arch = "") then (ResultFailed, "") else (ResultSucceed, arch)
        | _ => (ResultFailed, "")
        end
      else ("", "")
  end.

Definition fillByPlaybook (playbook : option Playbook) (item : InventoryHostTable) : InventoryHostTable :=
  let '(status, arch) := check_result playbook (ht_name item) in
  {| ht_name := ht_name item; ht_status := status; ht_internalIPV4 := ht_internalIPV4 item; ht_internalIPV6 := ht_internalIPV6 item;
     ht_sshHost := ht_sshHost item; ht_sshPort := ht_sshPort item; ht_sshUser := ht_sshUser item; ht_sshPassword := ht_sshPassword item;
     ht_sshPrivateKeyContent := ht_sshPrivateKeyContent item; ht_vars := ht_vars item; ht_groups := ht_groups item; ht_arch := arch |}.

(** The table; [None]: [ConvertGroup] never returns. *)
Definition hostTable (inv : Inventory) (playbook : option Playbook) : option (list InventoryHostTable) :=
  groups ← ConvertGroup inv;
  Some (map (λ hr, fillByPlaybook playbook (fillGroups inv groups (buildHostItem hr.1 hr.2))) (inv_hosts inv)).

Definition host_fields (o : InventoryHostTable) : list struct_field :=
  [{| sf_tag := "name"; sf_name := "Name"; sf_value := FString (ht_name o) |};
   {| sf_tag := "status"; sf_name := "Status"; sf_value := FString (ht_status o) |};
   {| sf_tag := "internalIPV4"; sf_name := "InternalIPV4"; sf_value := FString (ht_internalIPV4 o) |};
   {| sf_tag := "internalIPV6"; sf_name := "InternalIPV6"; sf_value := FString (ht_internalIPV6 o) |};
   {| sf_tag := "sshHost"; sf_name := "SSHHost"; sf_value := FString (ht_sshHost o) |};
   {| sf_tag := "sshPort"; sf_name := "SSHPort"; sf_value := FString (ht_sshPort o) |};
   {| sf_tag := "sshUser"; sf_name := "SSHUser"; sf_value := FString (ht_sshUser o) |};
   {| sf_tag := "sshPassword"; sf_name := "SSHPassword"; sf_value := FString (ht_sshPassword o) |};
   {| sf_tag := "sshPrivateKeyContent"; sf_name := "SSHPrivateKeyContent"; sf_value := FString (ht_sshPrivateKeyContent o) |};
   {| sf_tag := "vars"; sf_name := "Vars"; sf_value := FOther |};
   {| sf_tag := "groups"; sf_name := "Groups"; sf_value := FOther |};
   {| sf_tag := "arch"; sf_name := "Arch"; sf_value := FString (ht_arch o) |}].

Definition host_less (left right : InventoryHostTable) (sortBy : string) : bool :=
  match GetFieldByJSONTag (host_fields left) sortBy, GetFieldByJSONTag (host_fields right) sortBy with
  | Some (FString l), Some (FString r) => str_gtb l r
  | Some (FInt l), Some (FInt r) => bool_decide (r < l)%Z
  | _, _ => str_gtb (ht_name left) (ht_name right)
  end.

Definition host_filter (o : InventoryHostTable) (f : Query.Filter) : bool :=
  match GetFieldByJSONTag (host_fields o) (Field f) with
  | Some (FString s) => Contains s (Value f)
  | _ => true
  end.

Definition ListHosts (env : Env) (sort_Slice : (InventoryHostTable → InventoryHostTable → bool) → list InventoryHostTable → list InventoryHostTable)
    (k : key) (q : Query) : prog world (result (reply (ListResult InventoryHostTable))) :=
  do! r <- api_get_inventory env k in
  match r with
  | inl e => PRet (Ok (HandleError e))
  | inr o =>
      do! check <- match default ∅ (io_annotations o) !! HostCheckPlaybookAnnotation with
                   | None => PRet None
                   | Some name => do! p <- api_get env ((io_key o).1, name) in
                                  PRet match p with inl _ => None | inr p => Some p end
                   end in
      PRet match hostTable (io_spec o) check with
           | None => Panic "stack overflow"
           | Some table => let! l := DefaultList sort_Slice host_less host_filter table q [] in Ok (Entity StatusOK l)
           end
  end.

End ListHosts.

#[local] Arguments pbind : simpl never.

(** ** Completed inventories *)

Lemma RemoveDuplicatesInOrder_CombineSlice l : RemoveDuplicatesInOrder l = CombineSlice [] l.
Proof. reflexivity. Qed.

Lemma RemoveDuplicatesInOrder_spec l :
  NoDup (RemoveDuplicatesInOrder l) ∧ (∀ x, x ∈ RemoveDuplicatesInOrder l ↔ x ∈ l) ∧ (NoDup l → RemoveDuplicatesInOrder l = l).
Proof.
  rewrite RemoveDuplicatesInOrder_CombineSlice. destruct (CombineSlice_spec [] l) as [H1 H2]. split_and!; [done|set_solver|].
  intros H. unfold CombineSlice. simpl. by rewrite combine_fold_NoDup by (set_solver || done).
Qed.

Lemma dedup_group_idemp g : dedup_group (dedup_group g) = dedup_group g.
Proof.
  unfold dedup_group. simpl. destruct (RemoveDuplicatesInOrder_spec (group_groups g)) as (H1 & _ & _), (RemoveDuplicatesInOrder_spec (group_hosts g)) as (H2 & _ & _).
  f_equal; by apply RemoveDuplicatesInOrder_spec.
Qed.

Lemma alookup_complete g groups :
  alookup g (complete_groups groups) =
  dedup_group <$> (if bool_decide (g = etcd) then Some (default zero_group (alookup kube_control_plane groups)) else alookup g groups).
Proof. unfold complete_groups. by rewrite alookup_map, alookup_aset. Qed.

Lemma complete_groups_idemp groups : complete_groups (complete_groups groups) = complete_groups groups.
Proof.
  set (gs := complete_groups groups).
  assert (aset etcd (default zero_group (alookup kube_control_plane gs)) gs = gs) as E.
  { apply aset_same. subst gs. rewrite !alookup_complete. rewrite (bool_decide_eq_false_2 (kube_control_plane = etcd)) by done.
    rewrite bool_decide_eq_true_2 by done. by destruct (alookup kube_control_plane groups). }
  unfold complete_groups at 1. rewrite E. subst gs. unfold complete_groups. rewrite map_map. apply map_ext. intros [k g]. simpl.
  by rewrite dedup_group_idemp.
Qed.

(** A patched inventory is completed so that the group etcd is the control
    plane, whatever was configured for it, and no group names a host or a group
    twice; every other group keeps its members, hosts and variables stay, and
    completing it again changes nothing.  An inventory that has no groups at all
    panics. *)
Theorem completeInventory_spec o :
  match completeInventory o with
  | Ok o' =>
      io_groups_nil o = false ∧ inv_hosts (io_spec o') = inv_hosts (io_spec o) ∧ inv_vars (io_spec o') = inv_vars (io_spec o) ∧
      io_key o' = io_key o ∧ io_annotations o' = io_annotations o ∧
      alookup etcd (inv_groups (io_spec o')) = Some (default (dedup_group zero_group) (alookup kube_control_plane (inv_groups (io_spec o')))) ∧
      (∀ g v, g ≠ etcd → alookup g (inv_groups (io_spec o)) = Some v →
         ∃ v', alookup g (inv_groups (io_spec o')) = Some v' ∧ NoDup (group_hosts v') ∧ NoDup (group_groups v') ∧
               (∀ h, h ∈ group_hosts v' ↔ h ∈ group_hosts v) ∧ (∀ c, c ∈ group_groups v' ↔ c ∈ group_groups v)) ∧
      completeInventory o' = Ok o'
  | Err _ => False
  | Panic _ => io_groups_nil o = true
  end.
Proof.
  unfold completeInventory. destruct (io_groups_nil o) eqn:En; [done|]. simpl. split_and!; [done..| | |].
  - rewrite !alookup_complete, bool_decide_eq_true_2, (bool_decide_eq_false_2 (kube_control_plane = etcd)) by done.
    by destruct (alookup kube_control_plane _).
  - intros g v Hg Hv. rewrite alookup_complete, bool_decide_eq_false_2, Hv by done. eexists. split; [reflexivity|]. simpl.
    destruct (RemoveDuplicatesInOrder_spec (group_hosts v)) as (? & ? & _), (RemoveDuplicatesInOrder_spec (group_groups v)) as (? & ? & _).
    split_and!; done.
  - by rewrite complete_groups_idemp.
Qed.

(** ** The table of hosts *)

Lemma index_of_spec h l i :
  (index_of h l i = (-1)%Z ∧ h ∉ l) ∨ ∃ n, index_of h l i = (i + Z.of_nat n)%Z ∧ l !! n = Some h ∧ ∀ m, m < n → l !! m ≠ Some h.
Proof.
  revert i. induction l as [|x l IH]; intros i; simpl; [left; split; [done|set_solver]|]. case_bool_decide as E; [right|].
  - exists 0. subst. split_and!; [lia|done|lia].
  - destruct (IH (i + 1)%Z) as [[-> Hn]|(n & -> & Hn & Hm)]; [left; split; [done|set_solver]|right]. exists (S n). split_and!; [lia|done|].
    intros [|m] Hlt; simpl; [congruence|]. apply Hm. lia.
Qed.

Section HostTable.
Context {LB : Libraries} {ML : ModuleLibraries}.

Lemma ConvertGroup_declared inv groups g hs :
  acyclic inv → NoDup (map fst (inv_hosts inv)) → ConvertGroup inv = Some groups → groups !! g = Some hs →
  g ∈ map fst (inv_groups inv) ∨ g = VariableGroupsAll ∨ g = VariableUnGrouped.
Proof.
  intros Ha Hnd E Hg. unfold ConvertGroup, ConvertGroup_fuel in E.
  destruct (group_fold_spec inv (map fst (inv_groups inv)) {[VariableGroupsAll := all_hosts inv]} _ Ha Hnd) as (m & u & E' & Hm & _).
  rewrite E' in E. simpl in E. injection E as <-. apply lookup_insert_Some in Hg as [[<- _]|[_ Hg]]; [auto|].
  rewrite Hm in Hg. case_bool_decide; [auto|]. apply lookup_singleton_Some in Hg as [<- _]. auto.
Qed.

Lemma hostTable_rows inv check :
  acyclic inv → NoDup (map fst (inv_hosts inv)) →
  ∃ table, hostTable inv check = Some table ∧ ht_name <$> table = map fst (inv_hosts inv) ∧
    ∀ item, item ∈ table →
      (ht_status item, ht_arch item) = check_result check (ht_name item) ∧
      ∀ g i, {| hg_role := g; hg_index := i |} ∈ ht_groups item ↔
        special_group g = false ∧ g ∈ map fst (inv_groups inv) ∧ in_group inv g (ht_name item) ∧ i = getGroupIndex inv g (ht_name item).
Proof.
intros Ha Hnd. destruct (ConvertGroup_flattens inv Ha Hnd) as (groups & E & _ & Hg & _). unfold hostTable. rewrite E. simpl.
  eexists. split; [reflexivity|]. split.
  { clear. induction (inv_hosts inv) as [|[h raw] l IH]; [done|]. simpl. unfold fillByPlaybook at 1. simpl. destruct (check_result check h). by rewrite <- IH. }
  intros item Hin. apply list_elem_of_In, in_map_iff in Hin as ([h raw] & <- & _). unfold fillByPlaybook. simpl.
  destruct (check_result check h) as [status arch] eqn:Ec. simpl. split; [by rewrite Ec|]. intros g i. rewrite list_elem_of_omap. split.
  - intros ([g0 hs] & Hin & Hentry). apply elem_of_map_to_list in Hin. unfold group_entry in Hentry. simpl in Hentry.
    destruct (special_group g0) eqn:Hs; [done|]. destruct (contains hs h) eqn:Hc; [|done]. injection Hentry as <- <-.
    destruct (ConvertGroup_declared inv groups g0 hs Ha Hnd E Hin) as [Hd | [-> | ->]]; [|done..].
    destruct (Hg g0 Hd) as (hs' & Ehs & _ & Hmem); [intros ->; done|]. rewrite Hin in Ehs. injection Ehs as <-.
    split_and!; [done|done|by apply Hmem, contains_true|done].
  - intros (Hs & Hd & Hmem & ->). destruct (Hg g Hd) as (hs & Ehs & _ & Hin); [intros ->; done|].
    exists (g, hs). split; [by apply elem_of_map_to_list|]. unfold group_entry. simpl. rewrite Hs.
    assert (contains hs h = true) as -> by (by apply contains_true, Hin). done.
Qed.


(** Groups in a cycle end the process: the recursion has no end. *)
Lemma hostTable_diverges inv check : ConvertGroup inv = None → hostTable inv check = None.
Proof. intros H. unfold hostTable. by rewrite H. Qed.

(** ** A change and the table after it *)

Lemma run_executor_default env e w : run (executor env e (DefaultString "" "true")) w = (set_go (w_go w ++ [e]) w, Done).
Proof. unfold executor. simpl. reflexivity. Qed.

Lemma run_get_inventory env k o w :
  api_up env → w_inventories w !! k = Some o → run (api_get_inventory env k) w = (tick w, inr o).
Proof. intros Hup Ho. unfold api_get_inventory. rewrite run_call_up by done. simpl. by rewrite Ho. Qed.

Lemma run_get env k p w : api_up env → w_playbooks w !! k = Some p → run (api_get env k) w = (tick w, inr p).
Proof. intros Hup Hp. unfold api_get. rewrite run_call_up by done. simpl. by rewrite Hp. Qed.

Lemma run_patch_inventory env f k o w :
  api_up env → w_inventories w !! k = Some o →
  run (api_patch_inventory env f k) w = (set_inventories (<[k := f o]> (w_inventories w)) (tick w), inr ()).
Proof. intros Hup Ho. unfold api_patch_inventory. rewrite run_call_up by done. simpl. by rewrite Ho. Qed.

(** A playbook under a new name. *)
Lemma run_create env ptr p w :
  api_up env → w_playbooks w !! pb_key (created env p w) = None →
  run (api_create env ptr p) w =
  (set_memory (<[ptr := created env p w]> (w_memory w))
     (set_uid (S (w_nextUID w)) (set_playbooks (<[pb_key (created env p w) := created env p w]> (w_playbooks w)) (tick w))), inr (created env p w)).
Proof.
  intros Hup Hp. unfold api_create. rewrite run_call_up by done. cbv zeta. change (created env p (tick w)) with (created env p w).
  rewrite bool_decide_eq_false_2, andb_false_r; [done|]. change (w_playbooks (tick w)) with (w_playbooks w). rewrite Hp. by intros [? ?].
Qed.

(** The table while the check has not run. *)
Lemma ListHosts_pending env sort k q o check w :
  api_up env → w_inventories w !! k = Some o → default ∅ (io_annotations o) !! HostCheckPlaybookAnnotation = Some (pb_name check) →
  w_playbooks w !! ((io_key o).1, pb_name check) = Some check → pb_phase check = PlaybookPhasePending →
  acyclic (io_spec o) → NoDup (map fst (inv_hosts (io_spec o))) →
  ∃ table, (run (ListHosts env sort k q) w).2 = (let! l := DefaultList sort host_less host_filter table q [] in Ok (Entity StatusOK l)) ∧
    ht_name <$> table = map fst (inv_hosts (io_spec o)) ∧ ∀ item, item ∈ table → ht_status item = ResultPending.
Proof.
  intros Hup Ho Hann Hcheck Hphase Ha Hnd. destruct (hostTable_rows (io_spec o) (Some check) Ha Hnd) as (table & E & Hn & Hrows).
  exists table. split; [|split; [done|]].
  - unfold ListHosts. rewrite run_pbind, (run_get_inventory env k o) by done. cbn [fst snd]. rewrite run_pbind, Hann, run_pbind.
    rewrite (run_get env _ check) by done. cbn [fst snd run]. by rewrite E.
  - intros item Hin. destruct (Hrows item Hin) as [Hs _]. unfold check_result in Hs.
    rewrite bool_decide_eq_true_2 in Hs by auto. congruence.
Qed.

(** While the API server answers, a patch stores the completed inventory,
    creates a check of its hosts, which it starts, and records its name; until
    the check has run every host is listed as pending. *)
Theorem patched_hosts_are_pending env workdir json_patch merge_patch merge sort k old patched updated contentType body w q :
  api_up env → w_inventories w !! k = Some old →
  applyPatchAndDecode json_patch merge_patch contentType body old = inr patched → io_key patched = k →
  completeInventory patched = Ok updated → merge old updated old = updated →
  w_playbooks w !! (k.1, "host-check-" +:+ generated env (w_nextUID w)) = None →
  acyclic (io_spec updated) → NoDup (map fst (inv_hosts (io_spec updated))) →
  let '(w', r) := run (Patch env workdir json_patch merge_patch merge k contentType (inr body) "") w in
  let check := created env (host_check workdir k) w in
  (∃ o, r = Entity StatusOK o ∧ io_spec o = io_spec updated) ∧
  io_spec <$> (w_inventories w' !! k) = Some (io_spec updated) ∧
  w_playbooks w' = <[pb_key check := check]> (w_playbooks w) ∧ w_go w' = w_go w ++ [{| e_ptr := length (w_memory w); e_playbook := check |}] ∧
  ∃ table, (run (ListHosts env sort k q) w').2 = (let! l := DefaultList sort host_less host_filter table q [] in Ok (Entity StatusOK l)) ∧
    ht_name <$> table = map fst (inv_hosts (io_spec updated)) ∧ ∀ item, item ∈ table → ht_status item = ResultPending.
Proof.
  intros Hup Hold Hpatch Hkey Hcomplete Hmerge Hfresh Ha Hnd.
  assert (io_key updated = k) as Hkey'.
  { unfold completeInventory in Hcomplete. destruct (io_groups_nil patched); [done|]. by injection Hcomplete as <-. }
  unfold Patch. rewrite run_pbind, (run_get_inventory env k old) by done. cbn [fst snd].
  rewrite Hpatch, Hcomplete, run_pbind, Hkey', (run_patch_inventory env _ k old) by done. cbn [fst snd].
  rewrite Hmerge. unfold check_hosts, alloc. rewrite run_pbind, run_atomic. cbn [fst snd]. rewrite run_pbind, run_create by done.
  set (check := created env (host_check workdir k) w).
  match goal with |- context [created env (host_check workdir k) ?v] => change (created env (host_check workdir k) v) with check end.
  cbn [fst snd]. rewrite run_pbind, run_executor_default. cbn [fst snd].
  rewrite run_pbind, Hkey', (run_patch_inventory env _ k updated) by (done || apply lookup_insert_eq). cbn [fst snd run].
  split_and!.
  - by eexists.
  - simpl. rewrite lookup_insert_eq. done.
  - done.
  - done.
  - eapply (ListHosts_pending env sort k q (with_annotations _ updated) check); [done|apply lookup_insert_eq| | |done|done|done].
    + simpl. by rewrite lookup_union, lookup_insert_eq, union_Some_l.
    + simpl. rewrite Hkey'. apply lookup_insert_eq.
Qed.

End HostTable.

(** ** Witnesses *)

(** Texts stand for themselves. *)
Definition plain_libraries : Libraries :=
  {| tmpl_execute _ s := Ok s; unmarshal_slice _ := None; Unquote s := Some s; decode_json _ := None; decode_yaml _ := None |}.

#[local] Existing Instance plain_libraries.
#[local] Existing Instance two_libraries.

Definition small_object (groups : list (string * InventoryGroup)) : InventoryObject :=
  {| io_key := ("default", "cluster"); io_spec := {| inv_hosts := [("node1", "")]; inv_vars := ""; inv_groups := groups |};
     io_groups_nil := false; io_annotations := None |}.

Definition of_hosts (hosts : list string) : InventoryGroup := {| group_groups := []; group_hosts := hosts; group_vars := "" |}.

Definition patched_object : InventoryObject := small_object [(kube_control_plane, of_hosts ["node1"; "node1"])].
Definition completed_object : InventoryObject := small_object [(kube_control_plane, of_hosts ["node1"]); (etcd, of_hosts ["node1"])].

Lemma completed_object_acyclic : acyclic (io_spec completed_object).
Proof.
  apply (acyclic_by_rank _ (λ _, 0)). intros g cg (v & Ev & Hcg). exfalso. simpl in Ev.
  repeat case_bool_decide; simplify_eq; by apply elem_of_nil in Hcg.
Qed.

Definition inventory_world : world := set_inventories {[("default", "cluster") := small_object []]} empty_world.

Lemma patched_hosts_are_pending_witness :
  ∃ table, ht_name <$> table = ["node1"] ∧ ∀ item, item ∈ table → ht_status item = ResultPending.
Proof.
  pose proof (patched_hosts_are_pending calm "/kk" (λ _ _, inl "no json patch") (λ _ _, inr patched_object) (λ _ updated _, updated) (λ _ l, l)
    ("default", "cluster") (small_object []) patched_object completed_object MergePatchType "" inventory_world new_query) as H.
  destruct (run (Patch _ _ _ _ _ _ _ _ _) inventory_world) as [w' r].
  destruct H as (_ & _ & _ & _ & table & _ & Hn & Hrows);
    [done|reflexivity|reflexivity|reflexivity|reflexivity|reflexivity|reflexivity|apply completed_object_acyclic|repeat constructor; set_solver|].
  by exists table.
Defined.

