(* ===== verification/ClusterConfig.v ===== *)
(** * The configuration of the installer:
      [src/cmd/kk/apis/kubekey/v1alpha2], [src/cmd/kk/pkg/common/kube_runtime.go]
      and [src/cmd/kk/pkg/core/util/ip.go]

    From the configuration file to the hosts of each role that the modules of
    [LegacyPipeline] run on, and the addresses of the cluster's services.  A fatal
    log ends the process: it is an error here, as is [os.Exit]. *)

From Stdlib Require Import Ascii String ZArith.
From S2P Require Import Prelude GoStrings Net LegacyTask LegacyPipeline.
From stdpp Require Import gmap strings list sets pretty.

#[local] Open Scope nat_scope.

(** ** Constants: [default.go], [etcd_types.go] *)

Definition Etcd : string := "etcd".
Definition Master : string := "master".
Definition ControlPlane : string := "control-plane".
Definition Worker : string := "worker".
Definition K8s : string := "k8s".
Definition KubeKey : string := "kubekey".
Definition Kubeadm : string := "kubeadm".
Definition Haproxy : string := "haproxy".
Definition DefaultSSHPort : Z := 22.
Definition DefaultSSHTimeout : Z := 30.
Definition DefaultArch : string := "amd64".
Definition DefaultLBPort : Z := 6443.
Definition DefaultLBDomain : string := "lb.kubesphere.local".
Definition DefaultKubeVipMode : string := "ARP".
Definition DefaultServiceCIDR : string := "10.233.0.0/18".
Definition DefaultKubeVersion : string := "v1.23.17".
Definition DefaultDNSDomain : string := "cluster.local".

(** ** Data *)

Record HostCfg := {
  hc_name : string; hc_address : string; hc_internalAddress : string; hc_port : Z; hc_user : string;
  hc_password : string; hc_privateKey : string; hc_privateKeyPath : string; hc_arch : string;
  hc_timeout : option Z; hc_labels : gmap string string;
}.

Record ControlPlaneEndpoint := {
  ep_internalLoadbalancer : string; ep_domain : string; ep_externalDNS : option bool; ep_address : string;
  ep_port : Z; ep_kubeVipMode : string;
}.

Record Kubernetes := {
  k_type : string; k_version : string; k_dnsDomain : string; k_nodelocaldns : option bool;
  k_autoRenewCerts : option bool; k_auditEnabled : option bool; k_apiserverCertExtraSans : list string;
}.

(** What of the configuration is used here; the groups of roles in the order in
    which a loop ranges over them. *)
Record ClusterSpec := {
  cs_hosts : list HostCfg;
  cs_roleGroups : list (string * list string);
  cs_endpoint : ControlPlaneEndpoint;
  cs_etcdType : string;
  cs_kubernetes : Kubernetes;
  cs_kubeServiceCIDR : string;
}.

(** A host, shared by the groups: its place in the list of hosts is its address. *)
Record KubeHost := {
  kh_cfg : HostCfg; kh_timeout : Z; kh_roles : list string; kh_roleTable : gset string;
}.

Notation heap := (list KubeHost).

Definition kh_name (h : KubeHost) : string := hc_name (kh_cfg h).

Definition SetRole (role : string) (h : KubeHost) : KubeHost :=
  {| kh_cfg := kh_cfg h; kh_timeout := kh_timeout h; kh_roles := kh_roles h ++ [role]; kh_roleTable := {[role]} ∪ kh_roleTable h |}.

Definition IsRole (role : string) (h : KubeHost) : bool := bool_decide (role ∈ kh_roleTable h).

(** ** Hosts *)

Section Config.
Context (home : string).

(** [strings.Replace(s, "~/", home+"/", 1)] where the text starts with it, after
    spaces. *)
Definition tilde : string := "~/".
Fixpoint replace_home (s : string) : string :=
  if HasPrefix s tilde then home +:+ "/" +:+ TrimPrefix s tilde
  else match s with EmptyString => EmptyString | String a s' => String a (replace_home s') end.

Definition default_path (h : HostCfg) : string :=
  if negb (bool_decide (hc_privateKey h = "")) then hc_privateKeyPath h
  else
    let path := if bool_decide (hc_password h = "" ∧ hc_privateKeyPath h = "") then "~/.ssh/id_rsa" else hc_privateKeyPath h in
    if bool_decide (path ≠ "") && HasPrefix (TrimSpace path) tilde then replace_home path else path.

(** One turn of [SetDefaultHostsCfg]. *)
Definition default_host (h : HostCfg) : HostCfg :=
  let address := if bool_decide (hc_address h = "") && bool_decide (hc_internalAddress h ≠ "") then hc_internalAddress h else hc_address h in
  {| hc_name := hc_name h; hc_address := address;
     hc_internalAddress := if bool_decide (hc_internalAddress h = "") && bool_decide (address ≠ "") then address else hc_internalAddress h;
     hc_port := if bool_decide (hc_port h = 0%Z) then DefaultSSHPort else hc_port h;
     hc_user := if bool_decide (hc_user h = "") then "root" else hc_user h;
     hc_password := hc_password h; hc_privateKey := hc_privateKey h; hc_privateKeyPath := default_path h;
     hc_arch := if bool_decide (hc_arch h = "") then DefaultArch else hc_arch h;
     hc_timeout := Some (default DefaultSSHTimeout (hc_timeout h)); hc_labels := hc_labels h |}.

Definition SetDefaultHostsCfg (cfg : ClusterSpec) : list HostCfg := map default_host (cs_hosts cfg).

(** [toHosts] reads through the pointer of the time limit. *)
Definition toHosts (cfg : HostCfg) : result KubeHost :=
  match hc_timeout cfg with
  | None => Panic "nil pointer dereference"
  | Some t => Ok {| kh_cfg := cfg; kh_timeout := t; kh_roles := []; kh_roleTable := ∅ |}
  end.

(** The hosts in memory, and the last of each name. *)
Fixpoint make_hosts (cfgs : list HostCfg) (st : heap * gmap string nat) : result (heap * gmap string nat) :=
  match cfgs with
  | [] => Ok st
  | cfg :: rest =>
      let! h := toHosts cfg in
      make_hosts rest (st.1 ++ [h], <[hc_name cfg := length st.1]> st.2)
  end.

(** ** Groups of roles *)

Notation hostMap := (gmap string nat).
Notation groups := (gmap string (list nat)).

Definition hostVerify (hm : hostMap) (hostName group : string) : result () :=
  match hm !! hostName with
  | Some _ => Ok ()
  | None => Err (Msg ("[" +:+ hostName +:+ "] is in [" +:+ group +:+ "] group, but not in hosts list"))
  end.

(** The digits at the front. *)
Fixpoint take_digits (s : string) : string * string :=
  match s with
  | String a s' => match digit a with
                   | Some _ => let '(ds, rest) := take_digits s' in (String a ds, rest)
                   | None => (EmptyString, s)
                   end
  | EmptyString => (EmptyString, EmptyString)
  end.

Definition open_bracket : ascii := "["%char.
Definition close_bracket : ascii := "]"%char.
Definition colon : ascii := ":"%char.

(** [\[(\d+)\:(\d+)\]] at the front of a text. *)
Definition match_here (s : string) : option (string * string) :=
  match s with
  | String a s1 =>
      if bool_decide (a = open_bracket) then
        let '(d1, s2) := take_digits s1 in
        match s2 with
        | String b s3 =>
            if bool_decide (b = colon) then
              let '(d2, s4) := take_digits s3 in
              match s4 with
              | String c _ => if bool_decide (c = close_bracket) && bool_decide (d1 ≠ "") && bool_decide (d2 ≠ "") then Some (d1, d2) else None
              | EmptyString => None
              end
            else None
        | EmptyString => None
        end
      else None
  | EmptyString => None
  end.

(** [FindStringSubmatch]: the text before the leftmost match, and the groups. *)
Fixpoint find_range (s : string) : option (string * string * string) :=
  match match_here s with
  | Some (d1, d2) => Some (EmptyString, d1, d2)
  | None => match s with
            | EmptyString => None
            | String a s' => '(p, d1, d2) ← find_range s'; Some (String a p, d1, d2)
            end
  end.

(** The loop of [getHostsRange]; [None]: out of fuel. *)
Fixpoint range_names (fuel : nat) (hm : hostMap) (prefix group : string) (i stop : Z) : option (result (list string)) :=
  if (i <=? stop)%Z then
    match fuel with
    | O => None
    | S fuel' =>
        let name := prefix +:+ pretty i in
        match hostVerify hm name group with
        | Ok _ => rest ← range_names fuel' hm prefix group (wrap64 (i + 1)) stop; Some (rmap (cons name) rest)
        | Err e => Some (Err e)
        | Panic w => Some (Panic w)
        end
    end
  else Some (Ok []).

(** No more names are in the map than it has hosts. *)
Definition getHostsRange (rangeStr : string) (hm : hostMap) (group : string) : option (result (list string)) :=
  match find_range rangeStr with
  | None => Some (Panic "index out of range [0] with length 0")
  | Some (namePrefix, d1, d2) => range_names (S (size hm)) hm namePrefix group (Atoi_value d1) (Atoi_value d2)
  end.

(** The names an entry of a group stands for. *)
Definition entry_names (hm : hostMap) (role host : string) : option (result (list string)) :=
  if Contains host "[" && Contains host "]" && Contains host ":" then getHostsRange host hm role
  else Some (let! _ := hostVerify hm host role in Ok [host]).

Definition at_role (gs : groups) (role : string) : list nat := default [] (gs !! role).

Definition roleGroupAppend (role : string) (ptr : nat) (st : heap * groups) : heap * groups :=
  (alter (SetRole role) ptr st.1, <[role := at_role st.2 role ++ [ptr]]> st.2).

Fixpoint append_names (hm : hostMap) (role : string) (names : list string) (st : heap * groups) : result (heap * groups) :=
  match names with
  | [] => Ok st
  | n :: rest =>
      match hm !! n with
      | Some ptr => append_names hm role rest (roleGroupAppend role ptr st)
      | None => Err (Msg ("incorrect nodeName under roleGroups/" +:+ role +:+ " in the configuration file"))
      end
  end.

Fixpoint append_entries (hm : hostMap) (role : string) (hosts : list string) (st : heap * groups) : option (result (heap * groups)) :=
  match hosts with
  | [] => Some (Ok st)
  | host :: rest =>
      names ← entry_names hm role host;
      match (let! ns := names in append_names hm role ns st) with
      | Ok st' => append_entries hm role rest st'
      | Err e => Some (Err e)
      | Panic w => Some (Panic w)
      end
  end.

Fixpoint ParseRolesList (hm : hostMap) (roleGroups : list (string * list string)) (st : heap * groups) : option (result (heap * groups)) :=
  match roleGroups with
  | [] => Some (Ok st)
  | (role, hosts) :: rest =>
      r ← append_entries hm role hosts st;
      match r with
      | Ok st' => ParseRolesList hm rest st'
      | Err e => Some (Err e)
      | Panic w => Some (Panic w)
      end
  end.

Definition no_master : error := Msg "The number of master/control-plane cannot be 0".
Definition no_etcd : error := Msg "The number of etcd cannot be 0".

(** The nodes of the control plane are masters too. *)
Definition add_masters (st : heap * groups) : heap * groups :=
  fold_left (λ st ptr, roleGroupAppend Master ptr st) (at_role st.2 ControlPlane) st.

Definition GroupHosts (cfg : ClusterSpec) : option (result (heap * groups)) :=
  match make_hosts (cs_hosts cfg) ([], ∅) with
  | Err e => Some (Err e)
  | Panic w => Some (Panic w)
  | Ok (h, hm) =>
      r ← ParseRolesList hm (cs_roleGroups cfg) (h, ∅);
      Some (let! st := r in
            if bool_decide (at_role st.2 Master = [] ∧ at_role st.2 ControlPlane = []) then Err no_master
            else if bool_decide (at_role st.2 Etcd = [] ∧ cs_etcdType cfg = KubeKey) then Err no_etcd
            else Ok (add_masters st))
  end.

(** ** Defaults *)

Definition comma : ascii := ","%char.
Definition first_part (s : string) (c : ascii) : string := default "" (head (Split s c)).

Definition GetInternalIPv4Address (h : KubeHost) : string := first_part (hc_internalAddress (kh_cfg h)) comma.

Definition IsInternalLBEnabled (c : ControlPlaneEndpoint) : bool := bool_decide (ep_internalLoadbalancer c = Haproxy).
Definition EnableExternalDNS (c : ControlPlaneEndpoint) : bool := default false (ep_externalDNS c).

(** [SetDefaultLBCfg], without its warning. *)
Definition SetDefaultLBCfg (c : ControlPlaneEndpoint) (masterGroup : list KubeHost) : result ControlPlaneEndpoint :=
  if IsInternalLBEnabled c && bool_decide (ep_address c ≠ "") then
    Err (Msg "You cannot set up the internal load balancer and the LB address at the same time.")
  else
    let! address :=
      if (bool_decide (ep_address c = "") && negb (EnableExternalDNS c)) || bool_decide (ep_address c = "127.0.0.1") then
        match masterGroup with
        | m :: _ => Ok (GetInternalIPv4Address m)
        | [] => Panic "index out of range [0] with length 0"
        end
      else Ok (ep_address c) in
    Ok {| ep_internalLoadbalancer := ep_internalLoadbalancer c;
          ep_domain := if bool_decide (ep_domain c = "") then DefaultLBDomain else ep_domain c;
          ep_externalDNS := ep_externalDNS c; ep_address := address;
          ep_port := if bool_decide (ep_port c = 0%Z) then DefaultLBPort else ep_port c;
          ep_kubeVipMode := if bool_decide (ep_kubeVipMode c = "") then DefaultKubeVipMode else ep_kubeVipMode c |}.

(** The type of etcd, by [SetDefaultEtcdCfg]. *)
Definition dash_char : ascii := "-"%char.
Definition SetDefaultEtcdType (cfg : ClusterSpec) : string :=
  let k := cs_kubernetes cfg in
  let k3s := bool_decide (k_type k = "k3s") || bool_decide (Split (k_version k) dash_char !! 1 = Some "k3s") in
  if bool_decide (cs_etcdType cfg = "") || (k3s && bool_decide (cs_etcdType cfg = Kubeadm)) then KubeKey else cs_etcdType cfg.

(** [SetDefaultClusterCfg], as far as the version, the type and the domain: the
    version may name the type. *)
Definition SetDefaultClusterCfg (k : Kubernetes) : Kubernetes :=
  let '(version, type) :=
    match Split (k_version k) dash_char with
    | v :: t :: _ => (v, t)
    | _ => (if bool_decide (k_version k = "") then DefaultKubeVersion else k_version k, k_type k)
    end in
  {| k_type := if bool_decide (type = "") then "kubernetes" else type; k_version := version;
     k_dnsDomain := if bool_decide (k_dnsDomain k = "") then DefaultDNSDomain else k_dnsDomain k;
     k_nodelocaldns := k_nodelocaldns k; k_autoRenewCerts := k_autoRenewCerts k; k_auditEnabled := k_auditEnabled k;
     k_apiserverCertExtraSans := k_apiserverCertExtraSans k |}.

(** [SetDefaultClusterSpec], as far as hosts, roles, etcd, the endpoint and the
    service network. *)
Definition SetDefaultClusterSpec (cfg : ClusterSpec) : option (result (ClusterSpec * (heap * groups))) :=
  let clusterCfg := {|
    cs_hosts := SetDefaultHostsCfg cfg; cs_roleGroups := cs_roleGroups cfg; cs_endpoint := cs_endpoint cfg;
    cs_etcdType := SetDefaultEtcdType cfg; cs_kubernetes := SetDefaultClusterCfg (cs_kubernetes cfg);
    cs_kubeServiceCIDR := if bool_decide (cs_kubeServiceCIDR cfg = "") then DefaultServiceCIDR else cs_kubeServiceCIDR cfg |} in
  r ← GroupHosts clusterCfg;
  Some (let! st := r in
        let! endpoint := SetDefaultLBCfg (cs_endpoint cfg) (omap (λ ptr, st.1 !! ptr) (at_role st.2 Master)) in
        Ok ({| cs_hosts := cs_hosts clusterCfg; cs_roleGroups := cs_roleGroups clusterCfg; cs_endpoint := endpoint;
               cs_etcdType := cs_etcdType clusterCfg; cs_kubernetes := cs_kubernetes clusterCfg;
               cs_kubeServiceCIDR := cs_kubeServiceCIDR clusterCfg |}, st)).

(** ** [NewKubeRuntime] *)

(** The hosts in memory, the names met, and the runtime. *)
Record Build := { bd_heap : heap; bd_hostSet : gset string; bd_runtime : Runtime }.

(** [AppendRoleMap] *)
Definition append_role (name : string) (rt : Runtime) (r : string) : Runtime :=
  {| r_allHosts := r_allHosts rt; r_roleArray := <[r := default [] (r_roleArray rt !! r) ++ [name]]> (r_roleArray rt);
     r_roleLen := <[r := S (default 0 (r_roleLen rt !! r))]> (r_roleLen rt);
     r_deprecated := r_deprecated rt; r_ignoreErr := r_ignoreErr rt |}.

Definition AppendRoleMap (h : KubeHost) (rt : Runtime) : Runtime := fold_left (append_role (kh_name h)) (kh_roles h) rt.

Definition AppendHost (h : KubeHost) (rt : Runtime) : Runtime :=
  {| r_allHosts := r_allHosts rt ++ [kh_name h]; r_roleArray := r_roleArray rt; r_roleLen := r_roleLen rt;
     r_deprecated := r_deprecated rt; r_ignoreErr := r_ignoreErr rt |}.

(** One turn of the loop over the hosts of the groups. *)
Definition add_host (b : Build) (ptr : nat) : Build :=
  match bd_heap b !! ptr with
  | None => b
  | Some h0 =>
      let h := if IsRole Master h0 || IsRole Worker h0 then SetRole K8s h0 else h0 in
      let hp := <[ptr := h]> (bd_heap b) in
      if bool_decide (kh_name h ∈ bd_hostSet b) then {| bd_heap := hp; bd_hostSet := bd_hostSet b; bd_runtime := bd_runtime b |}
      else {| bd_heap := hp; bd_hostSet := {[kh_name h]} ∪ bd_hostSet b; bd_runtime := AppendRoleMap h (AppendHost h (bd_runtime b)) |}
  end.

Definition empty_runtime (ignoreErr : bool) : Runtime :=
  {| r_allHosts := []; r_roleArray := ∅; r_roleLen := ∅; r_deprecated := ∅; r_ignoreErr := ignoreErr |}.

(** [NewKubeRuntime] for a loaded configuration; the roles in the order of the
    loop. *)
Definition NewKubeRuntime (ignoreErr : bool) (order : list string) (cfg : ClusterSpec) : option (result (ClusterSpec * Runtime)) :=
  r ← SetDefaultClusterSpec cfg;
  Some (let! (spec, st) := r in
        let b := fold_left add_host (concat (map (at_role st.2) order))
                   {| bd_heap := st.1; bd_hostSet := ∅; bd_runtime := empty_runtime ignoreErr |} in
        Ok (spec, bd_runtime b)).

End Config.

(** ** The names of a range *)

Definition range_list (prefix : string) (i stop : Z) : list string := map (λ z, prefix +:+ pretty z) (seqZ i (stop - i + 1)).

Lemma uint_value_nonneg s acc : (0 ≤ acc → 0 ≤ uint_value s acc)%Z.
Proof.
  revert acc. induction s as [|a s IH]; intros acc H; simpl; [done|]. destruct (digit a) as [d|] eqn:E; [|done].
  case_bool_decide; [lia|]. apply IH. unfold digit in E. case_bool_decide; simplify_eq. lia.
Qed.

Lemma Atoi_value_min s : (min_int ≤ Atoi_value s)%Z.
Proof.
  assert (∀ x, min_int ≤ Z.min (uint_value x 0) max_int)%Z.
  { intros x. pose proof (uint_value_nonneg x 0). unfold min_int, max_int. lia. }
  unfold Atoi_value. repeat case_match; auto using Z.le_max_r.
Qed.

Lemma range_list_cons prefix i stop : (i ≤ stop)%Z → range_list prefix i stop = (prefix +:+ pretty i) :: range_list prefix (i + 1) stop.
Proof. intros H. unfold range_list. rewrite seqZ_cons by lia. simpl. do 3 f_equal; lia. Qed.

Lemma range_list_nil prefix i stop : (stop < i)%Z → range_list prefix i stop = [].
Proof. intros H. unfold range_list. by rewrite seqZ_nil by lia. Qed.

(** The first of the names that is no host. *)
Definition missing (hm : gmap string nat) (names : list string) : option string := snd <$> list_find (λ n, hm !! n = None) names.

Definition verified (hm : gmap string nat) (group : string) (names : list string) : result (list string) :=
  match missing hm names with
  | None => Ok names
  | Some n => match hostVerify hm n group with Err e => Err e | _ => Ok names end
  end.

Lemma verified_cons hm group n names :
  verified hm group (n :: names)
    = match hostVerify hm n group with
      | Ok _ => rmap (cons n) (verified hm group names) | Err e => Err e | Panic w => Panic w
      end.
Proof.
  unfold verified, missing, hostVerify. cbn [list_find]. destruct (hm !! n) as [ptr|] eqn:E.
  - rewrite decide_False by done. destruct (list_find _ names) as [[k m]|] eqn:F; simpl; [|done].
    apply list_find_Some in F as (_ & Hm & _). by rewrite Hm.
  - rewrite decide_True by done. simpl. by rewrite E.
Qed.

(** The hosts that the loop meets are distinct keys of the map. *)
Lemma range_names_spec fuel hm prefix group i stop (seen : gset string) :
  (min_int ≤ i)%Z → (stop < max_int)%Z → seen ⊆ dom hm → (∀ z, prefix +:+ pretty z ∈ seen → z < i)%Z →
  size hm < fuel + size seen →
  range_names fuel hm prefix group i stop = Some (verified hm group (range_list prefix i stop)).
Proof.
  revert i seen. induction fuel as [|fuel IH]; intros i seen Hi Hstop Hseen Hlt Hsize;
    [apply subseteq_size in Hseen; rewrite size_dom in Hseen; lia|].
  simpl. destruct (Z.leb_spec i stop); [|by rewrite range_list_nil].
  rewrite range_list_cons, verified_cons by done. destruct (hostVerify hm _ group) as [[]|e|w] eqn:E; [|done..].
  assert (prefix +:+ pretty i ∈ dom hm) as Hin.
  { unfold hostVerify in E. apply elem_of_dom. by destruct (hm !! (prefix +:+ pretty i)) eqn:Eh; [|discriminate E]. }
  assert (prefix +:+ pretty i ∉ seen) as Hnew by (intros Hn; apply Hlt in Hn; lia).
  rewrite wrap64_small by (unfold max_int in *; lia).
  rewrite (IH (i + 1)%Z ({[prefix +:+ pretty i]} ∪ seen)); [done|lia|done|set_solver| |rewrite size_union by set_solver; rewrite size_singleton; lia].
  intros z [Hz%elem_of_singleton|Hz%Hlt]%elem_of_union; [apply (inj (String.append prefix)), (inj pretty) in Hz; lia|lia].
Qed.


(** ** Hosts and roles *)

(** The map leads to hosts of its names, and what a host says of its roles is
    what the groups say of it. *)
Definition named (hm : gmap string nat) (hp : heap) : Prop := ∀ n ptr, hm !! n = Some ptr → ∃ h, hp !! ptr = Some h ∧ kh_name h = n.

Record grouped (hm : gmap string nat) (st : heap * gmap string (list nat)) : Prop := {
  g_named : named hm st.1;
  g_known : ∀ r ptr, ptr ∈ at_role st.2 r → ∃ n, hm !! n = Some ptr;
  g_roles : ∀ r ptr h, st.1 !! ptr = Some h → r ∈ kh_roles h ↔ ptr ∈ at_role st.2 r;
  g_table : ∀ r ptr h, st.1 !! ptr = Some h → r ∈ kh_roleTable h ↔ r ∈ kh_roles h;
}.

Lemma at_role_append role r ptr st :
  at_role (roleGroupAppend role ptr st).2 r = at_role st.2 r ++ (if decide (r = role) then [ptr] else []).
Proof. unfold at_role at 1. simpl. destruct (decide (r = role)) as [->|]; [by rewrite lookup_insert_eq|by rewrite lookup_insert_ne, app_nil_r by done]. Qed.

Lemma roleGroupAppend_grouped hm role n ptr st : grouped hm st → hm !! n = Some ptr → grouped hm (roleGroupAppend role ptr st).
Proof.
  intros [HN HK HR HT] Hn.
  assert (∀ p h', (roleGroupAppend role ptr st).1 !! p = Some h' →
            ∃ h, st.1 !! p = Some h ∧ h' = if decide (p = ptr) then SetRole role h else h) as Hlook.
  { intros p h'. simpl. rewrite list_lookup_alter. destruct (decide (ptr = p)) as [->|].
    - intros (h & Hh & ->)%fmap_Some. exists h. by rewrite decide_True.
    - intros Hh. exists h'. by rewrite decide_False. }
  split.
  - intros m p Hm. destruct (HN m p Hm) as (h & Hh & <-). simpl. rewrite list_lookup_alter.
    case_decide; subst; rewrite Hh; simpl; eauto.
  - intros r p. rewrite at_role_append. intros [Hp|Hp]%elem_of_app; [eauto|]. case_decide; set_solver.
  - intros r p h' (h & Hh & ->)%Hlook. rewrite at_role_append, elem_of_app, <- (HR r p h Hh).
    destruct (decide (p = ptr)) as [->|]; [simpl; rewrite elem_of_app|]; case_decide; set_solver.
  - intros r p h' (h & Hh & ->)%Hlook. specialize (HT r p h Hh). case_decide; simpl; set_solver.
Qed.

(** What a group got. *)
Definition gained (hm : gmap string nat) (st st' : heap * gmap string (list nat)) (P : string → string → Prop) : Prop :=
  grouped hm st' ∧ (∀ r n, P r n → is_Some (hm !! n)) ∧
  ∀ r ptr, ptr ∈ at_role st'.2 r ↔ ptr ∈ at_role st.2 r ∨ ∃ n, P r n ∧ hm !! n = Some ptr.

Lemma gained_none hm st P : grouped hm st → (∀ r n, ¬ P r n) → gained hm st st P.
Proof. intros Hg HP. split_and!; [done|naive_solver..]. Qed.

Lemma gained_trans hm st1 st2 st3 P Q R :
  gained hm st1 st2 P → gained hm st2 st3 Q → (∀ r n, R r n ↔ P r n ∨ Q r n) → gained hm st1 st3 R.
Proof.
  intros (_ & HP & H1) (Hg & HQ & H2) HR. split_and!; [done|intros r n [?%HP|?%HQ]%HR; done|].
  intros r ptr. rewrite H2, H1. setoid_rewrite HR. naive_solver.
Qed.

Lemma append_names_gained hm role names st st' :
  grouped hm st → append_names hm role names st = Ok st' → gained hm st st' (λ r n, r = role ∧ n ∈ names).
Proof.
  revert st. induction names as [|n names IH]; intros st Hg; simpl.
  { intros [= <-]. apply gained_none; [done|]. set_solver. }
  destruct (hm !! n) as [ptr|] eqn:En; [|done]. intros H.
  eapply (gained_trans _ _ _ _ (λ r m, r = role ∧ m = n)); [|apply IH, H; by eapply roleGroupAppend_grouped|set_solver].
  split_and!; [by eapply roleGroupAppend_grouped|intros r m [_ ->]; eauto|].
  intros r p. rewrite at_role_append, elem_of_app. case_decide; subst; set_solver.
Qed.

(** What an entry, the entries of a role and the groups of a configuration list. *)
Definition entry_lists (hm : gmap string nat) (role entry n : string) : Prop := ∃ ns, entry_names hm role entry = Some (Ok ns) ∧ n ∈ ns.
Definition listed (hm : gmap string nat) (roleGroups : list (string * list string)) (r n : string) : Prop :=
  ∃ hosts entry, (r, hosts) ∈ roleGroups ∧ entry ∈ hosts ∧ entry_lists hm r entry n.

Lemma append_entries_gained hm role hosts st st' :
  grouped hm st → append_entries hm role hosts st = Some (Ok st') →
  gained hm st st' (λ r n, r = role ∧ ∃ entry, entry ∈ hosts ∧ entry_lists hm role entry n).
Proof.
  revert st. induction hosts as [|host hosts IH]; intros st Hg; simpl.
  { intros [= <-]. apply gained_none; [done|]. set_solver. }
  destruct (entry_names hm role host) as [[ns| |]|] eqn:En; [|done..]. simpl.
  destruct (append_names hm role ns st) as [st1| |] eqn:Ea; [|done..]. intros H.
  apply append_names_gained in Ea; [|done]. eapply gained_trans; [exact Ea|apply IH, H; apply Ea|].
  intros r n. unfold entry_lists. setoid_rewrite elem_of_cons. split.
  - intros (-> & entry & [->|He] & ns' & Hn & Hin); [left; simplify_eq; done|right; eauto 6].
  - intros [[-> Hin]|(-> & entry & He & Hl)]; split; eauto 6.
Qed.

Lemma ParseRolesList_gained hm roleGroups st st' :
  grouped hm st → ParseRolesList hm roleGroups st = Some (Ok st') → gained hm st st' (listed hm roleGroups).
Proof.
  revert st. induction roleGroups as [|[role hosts] rest IH]; intros st Hg; simpl.
  { intros [= <-]. apply gained_none; [done|]. unfold listed. set_solver. }
  destruct (append_entries hm role hosts st) as [[st1| |]|] eqn:Ea; [|done..]. simpl. intros H.
  apply append_entries_gained in Ea; [|done]. eapply gained_trans; [exact Ea|apply IH, H; apply Ea|].
  intros r n. unfold listed. setoid_rewrite elem_of_cons. split.
  - intros (hs & entry & [[= -> ->]|Hin] & He & Hl); [left; eauto|right; eauto].
  - intros [(-> & entry & He & Hl)|(hs & entry & Hin & He & Hl)]; eauto 8.
Qed.

Lemma add_masters_gained hm st :
  grouped hm st → gained hm st (add_masters st) (λ r n, r = Master ∧ ∃ ptr, hm !! n = Some ptr ∧ ptr ∈ at_role st.2 ControlPlane).
Proof.
  intros Hg. unfold add_masters. pose proof (g_known _ _ Hg ControlPlane) as HK. revert Hg HK.
  generalize (at_role st.2 ControlPlane) as l. intros l. revert st. induction l as [|ptr l IH]; intros st Hg HK; simpl.
  { apply gained_none; [done|]. set_solver. }
  destruct (HK ptr) as [n Hn]; [set_solver|]. pose proof (roleGroupAppend_grouped _ Master _ _ _ Hg Hn) as Hg1.
  eapply (gained_trans _ _ _ _ (λ r m, r = Master ∧ hm !! m = Some ptr)); [|apply IH; set_solver|set_solver].
  split_and!; [done|intros r m [_ ?]; eauto|]. intros r p. rewrite at_role_append, elem_of_app. case_decide; set_solver.
Qed.

(** ** The runtime *)

Definition has_role (rt : Runtime) (r n : string) : Prop := n ∈ default [] (r_roleArray rt !! r).

Lemma append_role_spec name rt role r n : has_role (append_role name rt role) r n ↔ has_role rt r n ∨ (n = name ∧ r = role).
Proof.
  unfold has_role. simpl. destruct (decide (r = role)) as [->|]; [rewrite lookup_insert_eq; simpl|rewrite lookup_insert_ne by done]; set_solver.
Qed.

Lemma AppendRoleMap_spec h rt r n :
  (has_role (AppendRoleMap h rt) r n ↔ has_role rt r n ∨ (n = kh_name h ∧ r ∈ kh_roles h)) ∧ r_allHosts (AppendRoleMap h rt) = r_allHosts rt.
Proof.
  unfold AppendRoleMap. generalize (kh_roles h) as roles. intros roles. revert rt.
  induction roles as [|role roles IH]; intros rt; simpl; [set_solver|].
  destruct (IH (append_role (kh_name h) rt role)) as [IH1 IH2]. rewrite IH1, IH2, append_role_spec. set_solver.
Qed.

(** The host as the loop leaves it when it meets it first. *)
Definition completed (h : KubeHost) : KubeHost := if IsRole Master h || IsRole Worker h then SetRole K8s h else h.

Lemma completed_name h : kh_name (completed h) = kh_name h.
Proof. unfold completed. by case_match. Qed.

Lemma completed_roles h r :
  r ∈ kh_roles (completed h) ↔ r ∈ kh_roles h ∨ (r = K8s ∧ (Master ∈ kh_roleTable h ∨ Worker ∈ kh_roleTable h)).
Proof.
  unfold completed, IsRole. destruct (bool_decide (Master ∈ _)) eqn:E1, (bool_decide (Worker ∈ _)) eqn:E2;
    rewrite ?bool_decide_eq_true, ?bool_decide_eq_false in *; simpl; rewrite ?elem_of_app, ?list_elem_of_singleton; naive_solver.
Qed.

Section Fold.
Context (hp : heap) (ptrs : list nat).
Context (Hinj : ∀ p q h k, p ∈ ptrs → q ∈ ptrs → hp !! p = Some h → hp !! q = Some k → kh_name h = kh_name k → p = q).

(** After the turns of [seen]. *)
Record built (seen : list nat) (b : Build) : Prop := {
  b_names : ∀ p, kh_name <$> bd_heap b !! p = kh_name <$> hp !! p;
  b_fresh : ∀ p, p ∉ seen → bd_heap b !! p = hp !! p;
  b_set : ∀ n, n ∈ bd_hostSet b ↔ n ∈ r_allHosts (bd_runtime b);
  b_nodup : NoDup (r_allHosts (bd_runtime b));
  b_hosts : ∀ n, n ∈ r_allHosts (bd_runtime b) ↔ ∃ p h, p ∈ seen ∧ hp !! p = Some h ∧ kh_name h = n;
  b_roles : ∀ r n, has_role (bd_runtime b) r n ↔ ∃ p h, p ∈ seen ∧ hp !! p = Some h ∧ kh_name h = n ∧ r ∈ kh_roles (completed h);
}.

Lemma seen_snoc (seen : list nat) p (P : KubeHost → Prop) :
  (∃ q h, q ∈ seen ++ [p] ∧ hp !! q = Some h ∧ P h) ↔ (∃ q h, q ∈ seen ∧ hp !! q = Some h ∧ P h) ∨ ∃ h, hp !! p = Some h ∧ P h.
Proof. setoid_rewrite elem_of_app. setoid_rewrite list_elem_of_singleton. naive_solver. Qed.

Lemma built_again seen b b' p :
  built seen b → (hp !! p = None ∨ p ∈ seen) → bd_hostSet b' = bd_hostSet b → bd_runtime b' = bd_runtime b →
  (∀ q, kh_name <$> bd_heap b' !! q = kh_name <$> hp !! q) → (∀ q, q ∉ seen ++ [p] → bd_heap b' !! q = hp !! q) →
  built (seen ++ [p]) b'.
Proof.
  intros [_ _ HS HD HH HR] Hp ES ER HN HF.
  assert (∀ P, (∃ h, hp !! p = Some h ∧ P h) → ∃ q h, q ∈ seen ∧ hp !! q = Some h ∧ P h) as Hold.
  { intros P (h & Eh & HP). destruct Hp; [congruence|eauto]. }
  split; rewrite ?ES, ?ER; [done..| |].
  - intros n. rewrite HH, (seen_snoc seen p (λ h, kh_name h = n)). split; [by left|]. intros [?|?%Hold]; done.
  - intros r n. rewrite HR, (seen_snoc seen p (λ h, kh_name h = n ∧ r ∈ kh_roles (completed h))). split; [by left|]. intros [?|?%Hold]; done.
Qed.

Lemma add_host_built seen b p : seen ++ [p] ⊆ ptrs → built seen b → built (seen ++ [p]) (add_host b p).
Proof.
  intros Hsub Hb. pose proof Hb as [HN HF HS HD HH HR]. pose proof (HN p) as Hp. unfold add_host.
  destruct (bd_heap b !! p) as [h0|] eqn:Eb; simpl in Hp.
  2: { eapply built_again; [done|left; by destruct (hp !! p)|done..|]. intros q Hq. apply HF. set_solver. }
  fold (completed h0). rewrite completed_name. symmetry in Hp. apply fmap_Some in Hp as (h & Eh & Hname).
  assert (∀ q, kh_name <$> <[p:=completed h0]> (bd_heap b) !! q = kh_name <$> hp !! q) as HN'.
  { intros q. rewrite <- HN, list_lookup_insert. case_decide as Hq; [|done]. destruct Hq as [<- _]. rewrite Eb. simpl. by rewrite completed_name. }
  assert (∀ q, q ∉ seen ++ [p] → <[p:=completed h0]> (bd_heap b) !! q = hp !! q) as HF'.
  { intros q Hq. rewrite not_elem_of_app, list_elem_of_singleton in Hq. destruct Hq. rewrite list_lookup_insert_ne by done. by apply HF. }
  case_bool_decide as Hset.
  { apply (built_again seen b); [done| |done..]. right. apply HS, HH in Hset as (q & k & Hq & Ek & Hk).
    assert (p = q) as ->; [|done]. eapply Hinj; [| |exact Eh|exact Ek|congruence]; apply Hsub; rewrite elem_of_app, list_elem_of_singleton; auto. }
  assert (p ∉ seen) as Hnew by (intros Hseen; apply Hset, HS, HH; eauto).
  assert (h = h0) as -> by (specialize (HF p Hnew); congruence).
  pose proof (λ rt, proj2 (AppendRoleMap_spec (completed h0) rt "" "")) as EA.
  split; cbn [bd_heap bd_hostSet bd_runtime]; rewrite ?EA; cbn [AppendHost r_allHosts]; rewrite ?completed_name; [done|done|..].
  - intros n. rewrite elem_of_union, elem_of_app, elem_of_singleton, list_elem_of_singleton, HS. tauto.
  - apply NoDup_app. split_and!; [done| |apply NoDup_singleton]. intros n Hn%HS ->%list_elem_of_singleton. done.
  - intros n. rewrite elem_of_app, list_elem_of_singleton, HH, (seen_snoc seen p (λ h, kh_name h = n)). naive_solver.
  - intros r n. rewrite (proj1 (AppendRoleMap_spec _ _ r n)), completed_name.
    change (has_role (AppendHost (completed h0) (bd_runtime b)) r n) with (has_role (bd_runtime b) r n).
    rewrite HR, (seen_snoc seen p (λ h, kh_name h = n ∧ r ∈ kh_roles (completed h))). naive_solver.
Qed.

Lemma fold_built seen rest b : seen ++ rest ⊆ ptrs → built seen b → built (seen ++ rest) (fold_left add_host rest b).
Proof.
  revert seen b. induction rest as [|p rest IH]; intros seen b Hsub Hb; simpl; [by rewrite app_nil_r|].
  rewrite (cons_middle p seen rest), (assoc_L (++)) in *. apply IH; [done|]. apply add_host_built; [set_solver|done].
Qed.

End Fold.

(** *** From the configuration to the runtime *)

(** The hosts as the configuration gives them: no roles, and the map leads to
    the last of each name. *)
Lemma make_hosts_spec cfgs hp hm hp' hm' :
  make_hosts cfgs (hp, hm) = Ok (hp', hm') → Forall (λ h, kh_roles h = [] ∧ kh_roleTable h = ∅) hp → named hm hp →
  Forall (λ h, kh_roles h = [] ∧ kh_roleTable h = ∅) hp' ∧ named hm' hp'.
Proof.
  revert hp hm. induction cfgs as [|cfg cfgs IH]; intros hp hm; simpl; [by intros [= <- <-]|].
  unfold toHosts. destruct (hc_timeout cfg); [|done]. simpl. intros H HF HN.
  apply IH in H; [done|apply Forall_app; split; [done|by repeat constructor]|].
  intros n ptr. destruct (decide (n = hc_name cfg)) as [->|].
  - rewrite lookup_insert_eq. intros [= <-]. rewrite list_lookup_middle by done. eauto.
  - rewrite lookup_insert_ne by done. intros (h & Hh & <-)%HN. exists h. split; [|done]. by apply lookup_app_l_Some.
Qed.

(** Who has a role once the masters are added. *)
Definition assigned (hm : gmap string nat) (cfg : ClusterSpec) (r n : string) : Prop :=
  listed hm (cs_roleGroups cfg) r n ∨ (r = Master ∧ listed hm (cs_roleGroups cfg) ControlPlane n).

Lemma GroupHosts_gained cfg st :
  GroupHosts cfg = Some (Ok st) →
  ∃ hp hm, make_hosts (cs_hosts cfg) ([], ∅) = Ok (hp, hm) ∧ grouped hm st ∧
    ∀ r ptr, ptr ∈ at_role st.2 r ↔ ∃ n, assigned hm cfg r n ∧ hm !! n = Some ptr.
Proof.
  unfold GroupHosts. destruct (make_hosts _ _) as [[hp hm]| |] eqn:EM; [|done..].
  destruct (ParseRolesList _ _ _) as [[st1| |]|] eqn:EP; [|done..]. cbn [rbind mbind option_bind]. do 2 (case_bool_decide; [done|]). intros [= <-].
  destruct (make_hosts_spec _ _ _ _ _ EM) as [HF HN]; [constructor|done|].
  assert (grouped hm (hp, ∅)) as Hg.
  { split; [done|set_solver| |]; simpl; intros r p h Hh; rewrite Forall_lookup in HF; destruct (HF p h Hh) as [E1 E2]; rewrite E1, ?E2; set_solver. }
  apply ParseRolesList_gained in EP as (Hg1 & Hk & HP); [|done]. destruct (add_masters_gained hm st1 Hg1) as (Hg2 & _ & HM).
  exists hp, hm. split_and!; [done|done|]. intros r ptr. rewrite HM. unfold assigned. setoid_rewrite HP. simpl.
  split.
  - intros [[?|(n & ? & ?)]|(n & [-> (q & Hq & [?|(m & Hm & Em)])] & ?)]; [set_solver|eauto|set_solver|].
    destruct (g_named _ _ Hg n q Hq) as (h & Eh & <-), (g_named _ _ Hg m q Em) as (h' & Eh' & <-). simplify_eq. eauto 6.
  - intros (n & [?|[-> Hl]] & En); [left; right; eauto|]. right. exists n. eauto 8.
Qed.

Section Roles.
Context (hm : gmap string nat) (cfg : ClusterSpec) (st : heap * gmap string (list nat)) (order : list string).
Context (Hg : grouped hm st) (Hst : ∀ r ptr, ptr ∈ at_role st.2 r ↔ ∃ n, assigned hm cfg r n ∧ hm !! n = Some ptr).
Context (Horder : ∀ r, r ∈ Master :: (cs_roleGroups cfg).*1 → r ∈ order).

Lemma assigned_order r n : assigned hm cfg r n → r ∈ order.
Proof.
  intros [(hosts & e & Hin & _)|[-> _]]; apply Horder; [right|left]. by apply (list_elem_of_fmap_2 fst _ (r, hosts)).
Qed.

Lemma assigned_known r n : assigned hm cfg r n → is_Some (hm !! n).
Proof.
  assert (∀ r n, listed hm (cs_roleGroups cfg) r n → is_Some (hm !! n)) as H; [|by intros [?|[_ ?]]; eapply H].
  clear r n. intros r n (hosts & e & _ & _ & ns & En & Hn). revert En. unfold entry_names. case_match.
  - unfold getHostsRange. destruct (find_range e) as [[[p d1] d2]|]; [|done]. generalize (Atoi_value d1) as i, (S (size hm)) as fuel.
    intros i fuel. revert i ns Hn. induction fuel as [|fuel IH]; intros i ns Hn; simpl; (case_match; [|intros [= <-]; set_solver]); [done|].
    unfold hostVerify. destruct (hm !! (p +:+ pretty i)) eqn:E; [|done]. destruct (range_names _ _ _ _ _ _) as [[l| |]|] eqn:El; simpl; [|done..].
    intros [= <-]. apply elem_of_cons in Hn as [->|Hn]; [by rewrite E|]. eapply IH; [exact Hn|exact El].
  - unfold hostVerify. destruct (hm !! e) eqn:E; [|done]. simpl. intros [= <-]. apply list_elem_of_singleton in Hn as ->. by rewrite E.
Qed.

(** The loop meets the hosts that have a role. *)
Lemma met_hosts n (P : KubeHost → Prop) :
  (∃ p h, p ∈ concat (map (at_role st.2) order) ∧ st.1 !! p = Some h ∧ kh_name h = n ∧ P h) ↔
  (∃ r, assigned hm cfg r n) ∧ ∃ p h, hm !! n = Some p ∧ st.1 !! p = Some h ∧ P h.
Proof.
  split.
  - intros (p & h & Hp & Eh & <- & HP). apply list_elem_of_In, in_concat in Hp as (l & (r & <- & _)%in_map_iff & Hp%list_elem_of_In).
    apply Hst in Hp as (n & Ha & En). destruct (g_named _ _ Hg n p En) as (h' & Eh' & Hn). assert (h' = h) as -> by congruence. subst n. split; [by exists r|by exists p, h].
  - intros ([r Ha] & p & h & En & Eh & HP). exists p, h. split_and!; [|done| |done].
    + apply list_elem_of_In, in_concat. exists (at_role st.2 r). split; [apply in_map, list_elem_of_In; by eapply assigned_order|].
      apply list_elem_of_In, Hst. eauto.
    + destruct (g_named _ _ Hg n p En) as (h' & Eh' & <-). by simplify_eq.
Qed.

(** What such a host says of its roles. *)
Lemma roles_of n p h r : hm !! n = Some p → st.1 !! p = Some h → r ∈ kh_roles h ↔ assigned hm cfg r n.
Proof.
  intros En Eh. rewrite (g_roles _ _ Hg r p h Eh), Hst. split; [|eauto]. intros (m & Ha & Em).
  destruct (g_named _ _ Hg n p En) as (h1 & E1 & <-), (g_named _ _ Hg m p Em) as (h2 & E2 & <-). by simplify_eq.
Qed.

Lemma met_back p h : p ∈ concat (map (at_role st.2) order) → st.1 !! p = Some h → hm !! kh_name h = Some p.
Proof.
  intros Hp Eh. apply list_elem_of_In, in_concat in Hp as (l & (r & <- & _)%in_map_iff & Hp%list_elem_of_In).
  apply Hst in Hp as (n & _ & En). destruct (g_named _ _ Hg n p En) as (h' & Eh' & <-). by simplify_eq.
Qed.

Lemma assigned_host r n : assigned hm cfg r n → ∃ p h, hm !! n = Some p ∧ st.1 !! p = Some h.
Proof. intros Ha. destruct (assigned_known _ _ Ha) as [p En]. destruct (g_named _ _ Hg n p En) as (h & Eh & _). eauto. Qed.

(** The loop from an empty runtime. *)
Lemma runtime_of ignoreErr :
  let rt := bd_runtime (fold_left add_host (concat (map (at_role st.2) order))
                          {| bd_heap := st.1; bd_hostSet := ∅; bd_runtime := empty_runtime ignoreErr |}) in
  NoDup (r_allHosts rt) ∧ (∀ n, n ∈ r_allHosts rt ↔ ∃ r, assigned hm cfg r n) ∧
  ∀ r n, has_role rt r n ↔ assigned hm cfg r n ∨ (r = K8s ∧ (assigned hm cfg Master n ∨ assigned hm cfg Worker n)).
Proof.
  intros rt. set (ptrs := concat (map (at_role st.2) order)) in rt.
  assert (built st.1 ptrs (fold_left add_host ptrs {| bd_heap := st.1; bd_hostSet := ∅; bd_runtime := empty_runtime ignoreErr |}))
    as [_ _ _ HD HH HR].
  { apply (fold_built st.1 ptrs) with (seen := []); [|done|].
    - intros p q h k Hp Hq Eh Ek Hn. apply met_back in Eh, Ek; [congruence|done..].
    - split; simpl; [done|done|set_solver|constructor|set_solver|]. unfold has_role. simpl. set_solver. }
  fold rt in HD, HH, HR. split_and!; [done| |].
  - intros n. rewrite HH. pose proof (met_hosts n (λ _, True)) as HM. split.
    + intros (p & h & Hp & Eh & Hn). apply HM. by exists p, h.
    + intros [r Ha]. destruct (assigned_host r n Ha) as (p & h & En & Eh).
      destruct (proj2 HM) as (q & k & ? & ? & ? & _); [split; [by exists r|by exists p, h]|by exists q, k].
  - intros r n. rewrite HR. pose proof (met_hosts n (λ h, r ∈ kh_roles (completed h))) as HM. cbv beta in HM. fold ptrs in HM. rewrite HM. split.
    + intros (_ & p & h & En & Eh & Hr). by rewrite completed_roles, !(g_table _ _ Hg _ p h Eh), !(roles_of n p h _ En Eh) in Hr.
    + intros Hr. assert (∃ r', assigned hm cfg r' n) as [r' Ha] by naive_solver. split; [by exists r'|].
      destruct (assigned_host r' n Ha) as (p & h & En & Eh). exists p, h.
      by rewrite completed_roles, !(g_table _ _ Hg _ p h Eh), !(roles_of n p h _ En Eh).
Qed.

End Roles.


(** ** Switches: [kubernetes_types.go] *)

Definition EnableNodelocaldns (k : Kubernetes) : bool := default true (k_nodelocaldns k).
Definition EnableAutoRenewCerts (k : Kubernetes) : bool := default false (k_autoRenewCerts k).

(** [EnableAudit] reads another switch. *)
Definition EnableAudit (k : Kubernetes) : result bool :=
  match k_auditEnabled k with
  | None => Ok false
  | Some _ => match k_autoRenewCerts k with Some b => Ok b | None => Panic "nil pointer dereference" end
  end.

(** ** Addresses of services: [util/ip.go] on 32-bit integers *)

Module Service.

Import Net.Legacy.

#[local] Open Scope Z_scope.

(** [IPMaskStringToCIDR] indexes four parts. *)
Definition IPMaskStringToCIDR (netmask : string) : result string :=
  match map (λ p, to_byte (Atoi_value p)) (Split netmask Net.dot) with
  | a :: b :: c :: d :: _ => Ok (pretty (N.of_nat (mask_ones [a; b; c; d])))
  | _ => Panic "index out of range"
  end.

Definition IPAddressToCIDR (ipAddress : string) : result string :=
  match Split ipAddress Net.slash with
  | ip :: mask :: _ => let! m := if Contains mask "." then IPMaskStringToCIDR mask else Ok mask in Ok (ip +:+ "/" +:+ m)
  | _ => Ok ipAddress
  end.

(** [networkSize] *)
Definition networkSize (mask : IP) : Z := to_int32 (to_int32 (of_bytes (map byte_not (take 4 mask))) + 1).

(** The loop of [GetAvailableIP]: [max] addresses, [pos] starting again at 1. *)
Fixpoint available (attempts : nat) (ipNum max pos : Z) : list IP :=
  match attempts with
  | O => []
  | S n => intToIP (to_int32 (ipNum + pos)) :: available n ipNum max (pos mod max + 1)
  end.

(** [GetAvailableIP] on a parsed network: nil when the text is no network. *)
Definition GetAvailableIP (ipnet : option (IP * IP)) : result (list IP) :=
  match ipnet with
  | None => Panic "nil pointer dereference"
  | Some (ip, mask) =>
      match To4 ip with
      | None => Panic "index out of range"
      | Some netIP =>
          let max := to_int32 (networkSize mask - 2) in
          Ok (available (Z.to_nat max) (ipToInt (apply_mask netIP mask)) max 1)
      end
  end.

(** [strings.Replace(ip, "/32", "", -1)] *)
Fixpoint remove_32 (s : string) : string :=
  match s with
  | String "/" (String "3" (String "2" s')) => remove_32 s'
  | String a s' => String a (remove_32 s')
  | EmptyString => EmptyString
  end.

Section Text.
Context (net_ParseIP : string → option IP) (net_ParseCIDR : string → option (IP * IP)) (IP_String : IP → string).

(** [GetAvailableIPRange] with fuel; [None]: the counter wraps and the loop has
    no end. *)
Definition range_text (fuel : nat) (ipStart ipEnd : string) : option (list string) :=
  match net_ParseIP ipStart ≫= To4, net_ParseIP ipEnd ≫= To4 with
  | Some a, Some b => map IP_String <$> GetAvailableIPRange fuel a b
  | _, _ => Some []
  end.

Definition ParseIp (fuel : nat) (ip : string) : option (result (list string)) :=
  let ip := TrimRight ip Net.slash in
  if Contains ip "/" then
    if Contains ip "/32" then Some (Ok [remove_32 ip])
    else Some (let! cidr := IPAddressToCIDR (TrimSpace ip) in rmap (map IP_String) (GetAvailableIP (net_ParseCIDR cidr)))
  else if Contains ip "-" then
    let '(first, last) := SplitN2 ip Net.dash in l ← range_text fuel first last; Some (Ok l)
  else Some (Ok [ip]).

(** [s[i]] of what is parsed from the first of the service networks. *)
Definition service_address (fuel i : nat) (cfg : ClusterSpec) : option (result string) :=
  r ← ParseIp fuel (first_part (cs_kubeServiceCIDR cfg) comma);
  Some (let! l := r in match l !! i with Some a => Ok a | None => Panic "index out of range" end).

Definition ClusterIP (fuel : nat) (cfg : ClusterSpec) : option (result string) := service_address fuel 0 cfg.
Definition CorednsClusterIP (fuel : nat) (cfg : ClusterSpec) : option (result string) := service_address fuel 2 cfg.

Definition ClusterDNS (fuel : nat) (cfg : ClusterSpec) : option (result string) :=
  if EnableNodelocaldns (cs_kubernetes cfg) then Some (Ok "169.254.25.10") else CorednsClusterIP fuel cfg.

(** [GenerateCertSANs] *)
Definition host_sans (cfg : ClusterSpec) (host : HostCfg) : list string :=
  let endpoint := ep_address (cs_endpoint cfg) in
  let nodeAddresses := Split (hc_internalAddress host) comma in
  let v4 := default "" (head nodeAddresses) in
  ([hc_name host; hc_name host +:+ "." +:+ k_dnsDomain (cs_kubernetes cfg)]
   ++ (if bool_decide (hc_address host = endpoint) then [] else [hc_address host])
   ++ (if bool_decide (v4 ≠ hc_address host ∧ v4 ≠ endpoint) then [v4] else [])
   ++ match nodeAddresses with [_; v6] => [v6] | _ => [] end)%list.

Definition GenerateCertSANs (fuel : nat) (cfg : ClusterSpec) : option (result (list string)) :=
  let k := cs_kubernetes cfg in
  r ← ClusterIP fuel cfg;
  Some (let! ip := r in
        Ok (["kubernetes"; "kubernetes.default"; "kubernetes.default.svc"; "kubernetes.default.svc." +:+ k_dnsDomain k; "localhost"; "127.0.0.1"]
            ++ [ep_domain (cs_endpoint cfg)]
            ++ (if bool_decide (ep_address (cs_endpoint cfg) = "") then [] else [ep_address (cs_endpoint cfg)])
            ++ concat (map (host_sans cfg) (cs_hosts cfg)) ++ [ip] ++ k_apiserverCertExtraSans k)%list).

End Text.

(** *** The first addresses of a network *)

Lemma available_lookup n ipNum max pos i :
  0 < max → 1 ≤ pos → Z.of_nat n + pos - 1 ≤ max → (i < n)%nat →
  available n ipNum max pos !! i = Some (intToIP (to_int32 (ipNum + pos + Z.of_nat i))).
Proof.
  revert pos i. induction n as [|n IH]; intros pos i Hmax Hpos Hn Hi; [lia|]. destruct i as [|i]; simpl; [do 2 f_equal; f_equal; lia|].
  rewrite IH; [do 3 f_equal|done| | |lia].
  - rewrite Z.mod_small by lia. lia.
  - pose proof (Z.mod_pos_bound pos max). lia.
  - rewrite Z.mod_small by lia. lia.
Qed.

Lemma available_length n ipNum max pos : length (available n ipNum max pos) = n.
Proof. revert pos. induction n as [|n IH]; intros pos; simpl; [done|]. by rewrite IH. Qed.

(** The mask of a prefix, and the number of addresses it leaves. *)
Definition prefix_mask (n : nat) : IP := intToIP (2 ^ 32 - 2 ^ (32 - Z.of_nat n)).

Lemma networkSize_prefix n : (2 ≤ n ≤ 32)%nat → networkSize (prefix_mask n) = 2 ^ (32 - Z.of_nat n).
Proof.
  intros H. assert (forallb (λ n, bool_decide (networkSize (prefix_mask n) = 2 ^ (32 - Z.of_nat n))) (seq 2 31) = true) as E by (vm_compute; reflexivity).
  rewrite forallb_forall in E. specialize (E n). rewrite bool_decide_eq_true in E. apply E. apply in_seq. lia.
Qed.

Lemma to_int32_small z : - 2 ^ 31 ≤ z < 2 ^ 31 → to_int32 z = z.
Proof. intros H. unfold to_int32. rewrite Z.mod_small by lia. lia. Qed.

Lemma GetAvailableIP_prefix ip n :
  To4 ip = Some ip → (2 ≤ n ≤ 31)%nat →
  GetAvailableIP (Some (ip, prefix_mask n))
    = Ok (available (Z.to_nat (2 ^ (32 - Z.of_nat n) - 2)) (ipToInt (apply_mask ip (prefix_mask n))) (2 ^ (32 - Z.of_nat n) - 2) 1).
Proof.
  intros H4 Hn. unfold GetAvailableIP. rewrite H4, networkSize_prefix by lia.
  assert (2 ^ 1 ≤ 2 ^ (32 - Z.of_nat n) ≤ 2 ^ 30) by (split; apply Z.pow_le_mono_r; lia).
  by rewrite to_int32_small by lia.
Qed.

(** The address at place [i], as far as the network has one. *)
Lemma prefix_lookup ip n i k :
  (2 ≤ n ≤ 31)%nat → (0 < k ≤ 30)%nat → (Z.of_nat i < 2 ^ Z.of_nat k - 2) → (2 ^ Z.of_nat (k - 1) - 2 ≤ Z.of_nat i) →
  available (Z.to_nat (2 ^ (32 - Z.of_nat n) - 2)) (ipToInt ip) (2 ^ (32 - Z.of_nat n) - 2) 1 !! i
    = if bool_decide (n ≤ 32 - k)%nat then Some (intToIP (to_int32 (ipToInt ip + 1 + Z.of_nat i))) else None.
Proof.
  intros Hn Hk Hi Hk1. case_bool_decide.
  - assert (2 ^ Z.of_nat k ≤ 2 ^ (32 - Z.of_nat n)) by (apply Z.pow_le_mono_r; lia). apply available_lookup; lia.
  - apply lookup_ge_None_2. rewrite available_length. assert (2 ^ (32 - Z.of_nat n) ≤ 2 ^ Z.of_nat (k - 1)) by (apply Z.pow_le_mono_r; lia). lia.
Qed.


End Service.

(** ** At concrete configurations *)

Definition sample_host (name address : string) : HostCfg :=
  {| hc_name := name; hc_address := address; hc_internalAddress := ""; hc_port := 0; hc_user := ""; hc_password := "";
     hc_privateKey := ""; hc_privateKeyPath := ""; hc_arch := ""; hc_timeout := None; hc_labels := ∅ |}.

Definition sample_cluster (roleGroups : list (string * list string)) (serviceCIDR : string) : ClusterSpec :=
  {| cs_hosts := [sample_host "node1" "10.0.0.1"; sample_host "node2" "10.0.0.2"; sample_host "node3" "10.0.0.3"];
     cs_roleGroups := roleGroups;
     cs_endpoint := {| ep_internalLoadbalancer := ""; ep_domain := ""; ep_externalDNS := None; ep_address := ""; ep_port := 0; ep_kubeVipMode := "" |};
     cs_etcdType := "";
     cs_kubernetes := {| k_type := ""; k_version := "v1.30.0-k3s"; k_dnsDomain := ""; k_nodelocaldns := None;
                         k_autoRenewCerts := None; k_auditEnabled := None; k_apiserverCertExtraSans := [] |};
     cs_kubeServiceCIDR := serviceCIDR |}.

Definition sample_groups : list (string * list string) := [(Etcd, ["node[1:3]"]); (ControlPlane, ["node1"]); (Worker, ["node[2:03]"])].



(** A host listed as master and as control plane is twice a master: a task of
    the masters runs on it two times. *)
Lemma masters_listed_twice :
  match NewKubeRuntime "/root" false [Etcd; Master; ControlPlane]
          (sample_cluster [(Etcd, ["node1"]); (Master, ["node1"]); (ControlPlane, ["node1"])] "") with
  | Some (Ok (_, rt)) => r_allHosts rt = ["node1"] ∧ r_roleArray rt !! Master = Some ["node1"; "node1"] ∧ r_roleLen rt !! Master = Some 2
  | _ => False
  end.
Proof. vm_compute. done. Qed.

