(* ===== verification/Managers.v ===== *)
(** * The controller manager: [src/feature/pkg/manager/controller_manager.go] and
      [src/feature/cmd/controller-manager/app/options]

    Controllers register themselves when the program starts; the manager sets up
    those that the gates of the command line enable.  What a controller does to be
    set up is a parameter: it may fail. *)

From Stdlib Require Import Ascii String.
From S2P Require Import Prelude GoStrings.
From stdpp Require Import strings list sets.

(** ** The list of controllers *)

Section Options.
Context {Controller : Type} (Name : Controller → string).

(** [Register]; [utilruntime.Must] panics on its error. *)
Definition Register (controllers : list Controller) (reconciler : Controller) : result (list Controller) :=
  if existsb (λ c, bool_decide (Name c = Name reconciler)) controllers
  then Err (Msg (Name reconciler +:+ " has register"))
  else Ok (controllers ++ [reconciler]).

Definition Must {A} (r : result A) : result A :=
  match r with Err _ => Panic "has register" | _ => r end.

(** The [init] functions, in their order. *)
Fixpoint init (controllers : list Controller) (reconcilers : list Controller) : result (list Controller) :=
  match reconcilers with
  | [] => Ok controllers
  | r :: rest => let! controllers := Must (Register controllers r) in init controllers rest
  end.

(** ** The manager *)

(** The loop of [IsControllerEnabled]. *)
Fixpoint gate_loop (controllerGates : list string) (name : string) (allowedAll : bool) : bool :=
  match controllerGates with
  | [] => allowedAll
  | controllerGate :: rest =>
      if bool_decide (controllerGate = name) then true
      else if bool_decide (controllerGate = "-" +:+ name) then false
      else gate_loop rest name (allowedAll || bool_decide (controllerGate = "*"))
  end.

Definition IsControllerEnabled (controllerGates : list string) (name : string) : bool := gate_loop controllerGates name false.

(** [SetupWithManager] for the controllers in order, until one fails: those that
    are set up, and the result. *)
Context (SetupWithManager : Controller → option error).

Fixpoint setup (controllerGates : list string) (controllers : list Controller) (done : list Controller) : list Controller * result () :=
  match controllers with
  | [] => (done, Ok ())
  | c :: rest =>
      if negb (IsControllerEnabled controllerGates (Name c)) then setup controllerGates rest done
      else match SetupWithManager c with
           | Some e => (done, Err (Wrap ("failed to register controller " +:+ Name c) e))
           | None => setup controllerGates rest (done ++ [c])
           end
  end.

Definition register (controllerGates : list string) (controllers : list Controller) : list Controller * result () :=
  match controllers with
  | [] => ([], Err (Msg "register controllers is empty"))
  | _ => setup controllerGates controllers []
  end.

(** ** What the gates mean *)

(** The first item that names the controller, with or without a dash. *)
Definition first_item (controllerGates : list string) (name : string) : option string :=
  List.find (λ g, bool_decide (g = name ∨ g = "-" +:+ name)) controllerGates.

Definition documented (controllerGates : list string) (name : string) : bool :=
  match first_item controllerGates name with
  | Some g => bool_decide (g = name)
  | None => bool_decide ("*" ∈ controllerGates)
  end.

Lemma dash_name name : "-" +:+ name ≠ name.
Proof. intros H. apply (f_equal String.length) in H. change (S (String.length name) = String.length name) in H. lia. Qed.

Lemma gate_loop_spec controllerGates name allowedAll :
  gate_loop controllerGates name allowedAll
    = match first_item controllerGates name with
      | Some g => bool_decide (g = name)
      | None => allowedAll || bool_decide ("*" ∈ controllerGates)
      end.
Proof.
  revert allowedAll. induction controllerGates as [|g gates IH]; intros allowedAll; [cbn; by rewrite orb_false_r|].
  unfold first_item. cbn [gate_loop List.find]. fold (first_item gates name).
  destruct (decide (g = name)) as [->|Hn].
  { by rewrite !(bool_decide_eq_true_2 (name = name)), (bool_decide_eq_true_2 (name = name ∨ _)), bool_decide_eq_true_2 by auto. }
  rewrite (bool_decide_eq_false_2 (g = name)) by done. destruct (decide (g = "-" +:+ name)) as [->|Hd].
  { rewrite !bool_decide_eq_true_2 by auto. by rewrite bool_decide_eq_false_2. }
  rewrite !(bool_decide_eq_false_2 (g = "-" +:+ name)), (bool_decide_eq_false_2 (g = name ∨ _)) by naive_solver.
  rewrite IH. destruct (first_item gates name); [done|]. rewrite <- orb_assoc. f_equal.
  apply eq_true_iff_eq. rewrite orb_true_iff, !bool_decide_eq_true, elem_of_cons. naive_solver.
Qed.

Lemma setup_enabled controllerGates controllers done :
  (∀ c, c ∈ controllers → IsControllerEnabled controllerGates (Name c) = true → SetupWithManager c = None) →
  setup controllerGates controllers done = (done ++ List.filter (λ c, documented controllerGates (Name c)) controllers, Ok ()).
Proof.
  revert done. induction controllers as [|c cs IH]; intros done Hok; cbn [setup List.filter]; [by rewrite app_nil_r|].
  replace (documented controllerGates (Name c)) with (IsControllerEnabled controllerGates (Name c)) by apply gate_loop_spec.
  destruct (IsControllerEnabled controllerGates (Name c)) eqn:E; cbn [negb].
  - rewrite (Hok c) by (left || done). rewrite IH by (intros; apply Hok; [by right|done]). by rewrite <- (assoc_L (++)).
  - apply IH. intros c' Hc'. apply Hok. by right.
Qed.

Lemma init_distinct controllers reconcilers cs :
  NoDup (map Name controllers) → init controllers reconcilers = Ok cs → NoDup (map Name cs) ∧ cs = controllers ++ reconcilers.
Proof.
  revert controllers. induction reconcilers as [|r rest IH]; intros controllers Hnd; cbn [init].
  { intros [= <-]. by rewrite app_nil_r. }
  unfold Register. destruct (existsb _ _) eqn:E; cbn [Must rbind]; [done|]. intros H.
  destruct (IH (controllers ++ [r])) as [H1 H2]; [|done|by rewrite <- (assoc_L (++)) in H2].
  rewrite map_app. apply NoDup_app. split_and!; [done| |apply NoDup_singleton].
  intros n Hn ->%list_elem_of_singleton. apply list_elem_of_In, in_map_iff in Hn as (c & Hc & Hin).
  assert (existsb (λ c, bool_decide (Name c = Name r)) controllers = true) as HE; [|by rewrite HE in E].
  apply existsb_exists. exists c. by rewrite bool_decide_eq_true.
Qed.

(** The manager sets up, each once and in the order of their registration,
    exactly the controllers that the documented meaning of the gates enables: the
    first item that names a controller decides, and the star only where none does. *)
Theorem register_enabled reconcilers cs controllerGates :
  init [] reconcilers = Ok cs → cs ≠ [] →
  (∀ c, c ∈ cs → IsControllerEnabled controllerGates (Name c) = true → SetupWithManager c = None) →
  let enabled := List.filter (λ c, documented controllerGates (Name c)) reconcilers in
  register controllerGates cs = (enabled, Ok ()) ∧ NoDup (map Name enabled).
Proof.
  intros Hinit Hne Hok enabled. apply init_distinct in Hinit as [Hnd ->]; [|constructor]. split.
  - unfold register. destruct reconcilers; [done|]. cbn [app] in *. by rewrite setup_enabled.
  - unfold enabled. cbn [app] in Hnd. clear -Hnd. induction reconcilers as [|r rest IH]; cbn [List.filter map]; [constructor|].
    cbn [map] in Hnd. apply NoDup_cons in Hnd as [Hr Hrest]. case_match; [|by apply IH]. cbn [map]. constructor; [|by apply IH].
    intros Hin. apply Hr. apply list_elem_of_In, in_map_iff in Hin as (c & <- & Hc%filter_In). destruct Hc as [Hc _].
    by apply list_elem_of_In, in_map.
Qed.

End Options.

Definition controller_names : list string :=
  ["playbook-reconciler"; "playbook-webhook"; "kkcluster-reconciler"; "kkcluster-webhook"; "inventory-reconciler"; "kkmachine-reconciler"].

Lemma register_enabled_witness :
  (register id (λ _, None) ["-playbook-webhook"; "*"; "playbook-webhook"; "-kkcluster-webhook"] controller_names).1
    = ["playbook-reconciler"; "kkcluster-reconciler"; "inventory-reconciler"; "kkmachine-reconciler"].
Proof.
  destruct (register_enabled id (λ _, None) controller_names controller_names ["-playbook-webhook"; "*"; "playbook-webhook"; "-kkcluster-webhook"]) as [H _];
    [reflexivity|done|done|]. rewrite H. reflexivity.
Defined.
